(* ===== verification/_CoqProject ===== *)
-Q . S2P
Prelude.v
External.v
AvlNode.v
AvlOps.v
AvlProver.v
AvlInv.v
AvlDelete.v
AvlBits.v
AvlModify.v
AvlProverSpec.v
AvlProverThms.v
AvlVerifier.v
AvlSim.v
AvlSound.v
AvlReconstruct.v
AvlVerifierThms.v
Vlq.v
VlqThms.v
Merkle.v
MerkleSpec.v
MerkleBatch.v
MerkleThms.v
MerkleBatchThms.v
SparseMerkle.v
SparseMerkleThms.v
Base16.v
Network.v
Messages.v
MessagesThms.v
MessageSpecs.v
MessageSpecsThms.v
ConnectionHandler.v
ConnectionHandlerThms.v
NetAddress.v
PeerBuckets.v
PeerBucketsThms.v
PeerDatabase.v
PeerManager.v
PeerManagerThms.v
PeerChoice.v
PeerExchange.v
Validation.v
Controller.v
ControllerThms.v
DeliveryTracker.v
DeliveryTrackerSpec.v
DeliveryTrackerThms.v
ModifiersCache.v
NodeViewHolder.v
NodeViewHolderThms.v
NodeViewProps.v
SyncTracker.v
Synchronizer.v
SynchronizerThms.v
SynchronizerProps.v
JsCore.v
Base64Js.v
BufferCodec.v
BufferCodecThms.v
JsBuffer.v
JsBufferNumbers.v
JsBufferThms.v
JsBufferSearch.v
JsBufferCopy.v
JsBufferTypes.v
RepeatString.v
Cookie.v
JsHeap.v
ObjectAssign.v
DeepExtend.v
DeepClone.v
ClassNames.v
SmallModules.v
JsonTree.v
JsonPatch.v
JsonPaths.v
JsonCompare.v
JsonCompareThms.v
DeepEqualThms.v
JsonValidate.v
