(* ===== verification/Prelude.v ===== *)
(** * Sparkz: verification library (root file)

    Sparkz is a framework for blockchain nodes written in Scala: scrypto/ holds
    hashes and authenticated data structures, sparkz-util/ encodings, src/ the
    node itself, built of Akka actors.  Its JavaScript is the Swagger UI page of
    the HTTP interface, src/main/resources/swagger-ui/: minified bundles of many
    packages.  This library models parts of both by shallow embedding and proves
    what makes them correct.

    ** Conventions

    A Scala computation that reads and changes the state of an object and may
    throw is [Eff S A], a function from a state to a state and a [Try]; what was
    changed before a failure stays changed.  Machine integers are [Z], wrapped
    where the code can overflow ([toInt], [wrap]); bytes are Stdlib's [byte].
    Recursion on something else than a structure takes fuel, and running out is
    the exception [NoFuel], which the code never throws: the theorems say how
    much fuel is enough, or, where the code itself does not end, that none is.
    Code that is not in the repository is a parameter with the behaviour it
    documents: the hash function, the URI codec of JavaScript, the application's
    modifiers and readers.  Of the hash only the digest length is supposed
    (External.v).  Digests being shorter than inputs, it has collisions, so
    soundness is not up to some collision but up to one between the inputs
    hashed to make a tree and those hashed to check a proof ([collides],
    [collision_between]); in the witnesses there is none.

    ** Authenticated AVL+ trees (scrypto .../authds/avltree/batch/)

    AvlNode: BatchNode.scala, Operation.scala; nodes are objects with identity
    in a store, since the prover marks the visited ones.  AvlOps:
    AuthenticatedTreeOps.scala.  AvlProver: BatchAVLProver.scala.  AvlVerifier:
    BatchAVLVerifier.scala.  AvlInv, AvlDelete, AvlBits, AvlModify, AvlProverSpec
    carry the invariant (ordered keys, linked leaves, balance, labels) through
    every operation; AvlProverThms: the prover implements a sorted dictionary,
    a failed operation changes nothing, checkTree accepts every reachable
    tree, a batch is its operations in order.  AvlSim, AvlSound, AvlReconstruct
    run the verifier in lockstep with the prover; AvlVerifierThms: a verifier
    that accepts a proof with the digest of a tree returns what the prover
    returns, or an input hashed in its tree collides with one hashed in the
    prover's; unpacking a proof ends.  Fuel of the tree walks is the height of the
    tree, which the invariant bounds.  The counters of direction bits, Ints in the
    code, do not wrap here: exact for proofs of fewer than 2^31 bits.

    ** Merkle trees (scrypto .../authds/merkle/)

    Merkle: the trees, proofs by element and by index, batch proofs and
    their serializer.  MerkleSpec, MerkleBatch are the layers of a tree;
    MerkleThms, MerkleBatchThms: a proof made is valid, and a valid proof is of a
    member, unless an input hashed to check it collides with one hashed to make
    the tree; batch proofs of distinct elements are
    complete, and the forgery their check admits; the round trip of the
    serializer and where it fails.  SparseMerkle: the sparse trees (sparse/), of
    which an object holds the root digest and a proof for its last index.
    SparseMerkleThms: they are the digest of a map of leaves ([sub]); an update
    with the honest proof of a leaf refines the update of the map, for the tree,
    its last proof and every proof handed in; membership proofs bind the leaf;
    absence, and membership at an index with other bytes, can be forged.  The
    only recursions are over the bits of an index, at most 127.  The number of
    leaves is rounded up to a power of two exactly, where the code takes the
    ratio of two logarithms in floating point: the same below 2^29 leaves.

    ** Binary formats and messages

    Vlq, VlqThms: the variable-length writer and reader of sparkz-util.
    Base16: hexadecimal, identifiers, and Base58 with its round trip.  Network: peers, versions, penalties.  Messages, MessagesThms: the frame
    of a message (MessageSerializer.scala); what is accepted is what is
    serialized.  MessageSpecs, MessageSpecsThms: the contents
    (BasicMessagesRepo.scala, PeerSpec.scala, the peer features).

    ** Network actors (src/.../core/network/)

    ConnectionHandler(Thms): PeerConnectionHandler.scala as a step function on
    the events of a connection; reassembly of the stream however it is cut, and
    no outgoing message lost while the connection lives.  DeliveryTracker(Spec,
    Thms): every operation of DeliveryTracker.scala, and the machine of statuses
    they refine, the one coded always and the one of its comments as long as no
    invalid modifier is held.  SyncTracker: SyncTracker.scala.  Synchronizer(Thms,
    Props): NodeViewSynchronizer.scala with Synchronizer.scala, all handlers, the
    trackers driven by them, and what is sent in order; the runs of its
    theorems are those of the actor from its start, by messages and alarms.

    The known peers (network/peer/): NetAddress is NetworkAddressWrapper.scala and
    NetworkUtils.scala; PeerBuckets the two storages (PeerBucketStorage.scala) and
    BucketManager.scala over them, PeerDatabase InMemoryPeerDatabase.scala,
    PeerManager every message of the actor.  PeerBucketsThms: a storage is
    a map of peers by address as long as no two addresses share a slot and none
    has the slot read as not found, and what happens otherwise, and the same for the moves between new and
    tried peers; PeerDatabase what holds of both storages whichever
    slots are shared.  PeerManagerThms: runs of the actor, bans, and how
    penalties add up; PeerChoice: the peer given to be connected to, and peers
    that others tell of; PeerExchange: RequestTracker.scala, PeerSynchronizer.scala
    and the three actors together, where the callback of an answer's future, which
    the code runs off the actor's thread, is one event.  Clock readings, random
    numbers and the order of a map's values are arguments of a handler.

    Controller: NetworkController.scala, every message and timer of the actor,
    with SendingStrategy.scala and LRUSimpleCache.scala.  ControllerThms: its runs,
    where a peer manager confirms no address whose peer has shaken hands and a
    connection handler tells of one handshake, neither of which the actor checks,
    with examples of what is lost otherwise; each step is one of six changes
    of the connections, over which the theorems go by induction: subscribers
    know exactly the connections that completed the handshake, accepted peers
    keep to the limits, a broadcast reaches each of them once, and a refused
    address is not tried again.

    ** The node view (src/.../core/)

    ModifiersCache: ModifiersCache.scala.  NodeViewHolder: NodeViewHolder.scala,
    every message of the actor, over a class NodeViewParts of what it calls of
    the application's history, state, vault and pool; methods without a Try do not
    throw, and an instance is an immutable value, whose methods give a new one:
    components that change in place, as those of the examples and the testkit,
    are not covered.  NodeViewHolderThms: runs of the state update as a relation,
    and the machine of view steps that all handlers refine.  The fuel is the rounds
    of updateState, each of which tells history of an invalid modifier; handlers
    end for a history that answers with nothing to apply or with ever less to
    report, which nothing in the code asks of it.  NodeViewProps: blocks that apply, the
    report of a retargeted update, the account of modifiers from others.

    Validation: the combinators of core/validation/, as computations that may
    throw and count the objects they make, since errors are compared by identity.
    A chain of rules reports the errors of all broken ones in order, or of the first;
    what was reported is reported again by sequences and by validateTryFlatten.

    ** JavaScript (src/main/resources/swagger-ui/)

    A module of the bundle is modelled whole or not at all, from its minified
    text; a line of the bundle holds the code between two licence comments, so
    a definition's lines are the line that holds its module, and the module's
    own comment when that is the module's.  JsCore: strings as UTF-16 code
    units, and the bitwise operators.  JsHeap: objects in a shared store, with prototypes, property order
    and attributes.  RepeatString, Cookie, ObjectAssign, DeepExtend,
    DeepClone, ClassNames: the modules repeat-string, cookie, object-assign,
    deep-extend and classnames.  JsonTree: JSON documents as trees, for the
    module deep-equal (there and DeepEqualThms) and fast-json-patch (JsonPatch): JsonPaths, JsonCompare, JsonCompareThms show that a
    patch made by comparison leads from the one document to the other and that
    the patches of an observer, as they are when returned, follow the observed
    document (the code's patches share values with the observer's clone and
    change with it later, which trees do not show); JsonValidate is what
    validation adds.

    The module buffer, of which each bundle has a copy, and the base64-js it
    uses: Base64Js, BufferCodec(Thms) the
    encodings with their round trips; JsBuffer is the memory: array buffers in
    a store, buffers as views of them, and the operations that make, slice,
    copy, write, fill and join them; JsBufferNumbers comparison, search and the
    readers and writers of integers.  JsBufferThms, JsBufferSearch and
    JsBufferCopy show what each does to the bytes; JsBufferTypes is a typing
    judgement for all of them, from which every program's buffers stay
    well formed.  The fuel of the search is a bound of its steps.  Numbers are
    integers, exact below 2^53.  SmallModules: react-is and isEventSupported.

    ** Not modelled

    Of the AVL prover, generateProofForOperations: it makes a second prover over
    the nodes of the first, and its serializer cuts the tree into proxies that
    share nodes with it.  Akka's delivery of messages, timers' real time and log
    output; the schedulers are maps of pending timers.  Addresses without a host
    name only, and resolved.  Of validation, the shorthands that read values of
    other libraries.  VLQ over ByteString is the same encoding again; the legacy
    treaps are replaced by the batch trees; traits without bodies have nothing to
    model; files, HTTP routes, configuration and the calls of hash and curve libraries
    are input and output.  Of the bundles: React, Immutable.js, lodash, redux and
    the page itself; of the module buffer, floating point numbers (the module
    ieee754 works on the digits of a double), the search in utf16le, which
    counts code units, inspect, noAssert, and building without typed arrays. *)

From Stdlib Require Export ZArith Lia Bool.
From Stdlib Require Export Strings.Byte.
From stdpp Require Export base tactics list list_numbers gmap strings fin_maps sets.

#[global] Set Default Goal Selector "!".
Declare Scope sparkz_scope.
Delimit Scope sparkz_scope with sparkz.

(** ** Exceptions and [scala.util.Try] *)

(** The exception classes the modelled code throws, by the class of the
    thrown value; messages are kept only where the code distinguishes them. *)
Inductive exn :=
| IllegalArgument           (* require(...), IllegalArgumentException *)
| AssertionError            (* assert(...), ensuring *)
| ClassCast                 (* asInstanceOf *)
| MatchFailure              (* scala.MatchError *)
| NoSuchElement             (* None.get, Map.apply, empty head *)
| IndexOutOfBounds          (* array and Seq.apply *)
| ArithmeticExn             (* Math.addExact and toXxxExact *)
| NotImplemented            (* ??? *)
| NoFuel                    (* never thrown by the code: a bounded loop ran out *)
| Raised (what : string).   (* throw new Exception / Error *)

#[export] Instance exn_eq_dec : EqDecision exn.
Proof. solve_decision. Defined.

Inductive Try (A : Type) :=
| Success (a : A)
| Failure (e : exn).
Arguments Success {A} a.
Arguments Failure {A} e.

#[export] Instance try_eq_dec {A} `{EqDecision A} : EqDecision (Try A).
Proof. solve_decision. Defined.

Definition isSuccess {A} (t : Try A) : bool :=
  match t with Success _ => true | Failure _ => false end.

Definition try_map {A B} (f : A -> B) (t : Try A) : Try B :=
  match t with Success a => Success (f a) | Failure e => Failure e end.

Definition try_bind {A B} (t : Try A) (f : A -> Try B) : Try B :=
  match t with Success a => f a | Failure e => Failure e end.

Definition to_option {A} (t : Try A) : option A :=
  match t with Success a => Some a | Failure _ => None end.

(** [require(b)] and [assert(b)] as values. *)
Definition require (b : bool) : Try unit := if b then Success tt else Failure IllegalArgument.

Definition of_option {A} (e : exn) (o : option A) : Try A :=
  match o with Some a => Success a | None => Failure e end.

Notation "'let?' x ':=' t 'in' k" := (try_bind t (fun x => k))
  (at level 10, x pattern, t at level 100, k at level 200) : sparkz_scope.
Open Scope sparkz_scope.

(** ** The effect monad: mutable state that survives an exception

    [Eff S A] is a computation over the mutable state [S] that returns or
    throws.  As on the JVM, the writes made before a [throw] stay made. *)
Definition Eff (S A : Type) : Type := S -> S * Try A.

Section Eff.
Context {S : Type}.

Definition ret {A} (a : A) : Eff S A := fun s => (s, Success a).
Definition throw {A} (e : exn) : Eff S A := fun s => (s, Failure e).
Definition bind {A B} (m : Eff S A) (f : A -> Eff S B) : Eff S B :=
  fun s => match m s with
           | (s', Success a) => f a s'
           | (s', Failure e) => (s', Failure e)
           end.
Definition gets {A} (f : S -> A) : Eff S A := fun s => (s, Success (f s)).
Definition modify (f : S -> S) : Eff S unit := fun s => (f s, Success tt).
Definition lift_try {A} (t : Try A) : Eff S A := fun s => (s, t).
Definition guard (e : exn) (b : bool) : Eff S unit := if b then ret tt else throw e.

(** [wp m s Q]: running [m] from [s] ends in an outcome satisfying [Q]. *)
Definition wp {A} (m : Eff S A) (s : S) (Q : Try A -> S -> Prop) : Prop :=
  Q (snd (m s)) (fst (m s)).

Lemma wp_ret {A} (a : A) s Q : Q (Success a) s -> wp (ret a) s Q.
Proof. done. Qed.
Lemma wp_throw {A} e s (Q : Try A -> S -> Prop) : Q (Failure e) s -> wp (throw e) s Q.
Proof. done. Qed.
Lemma wp_gets {A} (f : S -> A) s Q : Q (Success (f s)) s -> wp (gets f) s Q.
Proof. done. Qed.
Lemma wp_modify f s Q : Q (Success tt) (f s) -> wp (modify f) s Q.
Proof. done. Qed.
Lemma wp_lift {A} (t : Try A) s Q : Q t s -> wp (lift_try t) s Q.
Proof. done. Qed.

Lemma wp_bind {A B} (m : Eff S A) (f : A -> Eff S B) s Q :
  wp m s (fun r s' => match r with
                      | Success a => wp (f a) s' Q
                      | Failure e => Q (Failure e) s'
                      end) ->
  wp (bind m f) s Q.
Proof.
  unfold wp, bind. destruct (m s) as [s' [a|e]]; simpl; done.
Qed.

Lemma wp_mono {A} (m : Eff S A) s (P Q : Try A -> S -> Prop) :
  wp m s P -> (forall r s', P r s' -> Q r s') -> wp m s Q.
Proof. unfold wp; auto. Qed.

Lemma wp_run {A} (m : Eff S A) s Q s' r : m s = (s', r) -> wp m s Q -> Q r s'.
Proof. unfold wp. intros ->. done. Qed.

(** Inversion of a successful sequence. *)
Lemma bind_success {A B} (m : Eff S A) (f : A -> Eff S B) s s' b :
  bind m f s = (s', Success b) ->
  exists s1 a, m s = (s1, Success a) /\ f a s1 = (s', Success b).
Proof.
  unfold bind. destruct (m s) as [s1 [a|e]]; [|congruence]. eauto.
Qed.

Lemma bind_run {A B} (m : Eff S A) (f : A -> Eff S B) s s1 a :
  m s = (s1, Success a) -> bind m f s = f a s1.
Proof. unfold bind. by intros ->. Qed.
End Eff.

Notation "'let!' x ':=' m 'in' k" := (bind m (fun x => k))
  (at level 10, x pattern, m at level 100, k at level 200) : sparkz_scope.
Notation "m ';!' k" := (bind m (fun _ => k))
  (at level 199, right associativity) : sparkz_scope.

(** Invert every successful [bind] among the hypotheses. *)
Ltac eff_inv :=
  repeat match goal with
  | H : bind _ _ _ = (_, Success _) |- _ =>
      let s := fresh "s" in let a := fresh "a" in let E := fresh "E" in
      apply bind_success in H; destruct H as (s & a & E & H)
  | H : ret _ _ = (_, _) |- _ => unfold ret in H; simplify_eq
  | H : throw _ _ = (_, Success _) |- _ => discriminate H
  | H : lift_try _ _ = (_, _) |- _ => unfold lift_try in H; simplify_eq
  | H : gets _ _ = (_, _) |- _ => unfold gets in H; simplify_eq
  | H : modify _ _ = (_, _) |- _ => unfold modify in H; simplify_eq
  end.

(** ** Bytes and machine integers *)

Abbreviation bytes := (list byte).

#[export] Instance byte_eq_dec : EqDecision byte := Byte.byte_eq_dec.
#[export] Program Instance byte_countable : Countable byte :=
  inj_countable Byte.to_N Byte.of_N _.
Next Obligation. intros b. apply Byte.of_to_N. Qed.

(** [w]-bit two's complement: what a JVM cast to a [w]-bit type keeps. *)
Definition wrap (w : Z) (z : Z) : Z := (z + 2 ^ (w - 1)) mod 2 ^ w - 2 ^ (w - 1).
Definition toByte (z : Z) : Z := wrap 8 z.
Definition toInt (z : Z) : Z := wrap 32 z.
Definition toLong (z : Z) : Z := wrap 64 z.

Definition MaxInt : Z := 2 ^ 31 - 1.
Definition MinInt : Z := - 2 ^ 31.
Definition isInt (z : Z) : bool := (MinInt <=? z)%Z && (z <=? MaxInt)%Z.
Definition isLong (z : Z) : bool := (- 2 ^ 63 <=? z)%Z && (z <=? 2 ^ 63 - 1)%Z.

(** The unsigned and signed value of a byte, and the byte of an integer. *)
Definition ub (b : byte) : Z := Z.of_N (Byte.to_N b).
Definition b2z (b : byte) : Z := toByte (ub b).
Definition z2b (z : Z) : byte :=
  match Byte.of_N (Z.to_N (z mod 256)) with Some b => b | None => "000"%byte end.

Lemma ub_range b : (0 <= ub b < 256)%Z.
Proof. unfold ub. pose proof (Byte.to_N_bounded b). lia. Qed.

Lemma z2b_ub b : z2b (ub b) = b.
Proof.
  unfold z2b. rewrite Z.mod_small by apply ub_range.
  unfold ub. by rewrite N2Z.id, Byte.of_to_N.
Qed.

Lemma ub_z2b z : ub (z2b z) = (z mod 256)%Z.
Proof.
  unfold z2b. pose proof (Z.mod_pos_bound z 256 ltac:(lia)).
  destruct (Byte.of_N _) as [b|] eqn:E.
  - apply Byte.to_of_N in E. unfold ub. rewrite E. lia.
  - apply Byte.of_N_None_iff in E. lia.
Qed.

Lemma ub_inj x y : ub x = ub y -> x = y.
Proof. intros H. by rewrite <- (z2b_ub x), H, z2b_ub. Qed.

Lemma z2b_mod z : z2b (z mod 256) = z2b z.
Proof. apply ub_inj. rewrite !ub_z2b. apply Z.mod_mod. lia. Qed.

(** The 256 bytes *)
Definition all_bytes : list byte := z2b <$> seqZ 0 256.

Lemma all_bytes_complete b : b ∈ all_bytes.
Proof.
  apply list_elem_of_fmap. exists (ub b). rewrite z2b_ub. split; [done|].
  apply elem_of_seqZ. apply ub_range.
Qed.

(** A boolean fact on bytes holds when it holds on the 256 of them. *)
Lemma byte_forall (P : byte -> bool) : forallb P all_bytes = true -> forall b, P b = true.
Proof.
  intros H b. rewrite forallb_forall in H. apply H, list_elem_of_In, all_bytes_complete.
Qed.

Lemma z2b_b2z b : z2b (b2z b) = b.
Proof.
  unfold b2z, toByte, wrap. rewrite <- z2b_mod. rewrite <- (z2b_ub b) at 2. f_equal.
  change (2 ^ (8 - 1))%Z with 128%Z. change (2 ^ 8)%Z with 256%Z.
  rewrite Zminus_mod_idemp_l. replace (ub b + 128 - 128)%Z with (ub b) by lia.
  apply Z.mod_small, ub_range.
Qed.

Lemma b2z_z2b z : b2z (z2b z) = toByte z.
Proof.
  unfold b2z, toByte, wrap. rewrite ub_z2b.
  change (2 ^ (8 - 1))%Z with 128%Z. change (2 ^ 8)%Z with 256%Z.
  by rewrite Zplus_mod_idemp_l.
Qed.

Lemma toByte_small z : (-128 <= z <= 127)%Z -> toByte z = z.
Proof.
  intros H. unfold toByte, wrap.
  change (2 ^ (8 - 1))%Z with 128%Z. change (2 ^ 8)%Z with 256%Z.
  rewrite Z.mod_small by lia. lia.
Qed.

Lemma toInt_small z : (MinInt <= z <= MaxInt)%Z -> toInt z = z.
Proof.
  unfold toInt, wrap, MinInt, MaxInt. intros H.
  change (2 ^ (32 - 1))%Z with (2 ^ 31)%Z.
  rewrite Z.mod_small by lia. lia.
Qed.

(** ** Java arrays *)

(** [a(i)] throws outside the array; [a.slice(from, until)] never does. *)
Definition array_get {A} (l : list A) (i : Z) : Try A :=
  if (i <? 0)%Z then Failure IndexOutOfBounds
  else of_option IndexOutOfBounds (l !! Z.to_nat i).

Definition slice {A} (l : list A) (from until : Z) : list A :=
  let lo := Z.max from 0 in
  take (Z.to_nat (until - lo)) (drop (Z.to_nat lo) l).

Definition zlen {A} (l : list A) : Z := Z.of_nat (length l).

Lemma flat_map_Forall {A B} (f g : A -> list B) l : Forall (fun a => f a = g a) l -> flat_map f l = flat_map g l.
Proof. induction 1 as [|a l E _ IH]; [done|]. cbn. by rewrite E, IH. Qed.

Lemma zlen_app {A} (l1 l2 : list A) : zlen (l1 ++ l2) = (zlen l1 + zlen l2)%Z.
Proof. unfold zlen. rewrite length_app. lia. Qed.

Lemma zlen_nonneg {A} (l : list A) : (0 <= zlen l)%Z.
Proof. unfold zlen. lia. Qed.

Create HintDb sparkz.
Create Rewrite HintDb sparkz.
#[export] Hint Resolve ub_range zlen_nonneg : sparkz.
#[export] Hint Rewrite z2b_ub ub_z2b z2b_b2z b2z_z2b : sparkz.
#[export] Hint Rewrite @zlen_app : sparkz.

(** ** Generic list lemmas *)

Lemma filter_all {A} (P : A -> Prop) `{!forall x, Decision (P x)} (l : list A) : Forall P l -> filter P l = l.
Proof. induction 1 as [|x l Hx _ IH]; [done|]. by rewrite filter_cons_True, IH. Qed.

Lemma app_inv_length {A} (a b c d : list A) :
  a ++ b = c ++ d -> length a = length c -> a = c /\ b = d.
Proof. intros H Hl. by apply app_inj_1. Qed.

Lemma app_inv_length_r {A} (a b c d : list A) :
  a ++ b = c ++ d -> length b = length d -> a = c /\ b = d.
Proof. intros H Hl. by apply app_inj_2. Qed.
