(* ===== verification/External.v ===== *)
(** * External: the code the sources call but do not hold

    Guava's byte-array primitives and the hash functions behind
    [CryptographicHash] (scrypto/.../hash/CryptographicHash.scala) are
    parameters of the development: classes whose laws are their documented
    behaviour.  Each class has a concrete instance here, which the witnesses
    use.  [ByteArray] (scrypto/.../utils/ByteArray.scala) and the default
    methods of [CryptographicHash] are translated on top of them.  The bytes of a
    java.math.BigInteger are here too. *)

From S2P Require Import Prelude.

(** ** Guava *)

(** The lexicographic order on unsigned bytes, as -1, 0 or 1. *)
Fixpoint lex (a b : bytes) : Z :=
  match a, b with
  | [], [] => 0%Z
  | [], _ :: _ => (-1)%Z
  | _ :: _, [] => 1%Z
  | x :: a', y :: b' =>
      if (ub x <? ub y)%Z then (-1)%Z else if (ub y <? ub x)%Z then 1%Z else lex a' b'
  end.

Class Guava := {
  lexicographicalComparator : bytes -> bytes -> Z;   (* UnsignedBytes *)
  Ints_toByteArray : Z -> bytes;
  Ints_fromByteArray : bytes -> Try Z;
  Longs_toByteArray : Z -> bytes;
  Longs_fromByteArray : bytes -> Try Z
}.

(** What Guava documents: the comparator compares lexicographically; the
    codecs are big-endian, [fromByteArray] reads a prefix and rejects an
    array that is too short. *)
Class GuavaLaws (G : Guava) : Prop := {
  comparator_lex a b : Z.sgn (lexicographicalComparator a b) = lex a b;
  ints_length z : length (Ints_toByteArray z) = 4;
  ints_from_to z rest : isInt z = true ->
    Ints_fromByteArray (Ints_toByteArray z ++ rest) = Success z;
  ints_short b : length b < 4 -> Ints_fromByteArray b = Failure IllegalArgument;
  ints_total b : 4 <= length b -> exists z, Ints_fromByteArray b = Success z;
  ints_range b z : Ints_fromByteArray b = Success z -> isInt z = true;
  longs_length z : length (Longs_toByteArray z) = 8;
  longs_from_to z rest : isLong z = true ->
    Longs_fromByteArray (Longs_toByteArray z ++ rest) = Success z;
  longs_range b z : Longs_fromByteArray b = Success z -> isLong z = true
}.

(** *** The big-endian instance *)

Fixpoint be_encode (n : nat) (z : Z) : bytes :=
  match n with
  | O => []
  | S n' => z2b (z / 256 ^ Z.of_nat n') :: be_encode n' z
  end.

Fixpoint be_decode (b : bytes) : Z :=
  match b with
  | [] => 0
  | x :: b' => ub x * 256 ^ zlen b' + be_decode b'
  end%Z.

Definition be_read (n : nat) (b : bytes) : Try Z :=
  if Nat.ltb (length b) n then Failure IllegalArgument
  else Success (wrap (8 * Z.of_nat n) (be_decode (take n b))).

#[export] Instance guava_be : Guava := {|
  lexicographicalComparator := lex;
  Ints_toByteArray := be_encode 4;
  Ints_fromByteArray := be_read 4;
  Longs_toByteArray := be_encode 8;
  Longs_fromByteArray := be_read 8
|}.

Lemma be_encode_length n z : length (be_encode n z) = n.
Proof. induction n; simpl; auto. Qed.

Lemma be_decode_encode n z : be_decode (be_encode n z) = (z mod 256 ^ Z.of_nat n)%Z.
Proof.
  induction n as [|n IH]; cbn [be_encode be_decode].
  - by rewrite Z.mod_1_r.
  - rewrite IH, ub_z2b. unfold zlen. rewrite be_encode_length.
    replace (Z.of_nat (S n)) with (Z.of_nat n + 1)%Z by lia.
    rewrite Z.pow_add_r by lia. change (256 ^ 1)%Z with 256%Z.
    rewrite Z.rem_mul_r by lia. lia.
Qed.

Lemma be_encode_mod n z : be_encode n (z mod 256 ^ Z.of_nat n) = be_encode n z.
Proof.
  assert (forall k, (k <= n)%nat -> be_encode k (z mod 256 ^ Z.of_nat n) = be_encode k z) as H; [|by apply H].
  induction k as [|k IH]; intros Hk; [done|]. cbn [be_encode]. rewrite IH by lia. f_equal.
  rewrite <- (z2b_mod (z mod _ / _)), <- (z2b_mod (z / _)). f_equal.
  replace (256 ^ Z.of_nat n)%Z with (256 ^ Z.of_nat k * (256 * 256 ^ Z.of_nat (n - S k)))%Z.
  2:{ replace (Z.of_nat n) with (Z.of_nat k + (1 + Z.of_nat (n - S k)))%Z by lia. by rewrite !Z.pow_add_r by lia. }
  assert (0 < 256 ^ Z.of_nat k)%Z by (apply Z.pow_pos_nonneg; lia).
  assert (0 < 256 ^ Z.of_nat (n - S k))%Z by (apply Z.pow_pos_nonneg; lia).
  rewrite Z.rem_mul_r by lia. rewrite Z.mul_comm, Z.div_add by lia.
  rewrite (Z.div_small (z mod _)) by (apply Z.mod_pos_bound; lia). rewrite Z.add_0_l.
  rewrite Z.rem_mul_r by lia. rewrite (Z.mul_comm 256), Z.mod_add by lia. by rewrite Z.mod_mod.
Qed.

Lemma be_decode_range b : (0 <= be_decode b < 256 ^ zlen b)%Z.
Proof.
  induction b as [|x b IH]; [done|]. cbn [be_decode]. unfold zlen in *. simpl length.
  rewrite Nat2Z.inj_succ, Z.pow_succ_r by lia. pose proof (ub_range x). nia.
Qed.

Lemma be_encode_decode b : be_encode (length b) (be_decode b) = b.
Proof.
  induction b as [|x b IH]; [done|]. cbn [length be_encode be_decode]. pose proof (be_decode_range b) as Hr.
  unfold zlen in *. rewrite Z.div_add_l by lia. rewrite (Z.div_small (be_decode b)) by lia.
  rewrite Z.add_0_r, z2b_ub. f_equal. rewrite <- be_encode_mod.
  rewrite Z.add_comm, Z.mod_add by lia. by rewrite be_encode_mod.
Qed.

Lemma pow_256 n : (256 ^ Z.of_nat n = 2 ^ (8 * Z.of_nat n))%Z.
Proof. change 256%Z with (2 ^ 8)%Z. rewrite <- Z.pow_mul_r by lia. done. Qed.

Lemma wrap_mod w z : (0 < w)%Z -> (- 2 ^ (w - 1) <= z < 2 ^ (w - 1))%Z ->
  wrap w (z mod 2 ^ w) = z.
Proof.
  intros Hw Hz. unfold wrap. rewrite Zplus_mod_idemp_l.
  assert (2 ^ w = 2 * 2 ^ (w - 1))%Z as E.
  { replace w with (1 + (w - 1))%Z at 1 by lia. by rewrite Z.pow_add_r by lia. }
  rewrite Z.mod_small by lia. lia.
Qed.

Lemma wrap_range w z : (0 < w)%Z -> (- 2 ^ (w - 1) <= wrap w z < 2 ^ (w - 1))%Z.
Proof.
  intros Hw. unfold wrap.
  assert (2 ^ w = 2 * 2 ^ (w - 1))%Z as E.
  { replace w with (1 + (w - 1))%Z at 1 by lia. by rewrite Z.pow_add_r by lia. }
  pose proof (Z.pow_pos_nonneg 2 (w - 1) ltac:(lia) ltac:(lia)).
  pose proof (Z.mod_pos_bound (z + 2 ^ (w - 1)) (2 ^ w) ltac:(lia)). lia.
Qed.

Lemma be_read_encode n z rest : 0 < n ->
  (- 2 ^ (8 * Z.of_nat n - 1) <= z < 2 ^ (8 * Z.of_nat n - 1))%Z ->
  be_read n (be_encode n z ++ rest) = Success z.
Proof.
  intros Hn Hz. unfold be_read.
  rewrite length_app, be_encode_length.
  replace (Nat.ltb (n + length rest) n) with false by (symmetry; apply Nat.ltb_ge; lia).
  rewrite take_app_length' by (by rewrite be_encode_length).
  rewrite be_decode_encode, pow_256, wrap_mod by lia. done.
Qed.

Lemma be_read_range n b z : 0 < n -> be_read n b = Success z ->
  (- 2 ^ (8 * Z.of_nat n - 1) <= z < 2 ^ (8 * Z.of_nat n - 1))%Z.
Proof.
  unfold be_read. intros Hn. case_match; [discriminate|]. intros [= <-].
  apply wrap_range. lia.
Qed.

Lemma lex_sgn a : forall b, Z.sgn (lex a b) = lex a b.
Proof.
  induction a as [|x a IH]; intros [|y b]; simpl; auto. by repeat case_match.
Qed.

#[export] Instance guava_be_laws : GuavaLaws guava_be.
Proof.
  split; cbn -[be_encode be_read lex].
  - apply lex_sgn.
  - intros z. apply be_encode_length.
  - unfold isInt, MinInt, MaxInt. intros z rest H. apply be_read_encode; lia.
  - intros b H. unfold be_read. by rewrite (proj2 (Nat.ltb_lt _ _) H).
  - intros b H. unfold be_read. rewrite (proj2 (Nat.ltb_ge _ _) H). eauto.
  - intros b z H%be_read_range; [|lia]. unfold isInt, MinInt, MaxInt. lia.
  - intros z. apply be_encode_length.
  - unfold isLong. intros z rest H. apply be_read_encode; lia.
  - intros b z H%be_read_range; [|lia]. unfold isLong. lia.
Qed.

(** ** java.math.BigInteger *)

(** bitLength: the bits of the shortest two's complement form, without sign *)
Definition bitLength (z : Z) : Z :=
  let m := if (z <? 0)%Z then Z.lnot z else z in
  if (m =? 0)%Z then 0%Z else (Z.log2 m + 1)%Z.

(** toByteArray: big-endian two's complement in the fewest bytes *)
Definition toByteArray (z : Z) : bytes := be_encode (Z.to_nat (bitLength z / 8 + 1)) z.

(** ** [ByteArray.compare]: a strict total order *)

Section ByteArray.
Context `{GL : GuavaLaws}.

(** ByteArray.compare *)
Definition compare (buffer1 buffer2 : bytes) : Z :=
  lexicographicalComparator buffer1 buffer2.

(** ByteArray.concat: the arrays copied one after the other into a result
    of their total length. *)
Definition concat_arrays (seq : list bytes) : bytes := concat seq.

Definition klt (a b : bytes) : Prop := (compare a b < 0)%Z.

Lemma lex_range a b : lex a b = (-1)%Z \/ lex a b = 0%Z \/ lex a b = 1%Z.
Proof. revert b; induction a as [|x a IH]; intros [|y b]; simpl; auto. repeat case_match; auto. Qed.

Lemma lex_refl a : lex a a = 0%Z.
Proof. induction a as [|x a IH]; simpl; auto. by rewrite Z.ltb_irrefl. Qed.

Lemma lex_eq a : forall b, lex a b = 0%Z -> a = b.
Proof.
  induction a as [|x a IH]; intros [|y b]; simpl; try done.
  destruct (ub x <? ub y)%Z eqn:E1; [done|].
  destruct (ub y <? ub x)%Z eqn:E2; [done|].
  intros H. f_equal; [apply ub_inj; lia|auto].
Qed.

Lemma lex_anti a : forall b, lex b a = (- lex a b)%Z.
Proof.
  induction a as [|x a IH]; intros [|y b]; simpl; auto.
  destruct (Z.ltb_spec (ub x) (ub y)), (Z.ltb_spec (ub y) (ub x)); try lia; try done.
Qed.

Lemma lex_lt_trans a : forall b c, lex a b = (-1)%Z -> lex b c = (-1)%Z -> lex a c = (-1)%Z.
Proof.
  induction a as [|x a IH]; intros [|y b] [|z c]; simpl; try done.
  repeat case_match; try lia; eauto.
Qed.

Lemma compare_refl a : compare a a = 0%Z.
Proof.
  unfold compare. pose proof (comparator_lex a a) as H. rewrite lex_refl in H. lia.
Qed.
Lemma compare_eq a b : compare a b = 0%Z -> a = b.
Proof.
  unfold compare. intros H. apply lex_eq. rewrite <- comparator_lex, H. done.
Qed.
Lemma klt_lex a b : klt a b <-> lex a b = (-1)%Z.
Proof.
  unfold klt, compare. pose proof (comparator_lex a b).
  pose proof (lex_range a b). lia.
Qed.
Lemma compare_gt a b : (0 < compare a b)%Z <-> klt b a.
Proof.
  rewrite klt_lex, lex_anti. unfold compare. pose proof (comparator_lex a b).
  pose proof (lex_range a b). lia.
Qed.
Lemma klt_irrefl a : ~ klt a a.
Proof. unfold klt. rewrite compare_refl. lia. Qed.
Lemma klt_trans a b c : klt a b -> klt b c -> klt a c.
Proof. rewrite !klt_lex. apply lex_lt_trans. Qed.
Lemma klt_asym a b : klt a b -> ~ klt b a.
Proof. intros H1 H2. exact (klt_irrefl _ (klt_trans _ _ _ H1 H2)). Qed.
Lemma klt_ne a b : klt a b -> a <> b.
Proof. intros H ->. by apply klt_irrefl in H. Qed.
Lemma klt_total a b : klt a b \/ a = b \/ klt b a.
Proof.
  destruct (Z.lt_trichotomy (compare a b) 0) as [H|[H|H]].
  - by left.
  - right; left; by apply compare_eq.
  - right; right. by apply compare_gt.
Qed.

#[export] Instance klt_dec a b : Decision (klt a b).
Proof. unfold klt. apply _. Defined.

(** [kle lo k]: the lower end of a leaf interval is inclusive. *)
Definition kle (a b : bytes) : Prop := a = b \/ klt a b.

Lemma kle_lt_trans a b c : kle a b -> klt b c -> klt a c.
Proof. intros [->|?]; eauto using klt_trans. Qed.
Lemma klt_le_trans a b c : klt a b -> kle b c -> klt a c.
Proof. intros ? [->|?]; eauto using klt_trans. Qed.
Lemma klt_kle a b : klt a b -> kle a b.
Proof. by right. Qed.
Lemma kle_refl a : kle a a.
Proof. by left. Qed.
Lemma kle_nlt a b : kle a b <-> ~ klt b a.
Proof.
  split.
  - intros [->|H]; [apply klt_irrefl | by apply klt_asym].
  - intros H. destruct (klt_total a b) as [?|[?|?]]; [by right|by left|done].
Qed.
End ByteArray.

#[export] Hint Resolve klt_trans kle_lt_trans klt_le_trans klt_kle kle_refl : sparkz.

(** ** Hash functions *)

(** [CryptographicHash]: the primitive [hash] on one array and the digest
    size.  [byteArrayToDigest] of every implementation checks the length. *)
Class CryptographicHash := {
  hash : bytes -> bytes;
  DigestSize : nat;
  hash_size x : length (hash x) = DigestSize
}.

Section Hash.
Context `{HF : CryptographicHash}.

(** CryptographicHash.hash(inputs: Array[Byte]* ) and prefixedHash *)
Definition hash_all (inputs : list bytes) : bytes := hash (concat_arrays inputs).
Definition prefixedHash (prefix : byte) (inputs : list bytes) : bytes :=
  hash (prefix :: concat_arrays inputs).

(** Two different inputs with one digest, one of those hashed to make something
    and one of those hashed to check what is claimed of it.  Digests are shorter
    than inputs, so there are always inputs that collide; these are two of the
    few that the makers and the checkers of a proof have hashed. *)
Definition collides (made checked : list bytes) : Prop :=
  exists x y, x ∈ made /\ y ∈ checked /\ x <> y /\ hash x = hash y.

Lemma hash_inj_in made checked x y :
  x ∈ made -> y ∈ checked -> hash y = hash x -> y = x \/ collides made checked.
Proof. intros Hx Hy E. destruct (decide (y = x)); [by left|right; by exists x, y]. Qed.

#[export] Instance collides_dec made checked : Decision (collides made checked).
Proof.
  refine (cast_if (decide (Exists (fun x => Exists (fun y => x <> y /\ hash x = hash y) checked) made))).
  - abstract (rename select (Exists _ _) into H; apply Exists_exists in H as (x & Hx & H);
      apply Exists_exists in H as (y & Hy & H); by exists x, y).
  - abstract (intros (x & y & Hx & Hy & H); rename select (~ _) into Hn; apply Hn; apply Exists_exists; exists x;
      split; [done|]; apply Exists_exists; by exists y).
Defined.

Lemma collides_mono made made' checked checked' :
  made ⊆ made' -> checked ⊆ checked' -> collides made checked -> collides made' checked'.
Proof. intros H H' (x & y & Hx & Hy & E). exists x, y. auto. Qed.
End Hash.

(** A small concrete hash for the witnesses: two checksum bytes. *)
#[export] Program Instance toy_hash : CryptographicHash := {|
  hash x := let s := foldl (fun acc b => (31 * acc + ub b + 7) mod 65521)%Z 1%Z x in
            [z2b s; z2b (s / 256)];
  DigestSize := 2
|}.
Next Obligation. done. Qed.

(** Another, of 32 bytes. *)
Program Definition toy_hash32 : CryptographicHash := {|
  hash x := let s := foldl (fun acc b => (31 * acc + ub b + 7) mod 65521)%Z 1%Z x in
            (fun i => z2b (s + Z.of_nat i)) <$> seq 0 32;
  DigestSize := 32
|}.
Next Obligation. done. Qed.
