(* ===== verification/AvlNode.v ===== *)
(** * AvlNode: nodes and operations of the authenticated AVL+ tree

    scrypto/.../avltree/batch/BatchNode.scala and Operation.scala.  A JVM
    object is a node value that carries the identity of the object ([nid])
    and its [isNew] flag; [getNew] keeps the identity when the code mutates in
    place and allocates a fresh one when the code calls a constructor.  The
    [visited] flag of an object is membership of its identity in the state's
    [visited] set ([AvlOps]).  [labelOpt] is only a cache of [computeLabel],
    cleared by every [getNew], so [label] is the computed value. *)

From S2P Require Import Prelude External.

Abbreviation ADKey := bytes.
Abbreviation ADValue := bytes.
Abbreviation ADDigest := bytes.

(** ** Node.scala *)

(** Object identity and the [isNew] flag.  Verifier nodes are always mutated
    in place, which is what [isNew = true] means for [getNew]. *)
Record meta := Meta { nid : N; isNew : bool }.

(** [LabelOnlyNode], [InternalProverNode] / [InternalVerifierNode] (the key is
    [None] in the verifier, whose internal nodes hold none), and
    [ProverLeaf] / [VerifierLeaf].  A [Balance] is the value of a signed byte. *)
Inductive Node :=
| LabelOnlyNode (l : bytes)
| InternalNode (m : meta) (k : option ADKey) (b : Z) (ln rn : Node)
| Leaf (m : meta) (k : ADKey) (v : ADValue) (nk : ADKey).

#[export] Instance meta_eq_dec : EqDecision meta.
Proof. solve_decision. Defined.
#[export] Instance node_eq_dec : EqDecision Node.
Proof. solve_decision. Defined.

Definition InternalNodePrefix : byte := z2b 1.
Definition LeafPrefix : byte := z2b 0.

Section Label.
Context `{HF : CryptographicHash}.

(** computeLabel of the three node classes *)
Fixpoint label (n : Node) : bytes :=
  match n with
  | LabelOnlyNode l => l
  | InternalNode _ _ b l r => hash_all [[InternalNodePrefix; z2b b]; label l; label r]
  | Leaf _ k v nk => prefixedHash LeafPrefix [k; v; nk]
  end.
End Label.

Definition isLeaf (n : Node) : bool := match n with Leaf _ _ _ _ => true | _ => false end.
Definition isInternal (n : Node) : bool :=
  match n with InternalNode _ _ _ _ _ => true | _ => false end.

(** asInstanceOf[Leaf[D]]: key, value and next leaf key *)
Definition asLeaf (n : Node) : option (ADKey * ADValue * ADKey) :=
  match n with Leaf _ k v nk => Some (k, v, nk) | _ => None end.

(** ** Operation.scala *)

Inductive Operation :=
| Lookup (key : ADKey)
| UnknownModification
| Insert (key : ADKey) (value : ADValue)
| Update (key : ADKey) (value : ADValue)
| InsertOrUpdate (key : ADKey) (value : ADValue)
| Remove (key : ADKey)
| RemoveIfExists (key : ADKey)
| UpdateLongBy (key : ADKey) (delta : Z).

Definition op_key (op : Operation) : ADKey :=
  match op with
  | Lookup k | Insert k _ | Update k _ | InsertOrUpdate k _
  | Remove k | RemoveIfExists k | UpdateLongBy k _ => k
  | UnknownModification => []
  end.

(** operation.isInstanceOf[Insert] || ... [Remove] || ... [InsertOrUpdate] *)
Definition isStructural (op : Operation) : bool :=
  match op with Insert _ _ | Remove _ | InsertOrUpdate _ _ => true | _ => false end.
Definition isLookup (op : Operation) : bool :=
  match op with Lookup _ => true | _ => false end.

Section Operation.
Context `{G : Guava}.

(** Math.addExact *)
Definition addExact (a b : Z) : Try Z :=
  if isLong (a + b) then Success (a + b)%Z else Failure ArithmeticExn.

(** UpdateLongBy.updateFn *)
Definition updateLongBy_fn (delta : Z) (old : option ADValue) : Try (option ADValue) :=
  if (delta =? 0)%Z then Success old
  else match old with
       | None =>
           if (0 <? delta)%Z then Success (Some (Longs_toByteArray delta))
           else Failure (Raised "Trying to decrease non-existing value")
       | Some oldV =>
           let? o := Longs_fromByteArray oldV in
           let? newVal := addExact o delta in
           if (newVal =? 0)%Z then Success None
           else if (0 <? newVal)%Z then Success (Some (Longs_toByteArray newVal))
           else Failure (Raised "New value is negative")
       end.

(** Modification.updateFn of each class; [Lookup] is no [Modification], its
    branch of the match is separate in [modifyHelper]. *)
Definition updateFn (op : Operation) (old : option ADValue) : Try (option ADValue) :=
  match op with
  | Lookup _ => Failure MatchFailure
  | UnknownModification => Success old
  | Insert _ value =>
      match old with
      | None => Success (Some value)
      | Some _ => Failure (Raised "already exists")
      end
  | Update _ value =>
      match old with
      | None => Failure (Raised "does not exist")
      | Some _ => Success (Some value)
      end
  | InsertOrUpdate _ value => Success (Some value)
  | Remove _ =>
      match old with
      | None => Failure (Raised "does not exist")
      | Some _ => Success None
      end
  | RemoveIfExists _ => Success None
  | UpdateLongBy _ delta => updateLongBy_fn delta old
  end.
End Operation.
