(* ===== verification/AvlOps.v ===== *)
(** * AvlOps: AuthenticatedTreeOps

    scrypto/.../avltree/batch/AuthenticatedTreeOps.scala: the search,
    insertion, deletion and rebalancing code shared by the prover and the
    verifier, over the methods the two define differently ([TreeMethods]). *)

From S2P Require Import Prelude External AvlNode.

(** ** State

    [sub] is the concrete class' own state.  [nextId] supplies the identity of
    the next allocated object and [mutations] counts the nodes written or
    allocated by [getNew] and [getNewKey]; no code reads either. *)
Record TreeState (S : Type) := TreeSt {
  sub : S;
  visited : gset N;
  nextId : N;
  mutations : N;
  changedNodesBuffer : list Node;
  changedNodesBufferToCheck : list Node;
  rootNodeHeight : Z;
  savedNode : option Node
}.
Arguments TreeSt {S}.
Arguments sub {S}.
Arguments visited {S}.
Arguments nextId {S}.
Arguments mutations {S}.
Arguments changedNodesBuffer {S}.
Arguments changedNodesBufferToCheck {S}.
Arguments rootNodeHeight {S}.
Arguments savedNode {S}.

Record TreeConfig := {
  keyLength : nat;
  valueLengthOpt : option Z;
  collectChangedNodes : bool
}.

(** The abstract methods.  [nextDirectionIsLeft], [keyMatchesLeaf] and
    [replayComparison] touch the concrete class' fields only.  [addNode_key]
    is the key [addNode] gives the internal node it builds. *)
Record TreeMethods (S : Type) := {
  nextDirectionIsLeft : ADKey -> Node -> Eff S bool;
  keyMatchesLeaf : ADKey -> Node -> Eff S bool;
  replayComparison : Eff S Z;
  addNode_key : ADKey -> option ADKey
}.
Arguments nextDirectionIsLeft {S}.
Arguments keyMatchesLeaf {S}.
Arguments replayComparison {S}.
Arguments addNode_key {S}.

Section State.
Context {S : Type}.
Implicit Type s : TreeState S.

Definition set_sub (x : S) s := TreeSt x (visited s) (nextId s) (mutations s)
  (changedNodesBuffer s) (changedNodesBufferToCheck s) (rootNodeHeight s) (savedNode s).
Definition set_visited (v : gset N) s := TreeSt (sub s) v (nextId s) (mutations s)
  (changedNodesBuffer s) (changedNodesBufferToCheck s) (rootNodeHeight s) (savedNode s).
Definition set_alloc (i m : N) s := TreeSt (sub s) (visited s) i m
  (changedNodesBuffer s) (changedNodesBufferToCheck s) (rootNodeHeight s) (savedNode s).
Definition set_buffers (c d : list Node) s := TreeSt (sub s) (visited s) (nextId s)
  (mutations s) c d (rootNodeHeight s) (savedNode s).
Definition set_height (h : Z) s := TreeSt (sub s) (visited s) (nextId s) (mutations s)
  (changedNodesBuffer s) (changedNodesBufferToCheck s) h (savedNode s).
Definition set_saved (o : option Node) s := TreeSt (sub s) (visited s) (nextId s)
  (mutations s) (changedNodesBuffer s) (changedNodesBufferToCheck s) (rootNodeHeight s) o.

(** Run a method of the concrete class on its own fields. *)
Definition on_sub {A} (m : Eff S A) : Eff (TreeState S) A :=
  fun s => let '(x, r) := m (sub s) in (set_sub x s, r).

(** One write of a node object in place, or one [new]. *)
Definition touch (m : meta) : Eff (TreeState S) meta :=
  if isNew m
  then modify (fun s => set_alloc (nextId s) (mutations s + 1) s) ;! ret m
  else let! i := gets nextId in
       modify (fun s => set_alloc (i + 1) (mutations s + 1) s) ;!
       ret (Meta i true).

(** [new InternalProverNode] / [new ProverLeaf] and the verifier's *)
Definition alloc : Eff (TreeState S) meta :=
  let! i := gets nextId in
  modify (fun s => set_alloc (i + 1) (mutations s + 1) s) ;!
  ret (Meta i true).

(** [getNew] of internal nodes: mutate if [isNew], else create *)
Definition getNew (m : meta) (k : option ADKey) (newBalance : Z) (newLeft newRight : Node)
  : Eff (TreeState S) Node :=
  let! m' := touch m in ret (InternalNode m' k newBalance newLeft newRight).

(** [getNew] of leaves *)
Definition getNewLeaf (m : meta) (newKey : ADKey) (newValue : ADValue)
    (newNextLeafKey : ADKey) : Eff (TreeState S) Node :=
  let! m' := touch m in ret (Leaf m' newKey newValue newNextLeafKey).

(** [getNewKey]: a no-op in the verifier, whose internal nodes hold no key *)
Definition getNewKey (m : meta) (k : option ADKey) (newKey : ADKey)
  : Eff (TreeState S) (meta * option ADKey) :=
  match k with
  | None => ret (m, None)
  | Some _ => let! m' := touch m in ret (m', Some newKey)
  end.
End State.

Section AuthenticatedTreeOps.
Context `{G : Guava} {S : Type} (cfg : TreeConfig) (T : TreeMethods S).
Abbreviation M := (Eff (TreeState S)).

Definition PositiveInfinityKey : ADKey := replicate (keyLength cfg) (z2b (-1)).
Definition NegativeInfinityKey : ADKey := replicate (keyLength cfg) (z2b 0).

Definition node_meta (n : Node) : option meta :=
  match n with
  | LabelOnlyNode _ => None
  | InternalNode m _ _ _ _ | Leaf m _ _ _ => Some m
  end.

(** onNodeVisit *)
Definition onNodeVisit (n : Node) (operation : Operation) (isRotate : bool) : M unit :=
  fun s =>
  match node_meta n with
  | None => (s, Success tt)
  | Some m =>
      let s1 :=
        if collectChangedNodes cfg && negb (bool_decide (nid m ∈ visited s)) && negb (isNew m)
        then
          if isRotate then
            set_buffers (changedNodesBuffer s) (changedNodesBufferToCheck s ++ [n]) s
          else if isStructural operation then
            set_buffers (changedNodesBuffer s ++ [n]) (changedNodesBufferToCheck s) s
          else if negb (isLookup operation) then
            set_buffers (changedNodesBuffer s) (changedNodesBufferToCheck s ++ [n]) s
          else s
        else s in
      (set_visited ({[nid m]} ∪ visited s1) s1, Success tt)
  end.

(** digest *)
Definition digest `{CryptographicHash} (rootHeight : Z) (rootNode : Node) : Try ADDigest :=
  if (0 <=? rootHeight)%Z && (rootHeight <? 256)%Z
  then Success (label rootNode ++ [z2b rootHeight])
  else Failure AssertionError.

(** The balances a double rotation gives the two children, by the balance
    of the new root. *)
Definition doubleRotateBalances (b : Z) : Try (Z * Z) :=
  if (b =? 0)%Z then Success (0, 0)%Z
  else if (b =? -1)%Z then Success (0, 1)%Z
  else if (b =? 1)%Z then Success (-1, 0)%Z
  else Failure MatchFailure.

(** doubleLeftRotate(currentRoot, leftChild, rightChild); [m k b] are
    currentRoot's fields *)
Definition doubleLeftRotate (m : meta) (k : option ADKey) (leftChild rightChild : Node)
  : M Node :=
  match rightChild with
  | InternalNode rm rk _ (InternalNode nm nk nb nl nr) rr =>
      let! bs := lift_try (doubleRotateBalances nb) in
      let! newLeftChild := getNew m k (fst bs) leftChild nl in
      let! newRightChild := getNew rm rk (snd bs) nr rr in
      getNew nm nk 0 newLeftChild newRightChild
  | _ => throw ClassCast
  end.

(** doubleRightRotate(currentRoot, leftChild, rightChild) *)
Definition doubleRightRotate (m : meta) (k : option ADKey) (leftChild rightChild : Node)
  : M Node :=
  match leftChild with
  | InternalNode lm lk _ ll (InternalNode nm nk nb nl nr) =>
      let! bs := lift_try (doubleRotateBalances nb) in
      let! newRightChild := getNew m k (snd bs) nr rightChild in
      let! newLeftChild := getNew lm lk (fst bs) ll nl in
      getNew nm nk 0 newLeftChild newRightChild
  | _ => throw ClassCast
  end.

(** addNode: [r] with its next key replaced on the left, a new leaf on the
    right *)
Definition addNode (m : meta) (k : ADKey) (v : ADValue) (nk : ADKey)
    (key : ADKey) (value : ADValue) : M Node :=
  let! l := getNewLeaf m k v key in
  let! rm := alloc in
  let! im := alloc in
  ret (InternalNode im (addNode_key T key) 0 l (Leaf rm key value nk)).

(** valueLengthOpt.foreach(vl => require(v.length == vl)) *)
Definition checkValueLength (v : ADValue) : Try unit :=
  match valueLengthOpt cfg with
  | None => Success tt
  | Some vl => require (zlen v =? vl)%Z
  end.

(** modifyHelper: (node, changeHappened, heightIncreased, toDelete, oldValue) *)
Definition ModifyResult : Type := Node * bool * bool * bool * option ADValue.

(** The leaf case of modifyHelper, key found *)
Definition modifyFound (m : meta) (k : ADKey) (v : ADValue) (nk : ADKey)
    (operation : Operation) : M ModifyResult :=
  let r := Leaf m k v nk in
  if isLookup operation then
    onNodeVisit r operation false ;! ret (r, false, false, false, Some v)
  else
    let! upd := lift_try (updateFn operation (Some v)) in
    match upd with
    | None => onNodeVisit r operation false ;! ret (r, false, false, true, Some v)
    | Some newV =>
        lift_try (checkValueLength newV) ;!
        let! rNew := getNewLeaf m k newV nk in
        onNodeVisit r operation false ;!
        ret (rNew, true, false, false, Some v)
    end.

(** The leaf case of modifyHelper, key not found *)
Definition modifyMissing (m : meta) (k : ADKey) (v : ADValue) (nk : ADKey)
    (key : ADKey) (operation : Operation) : M ModifyResult :=
  let r := Leaf m k v nk in
  if isLookup operation then
    onNodeVisit r operation false ;! ret (r, false, false, false, None)
  else
    let! upd := lift_try (updateFn operation None) in
    match upd with
    | None => onNodeVisit r operation false ;! ret (r, false, false, false, None)
    | Some newV =>
        lift_try (checkValueLength newV) ;!
        onNodeVisit r operation false ;!
        let! n := addNode m k v nk key newV in
        ret (n, true, true, false, None)
    end.

(** The internal case of modifyHelper after the recursion to the left *)
Definition rebalanceLeft (m : meta) (k : option ADKey) (b : Z) (ln rn : Node)
    (res : ModifyResult) : M ModifyResult :=
  let '(newLeftM, changeHappened, childHeightIncreased, toDelete, oldValue) := res in
  if changeHappened then
    if childHeightIncreased && (b <? 0)%Z then
      match newLeftM with
      | InternalNode lm lk lb ll lr =>
          if (lb <? 0)%Z then
            let! newR := getNew m k 0 lr rn in
            let! top := getNew lm lk 0 ll newR in
            ret (top, true, false, false, oldValue)
          else
            let! top := doubleRightRotate m k newLeftM rn in
            ret (top, true, false, false, oldValue)
      | _ => throw ClassCast
      end
    else
      let myHeightIncreased := childHeightIncreased && (b =? 0)%Z in
      let rBalance := if childHeightIncreased then toByte (b - 1) else b in
      let! r := getNew m k rBalance newLeftM rn in
      ret (r, true, myHeightIncreased, false, oldValue)
  else ret (InternalNode m k b ln rn, false, false, toDelete, oldValue).

(** The same after the recursion to the right *)
Definition rebalanceRight (m : meta) (k : option ADKey) (b : Z) (ln rn : Node)
    (res : ModifyResult) : M ModifyResult :=
  let '(newRightM, changeHappened, childHeightIncreased, toDelete, oldValue) := res in
  if changeHappened then
    if childHeightIncreased && (0 <? b)%Z then
      match newRightM with
      | InternalNode rm rk rb rl rr =>
          if (0 <? rb)%Z then
            let! newR := getNew m k 0 ln rl in
            let! top := getNew rm rk 0 newR rr in
            ret (top, true, false, false, oldValue)
          else
            let! top := doubleLeftRotate m k ln newRightM in
            ret (top, true, false, false, oldValue)
      | _ => throw ClassCast
      end
    else
      let myHeightIncreased := childHeightIncreased && (b =? 0)%Z in
      let rBalance := if childHeightIncreased then toByte (b + 1) else b in
      let! r := getNew m k rBalance ln newRightM in
      ret (r, true, myHeightIncreased, false, oldValue)
  else ret (InternalNode m k b ln rn, false, false, toDelete, oldValue).

Fixpoint modifyHelper (rNode : Node) (key : ADKey) (operation : Operation)
  : M ModifyResult :=
  match rNode with
  | Leaf m k v nk =>
      let! found := on_sub (keyMatchesLeaf T key rNode) in
      if found then modifyFound m k v nk operation
      else modifyMissing m k v nk key operation
  | InternalNode m k b ln rn =>
      let! goLeft := on_sub (nextDirectionIsLeft T key rNode) in
      if goLeft then
        let! res := modifyHelper ln key operation in
        onNodeVisit rNode operation false ;!
        rebalanceLeft m k b ln rn res
      else
        let! res := modifyHelper rn key operation in
        onNodeVisit rNode operation false ;!
        rebalanceRight m k b ln rn res
  | LabelOnlyNode _ => throw (Raised "Should never reach this point.")
  end.

(** changeNextLeafKeyOfMaxNode *)
Fixpoint changeNextLeafKeyOfMaxNode (rNode : Node) (nextLeafKey : ADKey)
    (operation : Operation) : M Node :=
  onNodeVisit rNode operation false ;!
  match rNode with
  | Leaf m k v _ => getNewLeaf m k v nextLeafKey
  | InternalNode m k b ln rn =>
      let! r' := changeNextLeafKeyOfMaxNode rn nextLeafKey operation in
      getNew m k b ln r'
  | LabelOnlyNode _ => throw (Raised "Should never reach this point.")
  end.

(** changeKeyAndValueOfMinNode *)
Fixpoint changeKeyAndValueOfMinNode (rNode : Node) (newKey : ADKey) (newValue : ADValue)
    (operation : Operation) : M Node :=
  onNodeVisit rNode operation false ;!
  match rNode with
  | Leaf m _ _ nk => getNewLeaf m newKey newValue nk
  | InternalNode m k b ln rn =>
      let! l' := changeKeyAndValueOfMinNode ln newKey newValue operation in
      getNew m k b l' rn
  | LabelOnlyNode _ => throw (Raised "Should never reach this point.")
  end.

(** deleteHelper, after the recursion to the left: rotate if the left
    subtree became too short *)
Definition rebalanceLeftShrunk (m : meta) (k : option ADKey) (b : Z) (newLeft rn : Node)
    (childHeightDecreased : bool) (operation : Operation) : M (Node * bool) :=
  if childHeightDecreased && (0 <? b)%Z then
    onNodeVisit rn operation true ;!
    match rn with
    | InternalNode rm rk rb rl rr =>
        if (rb <? 0)%Z then
          onNodeVisit rl operation true ;!
          let! n := doubleLeftRotate m k newLeft rn in ret (n, true)
        else
          let! newLeftChild := getNew m k (toByte (1 - rb)) newLeft rl in
          let newB := toByte (rb - 1) in
          let! newR := getNew rm rk newB newLeftChild rr in
          ret (newR, (newB =? 0)%Z)
    | _ => throw ClassCast
    end
  else
    let newBalance := if childHeightDecreased then toByte (b + 1) else b in
    let! n := getNew m k newBalance newLeft rn in
    ret (n, childHeightDecreased && (newBalance =? 0)%Z).

(** deleteHelper, after the recursion to the right *)
Definition rebalanceRightShrunk (m : meta) (k : option ADKey) (b : Z) (ln newRight : Node)
    (childHeightDecreased : bool) (operation : Operation) : M (Node * bool) :=
  if childHeightDecreased && (b <? 0)%Z then
    onNodeVisit ln operation true ;!
    match ln with
    | InternalNode lm lk lb ll lr =>
        if (0 <? lb)%Z then
          onNodeVisit lr operation true ;!
          let! n := doubleRightRotate m k ln newRight in ret (n, true)
        else
          let! newRightChild := getNew m k (toByte (- lb - 1)) lr newRight in
          let newB := toByte (1 + lb) in
          let! newR := getNew lm lk newB ll newRightChild in
          ret (newR, (newB =? 0)%Z)
    | _ => throw ClassCast
    end
  else
    let newBalance := if childHeightDecreased then toByte (b - 1) else b in
    let! n := getNew m k newBalance ln newRight in
    ret (n, childHeightDecreased && (newBalance =? 0)%Z).

(** deleteHelper: (new root of the subtree, whether its height decreased).
    The casts of the code to [InternalNode] are the first match. *)
Fixpoint deleteHelper (r : Node) (deleteMax : bool) (operation : Operation)
  : M (Node * bool) :=
  match r with
  | InternalNode m k b ln rn =>
      onNodeVisit r operation false ;!
      let! direction := if deleteMax then ret 1%Z else on_sub (replayComparison T) in
      guard AssertionError (negb ((direction <? 0)%Z && isLeaf ln)) ;!
      match (if (0 <=? direction)%Z then asLeaf rn else None),
            (if (direction =? 0)%Z then asLeaf ln else None) with
      | Some (_, _, rnk), _ =>
          onNodeVisit rn operation false ;!
          if deleteMax then
            modify (set_saved (Some rn)) ;! ret (ln, true)
          else
            guard AssertionError (direction =? 0)%Z ;!
            let! l := changeNextLeafKeyOfMaxNode ln rnk operation in ret (l, true)
      | None, Some (lk, lv, _) =>
          onNodeVisit ln operation false ;!
          let! r' := changeKeyAndValueOfMinNode rn lk lv operation in ret (r', true)
      | None, None =>
          if (direction <=? 0)%Z then
            let! res := deleteHelper ln (direction =? 0)%Z operation in
            let '(newLeft, childHeightDecreased) := res in
            if (direction =? 0)%Z then
              let! saved := gets savedNode in
              match saved with
              | Some (Leaf _ sk sv _) =>
                  modify (set_saved None) ;!
                  let! mk := getNewKey m k sk in
                  let! rn2 := changeKeyAndValueOfMinNode rn sk sv operation in
                  let! m' := touch (fst mk) in
                  rebalanceLeftShrunk m' (snd mk) b newLeft rn2 childHeightDecreased operation
              | _ => throw NoSuchElement
              end
            else rebalanceLeftShrunk m k b newLeft rn childHeightDecreased operation
          else
            let! res := deleteHelper rn deleteMax operation in
            let '(newRight, childHeightDecreased) := res in
            rebalanceRightShrunk m k b ln newRight childHeightDecreased operation
      end
  | _ => throw ClassCast
  end.

(** returnResultOfOneOperation: the new root and the old value *)
Definition returnResultOfOneOperation (operation : Operation) (rootNode : Node)
  : M (Node * option ADValue) :=
  let key := op_key operation in
  guard IllegalArgument (0 <? compare key NegativeInfinityKey)%Z ;!
  guard IllegalArgument (compare key PositiveInfinityKey <? 0)%Z ;!
  guard IllegalArgument (Nat.eqb (length key) (keyLength cfg)) ;!
  modify (set_saved None) ;!
  let! res := modifyHelper rootNode key operation in
  let '(newRootNode, _, heightIncreased, toDelete, oldValue) := res in
  if toDelete then
    let! del := deleteHelper newRootNode false operation in
    let '(postDeleteRootNode, heightDecreased) := del in
    (if heightDecreased
     then modify (fun s => set_height (rootNodeHeight s - 1) s) else ret tt) ;!
    ret (postDeleteRootNode, oldValue)
  else
    (if heightIncreased
     then modify (fun s => set_height (rootNodeHeight s + 1) s) else ret tt) ;!
    ret (newRootNode, oldValue).
End AuthenticatedTreeOps.
