(* ===== verification/AvlProver.v ===== *)
(** * AvlProver: BatchAVLProver

    scrypto/.../avltree/batch/BatchAVLProver.scala: the prover's fields, its
    version of the abstract methods, one operation with the roll back of the
    directions on failure, proof generation, the read-only walks and the
    debug check.  [BatchProofConstants] are the three tags below. *)

From S2P Require Import Prelude External AvlNode AvlOps.

Definition LeafInPackagedProof : byte := z2b 2.
Definition LabelInPackagedProof : byte := z2b 3.
Definition EndOfTreeInPackagedProof : byte := z2b 4.

(** ** Fields of the prover *)
Record ProverFields := PF {
  directions : bytes;
  directionsBitLength : Z;
  replayIndex : Z;
  lastRightStep : Z;
  found : bool
}.

Definition set_found (b : bool) (p : ProverFields) : ProverFields :=
  PF (directions p) (directionsBitLength p) (replayIndex p) (lastRightStep p) b.
Definition set_lastRightStep (i : Z) (p : ProverFields) : ProverFields :=
  PF (directions p) (directionsBitLength p) (replayIndex p) i (found p).
Definition set_replayIndex (i : Z) (p : ProverFields) : ProverFields :=
  PF (directions p) (directionsBitLength p) i (lastRightStep p) (found p).
Definition set_directions (d : bytes) (n : Z) (p : ProverFields) : ProverFields :=
  PF d n (replayIndex p) (lastRightStep p) (found p).

(** (directions(i >> 3) & (1 << (i & 7)).toByte) != 0, both bytes promoted to
    Int *)
Definition bit_of (ds : bytes) (i : Z) : Try bool :=
  let? d := array_get ds (Z.shiftr i 3) in
  Success (negb (Z.land (b2z d) (toByte (Z.shiftl 1 (Z.land i 7))) =? 0)%Z).

(** The recording half of nextDirectionIsLeft; the bit count is an Int, exact below 2^31 *)
Definition recordDirection (b : bool) : Eff ProverFields unit := fun p =>
  let n := directionsBitLength p in
  if (Z.land n 7 =? 0)%Z then
    (set_directions (directions p ++ [if b then z2b 1 else z2b 0]) (n + 1) p, Success tt)
  else if b then
    let i := Z.shiftr n 3 in
    match array_get (directions p) i with
    | Success d =>
        let d' := z2b (Z.lor (b2z d) (Z.shiftl 1 (Z.land n 7))) in
        (set_directions (<[Z.to_nat i := d']> (directions p)) (n + 1) p, Success tt)
    | Failure e => (p, Failure e)
    end
  else (set_directions (directions p) (n + 1) p, Success tt).

Section ProverMethods.
Context `{G : Guava}.

(** nextDirectionIsLeft *)
Definition prover_nextDirectionIsLeft (key : ADKey) (r : Node) : Eff ProverFields bool :=
  let! p := gets id in
  let! b :=
    if found p then ret true
    else match r with
         | InternalNode _ (Some k) _ _ _ =>
             let c := compare key k in
             if (c =? 0)%Z then
               modify (fun p => set_lastRightStep (directionsBitLength p) (set_found true p)) ;!
               ret false
             else ret (c <? 0)%Z
         | _ => throw ClassCast
         end in
  recordDirection b ;! ret b.

(** keyMatchesLeaf *)
Definition prover_keyMatchesLeaf (key : ADKey) (r : Node) : Eff ProverFields bool :=
  let! b := gets found in modify (set_found false) ;! ret b.

(** replayComparison *)
Definition prover_replayComparison : Eff ProverFields Z :=
  let! p := gets id in
  let! c :=
    if (replayIndex p =? lastRightStep p)%Z then ret 0%Z
    else let! b := lift_try (bit_of (directions p) (replayIndex p)) in
         ret (if b then -1 else 1)%Z in
  modify (fun p => set_replayIndex (replayIndex p + 1) p) ;! ret c.

Definition prover_methods : TreeMethods ProverFields := {|
  nextDirectionIsLeft := prover_nextDirectionIsLeft;
  keyMatchesLeaf := prover_keyMatchesLeaf;
  replayComparison := prover_replayComparison;
  addNode_key := fun key => Some key
|}.
End ProverMethods.

(** ** The prover *)

Record BatchAVLProver := Prover {
  tree : TreeState ProverFields;
  topNode : Node;
  oldTopNode : Node
}.

Definition init_fields : ProverFields := PF [] 0 0 0 false.

Section Prover.
Context `{G : Guava} `{HF : CryptographicHash} (cfg : TreeConfig).

(** The root of an empty tree: one leaf from -inf to +inf *)
Definition initialLeaf : Node :=
  Leaf (Meta 0 false) (NegativeInfinityKey cfg)
    (replicate (Z.to_nat (default 0%Z (valueLengthOpt cfg))) (z2b 0))
    (PositiveInfinityKey cfg).

(** The constructor; [oldRootAndHeight] brings the identities it uses *)
Definition new_prover (oldRootAndHeight : option (Node * Z)) (freshId : N) : BatchAVLProver :=
  let '(root, h) := default (initialLeaf, 0%Z) oldRootAndHeight in
  Prover (TreeSt init_fields ∅ freshId 0 [] [] h None) root root.

Definition prover_digest (p : BatchAVLProver) : Try ADDigest :=
  digest (rootNodeHeight (tree p)) (topNode p).

(** The failure branch of performOneOperation: undo the recorded directions *)
Definition undoDirections (f : ProverFields) : ProverFields :=
  let oldLen := Z.quot (replayIndex f + 7) 8 in
  let ds := take (Z.to_nat oldLen) (directions f) in
  let n := replayIndex f in
  let k := Z.land n 7 in
  let ds' :=
    if (0 <? k)%Z then
      let i := (length ds - 1)%nat in
      match ds !! i with
      | Some d => <[i := z2b (Z.land (b2z d) (Z.shiftl 1 k - 1))]> ds
      | None => ds
      end
    else ds in
  set_directions ds' n f.

Definition performOneOperation (operation : Operation) : Eff BatchAVLProver (option ADValue) :=
  fun p =>
  let s := tree p in
  let s0 := set_sub (set_replayIndex (directionsBitLength (sub s)) (sub s)) s in
  match returnResultOfOneOperation cfg prover_methods operation (topNode p) s0 with
  | (s', Success (n, old)) => (Prover s' n (oldTopNode p), Success old)
  | (s', Failure e) =>
      (Prover (set_sub (undoDirections (sub s')) s') (topNode p) (oldTopNode p), Failure e)
  end.

(** Several operations, the result of each; a failed one is skipped *)
Fixpoint performOperations (ops : list Operation) (p : BatchAVLProver)
  : BatchAVLProver * list (Try (option ADValue)) :=
  match ops with
  | [] => (p, [])
  | op :: ops' =>
      let '(p1, r) := performOneOperation op p in
      let '(p2, rs) := performOperations ops' p1 in (p2, r :: rs)
  end.

(** *** Walks that change nothing *)

Fixpoint nsize (n : Node) : nat :=
  match n with
  | InternalNode _ _ _ l r => S (nsize l + nsize r)
  | _ => 1
  end.

(** treeWalk: [internalNodeFn] may return any node, so the loop has fuel;
    a walk that only descends needs at most the size of the tree. *)
Fixpoint walk {IR LR} (fuel : nat) (internalNodeFn : Node -> IR -> Node * IR)
    (leafFn : Node -> IR -> LR) (rNode : Node) (ir : IR) : Try LR :=
  match fuel with
  | O => Failure NoFuel
  | S fuel' =>
      match rNode with
      | Leaf _ _ _ _ => Success (leafFn rNode ir)
      | InternalNode _ _ _ _ _ =>
          let i := internalNodeFn rNode ir in
          walk fuel' internalNodeFn leafFn (fst i) (snd i)
      | LabelOnlyNode _ => Failure MatchFailure
      end
  end.

Definition treeWalk {IR LR} (internalNodeFn : Node -> IR -> Node * IR)
    (leafFn : Node -> IR -> LR) (initial : IR) (p : BatchAVLProver) : Try LR :=
  walk (nsize (topNode p)) internalNodeFn leafFn (topNode p) initial.

(** unauthenticatedLookup *)
Definition lookup_step (key : ADKey) (r : Node) (found : bool) : Node * bool :=
  match r with
  | InternalNode _ (Some k) _ l r' =>
      if found then (l, true)
      else let c := compare key k in
           if (c =? 0)%Z then (r', true)
           else if (c <? 0)%Z then (l, false) else (r', false)
  | _ => (r, found)
  end.

Definition unauthenticatedLookup (key : ADKey) (p : BatchAVLProver) : Try (option ADValue) :=
  treeWalk (lookup_step key)
    (fun leaf found => match leaf with Leaf _ _ v _ => if found then Some v else None
                                     | _ => None end)
    false p.

(** randomWalk; the generator is the stream of booleans it yields *)
Definition randomWalk (rand : list bool) (p : BatchAVLProver) : Try (option (ADKey * ADValue)) :=
  treeWalk (fun r (bs : list bool) =>
              match r with
              | InternalNode _ _ _ l r' => (if default false (head bs) then r' else l, tail bs)
              | _ => (r, bs)
              end)
    (fun leaf _ =>
       match leaf with
       | Leaf _ k v _ =>
           if bool_decide (k = PositiveInfinityKey cfg) then None
           else if bool_decide (k = NegativeInfinityKey cfg) then None
           else Some (k, v)
       | _ => None
       end) rand p.

(** contains(key, label) *)
Fixpoint contains_loop (key : ADKey) (lbl : bytes) (currentNode : Node) (keyFound : bool) : bool :=
  if bool_decide (label currentNode = lbl) then true
  else match currentNode with
       | InternalNode _ (Some k) _ l r =>
           if keyFound then contains_loop key lbl l true
           else let c := compare key k in
                if (c =? 0)%Z then contains_loop key lbl r true
                else if (c <? 0)%Z then contains_loop key lbl l false
                else contains_loop key lbl r false
       | _ => false
       end.

Definition node_key (n : Node) : ADKey :=
  match n with
  | InternalNode _ (Some k) _ _ _ | Leaf _ k _ _ => k
  | _ => []
  end.

Definition contains (node : Node) (p : BatchAVLProver) : bool :=
  contains_loop (node_key node) (label node) (topNode p) false.

(** removedNodes: the call also moves the nodes to check into the buffer *)
Definition removedNodes (p : BatchAVLProver) : BatchAVLProver * list Node :=
  let s := tree p in
  let buf := changedNodesBuffer s ++
             filter (fun cn => contains cn p = false) (changedNodesBufferToCheck s) in
  (Prover (set_buffers buf (changedNodesBufferToCheck s) s) (topNode p) (oldTopNode p), buf).

(** *** generateProof *)

Record PackState := Pack {
  packVisited : gset N;
  previousLeafAvailable : bool;
  packagedTree : bytes
}.

Definition pack_emit (prev : bool) (bs : bytes) : Eff PackState unit :=
  modify (fun s => Pack (packVisited s) prev (packagedTree s ++ bs)).

Definition pack_label (rNode : Node) : Eff PackState unit :=
  pack_emit false (LabelInPackagedProof :: label rNode) ;!
  guard AssertionError (Nat.eqb (length (label rNode)) DigestSize).

Fixpoint packTree (rNode : Node) : Eff PackState unit :=
  let! s := gets id in
  match rNode with
  | LabelOnlyNode _ => throw MatchFailure
  | Leaf m k v nk =>
      if bool_decide (nid m ∈ packVisited s) then
        modify (fun s => Pack (packVisited s ∖ {[nid m]}) (previousLeafAvailable s)
                              (packagedTree s)) ;!
        pack_emit true
          (LeafInPackagedProof ::
           (if previousLeafAvailable s then [] else k) ++ nk ++
           (match valueLengthOpt cfg with None => Ints_toByteArray (zlen v) | Some _ => [] end) ++
           v)
      else pack_label rNode
  | InternalNode m k b l r =>
      if bool_decide (nid m ∈ packVisited s) then
        modify (fun s => Pack (packVisited s ∖ {[nid m]}) (previousLeafAvailable s)
                              (packagedTree s)) ;!
        packTree l ;!
        packTree r ;!
        modify (fun s => Pack (packVisited s) (previousLeafAvailable s)
                              (packagedTree s ++ [z2b b]))
      else pack_label rNode
  end.

(** resetNew: clear both flags of the new nodes, from the root down *)
Fixpoint resetNew (r : Node) (vis : gset N) : Node * gset N :=
  match r with
  | LabelOnlyNode _ => (r, vis)
  | Leaf m k v nk =>
      if isNew m then (Leaf (Meta (nid m) false) k v nk, vis ∖ {[nid m]}) else (r, vis)
  | InternalNode m k b l rt =>
      if isNew m then
        let '(l', vis1) := resetNew l vis in
        let '(rt', vis2) := resetNew rt vis1 in
        (InternalNode (Meta (nid m) false) k b l' rt', vis2 ∖ {[nid m]})
      else (r, vis)
  end.

Definition generateProof : Eff BatchAVLProver bytes := fun p =>
  let s := set_buffers [] [] (tree p) in
  match packTree (oldTopNode p) (Pack (visited s) false []) with
  | (ps, Failure e) => (Prover (set_visited (packVisited ps) s) (topNode p) (oldTopNode p), Failure e)
  | (ps, Success _) =>
      let '(top, vis) := resetNew (topNode p) (packVisited ps) in
      let f := sub s in
      (Prover (set_sub (set_directions [] 0 f) (set_visited vis s)) top top,
       Success (packagedTree ps ++ [EndOfTreeInPackagedProof] ++ directions f))
  end.

(** *** checkTree *)

(** checkTreeHelper: whether every myRequire held, and (minLeaf, maxLeaf,
    height); leaves as (key, nextLeafKey) *)
Fixpoint checkTreeHelper (postProof : bool) (vis : gset N) (rNode : Node)
  : bool * (ADKey * ADKey) * (ADKey * ADKey) * Z :=
  let flags m := negb postProof || (negb (bool_decide (nid m ∈ vis)) && negb (isNew m)) in
  match rNode with
  | LabelOnlyNode _ => (false, ([], []), ([], []), 0%Z)
  | Leaf m k v nk => (flags m, (k, nk), (k, nk), 0%Z)
  | InternalNode m k b l r =>
      let key := default [] k in
      let '(okL, minLeft, maxLeft, leftHeight) := checkTreeHelper postProof vis l in
      let '(okR, minRight, maxRight, rightHeight) := checkTreeHelper postProof vis r in
      let ok :=
        flags m &&
        (negb (isInternal l) || (compare (node_key l) key <? 0)%Z) &&
        (negb (isInternal r) || (0 <? compare (node_key r) key)%Z) &&
        okL && okR &&
        bool_decide (snd maxLeft = fst minRight) &&
        bool_decide (fst minRight = key) &&
        ((-1 <=? b)%Z && (b <=? 1)%Z && (b =? rightHeight - leftHeight)%Z) in
      (ok, minLeft, maxRight, (Z.max leftHeight rightHeight + 1)%Z)
  end.

Definition checkTree (postProof : bool) (p : BatchAVLProver) : Try unit :=
  let '(ok, minTree, maxTree, treeHeight) :=
    checkTreeHelper postProof (visited (tree p)) (topNode p) in
  let? _ := require (bool_decide (fst minTree = NegativeInfinityKey cfg)) in
  let? _ := require (bool_decide (snd maxTree = PositiveInfinityKey cfg)) in
  let? _ := require (treeHeight =? rootNodeHeight (tree p))%Z in
  require ok.
End Prover.
