(* ===== verification/AvlInv.v ===== *)
(** * AvlInv: the invariant of the AVL+ tree and the shared rebalancing code

    [wf lo hi n h]: the leaves of [n] tile the key interval [lo, hi) in
    order, each leaf naming its successor; internal keys are the minimum of
    their right subtree; balances are height differences in -1..1; the height
    is [h].  [to_map] is the dictionary the leaves hold.  The lemmas say what
    each piece of [AuthenticatedTreeOps] does to such a tree, for any
    implementation of the abstract methods. *)

From S2P Require Import Prelude External AvlNode AvlOps.

(** ** The invariant *)

Section Invariant.
Context `{GL : GuavaLaws}.

Inductive wf : ADKey -> ADKey -> Node -> Z -> Prop :=
| wf_leaf m k v nk : klt k nk -> wf k nk (Leaf m k v nk) 0
| wf_node m lo k hi b l r hl hr :
    wf lo k l hl -> wf k hi r hr ->
    b = (hr - hl)%Z -> (-1 <= b <= 1)%Z ->
    wf lo hi (InternalNode m (Some k) b l r) (1 + Z.max hl hr).

Fixpoint to_map (n : Node) : gmap ADKey ADValue :=
  match n with
  | LabelOnlyNode _ => ∅
  | Leaf _ k v _ => {[ k := v ]}
  | InternalNode _ _ _ l r => to_map l ∪ to_map r
  end.

Definition bal (n : Node) : Z :=
  match n with InternalNode _ _ b _ _ => b | _ => 0%Z end.

Lemma wf_lt lo hi n h : wf lo hi n h -> klt lo hi.
Proof. induction 1; eauto using klt_trans. Qed.

Lemma wf_nonneg lo hi n h : wf lo hi n h -> (0 <= h)%Z.
Proof. induction 1; lia. Qed.

Lemma wf_range lo hi n h x v :
  wf lo hi n h -> to_map n !! x = Some v -> kle lo x /\ klt x hi.
Proof.
  intros H. revert x v. induction H as [m k v' nk Hk|m lo k hi b l r hl hr Hl IHl Hr IHr _ _];
    intros x v; simpl.
  - intros [-> _]%lookup_singleton_Some. auto using kle_refl.
  - rewrite lookup_union_Some_raw. intros [Hx|[_ Hx]].
    + destruct (IHl _ _ Hx). split; eauto using klt_trans, wf_lt.
    + destruct (IHr _ _ Hx). split; [|done].
      right. eapply klt_le_trans; eauto using wf_lt.
Qed.

Lemma wf_none_lo lo hi n h x : wf lo hi n h -> klt x lo -> to_map n !! x = None.
Proof.
  intros H Hx. destruct (to_map n !! x) eqn:E; [|done].
  destruct (wf_range _ _ _ _ _ _ H E) as [[->|?] _];
    [by apply klt_irrefl in Hx | by eapply klt_asym in Hx].
Qed.

Lemma wf_none_hi lo hi n h x : wf lo hi n h -> kle hi x -> to_map n !! x = None.
Proof.
  intros H Hx. destruct (to_map n !! x) eqn:E; [|done].
  destruct (wf_range _ _ _ _ _ _ H E) as [_ ?].
  exfalso. eapply klt_irrefl, kle_lt_trans; eauto.
Qed.

(** In a well-formed internal node the key decides the subtree. *)
Lemma to_map_left lo k hi l r hl hr x : wf lo k l hl -> wf k hi r hr -> klt x k ->
  (to_map l ∪ to_map r) !! x = to_map l !! x.
Proof.
  intros Hl Hr Hx. rewrite lookup_union, (wf_none_lo _ _ _ _ _ Hr Hx).
  by destruct (to_map l !! x).
Qed.

Lemma to_map_right lo k hi l r hl hr x : wf lo k l hl -> wf k hi r hr -> kle k x ->
  (to_map l ∪ to_map r) !! x = to_map r !! x.
Proof.
  intros Hl Hr Hx. rewrite lookup_union, (wf_none_hi _ _ _ _ _ Hl Hx).
  by destruct (to_map r !! x).
Qed.

Lemma wf_min lo hi n h : wf lo hi n h -> is_Some (to_map n !! lo).
Proof.
  induction 1 as [|m lo k hi b l r hl hr Hl [v Hv] Hr IHr]; simpl.
  - rewrite lookup_singleton_eq. eauto.
  - rewrite (to_map_left _ _ _ _ _ _ _ _ Hl Hr (wf_lt _ _ _ _ Hl)). eauto.
Qed.

Lemma wf_node_inv lo hi m k b l r h :
  wf lo hi (InternalNode m k b l r) h ->
  exists k' hl hr, k = Some k' /\ wf lo k' l hl /\ wf k' hi r hr /\
    b = (hr - hl)%Z /\ (-1 <= b <= 1)%Z /\ h = (1 + Z.max hl hr)%Z.
Proof. inversion 1; subst. eauto 10. Qed.

Lemma wf_leaf_inv lo hi m k v nk h :
  wf lo hi (Leaf m k v nk) h -> lo = k /\ hi = nk /\ h = 0%Z /\ klt k nk.
Proof. inversion 1; subst. auto. Qed.

Lemma wf_node_intro m lo k hi b l r hl hr h :
  wf lo k l hl -> wf k hi r hr -> b = (hr - hl)%Z -> (-1 <= b <= 1)%Z ->
  h = (1 + Z.max hl hr)%Z -> wf lo hi (InternalNode m (Some k) b l r) h.
Proof. intros ?? -> ? ->. by constructor. Qed.

(** A positive height is that of an internal node. *)
Lemma wf_pos lo hi n h : wf lo hi n h -> (0 < h)%Z ->
  exists m k b l r, n = InternalNode m (Some k) b l r.
Proof. destruct 1; intros; [lia|]. eauto 10. Qed.

Lemma wf_zero lo hi n h : wf lo hi n h -> h = 0%Z -> exists m v, n = Leaf m lo v hi.
Proof.
  destruct 1 as [|????????? Hl Hr]; intros; [eauto|].
  apply wf_nonneg in Hl, Hr. lia.
Qed.
End Invariant.

Ltac wf_inv :=
  repeat match goal with
  | H : wf _ _ (InternalNode _ _ _ _ _) _ |- _ =>
      apply wf_node_inv in H; destruct H as (? & ? & ? & ? & ? & ? & ? & ? & ?)
  | H : wf _ _ (Leaf _ _ _ _) _ |- _ =>
      apply wf_leaf_inv in H; destruct H as (? & ? & ? & ?)
  end; simplify_eq.

Ltac b2z_lia := unfold Z.b2z in *; repeat case_match; simpl in *; lia.

(** Open the invariant of an internal node under given names. *)
Tactic Notation "wf_open" hyp(H) "as" ident(k) ident(hl) ident(hr) ident(Hl) ident(Hr) ident(Hb) :=
  apply wf_node_inv in H; destruct H as (k & hl & hr & -> & Hl & Hr & -> & Hb & ->);
  pose proof (wf_nonneg _ _ _ _ Hl); pose proof (wf_nonneg _ _ _ _ Hr).

(** Collect that the heights around are not negative. *)
Ltac wf_heights :=
  repeat match goal with
  | H : wf _ _ _ ?h |- _ =>
      lazymatch goal with
      | _ : (0 <= h)%Z |- _ => fail
      | _ => pose proof (wf_nonneg _ _ _ _ H)
      end
  end.

(** ** Rules for the primitive effects *)

Section Frame.
Context {S : Type}.

(** What the node primitives leave alone. *)
Record frame (s s' : TreeState S) : Prop := Frame {
  frame_sub : sub s' = sub s;
  frame_height : rootNodeHeight s' = rootNodeHeight s;
  frame_saved : savedNode s' = savedNode s
}.

#[export] Instance frame_refl : Reflexive frame.
Proof. done. Qed.
#[export] Instance frame_trans : Transitive frame.
Proof. intros ??? [] []. split; congruence. Qed.

Context (cfg : TreeConfig) (T : TreeMethods S).

Lemma wp_onNodeVisit n op b s (Q : Try unit -> TreeState S -> Prop) :
  (forall s', frame s s' -> mutations s' = mutations s -> Q (Success tt) s') ->
  wp (onNodeVisit cfg n op b) s Q.
Proof.
  unfold wp, onNodeVisit. intros H.
  destruct (node_meta n) as [m|]; simpl; [|by apply H].
  apply H; repeat case_match; done.
Qed.

Lemma wp_touch m s (Q : Try meta -> TreeState S -> Prop) :
  (forall m' s', frame s s' -> Q (Success m') s') -> wp (touch m) s Q.
Proof. unfold wp, touch. intros H. case_match; simpl; by apply H. Qed.

Lemma wp_getNew m k b l r s (Q : Try Node -> TreeState S -> Prop) :
  (forall m' s', frame s s' -> Q (Success (InternalNode m' k b l r)) s') ->
  wp (getNew m k b l r) s Q.
Proof. intros H. apply wp_bind, wp_touch. auto. Qed.

Lemma wp_getNewLeaf m k v nk s (Q : Try Node -> TreeState S -> Prop) :
  (forall m' s', frame s s' -> Q (Success (Leaf m' k v nk)) s') ->
  wp (getNewLeaf m k v nk) s Q.
Proof. intros H. apply wp_bind, wp_touch. auto. Qed.

Lemma wp_getNewKey m k nk s (Q : Try (meta * option ADKey) -> TreeState S -> Prop) :
  (forall m' s', frame s s' -> Q (Success (m', k ≫= fun _ => Some nk)) s') ->
  wp (getNewKey m k nk) s Q.
Proof.
  intros H. destruct k as [k|]; [|by apply (H m s)]. apply wp_bind, wp_touch. auto.
Qed.

Lemma wp_on_sub {A} (m : Eff S A) s (Q : Try A -> TreeState S -> Prop) :
  Q (snd (m (sub s))) (set_sub (fst (m (sub s))) s) -> wp (on_sub m) s Q.
Proof. unfold wp, on_sub. by destruct (m (sub s)). Qed.

Lemma wp_guard e b s (Q : Try unit -> TreeState S -> Prop) :
  (b = true -> Q (Success tt) s) -> (b = false -> Q (Failure e) s) -> wp (guard e b) s Q.
Proof. unfold wp, guard. destruct b; auto. Qed.
End Frame.

(** One step of a computation, leaving the frame facts in the context. *)
Ltac wp_step :=
  match goal with
  | |- wp (bind _ _) _ _ => apply wp_bind
  | |- wp (ret _) _ _ => apply wp_ret
  | |- wp (throw _) _ _ => apply wp_throw
  | |- wp (gets _) _ _ => apply wp_gets
  | |- wp (modify _) _ _ => apply wp_modify
  | |- wp (lift_try _) _ _ => apply wp_lift
  | |- wp (onNodeVisit _ _ _ _) _ _ =>
      apply wp_onNodeVisit; let s := fresh "s" in let F := fresh "F" in
      intros s F ?
  | |- wp (getNew _ _ _ _ _) _ _ =>
      apply wp_getNew; let m := fresh "m" in let s := fresh "s" in let F := fresh "F" in
      intros m s F
  | |- wp (getNewLeaf _ _ _ _) _ _ =>
      apply wp_getNewLeaf; let m := fresh "m" in let s := fresh "s" in let F := fresh "F" in
      intros m s F
  | |- wp (getNewKey _ _ _) _ _ =>
      apply wp_getNewKey; let m := fresh "m" in let s := fresh "s" in let F := fresh "F" in
      intros m s F
  | |- wp (touch _) _ _ =>
      apply wp_touch; let m := fresh "m" in let s := fresh "s" in let F := fresh "F" in
      intros m s F
  | |- wp (on_sub _) _ _ => apply wp_on_sub
  end.

Section FrameSaved.
Context {S : Type}.

(** Frames that may write [savedNode]. *)
Record frame_saved_to (o : option Node) (s s' : TreeState S) : Prop := FrameSaved {
  fs_sub : sub s' = sub s;
  fs_height : rootNodeHeight s' = rootNodeHeight s;
  fs_saved : savedNode s' = o
}.
End FrameSaved.

(** Close a frame goal from the frames collected along a run. *)
Ltac frames :=
  repeat match goal with
  | F : frame _ _ |- _ => destruct F; simpl in *
  | F : frame_saved_to _ _ _ |- _ => destruct F; simpl in *
  end; try split; simpl in *; congruence.

(** ** Rotations *)

Section Rebalance.
Context `{GL : GuavaLaws} {S : Type} (cfg : TreeConfig).
Implicit Type s : TreeState S.

Definition grown (n : Node) (h : Z) : Prop :=
  isInternal n = true /\ (h = 0%Z \/ bal n <> 0%Z).

Lemma doubleRotateBalances_ok b : (-1 <= b <= 1)%Z ->
  doubleRotateBalances b =
    Success (if (b =? 1)%Z then (-1)%Z else 0%Z, if (b =? -1)%Z then 1%Z else 0%Z).
Proof.
  intros H. assert (b = 0 \/ b = -1 \/ b = 1)%Z as [-> | [-> | ->]] by lia; done.
Qed.

Lemma toByte_bal z : (-128 <= z <= 127)%Z -> toByte z = z.
Proof. apply toByte_small. Qed.

(** A double rotation around a right child that leans left. *)
Lemma doubleLeftRotate_spec m k lo hi lc rc h s Q :
  wf lo k lc h -> wf k hi rc (h + 2) -> bal rc = (-1)%Z ->
  (forall n s', frame s s' -> wf lo hi n (h + 2) -> bal n = 0%Z ->
     to_map n = to_map lc ∪ to_map rc -> Q (Success n) s') ->
  wp (doubleLeftRotate m (Some k) lc rc) s Q.
Proof.
  intros Hl Hr Hb HQ. destruct rc as [|rm rk rb rl rr|]; try discriminate.
  simpl in Hb; subst. wf_inv. wf_heights.
  destruct (wf_pos _ _ rl _ ltac:(eassumption) ltac:(lia)) as (nm & nk & nb & nl & nr & ->).
  wf_inv. wf_heights. unfold doubleLeftRotate.
  rewrite doubleRotateBalances_ok by lia. repeat wp_step. apply HQ; [frames| |done|].
  - eapply wf_node_intro; [eapply wf_node_intro|eapply wf_node_intro|..]; eauto;
      simpl; repeat case_match; lia.
  - simpl. by rewrite ?(assoc_L (∪)).
Qed.

Lemma doubleRightRotate_spec m k lo hi lc rc h s Q :
  wf lo k lc (h + 2) -> wf k hi rc h -> bal lc = 1%Z ->
  (forall n s', frame s s' -> wf lo hi n (h + 2) -> bal n = 0%Z ->
     to_map n = to_map lc ∪ to_map rc -> Q (Success n) s') ->
  wp (doubleRightRotate m (Some k) lc rc) s Q.
Proof.
  intros Hl Hr Hb HQ. destruct lc as [|lm lk lb ll lr|]; try discriminate.
  simpl in Hb; subst. wf_inv. wf_heights.
  destruct (wf_pos _ _ lr _ ltac:(eassumption) ltac:(lia)) as (nm & nk & nb & nl & nr & ->).
  wf_inv. wf_heights. unfold doubleRightRotate.
  rewrite doubleRotateBalances_ok by lia. repeat wp_step. apply HQ; [frames| |done|].
  - eapply wf_node_intro; [eapply wf_node_intro|eapply wf_node_intro|..]; eauto;
      simpl; repeat case_match; lia.
  - simpl. by rewrite ?(assoc_L (∪)).
Qed.

(** ** Insertion *)

(** The outcome of a step that changed the subtree: [n'] holds [mp], its
    height is [h] or one more as flagged. *)
Definition changed_ok (lo hi : ADKey) (h : Z) (mp : gmap ADKey ADValue)
    (n' : Node) (inc : bool) : Prop :=
  wf lo hi n' (h + Z.b2z inc) /\ to_map n' = mp /\ (inc = true -> grown n' h).

Lemma rebalanceLeft_spec m lo k hi b ln rn hl hr nl inc old s Q :
  changed_ok lo k hl (to_map nl) nl inc -> wf k hi rn hr ->
  (0 <= hl)%Z -> b = (hr - hl)%Z -> (-1 <= b <= 1)%Z ->
  (forall n inc' s', frame s s' ->
     changed_ok lo hi (1 + Z.max hl hr) (to_map nl ∪ to_map rn) n inc' ->
     Q (Success (n, true, inc', false, old)) s') ->
  wp (rebalanceLeft m (Some k) b ln rn (nl, true, inc, false, old)) s Q.
Proof.
  intros (Hl & _ & Hg) Hr Hpos -> Hb HQ. unfold rebalanceLeft. wf_heights.
  destruct (inc && (hr - hl <? 0)%Z) eqn:E.
  - apply andb_true_iff in E as [-> Eb]. destruct (Hg eq_refl) as [Hi Hbal].
    destruct nl as [|lm lk lb ll lr|]; try discriminate. simpl in Hbal, Hl.
    destruct (Z.ltb_spec lb 0).
    + wf_inv. wf_heights. repeat wp_step. apply HQ; [frames|]. split_and!; [|simpl; by rewrite ?(assoc_L (∪))|done].
      eapply wf_node_intro; [|eapply wf_node_intro|..]; eauto; simpl; lia.
    + assert (lb = 1)%Z by (wf_inv; lia). subst lb. apply wp_bind.
      simpl in Hl. replace (hl + 1)%Z with (hr + 2)%Z in Hl by lia.
      eapply (doubleRightRotate_spec _ _ _ _ _ _ hr); [done..|].
      intros n s' F Hn _ Hm. wp_step. apply HQ; [done|]. split_and!; [|done|done].
      simpl. replace (1 + Z.max hl hr + 0)%Z with (hr + 2)%Z by lia. done.
  - repeat wp_step. apply HQ; [done|]. split_and!; [|done|].
    + eapply wf_node_intro; eauto; destruct inc; simpl in *; rewrite ?toByte_bal by lia;
        b2z_lia.
    + intros [-> ?]%andb_true_iff. split; [done|]. right. simpl.
      rewrite toByte_bal by lia. lia.
Qed.

Lemma rebalanceRight_spec m lo k hi b ln rn hl hr nr inc old s Q :
  wf lo k ln hl -> changed_ok k hi hr (to_map nr) nr inc ->
  (0 <= hr)%Z -> b = (hr - hl)%Z -> (-1 <= b <= 1)%Z ->
  (forall n inc' s', frame s s' ->
     changed_ok lo hi (1 + Z.max hl hr) (to_map ln ∪ to_map nr) n inc' ->
     Q (Success (n, true, inc', false, old)) s') ->
  wp (rebalanceRight m (Some k) b ln rn (nr, true, inc, false, old)) s Q.
Proof.
  intros Hl (Hr & _ & Hg) Hpos -> Hb HQ. unfold rebalanceRight. wf_heights.
  destruct (inc && (0 <? hr - hl)%Z) eqn:E.
  - apply andb_true_iff in E as [-> Eb]. destruct (Hg eq_refl) as [Hi Hbal].
    destruct nr as [|rm rk rb rl rr|]; try discriminate. simpl in Hbal, Hr.
    destruct (Z.ltb_spec 0 rb).
    + wf_inv. wf_heights. repeat wp_step. apply HQ; [frames|]. split_and!; [|simpl; by rewrite ?(assoc_L (∪))|done].
      eapply wf_node_intro; [eapply wf_node_intro|..]; eauto; simpl; lia.
    + assert (rb = -1)%Z by (wf_inv; lia). subst rb. apply wp_bind.
      simpl in Hr. replace (hr + 1)%Z with (hl + 2)%Z in Hr by lia.
      eapply (doubleLeftRotate_spec _ _ _ _ _ _ hl); [done..|].
      intros n s' F Hn _ Hm. wp_step. apply HQ; [done|]. split_and!; [|done|done].
      simpl. replace (1 + Z.max hl hr + 0)%Z with (hl + 2)%Z by lia. done.
  - repeat wp_step. apply HQ; [done|]. split_and!; [|done|].
    + eapply wf_node_intro; eauto; destruct inc; simpl in *; rewrite ?toByte_bal by lia;
        b2z_lia.
    + intros [-> ?]%andb_true_iff. split; [done|]. right. simpl.
      rewrite toByte_bal by lia. lia.
Qed.
End Rebalance.
