(* ===== verification/AvlDelete.v ===== *)
(** * AvlDelete: what the deletion code of AuthenticatedTreeOps does

    [deleteHelper] and its helpers on a well-formed tree, for any class whose
    [replayComparison] reproduces the comparisons of the key with the keys on
    its path ([replays]). *)

From S2P Require Import Prelude External AvlNode AvlOps AvlInv.

(** The comparisons of [key] with the internal keys from the root down to the
    node that holds it, as [replayComparison] numbers them. *)
Section Cmps.
Context `{G : Guava}.

Fixpoint cmps (key : ADKey) (n : Node) : list Z :=
  match n with
  | InternalNode _ (Some k) _ l r =>
      let c := compare key k in
      if (c =? 0)%Z then [0%Z]
      else if (c <? 0)%Z then (-1)%Z :: cmps key l else 1%Z :: cmps key r
  | _ => []
  end.

(** Calling [replayComparison] again and again from [x] yields [cs]. *)
Fixpoint replays {S} (T : TreeMethods S) (x : S) (cs : list Z) : Prop :=
  match cs with
  | [] => True
  | c :: cs' => exists x', replayComparison T x = (x', Success c) /\ replays T x' cs'
  end.
End Cmps.

Section Delete.
Context `{GL : GuavaLaws} {S : Type} (cfg : TreeConfig) (T : TreeMethods S).
Implicit Type s : TreeState S.

Lemma changeNextLeafKey_spec n : forall lo hi h nk op s Q,
  wf lo hi n h -> klt hi nk ->
  (forall n' s', frame s s' -> wf lo nk n' h -> to_map n' = to_map n -> bal n' = bal n ->
     Q (Success n') s') ->
  wp (changeNextLeafKeyOfMaxNode cfg n nk op) s Q.
Proof.
  induction n as [|m k b l IHl r IHr|m k v nk']; intros lo hi h nk op s Q Hwf Hlt HQ.
  - inversion Hwf.
  - wf_inv. simpl. do 2 wp_step. apply wp_bind. eapply IHr; [done..|].
    intros n' s' F' Hn Hm _. wp_step. apply HQ; [frames| |simpl; by rewrite Hm|done].
    by econstructor.
  - wf_inv. simpl. do 3 wp_step. apply HQ; [frames| |done|done].
    constructor. by eapply klt_trans.
Qed.

Lemma changeKeyAndValue_spec n : forall lo hi h nlo nv op s Q,
  wf lo hi n h -> klt nlo lo ->
  (forall n' s', frame s s' -> wf nlo hi n' h ->
     to_map n' = <[nlo := nv]> (delete lo (to_map n)) -> bal n' = bal n ->
     Q (Success n') s') ->
  wp (changeKeyAndValueOfMinNode cfg n nlo nv op) s Q.
Proof.
  induction n as [|m k b l IHl r IHr|m k v nk']; intros lo hi h nlo nv op s Q Hwf Hlt HQ.
  - inversion Hwf.
  - wf_inv. simpl. do 2 wp_step. apply wp_bind. eapply IHl; [done..|].
    intros n' s' F' Hn Hm _. wp_step. apply HQ; [frames| | |done].
    + by econstructor.
    + simpl. rewrite Hm, delete_union, insert_union_l. f_equal.
      symmetry. apply delete_id. eapply wf_none_lo; eauto using wf_lt.
  - wf_inv. simpl. do 3 wp_step. apply HQ; [frames| | |done].
    + constructor. by eapply klt_trans.
    + simpl. by rewrite delete_singleton_eq.
Qed.

(** The outcome of a step that may have shrunk the subtree by one. *)
Definition shrunk_ok (lo hi : ADKey) (h : Z) (mp : gmap ADKey ADValue)
    (n' : Node) (dec : bool) : Prop :=
  wf lo hi n' (h - Z.b2z dec) /\ to_map n' = mp.

Lemma rebalanceLeftShrunk_spec m lo k hi b nl rn hl hr dec op s Q :
  wf lo k nl (hl - Z.b2z dec) -> wf k hi rn hr ->
  b = (hr - hl)%Z -> (-1 <= b <= 1)%Z ->
  (forall n dec' s', frame s s' ->
     shrunk_ok lo hi (1 + Z.max hl hr) (to_map nl ∪ to_map rn) n dec' ->
     Q (Success (n, dec')) s') ->
  wp (rebalanceLeftShrunk cfg m (Some k) b nl rn dec op) s Q.
Proof.
  intros Hl Hr -> Hb HQ. unfold rebalanceLeftShrunk. wf_heights.
  destruct (dec && (0 <? hr - hl)%Z) eqn:E.
  - apply andb_true_iff in E as [-> Eb]. simpl in *. do 2 wp_step.
    destruct (wf_pos _ _ rn _ Hr ltac:(lia)) as (rm & rk & rb & rl & rr & ->).
    destruct (Z.ltb_spec rb 0).
    + assert (rb = -1)%Z by (wf_inv; lia). subst rb. do 2 wp_step. apply wp_bind.
      replace hr with (hl - 1 + 2)%Z in Hr by lia.
      eapply (doubleLeftRotate_spec _ _ _ _ _ _ (hl - 1)); [done..|].
      intros n s' F' Hn _ Hm. wp_step. apply HQ; [frames|]. split; [|done].
      simpl. replace (1 + Z.max hl hr - 1)%Z with (hl - 1 + 2)%Z by lia. done.
    + wf_inv. wf_heights. rewrite !toByte_bal by lia. repeat wp_step.
      apply HQ; [frames|]. split; [|simpl; by rewrite ?(assoc_L (∪))].
      eapply wf_node_intro; [eapply wf_node_intro|..]; eauto; b2z_lia.
  - repeat wp_step. apply HQ; [frames|]. split; [|done].
    destruct dec; simpl in *; rewrite ?toByte_bal by lia;
      eapply wf_node_intro; eauto; b2z_lia.
Qed.

Lemma rebalanceRightShrunk_spec m lo k hi b ln nr hl hr dec op s Q :
  wf lo k ln hl -> wf k hi nr (hr - Z.b2z dec) ->
  b = (hr - hl)%Z -> (-1 <= b <= 1)%Z ->
  (forall n dec' s', frame s s' ->
     shrunk_ok lo hi (1 + Z.max hl hr) (to_map ln ∪ to_map nr) n dec' ->
     Q (Success (n, dec')) s') ->
  wp (rebalanceRightShrunk cfg m (Some k) b ln nr dec op) s Q.
Proof.
  intros Hl Hr -> Hb HQ. unfold rebalanceRightShrunk. wf_heights.
  destruct (dec && (hr - hl <? 0)%Z) eqn:E.
  - apply andb_true_iff in E as [-> Eb]. simpl in *. do 2 wp_step.
    destruct (wf_pos _ _ ln _ Hl ltac:(lia)) as (lm & lk & lb & ll & lr & ->).
    destruct (Z.ltb_spec 0 lb).
    + assert (lb = 1)%Z by (wf_inv; lia). subst lb. do 2 wp_step. apply wp_bind.
      replace hl with (hr - 1 + 2)%Z in Hl by lia.
      eapply (doubleRightRotate_spec _ _ _ _ _ _ (hr - 1)); [done..|].
      intros n s' F' Hn _ Hm. wp_step. apply HQ; [frames|]. split; [|done].
      simpl. replace (1 + Z.max hl hr - 1)%Z with (hr - 1 + 2)%Z by lia. done.
    + wf_inv. wf_heights. rewrite !toByte_bal by lia. repeat wp_step.
      apply HQ; [frames|]. split; [|simpl; by rewrite ?(assoc_L (∪))].
      eapply wf_node_intro; [|eapply wf_node_intro|..]; eauto; b2z_lia.
  - repeat wp_step. apply HQ; [frames|]. split; [|done].
    destruct dec; simpl in *; rewrite ?toByte_bal by lia;
      eapply wf_node_intro; eauto; b2z_lia.
Qed.

(** Removing the maximum leaf: it is saved, the rest ends before its key. *)
Lemma deleteMax_spec n : forall lo hi h op s Q,
  wf lo hi n h -> isInternal n = true ->
  (forall n' dec km vm lm s', frame_saved_to (Some (Leaf lm km vm hi)) s s' ->
     wf lo km n' (h - Z.b2z dec) -> klt km hi ->
     to_map n = <[km := vm]> (to_map n') -> Q (Success (n', dec)) s') ->
  wp (deleteHelper cfg T n true op) s Q.
Proof.
  induction n as [|m k b l IHl r IHr|]; intros lo hi h op s Q Hwf Hi HQ; try discriminate.
  wf_open Hwf as k' hl hr Hl Hr Hb. simpl. do 2 wp_step. apply wp_bind, wp_ret, wp_bind.
  apply wp_guard; [intros _|discriminate].
  destruct r as [|rm rk rb rl rr|rm rk rv rnk]; simpl; [inversion Hr| |].
  - apply wp_bind. eapply IHr; [done..|]. intros n' dec km vm lm s' F' Hn Hkm Hm.
    eapply rebalanceRightShrunk_spec; [done..|].
    intros n2 dec' s2 F2 [Hn2 Hm2]. apply (HQ _ _ km vm lm); [frames|done..|].
    change (to_map (InternalNode rm rk rb rl rr)) with (to_map rl ∪ to_map rr) in Hm.
    rewrite Hm2. simpl. rewrite Hm. symmetry. apply insert_union_r.
    eapply wf_none_hi; [done|]. right. by eapply wf_lt.
  - wf_inv. repeat wp_step. apply (HQ _ _ rk rv rm); [frames| |done|].
    + simpl. by replace (1 + Z.max hl 0 - 1)%Z with hl by lia.
    + simpl. rewrite insert_union_singleton_r; [done|].
      eapply wf_none_hi; [done|apply kle_refl].
Qed.

(** The key is not the interval's lower end, so it is some internal key. *)
Lemma key_in_left lo k hi l r hl hr key v :
  wf lo k l hl -> wf k hi r hr -> klt lo key -> klt key k ->
  (to_map l ∪ to_map r) !! key = Some v ->
  to_map l !! key = Some v /\ isInternal l = true.
Proof.
  intros Hl Hr Hlo Hk. rewrite (to_map_left _ _ _ _ _ _ _ _ Hl Hr Hk).
  intros H. split; [done|]. destruct l as [|?????|? k' v' nk]; [inversion Hl|done|].
  wf_inv. simpl in H. apply lookup_singleton_Some in H as [<- _]. by apply klt_irrefl in Hlo.
Qed.

Lemma key_in_right lo k hi l r hl hr key v :
  wf lo k l hl -> wf k hi r hr -> klt k key ->
  (to_map l ∪ to_map r) !! key = Some v ->
  to_map r !! key = Some v /\ isInternal r = true.
Proof.
  intros Hl Hr Hk.
  rewrite (to_map_right _ _ _ _ _ _ _ _ Hl Hr (klt_kle _ _ Hk)).
  intros H. split; [done|]. destruct r as [|?????|? k' v' nk]; [inversion Hr|done|].
  wf_inv. simpl in H. apply lookup_singleton_Some in H as [<- _]. by apply klt_irrefl in Hk.
Qed.

(** What replaying keeps of the concrete class' fields. *)
Context (P : S -> Prop) (HP : forall x, P x -> P (fst (replayComparison T x))).

(** What deletion promises: the subtree without [key]. *)
Definition deleted_ok (lo hi : ADKey) (h : Z) (key : ADKey) (n : Node) s
    (Q : Try (Node * bool) -> TreeState S -> Prop) : Prop :=
  forall n' dec s',
    P (sub s') -> savedNode s' = None -> rootNodeHeight s' = rootNodeHeight s ->
    shrunk_ok lo hi h (delete key (to_map n)) n' dec -> Q (Success (n', dec)) s'.

(** The found node has a leaf child: the easy deletions. *)
Lemma delete_right_leaf_map lo k l hl (rv : ADValue) :
  wf lo k l hl -> delete k (to_map l ∪ {[ k := rv ]}) = to_map l.
Proof.
  intros Hl. rewrite delete_union, delete_singleton_eq, (right_id_L ∅ (∪)).
  apply delete_id. eapply wf_none_hi; [done|apply kle_refl].
Qed.

Lemma delete_left_leaf_map lo k hi r hr (lv : ADValue) :
  wf k hi r hr -> klt lo k ->
  <[lo := lv]> (delete k (to_map r)) = delete k ({[ lo := lv ]} ∪ to_map r).
Proof.
  intros Hr Hlt. rewrite delete_union, delete_singleton_ne by (by apply not_eq_sym, klt_ne).
  by rewrite insert_union_singleton_l.
Qed.

Lemma delete_hard_map (lo k km : ADKey) (vm : ADValue) (ml : Node) (hm : Z) (mr : gmap ADKey ADValue) (mpl : gmap ADKey ADValue) :
  wf lo km ml hm -> klt km k -> mpl = <[km := vm]> (to_map ml) ->
  to_map ml ∪ <[km := vm]> (delete k mr) = delete k (mpl ∪ mr).
Proof.
  intros Hl Hk ->.
  rewrite delete_union, delete_insert_ne by (by apply not_eq_sym, klt_ne).
  rewrite (delete_id (to_map ml)) by (eapply wf_none_hi; [done|by apply klt_kle]).
  rewrite <- insert_union_r by (eapply wf_none_hi; [done|apply kle_refl]).
  apply insert_union_l.
Qed.

(** The hard case after the maximum of the left subtree was saved. *)
Lemma hard_case_spec (mpl : gmap ADKey ADValue) m k lo hi hl hr ml rn km vm lm dec nk op s Q :
  wf lo km ml (hl - Z.b2z dec) -> klt km k -> mpl = <[km := vm]> (to_map ml) ->
  wf k hi rn hr -> (-1 <= hr - hl <= 1)%Z -> savedNode s = Some (Leaf lm km vm nk) ->
  (forall n dec' s', sub s' = sub s -> savedNode s' = None -> rootNodeHeight s' = rootNodeHeight s ->
     shrunk_ok lo hi (1 + Z.max hl hr) (delete k (mpl ∪ to_map rn)) n dec' ->
     Q (Success (n, dec')) s') ->
  wp (let! saved := gets savedNode in
      match saved with
      | Some (Leaf _ sk sv _) =>
          modify (set_saved None) ;!
          let! mk := getNewKey m (Some k) sk in
          let! rn2 := changeKeyAndValueOfMinNode cfg rn sk sv op in
          let! m' := touch (fst mk) in
          rebalanceLeftShrunk cfg m' (snd mk) (hr - hl) ml rn2 dec op
      | _ => throw NoSuchElement
      end) s Q.
Proof.
  intros Hml Hkm Hm Hr Hb Hs HQ. do 2 wp_step. rewrite Hs. do 2 wp_step. do 2 wp_step.
  apply wp_bind. eapply changeKeyAndValue_spec; [done..|]. intros r' s1 F1 Hr' Hmr _.
  do 2 wp_step. simpl.
  eapply rebalanceLeftShrunk_spec; [done|done|done|done|].
  intros n dec' s3 F3 [Hn Hmn]. apply HQ; [frames..|]. split; [done|].
  rewrite Hmn, Hmr. eapply delete_hard_map; eauto.
Qed.

(** deleteHelper in search mode removes the key. *)
Lemma delete_spec n : forall lo hi h key old op s Q,
  wf lo hi n h -> isInternal n = true -> klt lo key -> to_map n !! key = Some old ->
  replays T (sub s) (cmps key n) -> P (sub s) -> savedNode s = None ->
  deleted_ok lo hi h key n s Q ->
  wp (deleteHelper cfg T n false op) s Q.
Proof.
  induction n as [|m k b l IHl r IHr|]; intros lo hi h key old op s Q Hwf Hi Hlo Hkey Hrep HPs Hsv HQ;
    try discriminate.
  wf_open Hwf as k' hl hr Hl Hr Hb. simpl in Hkey, Hrep. cbn [deleteHelper].
  do 2 wp_step. do 2 wp_step. unfold deleted_ok in HQ. pose proof (HP _ HPs) as HP'. simpl in HQ.
  destruct (Z.eqb_spec (compare key k') 0) as [E0|E0];
    [|destruct (Z.ltb_spec (compare key k') 0) as [E1|E1]].
  - apply compare_eq in E0 as ->. destruct Hrep as (x' & Hx & _).
    rewrite (frame_sub _ _ F), Hx. rewrite Hx in HP'. simpl in HP' |- *. do 2 wp_step.
    destruct (asLeaf r) as [[[rk rv] rnk]|] eqn:Er; [|destruct (asLeaf l) as [[[lk lv] lnk]|] eqn:El].
    + destruct r as [| |rm ? ? ?]; simplify_eq/=. wf_inv. do 2 wp_step. do 2 wp_step. wp_step.
      eapply changeNextLeafKey_spec; [done..|]. intros n' s' F' Hn Hm _. wp_step.
      apply HQ; [frames..|]. split.
      * simpl. by replace (1 + Z.max hl 0 - 1)%Z with hl by lia.
      * rewrite Hm. symmetry. by eapply delete_right_leaf_map.
    + destruct l as [| |lm ? ? ?]; simplify_eq/=. wf_inv. do 2 wp_step. wp_step.
      eapply changeKeyAndValue_spec; [done..|]. intros n' s' F' Hn Hm _. wp_step.
      apply HQ; [frames..|]. split.
      * simpl. by replace (1 + Z.max 0 hr - 1)%Z with hr by lia.
      * rewrite Hm. by eapply delete_left_leaf_map.
    + wp_step. destruct l as [|lm lk lb ll lr|]; [inversion Hl| |discriminate].
      eapply deleteMax_spec; [done..|]. intros ml dec km vm lm' s1 F1 Hml Hkm Hm.
      eapply hard_case_spec; [done..|apply F1|].
      intros n dec' s2 Hb2 Hs2 Hh2 Hn. apply HQ; [by rewrite Hb2, (fs_sub _ _ _ F1)|done|frames|done].
  - destruct (key_in_left _ _ _ _ _ _ _ _ _ Hl Hr Hlo E1 Hkey) as [Hin Hil].
    destruct Hrep as (x' & Hx & Hrep). rewrite (frame_sub _ _ F), Hx. rewrite Hx in HP'. simpl in HP' |- *.
    replace (isLeaf l) with false by (by destruct l). simpl. do 2 wp_step. wp_step.
    eapply IHl; [done..|simpl; by rewrite (frame_saved _ _ F)|].
    intros n' dec s1 HP1 Hs1 Hh1 [Hn Hm].
    eapply rebalanceLeftShrunk_spec; [done..|].
    intros n2 dec' s2 F2 [Hn2 Hm2]. apply HQ; [frames..|]. split; [done|].
    rewrite Hm2, Hm, delete_union. f_equal. symmetry. apply delete_id.
    eapply wf_none_lo; done.
  - assert (klt k' key) as E2 by (apply compare_gt; lia).
    destruct (key_in_right _ _ _ _ _ _ _ _ _ Hl Hr E2 Hkey) as [Hin Hir].
    destruct Hrep as (x' & Hx & Hrep). rewrite (frame_sub _ _ F), Hx. rewrite Hx in HP'. simpl in HP' |- *.
    replace (asLeaf r) with (@None (ADKey * ADValue * ADKey)) by (by destruct r).
    do 2 wp_step. wp_step.
    eapply IHr; [done..|simpl; by rewrite (frame_saved _ _ F)|].
    intros n' dec s1 HP1 Hs1 Hh1 [Hn Hm].
    eapply rebalanceRightShrunk_spec; [done..|].
    intros n2 dec' s2 F2 [Hn2 Hm2]. apply HQ; [frames..|]. split; [done|].
    rewrite Hm2, Hm, delete_union. f_equal. symmetry. apply delete_id.
    eapply wf_none_hi; [done|by apply klt_kle].
Qed.
End Delete.
