(* ===== verification/AvlBits.v ===== *)
(** * AvlBits: the direction bit string of the prover

    [dirs_rep ds bs]: the byte array [ds] of the prover holds exactly the
    bits [bs], least significant first, the unused bits of the last byte being
    zero.  Recording appends a bit and undoing truncates to a prefix. *)

From S2P Require Import Prelude External AvlNode AvlOps AvlProver.

From Stdlib Require Import ZifyNat.

#[local] Arguments Nat.div : simpl never.
#[local] Arguments Nat.modulo : simpl never.
#[local] Ltac Zify.zify_post_hook ::= Z.div_mod_to_equations.

(** ** Bits of one byte *)

Definition bitb (d : byte) (j : Z) : bool :=
  negb (Z.land (b2z d) (toByte (Z.shiftl 1 j)) =? 0)%Z.

Definition bit_indices : list Z := seqZ 0 8.

Lemma bitb_testbit d j : (0 <= j < 8)%Z -> bitb d j = Z.testbit (ub d) j.
Proof.
  intros Hj.
  assert (forallb (fun j => eqb (bitb d j) (Z.testbit (ub d) j)) bit_indices = true) as H.
  { revert d. apply byte_forall. vm_compute. done. }
  rewrite forallb_forall in H. apply eqb_prop, H, list_elem_of_In, elem_of_seqZ. lia.
Qed.

Lemma b2z_testbit d j : (0 <= j < 8)%Z -> Z.testbit (b2z d) j = Z.testbit (ub d) j.
Proof.
  intros Hj.
  assert (forallb (fun j => eqb (Z.testbit (b2z d) j) (Z.testbit (ub d) j)) bit_indices = true) as H.
  { revert d. apply byte_forall. vm_compute. done. }
  rewrite forallb_forall in H. apply eqb_prop, H, list_elem_of_In, elem_of_seqZ. lia.
Qed.

Lemma z2b_testbit z j : (0 <= j < 8)%Z -> Z.testbit (ub (z2b z)) j = Z.testbit z j.
Proof.
  intros Hj. rewrite ub_z2b. change 256%Z with (2 ^ 8)%Z.
  apply Z.mod_pow2_bits_low. lia.
Qed.

Lemma bitb_lor d i j : (0 <= i < 8)%Z -> (0 <= j < 8)%Z ->
  bitb (z2b (Z.lor (b2z d) (Z.shiftl 1 i))) j = bitb d j || (j =? i)%Z.
Proof.
  intros Hi Hj. rewrite !bitb_testbit, z2b_testbit, Z.lor_spec, b2z_testbit by lia. f_equal.
  rewrite Z.shiftl_spec by lia. destruct (Z.eqb_spec j i) as [->|].
  - by rewrite Z.sub_diag.
  - destruct (Z.lt_ge_cases j i); [apply Z.testbit_neg_r; lia|].
    change 1%Z with (2 ^ 0)%Z. apply Z.pow2_bits_false. lia.
Qed.

Lemma bitb_mask d k j : (0 <= k <= 8)%Z -> (0 <= j < 8)%Z ->
  bitb (z2b (Z.land (b2z d) (Z.shiftl 1 k - 1))) j = bitb d j && (j <? k)%Z.
Proof.
  intros Hk Hj. rewrite !bitb_testbit, z2b_testbit, Z.land_spec, b2z_testbit by lia. f_equal.
  rewrite Z.shiftl_1_l. replace (2 ^ k - 1)%Z with (Z.ones k) by (rewrite Z.ones_equiv; lia).
  rewrite Z.testbit_ones by lia. lia.
Qed.

Lemma bitb_ext d d' : (forall j, (0 <= j < 8)%Z -> bitb d j = bitb d' j) -> d = d'.
Proof.
  intros H. apply ub_inj, Z.bits_inj'. intros j Hj.
  destruct (Z.lt_ge_cases j 8) as [Hlt|Hge].
  - rewrite <- !bitb_testbit by lia. apply H. lia.
  - pose proof (ub_range d). pose proof (ub_range d').
    assert (forall z, (0 <= z < 256)%Z -> Z.testbit z j = false) as E.
    { intros z Hz. destruct (Z.eq_dec z 0%Z) as [->|]; [apply Z.bits_0|].
      apply Z.bits_above_log2; [lia|]. apply Z.log2_lt_pow2; [lia|].
      apply (Z.lt_le_trans _ (2 ^ 8)); [lia|]. apply Z.pow_le_mono_r; lia. }
    by rewrite !E.
Qed.

(** ** The bit string *)

(** Bit [i] of the array, as the code addresses it. *)
Definition dbit (ds : bytes) (i : nat) : option bool :=
  (fun d => bitb d (Z.of_nat (i mod 8))) <$> ds !! (i / 8)%nat.

Lemma shiftr3 (i : nat) : Z.shiftr (Z.of_nat i) 3 = Z.of_nat (i / 8).
Proof. rewrite Z.shiftr_div_pow2 by lia. by rewrite Nat2Z.inj_div. Qed.

Lemma land7 (i : nat) : Z.land (Z.of_nat i) 7 = Z.of_nat (i mod 8).
Proof. change 7%Z with (Z.ones 3). rewrite Z.land_ones by lia. by rewrite Nat2Z.inj_mod. Qed.

Lemma bit_of_dbit ds (i : nat) : bit_of ds (Z.of_nat i) = of_option IndexOutOfBounds (dbit ds i).
Proof.
  unfold bit_of, dbit, array_get. rewrite shiftr3, land7.
  destruct (Z.ltb_spec (Z.of_nat (i / 8)) 0); [lia|]. rewrite Nat2Z.id.
  by destruct (ds !! _).
Qed.

Definition dirs_rep (ds : bytes) (bs : list bool) : Prop :=
  length ds = ((length bs + 7) / 8)%nat /\
  forall i, (i < 8 * length ds)%nat -> dbit ds i = Some (default false (bs !! i)).

Lemma dirs_rep_nil : dirs_rep [] [].
Proof. split; [done|]. simpl. lia. Qed.

(** The representation is canonical. *)
Lemma dirs_rep_inj ds ds' bs : dirs_rep ds bs -> dirs_rep ds' bs -> ds = ds'.
Proof.
  intros [Hl Hb] [Hl' Hb']. apply list_eq. intros i.
  destruct (decide (i < length ds)%nat) as [Hi|Hi].
  - destruct (lookup_lt_is_Some_2 ds i Hi) as [d Hd].
    destruct (lookup_lt_is_Some_2 ds' i ltac:(lia)) as [d' Hd'].
    rewrite Hd, Hd'. f_equal. apply bitb_ext. intros j Hj.
    pose proof (Hb (8 * i + Z.to_nat j)%nat ltac:(lia)) as E.
    pose proof (Hb' (8 * i + Z.to_nat j)%nat ltac:(lia)) as E'.
    unfold dbit in E, E'.
    replace ((8 * i + Z.to_nat j) / 8)%nat with i in E, E' by lia.
    replace ((8 * i + Z.to_nat j) mod 8)%nat with (Z.to_nat j) in E, E' by lia.
    rewrite Hd in E. rewrite Hd' in E'. simpl in E, E'. rewrite Z2Nat.id in E, E' by lia.
    congruence.
  - rewrite !lookup_ge_None_2 by lia. done.
Qed.

(** What recording one direction does to the array. *)
Lemma recordDirection_spec b p bs :
  dirs_rep (directions p) bs -> directionsBitLength p = zlen bs ->
  exists p', recordDirection b p = (p', Success tt) /\
    dirs_rep (directions p') (bs ++ [b]) /\ directionsBitLength p' = zlen (bs ++ [b]) /\
    replayIndex p' = replayIndex p /\ lastRightStep p' = lastRightStep p /\ found p' = found p.
Proof.
  intros [Hl Hb] Hn. unfold recordDirection. rewrite Hn. unfold zlen in *.
  rewrite land7, shiftr3.
  destruct (Z.eqb_spec (Z.of_nat (length bs mod 8)) 0) as [E|E]; [|destruct b].
  - eexists. split; [done|]. simpl. split_and!; try done; [|rewrite length_app; cbn [length]; lia].
    split; [rewrite !length_app; cbn [length]; lia|]. rewrite length_app. cbn [length]. intros i Hi.
    unfold dbit. destruct (decide (i < 8 * length (directions p))%nat) as [Hlt|Hge].
    + rewrite lookup_app_l by lia. rewrite lookup_app_l by lia. by apply Hb.
    + replace (i / 8)%nat with (length (directions p)) by lia. rewrite list_lookup_middle by done.
      simpl. rewrite lookup_app_r by lia.
      assert (bitb (if b then z2b 1 else z2b 0) (Z.of_nat (i mod 8)) =
              default false ([b] !! (i mod 8)%nat)) as ->.
      { assert (i mod 8 < 8)%nat as Hm by lia. revert Hm. generalize (i mod 8)%nat. intros j Hm.
        do 8 (destruct j as [|j]; [by destruct b|]). lia. }
      repeat f_equal. lia.
  - assert (length bs / 8 < length (directions p))%nat as Hlt by lia.
    destruct (lookup_lt_is_Some_2 _ _ Hlt) as [d Hd].
    unfold array_get. destruct (Z.ltb_spec (Z.of_nat (length bs / 8)) 0); [lia|].
    rewrite Nat2Z.id, Hd. simpl. eexists. split; [done|].
    simpl. split_and!; try done; [|rewrite length_app; cbn [length]; lia].
    split; [rewrite length_insert, length_app; cbn [length]; lia|]. rewrite length_insert. intros i Hi.
    specialize (Hb i Hi). unfold dbit in *.
    destruct (decide (i / 8 = length bs / 8)%nat) as [Ei|Ei].
    + rewrite Ei, list_lookup_insert_eq by done. rewrite Ei, Hd in Hb. simpl in *.
      injection Hb as Hb. rewrite bitb_lor, Hb by lia. f_equal.
      destruct (Nat.lt_trichotomy i (length bs)) as [Hi'|[->|Hi']].
      * rewrite lookup_app_l by lia. destruct (Z.eqb_spec (Z.of_nat (i mod 8)) (Z.of_nat (length bs mod 8))); [lia|].
        apply orb_false_r.
      * rewrite list_lookup_middle by done. rewrite Z.eqb_refl. apply orb_true_r.
      * rewrite !lookup_ge_None_2 by (rewrite ?length_app; cbn [length]; lia). cbn [default].
        apply Z.eqb_neq. lia.
    + rewrite list_lookup_insert_ne by done. rewrite Hb. f_equal.
      destruct (decide (i < length bs)%nat).
      * by rewrite lookup_app_l by lia.
      * rewrite !lookup_ge_None_2 by (rewrite ?length_app; cbn [length]; lia). done.
  - eexists. split; [done|]. simpl. split_and!; try done; [|rewrite length_app; cbn [length]; lia].
    split; [rewrite length_app; cbn [length]; lia|]. intros i Hi. rewrite Hb by lia. f_equal.
    destruct (Nat.lt_trichotomy i (length bs)) as [Hi'|[->|Hi']].
    + by rewrite lookup_app_l by lia.
    + rewrite list_lookup_middle by done. by rewrite lookup_ge_None_2 by lia.
    + rewrite !lookup_ge_None_2 by (rewrite ?length_app; cbn [length]; lia). done.
Qed.

(** Undoing keeps the first [replayIndex] bits. *)
Lemma undoDirections_rep f bs extra :
  dirs_rep (directions f) (bs ++ extra) -> replayIndex f = zlen bs ->
  dirs_rep (directions (undoDirections f)) bs /\ directionsBitLength (undoDirections f) = zlen bs.
Proof.
  intros [Hl Hb] Hr. rewrite length_app in Hl. unfold undoDirections. rewrite Hr. unfold zlen.
  split; [|done]. rewrite land7. simpl directions.
  assert (Z.to_nat (Z.quot (Z.of_nat (length bs) + 7) 8) = ((length bs + 7) / 8)%nat) as ->.
  { rewrite Z.quot_div_nonneg by lia. lia. }
  set (ds := take ((length bs + 7) / 8) (directions f)).
  assert (length ds = (length bs + 7) / 8)%nat as Hds by (subst ds; rewrite length_take; lia).
  assert (forall i, i < 8 * length ds -> dbit ds i = Some (default false ((bs ++ extra) !! i)))%nat as Hd.
  { intros i Hi. rewrite <- Hb by lia. unfold dbit, ds. rewrite lookup_take_lt by lia. done. }
  destruct (Z.ltb_spec 0 (Z.of_nat (length bs mod 8))) as [Hk|Hk].
  - destruct (lookup_lt_is_Some_2 ds (length ds - 1)%nat ltac:(lia)) as [d E]. rewrite E.
    split; [by rewrite length_insert|]. rewrite length_insert. intros i Hi. specialize (Hd i Hi).
    unfold dbit in *. destruct (decide (i / 8 = length ds - 1)%nat) as [Ei|Ei].
    + rewrite Ei, list_lookup_insert_eq by lia. rewrite Ei, E in Hd. simpl in *. injection Hd as Hd.
      rewrite bitb_mask, Hd by lia. f_equal.
      destruct (Z.ltb_spec (Z.of_nat (i mod 8)) (Z.of_nat (length bs mod 8))).
      * rewrite lookup_app_l by lia. apply andb_true_r.
      * rewrite andb_false_r, lookup_ge_None_2 by lia. done.
    + rewrite list_lookup_insert_ne by done. rewrite Hd. by rewrite lookup_app_l by lia.
  - split; [done|]. intros i Hi. rewrite Hd by done. by rewrite lookup_app_l by lia.
Qed.
