(* ===== verification/AvlModify.v ===== *)
(** * AvlModify: the prover's search and modification of a well-formed tree

    The abstract dictionary operation [dict_step], the path the prover records
    and the specification of [modifyHelper] run with the prover's methods:
    what it returns is decided by the dictionary, what it records is the
    search path, and a failure leaves every node object unwritten. *)

From S2P Require Import Prelude External AvlNode AvlOps AvlProver AvlInv AvlDelete AvlBits.

(** ** The abstract dictionary *)
Section Dict.
Context `{G : Guava} (cfg : TreeConfig).

(** What an operation asks for, given the stored value: nothing ([None]),
    removal or storing a value. *)
Definition decide_op (op : Operation) (old : option ADValue) : Try (option (option ADValue)) :=
  if isLookup op then Success None
  else let? upd := updateFn op old in
       match upd with
       | None => Success (match old with Some _ => Some None | None => None end)
       | Some v => let? _ := checkValueLength cfg v in Success (Some (Some v))
       end.

Definition valid_key (key : ADKey) : bool :=
  (0 <? compare key (NegativeInfinityKey cfg))%Z &&
  (compare key (PositiveInfinityKey cfg) <? 0)%Z &&
  Nat.eqb (length key) (keyLength cfg).

(** One operation on a dictionary: the old value and the new dictionary. *)
Definition dict_step (op : Operation) (m : gmap ADKey ADValue)
  : Try (option ADValue * gmap ADKey ADValue) :=
  if valid_key (op_key op) then
    let? d := decide_op op (m !! op_key op) in
    Success (m !! op_key op,
             match d with
             | None => m
             | Some None => delete (op_key op) m
             | Some (Some v) => <[op_key op := v]> m
             end)
  else Failure IllegalArgument.
End Dict.

(** ** The recorded path *)
Section Path.
Context `{G : Guava}.

(** [fnd]: whether the key was met above; then the search goes left on to
    the minimum leaf.  [true] is left. *)
Fixpoint path (fnd : bool) (key : ADKey) (n : Node) : list bool :=
  match n with
  | InternalNode _ (Some k) _ l r =>
      if fnd then true :: path true key l
      else let c := compare key k in
           if (c =? 0)%Z then false :: path true key r
           else if (c <? 0)%Z then true :: path false key l
           else false :: path false key r
  | _ => []
  end.

(** The prover's fields: recorded bits, replay position, last match, flag. *)
Record pfields (bs : list bool) (ri lrs : Z) (fnd : bool) (f : ProverFields) : Prop := PFields {
  pf_dirs : dirs_rep (directions f) bs;
  pf_len : directionsBitLength f = zlen bs;
  pf_ri : replayIndex f = ri;
  pf_lrs : lastRightStep f = lrs;
  pf_found : found f = fnd
}.

(** Where the last match is after a search that started with [bs] recorded. *)
Definition last_match (fnd : bool) (key : ADKey) (n : Node) (bs : list bool) (lrs : Z) : Z :=
  if fnd then lrs
  else if existsb (Z.eqb 0) (cmps key n) then (zlen bs + zlen (cmps key n) - 1)%Z else lrs.
End Path.

Section ProverMethods.
Context `{GL : GuavaLaws}.

Lemma pfields_record b bs ri lrs fnd f : pfields bs ri lrs fnd f ->
  exists f', recordDirection b f = (f', Success tt) /\ pfields (bs ++ [b]) ri lrs fnd f'.
Proof.
  intros []. destruct (recordDirection_spec b f bs) as (f' & -> & ? & ? & ? & ? & ?); [done..|].
  exists f'. split; [done|]. split; congruence.
Qed.

(** One step down: the direction of [path], recorded. *)
Lemma prover_next_spec key m k b l r bs ri lrs fnd f :
  pfields bs ri lrs fnd f ->
  let c := compare key k in
  let left := fnd || negb (c =? 0)%Z && (c <? 0)%Z in
  exists f', prover_nextDirectionIsLeft key (InternalNode m (Some k) b l r) f = (f', Success left) /\
    pfields (bs ++ [left]) ri (if negb fnd && (c =? 0)%Z then zlen bs else lrs)
            (fnd || (c =? 0)%Z) f'.
Proof.
  intros Hf c left. unfold prover_nextDirectionIsLeft, bind at 1, gets, id.
  destruct Hf as [Hd Hl Hr Hs Hfd]. rewrite Hfd. fold c. subst left.
  destruct fnd; simpl.
  - destruct (pfields_record true bs ri lrs true f) as (f' & E & Hf'); [by split|].
    exists f'. unfold bind, ret. by rewrite E.
  - destruct (c =? 0)%Z eqn:Ec; simpl.
    + destruct (pfields_record false bs ri (zlen bs) true
        (set_lastRightStep (directionsBitLength f) (set_found true f))) as (f' & E & Hf'); [by split|].
      exists f'. unfold bind, ret, modify. simpl. rewrite Hl in *. by rewrite E.
    + destruct (pfields_record (c <? 0)%Z bs ri lrs false f) as (f' & E & Hf'); [by split|].
      exists f'. unfold bind, ret. by rewrite E.
Qed.

Lemma prover_matches_spec key n bs ri lrs fnd f :
  pfields bs ri lrs fnd f ->
  exists f', prover_keyMatchesLeaf key n f = (f', Success fnd) /\ pfields bs ri lrs false f'.
Proof. intros []. eexists. unfold prover_keyMatchesLeaf, bind, gets, modify, ret. simpl.
  split; [by f_equal; f_equal|by split]. Qed.
End ProverMethods.

(** ** modifyHelper *)

Section Modify.
Context `{GL : GuavaLaws} (cfg : TreeConfig).
Implicit Type s : TreeState ProverFields.

(** Where the searched key lies: above the match it is inside the interval,
    below it is the interval's lower end. *)
Definition search_pre (fnd : bool) (key lo hi : ADKey) : Prop :=
  if fnd then key = lo else klt lo key /\ klt key hi.

(** The result the dictionary dictates. *)
Definition modify_outcome (op : Operation) (key lo hi : ADKey) (h : Z) (n : Node)
    s (r : Try ModifyResult) s' : Prop :=
  let old := to_map n !! key in
  match decide_op cfg op old with
  | Failure e => r = Failure e /\ mutations s' = mutations s
  | Success None => r = Success (n, false, false, false, old)
  | Success (Some None) => r = Success (n, false, false, true, old)
  | Success (Some (Some v)) => exists n' inc,
      r = Success (n', true, inc, false, old) /\
      changed_ok lo hi h (<[key := v]> (to_map n)) n' inc
  end.

Lemma modifyFound_spec m k v nk op s Q : klt k nk ->
  (forall r s', frame s s' -> modify_outcome op k k nk 0 (Leaf m k v nk) s r s' -> Q r s') ->
  wp (modifyFound cfg m k v nk op) s Q.
Proof.
  intros Hlt. unfold modify_outcome, modifyFound, decide_op. simpl. rewrite lookup_singleton_eq.
  destruct (isLookup op) eqn:Eop; intros HQ; [repeat wp_step; by apply HQ|].
  do 2 wp_step. destruct (updateFn op (Some v)) as [[newV|]|e]; simpl in *;
    [|repeat wp_step; by apply HQ|by apply HQ].
  do 2 wp_step. destruct (checkValueLength cfg newV); simpl in *; [|by apply HQ].
  repeat wp_step. apply HQ; [by etrans|]. eexists _, false. split; [done|].
  split_and!; [by constructor|simpl; by rewrite insert_singleton_eq|done].
Qed.

Lemma modifyMissing_spec m k v nk key op s Q : klt k key -> klt key nk ->
  (forall r s', frame s s' -> modify_outcome op key k nk 0 (Leaf m k v nk) s r s' -> Q r s') ->
  wp (modifyMissing cfg prover_methods m k v nk key op) s Q.
Proof.
  intros Hlt Hgt. unfold modify_outcome, modifyMissing, decide_op. simpl.
  rewrite lookup_singleton_ne by (by apply klt_ne).
  destruct (isLookup op) eqn:Eop; intros HQ; [repeat wp_step; by apply HQ|].
  do 2 wp_step. destruct (updateFn op None) as [[newV|]|e]; simpl in *;
    [|repeat wp_step; by apply HQ|by apply HQ].
  do 2 wp_step. destruct (checkValueLength cfg newV); simpl in *; [|by apply HQ].
  do 2 wp_step. unfold addNode, alloc. do 2 wp_step. repeat wp_step. simpl. repeat wp_step.
  apply HQ; [frames|]. eexists _, true. split; [done|]. split_and!.
  - apply (wf_node_intro _ _ _ _ _ _ _ 0 0); [by constructor..|lia|lia|done].
  - simpl. rewrite insert_union_singleton_r; [done|].
    by apply lookup_singleton_ne, klt_ne.
  - intros _. split; [done|by left].
Qed.

(** The outcome in the left subtree, rebalanced, is the outcome of the node. *)
Lemma lift_left m lo k hi l r hl hr key op s0 r0 s1 Q :
  wf lo k l hl -> wf k hi r hr -> (-1 <= hr - hl <= 1)%Z -> klt key k ->
  modify_outcome op key lo k hl l s0 r0 s1 ->
  let n := InternalNode m (Some k) (hr - hl) l r in
  (forall r' s', frame s1 s' ->
     modify_outcome op key lo hi (1 + Z.max hl hr) n s0 r' s' -> Q r' s') ->
  match r0 with
  | Success res => wp (onNodeVisit cfg n op false ;! rebalanceLeft m (Some k) (hr - hl) l r res) s1 Q
  | Failure e => Q (Failure e) s1
  end.
Proof.
  intros Hl Hr Hb Hk Hout n HQ. unfold modify_outcome in *. simpl in HQ.
  rewrite (to_map_left _ _ _ _ _ _ _ _ Hl Hr Hk) in HQ.
  destruct (decide_op cfg op (to_map l !! key)) as [[[v|]|]|e].
  - destruct Hout as (n' & inc & -> & Hch). do 2 wp_step.
    pose proof (proj1 (proj2 Hch)) as Hm.
    eapply (rebalanceLeft_spec _ lo k hi _ _ _ hl hr); [|done|by eapply wf_nonneg|done|done|].
    { destruct Hch as (? & _ & ?). by split_and!. }
    intros n2 inc' s2 F2 Hn2. apply HQ; [by etrans|]. eexists _, _. split; [done|].
    by rewrite insert_union_l, <- Hm.
  - subst r0. repeat wp_step. by apply HQ.
  - subst r0. repeat wp_step. by apply HQ.
  - destruct Hout as [-> ?]. by apply HQ.
Qed.

Lemma lift_right m lo k hi l r hl hr key op s0 r0 s1 Q :
  wf lo k l hl -> wf k hi r hr -> (-1 <= hr - hl <= 1)%Z -> kle k key ->
  modify_outcome op key k hi hr r s0 r0 s1 ->
  let n := InternalNode m (Some k) (hr - hl) l r in
  (forall r' s', frame s1 s' ->
     modify_outcome op key lo hi (1 + Z.max hl hr) n s0 r' s' -> Q r' s') ->
  match r0 with
  | Success res => wp (onNodeVisit cfg n op false ;! rebalanceRight m (Some k) (hr - hl) l r res) s1 Q
  | Failure e => Q (Failure e) s1
  end.
Proof.
  intros Hl Hr Hb Hk Hout n HQ. unfold modify_outcome in *. simpl in HQ.
  rewrite (to_map_right _ _ _ _ _ _ _ _ Hl Hr Hk) in HQ.
  destruct (decide_op cfg op (to_map r !! key)) as [[[v|]|]|e].
  - destruct Hout as (n' & inc & -> & Hch). do 2 wp_step.
    pose proof (proj1 (proj2 Hch)) as Hm.
    eapply (rebalanceRight_spec _ lo k hi _ _ _ hl hr); [done| |by eapply wf_nonneg|done|done|].
    { destruct Hch as (? & _ & ?). by split_and!. }
    intros n2 inc' s2 F2 Hn2. apply HQ; [by etrans|]. eexists _, _. split; [done|].
    rewrite insert_union_r, <- Hm; [done|]. by eapply wf_none_hi.
  - subst r0. repeat wp_step. by apply HQ.
  - subst r0. repeat wp_step. by apply HQ.
  - destruct Hout as [-> ?]. by apply HQ.
Qed.

Lemma pfields_lrs bs ri lrs lrs' fnd f :
  pfields bs ri lrs fnd f -> lrs = lrs' -> pfields bs ri lrs' fnd f.
Proof. by intros ? <-. Qed.

Lemma modifyHelper_spec n : forall fnd lo hi h key op bs ri lrs s Q,
  wf lo hi n h -> search_pre fnd key lo hi -> pfields bs ri lrs fnd (sub s) ->
  (forall r s',
     pfields (bs ++ path fnd key n) ri (last_match fnd key n bs lrs) false (sub s') ->
     rootNodeHeight s' = rootNodeHeight s -> savedNode s' = savedNode s ->
     modify_outcome op key lo hi h n s r s' -> Q r s') ->
  wp (modifyHelper cfg prover_methods n key op) s Q.
Proof.
  induction n as [|m k b l IHl r IHr|m k v nk]; intros fnd lo hi h key op bs ri lrs s Q Hwf Hpre Hpf HQ.
  - inversion Hwf.
  - wf_open Hwf as k' hl hr Hl Hr Hb. cbn [modifyHelper]. do 2 wp_step.
    destruct (prover_next_spec key m k' (hr - hl) l r bs ri lrs fnd (sub s) Hpf) as (f' & E & Hf').
    cbn [nextDirectionIsLeft prover_methods]. rewrite E. cbn [fst snd].
    assert (to_map (InternalNode m (Some k') (hr - hl) l r) = to_map l ∪ to_map r) as Em by done.
    destruct fnd; simpl in *; [|destruct (Z.eqb_spec (compare key k') 0) as [E0|E0];
      [|destruct (Z.ltb_spec (compare key k') 0) as [E1|E1]]]; simpl in *; wp_step.
    + eapply (IHl true); [done|done|exact Hf'|]. intros r0 s1 Hp1 Hh1 Hs1 Ho1.
      eapply lift_left; [done..| |exact Ho1|].
      { subst key. by eapply wf_lt. }
      intros r2 s2 F2 Ho2. rewrite <- app_assoc in Hp1. simpl in Hp1.
      apply HQ; [rewrite (frame_sub _ _ F2); exact Hp1|frames|frames|done].
    + apply compare_eq in E0 as E0'. subst key. eapply (IHr true); [done|done|exact Hf'|].
      intros r0 s1 Hp1 Hh1 Hs1 Ho1. eapply lift_right; [done..| |exact Ho1|].
      { apply kle_refl. }
      intros r2 s2 F2 Ho2. rewrite <- app_assoc in Hp1. simpl in Hp1.
      apply HQ; [|frames|frames|done]. rewrite (frame_sub _ _ F2).
      replace (zlen bs + zlen [0] - 1)%Z with (zlen bs) by (unfold zlen; simpl; lia).
      exact Hp1.
    + destruct Hpre. eapply (IHl false); [done|by split|exact Hf'|]. intros r0 s1 Hp1 Hh1 Hs1 Ho1.
      eapply lift_left; [done..|exact Ho1|].
      intros r2 s2 F2 Ho2. rewrite <- app_assoc in Hp1. simpl in Hp1.
      apply HQ; [|frames|frames|done]. rewrite (frame_sub _ _ F2).
      eapply pfields_lrs; [exact Hp1|]. unfold zlen. rewrite length_app. simpl. case_match; lia.
    + assert (klt k' key) as E2 by (apply compare_gt; lia).
      destruct Hpre. eapply (IHr false); [done|by split|exact Hf'|]. intros r0 s1 Hp1 Hh1 Hs1 Ho1.
      eapply lift_right; [done..|by apply klt_kle|exact Ho1|].
      intros r2 s2 F2 Ho2. rewrite <- app_assoc in Hp1. simpl in Hp1.
      apply HQ; [|frames|frames|done]. rewrite (frame_sub _ _ F2).
      eapply pfields_lrs; [exact Hp1|]. unfold zlen. rewrite length_app. simpl. case_match; lia.
  - wf_inv. cbn [modifyHelper]. do 2 wp_step.
    destruct (prover_matches_spec key (Leaf m k v nk) bs ri lrs fnd (sub s) Hpf) as (f' & E & Hf').
    cbn [keyMatchesLeaf prover_methods]. rewrite E. cbn [fst snd].
    replace (path fnd key (Leaf m k v nk)) with (@nil bool) in HQ by done.
    rewrite app_nil_r in HQ. destruct fnd; simpl in Hpre, HQ.
    + subst key. apply modifyFound_spec; [done|]. intros r s' F Ho.
      apply HQ; [by rewrite (frame_sub _ _ F)|frames|frames|done].
    + destruct Hpre. apply modifyMissing_spec; [done..|]. intros r s' F Ho.
      apply HQ; [by rewrite (frame_sub _ _ F)|frames|frames|done].
Qed.
End Modify.
