(* ===== verification/AvlProverSpec.v ===== *)
(** * AvlProverSpec: the prover implements the dictionary

    The prover's invariant, that each operation refines [dict_step] and keeps
    the invariant, what a failed operation leaves unchanged, the read-only
    lookups, the debug check, and the bound on the height. *)

From S2P Require Import Prelude External AvlNode AvlOps AvlProver AvlInv AvlDelete AvlBits AvlModify.

(** ** Replaying a recorded path *)
Section Replay.
Context `{GL : GuavaLaws}.

Definition hit (key : ADKey) (n : Node) : bool := existsb (Z.eqb 0) (cmps key n).

Lemma cmps_hit lo hi n h key : wf lo hi n h -> klt lo key ->
  is_Some (to_map n !! key) -> hit key n = true.
Proof.
  unfold hit. induction 1 as [m k v nk Hk|m lo k hi b l r hl hr Hl IHl Hr IHr _ _]; simpl; intros Hlo Hs.
  - destruct Hs as [? [-> _]%lookup_singleton_Some]. by apply klt_irrefl in Hlo.
  - destruct (Z.eqb_spec (compare key k) 0) as [E0|E0]; [done|].
    destruct (Z.ltb_spec (compare key k) 0) as [E1|E1]; simpl.
    + rewrite (to_map_left _ _ _ _ _ _ _ _ Hl Hr E1) in Hs. auto.
    + assert (klt k key) as E2 by (apply compare_gt; lia).
      rewrite (to_map_right _ _ _ _ _ _ _ _ Hl Hr (klt_kle _ _ E2)) in Hs. auto.
Qed.

(** A class whose [replayComparison] reads the recorded bits up to the last
    match, [X i] being its fields at position [i], replays the comparisons. *)
Lemma replays_path {S : Type} (T : TreeMethods S) (X : Z -> S) lrs key n : forall start : Z,
  (forall (i : nat) (b : bool), path false key n !! i = Some b -> (start + Z.of_nat i < lrs)%Z ->
     replayComparison T (X (start + Z.of_nat i)%Z) =
       (X (start + Z.of_nat i + 1)%Z, Success (if b then -1 else 1)%Z)) ->
  replayComparison T (X lrs) = (X (lrs + 1)%Z, Success 0%Z) ->
  hit key n = true -> lrs = (start + zlen (cmps key n) - 1)%Z ->
  replays T (X start) (cmps key n).
Proof.
  unfold hit. induction n as [|m [k|] b l IHl r IHr|]; intros start Hstep H0 Hhit Hlrs; try discriminate.
  cbn [cmps path] in *. destruct (Z.eqb_spec (compare key k) 0) as [E0|E0].
  { replace start with lrs by (unfold zlen in Hlrs; simpl in Hlrs; lia). simpl. eauto. }
  destruct (compare key k <? 0)%Z; simpl in Hhit |- *.
  - assert (0 < length (cmps key l)) by (destruct (cmps key l); simpl in *; [done|lia]).
    unfold zlen in Hlrs. simpl in Hlrs.
    eexists. split; [specialize (Hstep 0 _ eq_refl); rewrite Z.add_0_r in Hstep; apply Hstep; lia|].
    apply IHl; [|done|done|unfold zlen; lia]. intros i b' Hi Hlt.
    replace (start + 1 + Z.of_nat i)%Z with (start + Z.of_nat (1 + i))%Z by lia.
    apply (Hstep (1 + i) b' Hi). lia.
  - assert (0 < length (cmps key r)) by (destruct (cmps key r); simpl in *; [done|lia]).
    unfold zlen in Hlrs. simpl in Hlrs.
    eexists. split; [specialize (Hstep 0 _ eq_refl); rewrite Z.add_0_r in Hstep; apply Hstep; lia|].
    apply IHr; [|done|done|unfold zlen; lia]. intros i b' Hi Hlt.
    replace (start + 1 + Z.of_nat i)%Z with (start + Z.of_nat (1 + i))%Z by lia.
    apply (Hstep (1 + i) b' Hi). lia.
Qed.

(** The bits are where [bit_of] reads them. *)
Lemma dirs_rep_bit ds bs i b : dirs_rep ds bs -> bs !! i = Some b ->
  bit_of ds (Z.of_nat i) = Success b.
Proof.
  intros [Hl Hb] Hi. rewrite bit_of_dbit, Hb; [by rewrite Hi|].
  apply lookup_lt_Some in Hi. pose proof (Nat.div_mod_eq (length bs + 7) 8).
  pose proof (Nat.mod_upper_bound (length bs + 7) 8 ltac:(lia)). lia.
Qed.

Lemma prover_replays bs key n ri lrs f :
  pfields (bs ++ path false key n) ri (last_match false key n bs lrs) false f ->
  ri = zlen bs -> hit key n = true -> replays prover_methods f (cmps key n).
Proof.
  intros [Hd Hl Hr Hs Hf] -> Hhit. unfold last_match in Hs. unfold hit in Hhit. rewrite Hhit in Hs.
  set (X := fun i => set_replayIndex i f).
  replace f with (X (zlen bs)) by (subst X; destruct f; simpl in *; by subst).
  apply (replays_path _ _ (lastRightStep f)); [| |done|done].
  - intros i b Hi Hlt. cbn. unfold prover_replayComparison, bind, gets, modify, ret, lift_try, id. simpl.
    destruct (Z.eqb_spec (zlen bs + Z.of_nat i) (lastRightStep f)); [lia|].
    replace (zlen bs + Z.of_nat i)%Z with (Z.of_nat (length bs + i)) by (unfold zlen; lia).
    rewrite (dirs_rep_bit _ _ _ b Hd); [by destruct b|].
    rewrite lookup_app_r by lia. by rewrite Nat.add_comm, Nat.add_sub.
  - cbn. unfold prover_replayComparison, bind, gets, modify, ret, id. simpl. by rewrite Z.eqb_refl.
Qed.
End Replay.

(** ** One operation *)
Section Operation.
Context `{GL : GuavaLaws} (cfg : TreeConfig).
Abbreviation NegInf := (NegativeInfinityKey cfg).
Abbreviation PosInf := (PositiveInfinityKey cfg).

(** Applying a decision to a dictionary. *)
Definition apply_decision (key : ADKey) (d : option (option ADValue)) (m : gmap ADKey ADValue) :=
  match d with
  | None => m
  | Some None => delete key m
  | Some (Some v) => <[key := v]> m
  end.

Lemma valid_key_range key : valid_key cfg key = true -> klt NegInf key /\ klt key PosInf.
Proof.
  unfold valid_key. rewrite !andb_true_iff, Z.ltb_lt, Z.ltb_lt. intros [[H1 H2] _].
  split; [by apply compare_gt|done].
Qed.

(** Replaying moves the replay position only. *)
Definition replayed (bs : list bool) (lrs : Z) (f : ProverFields) : Prop :=
  exists ri, pfields bs ri lrs false f.

Lemma pfields_ri_kept bs ri lrs f : pfields bs ri lrs false f -> replayed bs lrs f.
Proof. by exists ri. Qed.

Lemma prover_replay_keeps bs lrs f :
  replayed bs lrs f -> replayed bs lrs (fst (replayComparison prover_methods f)).
Proof.
  intros (ri & [Hd Hl Hr Hs Hf]). cbn. unfold prover_replayComparison, bind, gets, modify, ret, id.
  destruct (replayIndex f =? lastRightStep f)%Z; [|unfold lift_try; destruct (bit_of _ _)]; simpl;
    eexists; by split.
Qed.

(** What one operation on the whole tree guarantees. *)
Definition operated (op : Operation) (n : Node) (h : Z) (bs : list bool)
    (s : TreeState ProverFields) (r : Try (Node * option ADValue)) (s' : TreeState ProverFields) : Prop :=
  (exists extra ri lrs, pfields (bs ++ extra) ri lrs false (sub s') /\
     (isSuccess r = false -> ri = zlen bs)) /\
  match (if valid_key cfg (op_key op) then decide_op cfg op (to_map n !! op_key op)
         else Failure IllegalArgument) with
  | Success d => exists n' h', r = Success (n', to_map n !! op_key op) /\
      wf NegInf PosInf n' h' /\ rootNodeHeight s' = h' /\
      to_map n' = apply_decision (op_key op) d (to_map n)
  | Failure e => r = Failure e /\ mutations s' = mutations s /\ rootNodeHeight s' = h
  end.

Lemma guards_spec (op : Operation) {A} (k : Eff (TreeState ProverFields) A) s Q :
  (valid_key cfg (op_key op) = true -> wp k s Q) ->
  (valid_key cfg (op_key op) = false -> Q (Failure IllegalArgument) s) ->
  wp (let key := op_key op in
      guard IllegalArgument (0 <? compare key NegInf)%Z ;!
      guard IllegalArgument (compare key PosInf <? 0)%Z ;!
      guard IllegalArgument (Nat.eqb (length key) (keyLength cfg)) ;! k) s Q.
Proof.
  unfold valid_key, wp, bind, guard.
  destruct (0 <? _)%Z, (_ <? 0)%Z, (_ =? _)%nat; simpl; auto.
Qed.

Lemma returnResult_spec op n h bs lrs s Q :
  wf NegInf PosInf n h -> rootNodeHeight s = h -> pfields bs (zlen bs) lrs false (sub s) ->
  (forall r s', operated op n h bs s r s' -> Q r s') ->
  wp (returnResultOfOneOperation cfg prover_methods op n) s Q.
Proof.
  intros Hwf Hh Hpf HQ. unfold operated in HQ. apply guards_spec; intros Hv; rewrite Hv in HQ.
  2:{ apply HQ. split; [|done]. exists [], (zlen bs), lrs. by rewrite app_nil_r. }
  destruct (valid_key_range _ Hv) as [Hlo Hhi]. do 2 wp_step. wp_step.
  eapply (modifyHelper_spec cfg n false); [done|by split|exact Hpf|].
  intros r s1 Hp1 Hh1 Hs1 Ho1. unfold modify_outcome in Ho1. simpl in Hh1, Hs1.
  destruct (decide_op cfg op (to_map n !! op_key op)) as [[[v|]|]|e] eqn:Ed; simpl in HQ.
  - destruct Ho1 as (n' & inc & -> & Hwf' & Hm & _). simpl.
    destruct inc; repeat wp_step; (apply HQ; split; [eauto 10|]); eexists _, _;
      (split; [done|]); (split; [exact Hwf'|]); split; simpl; try done; lia.
  - subst r. simpl. wp_step.
    destruct (to_map n !! op_key op) as [old|] eqn:Eold.
    2:{ exfalso. revert Ed. unfold decide_op. destruct (isLookup op); [done|].
        destruct (updateFn op None) as [[?|]|]; simpl; try done. by destruct (checkValueLength _ _). }
    destruct n as [| |]; [inversion Hwf| |].
    2:{ wf_inv. simpl in Eold. apply lookup_singleton_Some in Eold as [E _]. rewrite E in Hlo.
        by apply klt_irrefl in Hlo. }
    pose proof (prover_replays _ _ _ _ _ _ Hp1 eq_refl
      (cmps_hit _ _ _ _ _ Hwf Hlo (mk_is_Some _ _ Eold))) as Hrep.
    apply pfields_ri_kept in Hp1.
    eapply (delete_spec cfg prover_methods _ (prover_replay_keeps _ _) _ NegInf PosInf);
      [exact Hwf|done|exact Hlo|exact Eold|exact Hrep|exact Hp1|congruence|].
    intros n' dec s2 (ri & Hp2) Hs2 Hh2 [Hwf' Hm].
    destruct dec; repeat wp_step;
      (apply HQ; split; [by eexists _, _, _; split; [exact Hp2|]|]); eexists _, _;
      (split; [done|]); (split; [exact Hwf'|]); split; simpl; try done; lia.
  - subst r. repeat wp_step. simpl. repeat wp_step. apply HQ. split; [eauto 10|].
    exists n, h. split_and!; try done. congruence.
  - destruct Ho1 as [-> Hmu]. apply HQ. split; [|split_and!; [done|done|congruence]].
    eexists _, _, _. split; [exact Hp1|done].
Qed.
End Operation.

(** ** The prover *)
Section Prover.
Context `{GL : GuavaLaws} (cfg : TreeConfig).

(** The dictionary a prover holds: its leaves without the -inf sentinel. *)
Definition dict (p : BatchAVLProver) : gmap ADKey ADValue :=
  delete (NegativeInfinityKey cfg) (to_map (topNode p)).

Record prover_inv (p : BatchAVLProver) : Prop := ProverInv {
  inv_wf : wf (NegativeInfinityKey cfg) (PositiveInfinityKey cfg) (topNode p) (rootNodeHeight (tree p));
  inv_fields : exists bs ri lrs, pfields bs ri lrs false (sub (tree p))
}.

Lemma valid_key_ne key : valid_key cfg key = true -> NegativeInfinityKey cfg <> key.
Proof. intros [H _]%valid_key_range. by apply klt_ne. Qed.

Lemma apply_decision_delete k key d m : k <> key ->
  delete k (apply_decision key d m) = apply_decision key d (delete k m).
Proof.
  intros Hne. destruct d as [[v|]|]; simpl; [|apply delete_delete|done].
  by apply delete_insert_ne.
Qed.

(** One operation: the invariant, the dictionary's answer, and on a failure
    the same tree, directions and object writes. *)
Definition unchanged (p p' : BatchAVLProver) : Prop :=
  topNode p' = topNode p /\ oldTopNode p' = oldTopNode p /\
  rootNodeHeight (tree p') = rootNodeHeight (tree p) /\
  mutations (tree p') = mutations (tree p) /\
  directions (sub (tree p')) = directions (sub (tree p)) /\
  directionsBitLength (sub (tree p')) = directionsBitLength (sub (tree p)).

Lemma performOneOperation_ok op p p' r :
  prover_inv p -> performOneOperation cfg op p = (p', r) ->
  prover_inv p' /\
  match dict_step cfg op (dict p) with
  | Success (old, m') => r = Success old /\ dict p' = m' /\ oldTopNode p' = oldTopNode p
  | Failure e => r = Failure e /\ unchanged p p'
  end.
Proof.
  intros [Hwf (bs & ri & lrs & Hpf)] Hrun. revert Hrun. unfold performOneOperation.
  set (s0 := set_sub _ _).
  assert (pfields bs (zlen bs) lrs false (sub s0)) as Hpf0.
  { destruct Hpf as [Hd Hl Hr Hs Hf]. by split. }
  pose proof (returnResult_spec cfg op (topNode p) _ bs lrs s0
    (fun r s' => operated cfg op (topNode p) (rootNodeHeight (tree p)) bs s0 r s') Hwf eq_refl Hpf0
    (fun _ _ H => H)) as Hop. unfold wp in Hop.
  destruct (returnResultOfOneOperation _ _ _ _ _) as [s' [[n old]|e]]; intros [= <- <-];
    simpl in Hop; destruct Hop as [(extra & ri' & lrs' & Hpf' & Hri) Hop]; unfold dict_step, dict;
    (destruct (valid_key cfg (op_key op)) eqn:Hv;
     [rewrite lookup_delete_ne by (by apply valid_key_ne);
      destruct (decide_op cfg op _) as [d|e'] eqn:Ed|]); simpl;
    try (destruct Hop as (n' & h' & E & Hwf' & Hh' & Hm')); try (destruct Hop as (E & Hmu & Hh'));
    try discriminate; simplify_eq.
  - split; [split; [done|eauto]|]. split_and!; [done| |done].
    rewrite Hm', apply_decision_delete by (by apply valid_key_ne). done.
  - destruct (undoDirections_rep (sub s') bs extra) as [Hd Hl]; [apply Hpf'|by rewrite (pf_ri _ _ _ _ _ Hpf'), Hri|].
    split.
    + split; [simpl; by rewrite Hh'|]. exists bs, ri', lrs'. destruct Hpf'. by split.
    + split; [done|]. split_and!; try done; simpl.
      * eapply dirs_rep_inj; [exact Hd|apply Hpf].
      * simpl in Hl. rewrite Hl. symmetry. apply Hpf.
  - destruct (undoDirections_rep (sub s') bs extra) as [Hd Hl]; [apply Hpf'|by rewrite (pf_ri _ _ _ _ _ Hpf'), Hri|].
    split.
    + split; [simpl; by rewrite Hh'|]. exists bs, ri', lrs'. destruct Hpf'. by split.
    + split; [done|]. split_and!; try done; simpl.
      * eapply dirs_rep_inj; [exact Hd|apply Hpf].
      * simpl in Hl. rewrite Hl. symmetry. apply Hpf.
Qed.
End Prover.

(** ** Sequences of operations, lookups and the debug check *)
Section Runs.
Context `{GL : GuavaLaws} (cfg : TreeConfig).

(** The same operations on the abstract dictionary; a failed one is skipped. *)
Fixpoint dict_run (ops : list Operation) (m : gmap ADKey ADValue)
  : gmap ADKey ADValue * list (Try (option ADValue)) :=
  match ops with
  | [] => (m, [])
  | op :: ops' =>
      match dict_step cfg op m with
      | Success (old, m') => let '(m2, rs) := dict_run ops' m' in (m2, Success old :: rs)
      | Failure e => let '(m2, rs) := dict_run ops' m in (m2, Failure e :: rs)
      end
  end.

Lemma unchanged_dict p p' : unchanged p p' -> dict cfg p' = dict cfg p.
Proof. intros [E _]. unfold dict. by rewrite E. Qed.

Lemma performOperations_ok ops : forall p, prover_inv cfg p ->
  let '(p', rs) := performOperations cfg ops p in
  prover_inv cfg p' /\ dict_run ops (dict cfg p) = (dict cfg p', rs).
Proof.
  induction ops as [|op ops IH]; intros p Hp; simpl; [done|].
  destruct (performOneOperation cfg op p) as [p1 r] eqn:E.
  destruct (performOneOperation_ok cfg op p p1 r Hp E) as [Hp1 Hr].
  specialize (IH p1 Hp1). destruct (performOperations cfg ops p1) as [p2 rs].
  destruct IH as [Hp2 Hrun]. split; [done|].
  destruct (dict_step cfg op (dict cfg p)) as [[old m']|e].
  - destruct Hr as (-> & <- & _). by rewrite Hrun.
  - destruct Hr as (-> & Hu). rewrite <- (unchanged_dict _ _ Hu), Hrun. done.
Qed.

Lemma sentinels_lt : 0 < keyLength cfg ->
  klt (NegativeInfinityKey cfg) (PositiveInfinityKey cfg).
Proof.
  intros H. apply klt_lex. unfold NegativeInfinityKey, PositiveInfinityKey.
  destruct (keyLength cfg); [lia|]. done.
Qed.

Lemma new_prover_inv freshId : 0 < keyLength cfg -> prover_inv cfg (new_prover cfg None freshId).
Proof.
  intros H. split; [by constructor; apply sentinels_lt|].
  exists [], 0%Z, 0%Z. split; [apply dirs_rep_nil|done..].
Qed.

Lemma new_prover_dict freshId : dict cfg (new_prover cfg None freshId) = ∅.
Proof. unfold dict. simpl. apply delete_singleton_eq. Qed.

(** *** The read-only walk *)

Lemma walk_lookup lo hi n h : wf lo hi n h -> forall fuel key fnd,
  search_pre fnd key lo hi -> (nsize n <= fuel)%nat ->
  walk fuel (lookup_step key)
    (fun leaf found => match leaf with Leaf _ _ v _ => if found then Some v else None | _ => None end)
    n fnd = Success (to_map n !! key).
Proof.
  induction 1 as [m k v nk Hk|m lo k hi b l r hl hr Hl IHl Hr IHr _ _]; intros fuel key fnd Hpre Hfuel;
    simpl in Hfuel; (destruct fuel as [|fuel]; [lia|]); simpl.
  - destruct fnd; simpl in Hpre; [subst; by rewrite lookup_singleton_eq|].
    destruct Hpre as [Hk1 _]. by rewrite lookup_singleton_ne by (by apply klt_ne).
  - destruct fnd; [|destruct (Z.eqb_spec (compare key k) 0) as [E0|E0];
      [|destruct (Z.ltb_spec (compare key k) 0) as [E1|E1]]]; simpl in *.
    + subst key. rewrite (to_map_left _ _ _ _ _ _ _ _ Hl Hr (wf_lt _ _ _ _ Hl)).
      apply IHl; [done|lia].
    + apply compare_eq in E0 as ->.
      rewrite (to_map_right _ _ _ _ _ _ _ _ Hl Hr (kle_refl _)). apply IHr; [done|lia].
    + rewrite (to_map_left _ _ _ _ _ _ _ _ Hl Hr E1). apply IHl; [by split; [apply Hpre|]|lia].
    + assert (klt k key) as E2 by (apply compare_gt; lia).
      rewrite (to_map_right _ _ _ _ _ _ _ _ Hl Hr (klt_kle _ _ E2)).
      apply IHr; [by split; [|apply Hpre]|lia].
Qed.

(** *** checkTree *)

Lemma checkTreeHelper_ok vis lo hi n h : wf lo hi n h ->
  exists a b, checkTreeHelper false vis n = (true, (lo, a), (b, hi), h).
Proof.
  induction 1 as [m k v nk Hk|m lo k hi b l r hl hr Hl IHl Hr IHr -> Hb]; [by eexists _, _|].
  destruct IHl as (a1 & b1 & E1), IHr as (a2 & b2 & E2).
  exists a1, b2. simpl. rewrite E1, E2. simpl. rewrite !bool_decide_true by done.
  assert (negb (isInternal l) || (compare (node_key l) k <? 0)%Z = true) as ->.
  { destruct l as [|? k' ???|]; try done. wf_open Hl as k'' h1 h2 Hl1 Hl2 Hb'. simpl.
    apply Z.ltb_lt. by eapply wf_lt. }
  assert (negb (isInternal r) || (0 <? compare (node_key r) k)%Z = true) as ->.
  { destruct r as [|? k' ???|]; try done. wf_open Hr as k'' h1 h2 Hr1 Hr2 Hb'. simpl.
    apply Z.ltb_lt, compare_gt. by eapply wf_lt. }
  assert ((-1 <=? hr - hl)%Z && (hr - hl <=? 1)%Z && (hr - hl =? hr - hl)%Z = true) as -> by lia.
  simpl. by rewrite Z.add_comm.
Qed.

Lemma checkTree_ok p : prover_inv cfg p -> checkTree cfg false p = Success tt.
Proof.
  intros [Hwf _]. unfold checkTree.
  destruct (checkTreeHelper_ok (visited (tree p)) _ _ _ _ Hwf) as (a & b & ->).
  simpl. rewrite !bool_decide_true by done. simpl. by rewrite Z.eqb_refl.
Qed.

(** *** Height *)

(** The leaves of an AVL tree of height [h]: at least the Fibonacci number
    [fib (h + 2)]. *)
Fixpoint fib2 (n : nat) : Z * Z :=
  match n with O => (0, 1)%Z | S n' => let '(a, b) := fib2 n' in (b, a + b)%Z end.
Definition fib (n : nat) : Z := fst (fib2 n).

Lemma fib_SS n : fib (S (S n)) = (fib n + fib (S n))%Z.
Proof. unfold fib. simpl. destruct (fib2 n). simpl. lia. Qed.

Lemma fib_mono_S n : (0 <= fib n /\ fib n <= fib (S n) /\ 0 < fib (S n))%Z.
Proof.
  induction n as [|n IH]; [by vm_compute|]. rewrite fib_SS. lia.
Qed.

Lemma fib_mono n m : (n <= m)%nat -> (fib n <= fib m)%Z.
Proof. induction 1 as [|m _ IH]; [lia|]. pose proof (fib_mono_S m). lia. Qed.

Lemma wf_size lo hi n h : wf lo hi n h ->
  (fib (Z.to_nat h + 2) <= Z.of_nat (size (to_map n)))%Z.
Proof.
  induction 1 as [m k v nk Hk|m lo k hi b l r hl hr Hl IHl Hr IHr -> Hb]; simpl.
  - by rewrite map_size_singleton.
  - rewrite map_size_disj_union.
    2:{ apply map_disjoint_spec. intros x v1 v2 H1 H2.
        destruct (wf_range _ _ _ _ _ _ Hl H1) as [_ Hx].
        destruct (wf_range _ _ _ _ _ _ Hr H2) as [Hx' _].
        exact (klt_irrefl _ (klt_le_trans _ _ _ Hx Hx')). }
    wf_heights. rewrite Nat2Z.inj_add.
    assert (forall a b, (0 <= a)%Z -> (0 <= b)%Z -> (-1 <= a - b <= 1)%Z ->
      (fib (Z.to_nat (1 + Z.max a b) + 2) <= fib (Z.to_nat a + 2) + fib (Z.to_nat b + 2))%Z) as Hfib.
    { intros a b Ha Hb' Hab. replace (Z.to_nat (1 + Z.max a b) + 2)%nat with (S (S (Z.to_nat (Z.max a b) + 1))) by lia.
      rewrite fib_SS. replace (S (Z.to_nat (Z.max a b) + 1)) with (Z.to_nat (Z.max a b) + 2)%nat by lia.
      destruct (Z.max_spec a b) as [[? ->]|[? ->]].
      - pose proof (fib_mono (Z.to_nat b + 1) (Z.to_nat a + 2) ltac:(lia)). lia.
      - pose proof (fib_mono (Z.to_nat a + 1) (Z.to_nat b + 2) ltac:(lia)). lia. }
    pose proof (Hfib hl hr ltac:(lia) ltac:(lia) ltac:(lia)). lia.
Qed.
End Runs.

(** ** Proof generation *)
Section Proofs.
Context `{GL : GuavaLaws} `{HF : CryptographicHash} (cfg : TreeConfig).

Lemma label_length n h lo hi : wf lo hi n h -> length (label n) = DigestSize.
Proof. destruct 1; apply hash_size. Qed.

(** Packing a well-formed tree never fails. *)
Lemma packTree_ok lo hi n h : wf lo hi n h -> forall s, exists s', packTree cfg n s = (s', Success tt).
Proof.
  assert (forall n s, length (label n) = DigestSize -> exists s', pack_label n s = (s', Success tt)) as Hlab.
  { intros n' s E. eexists. unfold pack_label, guard, bind. simpl. by rewrite E, Nat.eqb_refl. }
  induction 1 as [m k v nk Hk|m lo k hi b l r hl hr Hl IHl Hr IHr _ _]; intros s; cbn [packTree];
    unfold bind at 1, gets, id; destruct (bool_decide _); simpl.
  - by eexists.
  - apply Hlab, hash_size.
  - unfold modify at 1, bind at 1. destruct (IHl (Pack (packVisited s ∖ {[nid m]}) (previousLeafAvailable s) (packagedTree s))) as [s1 E1].
    destruct (IHr s1) as [s2 E2]. unfold bind at 1. rewrite E1. unfold bind at 1. rewrite E2. by eexists.
  - apply Hlab, hash_size.
Qed.

Lemma resetNew_ok lo hi n h : wf lo hi n h -> forall vis,
  wf lo hi (fst (resetNew n vis)) h /\ to_map (fst (resetNew n vis)) = to_map n /\
  label (fst (resetNew n vis)) = label n.
Proof.
  induction 1 as [m k v nk Hk|m lo k hi b l r hl hr Hl IHl Hr IHr Eb Hb]; intros vis; simpl;
    destruct (isNew m); simpl; try (split_and!; [by econstructor|done|done]).
  destruct (resetNew l vis) as [l' vis1] eqn:E1, (resetNew r vis1) as [r' vis2] eqn:E2. simpl.
  specialize (IHl vis). specialize (IHr vis1). rewrite E1 in IHl. rewrite E2 in IHr. simpl in IHl, IHr.
  destruct IHl as (? & -> & ->), IHr as (? & -> & ->). split_and!; [by econstructor|done|done].
Qed.

(** Every prover the public operations lead to from an empty one. *)
Inductive reachable : BatchAVLProver -> Prop :=
| reach_new freshId : reachable (new_prover cfg None freshId)
| reach_op p op p' r : reachable p -> performOneOperation cfg op p = (p', r) -> reachable p'
| reach_proof p p' r : reachable p -> generateProof cfg p = (p', r) -> reachable p'
| reach_removed p : reachable p -> reachable (fst (removedNodes p)).

Definition full_inv (p : BatchAVLProver) : Prop :=
  prover_inv cfg p /\ exists h, wf (NegativeInfinityKey cfg) (PositiveInfinityKey cfg) (oldTopNode p) h.

Lemma generateProof_ok p : full_inv p ->
  exists p' proof, generateProof cfg p = (p', Success proof) /\ full_inv p' /\
    dict cfg p' = dict cfg p /\ prover_digest p' = prover_digest p /\
    directionsBitLength (sub (tree p')) = 0%Z.
Proof.
  intros [[Hwf (bs & ri & lrs & Hpf)] [h0 Hold]]. unfold generateProof.
  destruct (packTree_ok _ _ _ _ Hold (Pack (visited (set_buffers [] [] (tree p))) false [])) as [ps ->].
  destruct (resetNew_ok _ _ _ _ Hwf (packVisited ps)) as (Hwf' & Hm & Hlab).
  destruct (resetNew (topNode p) (packVisited ps)) as [top vis]. simpl in Hwf', Hm, Hlab.
  eexists _, _. split; [done|]. split_and!; simpl.
  - split; [|by eexists]. split; [done|]. exists [], ri, lrs. destruct Hpf.
    split; simpl; [apply dirs_rep_nil|done..].
  - unfold dict. simpl. by rewrite Hm.
  - unfold prover_digest, digest. simpl. by rewrite Hlab.
  - done.
Qed.

Lemma reachable_inv p : 0 < keyLength cfg -> reachable p -> full_inv p.
Proof.
  intros Hk. induction 1 as [i|p op p' r Hp IH E|p p' r Hp IH E|p Hp [[Hw Hf] Ho]].
  - split; [by apply new_prover_inv|]. exists 0%Z. by constructor; apply sentinels_lt.
  - destruct IH as [Hinv Hold]. destruct (performOneOperation_ok cfg op p p' r Hinv E) as [Hinv' Hr].
    split; [done|]. replace (oldTopNode p') with (oldTopNode p); [done|].
    destruct (dict_step _ _ _) as [[]|]; [by destruct Hr as (_ & _ & ->)|by destruct Hr as (_ & _ & -> & _)].
  - destruct (generateProof_ok p IH) as (p2 & pr & E2 & H2 & _). rewrite E2 in E. by injection E as <- _.
  - by split; [split|].
Qed.
End Proofs.
