(* ===== verification/AvlProverThms.v ===== *)
(** * AvlProverThms: the properties of BatchAVLProver

    Stated for every prover the public operations can lead to ([reachable]),
    for any Guava and hash function that satisfy their laws. *)

From S2P Require Import Prelude External AvlNode AvlOps AvlProver AvlInv AvlDelete AvlBits AvlModify.
From S2P Require Import AvlProverSpec.

(** ** A concrete run for the witnesses *)
Section Run.
Definition run_cfg : TreeConfig :=
  {| keyLength := 1; valueLengthOpt := None; collectChangedNodes := true |}.
Definition run_key (i : Z) : bytes := [z2b i].
Definition run_ops : list Operation :=
  [Insert (run_key 5) [z2b 50]; Insert (run_key 9) [z2b 90]; Insert (run_key 2) [];
   Insert (run_key 7) [z2b 70]; InsertOrUpdate (run_key 8) [z2b 80; z2b 81];
   Update (run_key 9) [z2b 91]; Remove (run_key 5); Lookup (run_key 7)].
Definition run_prover : BatchAVLProver :=
  fst (performOperations run_cfg run_ops (new_prover run_cfg None 1)).
End Run.

Section Reach.
Context `{GL : GuavaLaws} `{HF : CryptographicHash} (cfg : TreeConfig).

Lemma reachable_ops ops : forall p, reachable cfg p -> reachable cfg (fst (performOperations cfg ops p)).
Proof.
  induction ops as [|op ops IH]; intros p Hp; simpl; [done|].
  destruct (performOneOperation cfg op p) as [p1 r] eqn:E.
  specialize (IH p1 (reach_op cfg _ _ _ _ Hp E)). by destruct (performOperations cfg ops p1).
Qed.
End Reach.

Lemma run_reachable : reachable run_cfg run_prover.
Proof. apply reachable_ops, reach_new. Qed.

Lemma run_keyLength : 0 < keyLength run_cfg.
Proof. simpl. lia. Qed.

Section Theorems.
Context `{GL : GuavaLaws} `{HF : CryptographicHash} (cfg : TreeConfig).

(** C2: on every reachable prover, [performOneOperation] returns exactly
    what the abstract dictionary returns for that operation, and the tree
    then holds exactly the dictionary it should: every kind of operation,
    every rotation of insertion and deletion, and every failure. *)
Theorem prover_implements_dictionary op p p' r :
  0 < keyLength cfg -> reachable cfg p -> performOneOperation cfg op p = (p', r) ->
  r = try_map fst (dict_step cfg op (dict cfg p)) /\
  dict cfg p' = match dict_step cfg op (dict cfg p) with
                | Success (_, m') => m'
                | Failure _ => dict cfg p
                end.
Proof.
  intros Hk Hp E. destruct (reachable_inv cfg p Hk Hp) as [Hinv _].
  destruct (performOneOperation_ok cfg op p p' r Hinv E) as [_ Hr].
  destruct (dict_step _ _ _) as [[old m']|e]; simpl.
  - by destruct Hr as (-> & <- & _).
  - destruct Hr as [-> Hu]. split; [done|]. by apply unchanged_dict.
Qed.

(** C15: a failed operation is atomic: the root, the proof's directions down
    to the last bit of the last byte, the height and every node object are
    those from before the call. *)
Theorem prover_failure_atomic op p p' e :
  0 < keyLength cfg -> reachable cfg p -> performOneOperation cfg op p = (p', Failure e) ->
  unchanged p p'.
Proof.
  intros Hk Hp E. destruct (reachable_inv cfg p Hk Hp) as [Hinv _].
  destruct (performOneOperation_ok cfg op p p' _ Hinv E) as [_ Hr].
  destruct (dict_step _ _ _) as [[old m']|e']; [by destruct Hr|apply Hr].
Qed.

(** C38: the tree of a reachable prover always passes the debug check
    [checkTree]: search order, next-leaf links, balances and height. *)
Theorem prover_checkTree p :
  0 < keyLength cfg -> reachable cfg p -> checkTree cfg false p = Success tt.
Proof. intros Hk Hp. by apply checkTree_ok, (reachable_inv cfg p Hk Hp). Qed.

(** [unauthenticatedLookup] terminates with the dictionary's entry. *)
Theorem prover_lookup key p :
  0 < keyLength cfg -> reachable cfg p -> valid_key cfg key = true ->
  unauthenticatedLookup key p = Success (dict cfg p !! key).
Proof.
  intros Hk Hp Hv. destruct (reachable_inv cfg p Hk Hp) as [[Hwf _] _].
  unfold unauthenticatedLookup, treeWalk.
  rewrite (walk_lookup _ _ _ _ Hwf _ _ false); [|by apply valid_key_range|done].
  unfold dict. by rewrite lookup_delete_ne by (by apply valid_key_ne).
Qed.

(** The height fits the byte of the digest as long as the dictionary has
    fewer than [fib 258 - 1] (more than 2^177) entries, so [digest] returns. *)
Theorem prover_digest_defined p :
  0 < keyLength cfg -> reachable cfg p ->
  (2 ^ 177 < fib 258 - 1)%Z /\
  ((Z.of_nat (size (dict cfg p)) < fib 258 - 1)%Z ->
   prover_digest p = Success (label (topNode p) ++ [z2b (rootNodeHeight (tree p))]) /\
   (0 <= rootNodeHeight (tree p) < 256)%Z).
Proof.
  intros Hk Hp. split; [by vm_compute|]. intros Hsz.
  destruct (reachable_inv cfg p Hk Hp) as [[Hwf _] _].
  pose proof (wf_nonneg _ _ _ _ Hwf) as H0. pose proof (wf_size _ _ _ _ Hwf) as Hs.
  assert (rootNodeHeight (tree p) < 256)%Z as Hlt.
  { destruct (Z.lt_ge_cases (rootNodeHeight (tree p)) 256) as [|Hge]; [done|]. exfalso.
    pose proof (fib_mono 258 (Z.to_nat (rootNodeHeight (tree p)) + 2) ltac:(lia)) as Hf.
    unfold dict in Hsz. rewrite map_size_delete_Some in Hsz by (eapply wf_min; eassumption). lia. }
  split; [|lia]. unfold prover_digest, digest.
  rewrite (proj2 (Z.leb_le _ _) H0), (proj2 (Z.ltb_lt _ _) Hlt). done.
Qed.

(** [generateProof] never fails on a reachable prover, and changes
    neither the dictionary nor the digest; the next proof starts with no
    directions. *)
Theorem prover_generateProof p :
  0 < keyLength cfg -> reachable cfg p ->
  exists p' proof, generateProof cfg p = (p', Success proof) /\
    dict cfg p' = dict cfg p /\ prover_digest p' = prover_digest p /\
    directionsBitLength (sub (tree p')) = 0%Z /\ checkTree cfg false p' = Success tt.
Proof.
  intros Hk Hp. destruct (generateProof_ok cfg p (reachable_inv cfg p Hk Hp))
    as (p' & proof & E & [Hinv _] & Hd & Hg & Hl).
  exists p', proof. by split_and!; try apply checkTree_ok.
Qed.

(** The results of a whole batch on a fresh prover are those of the
    dictionary, started empty. *)
Theorem prover_batch ops freshId :
  0 < keyLength cfg ->
  dict_run cfg ops ∅ = (dict cfg (fst (performOperations cfg ops (new_prover cfg None freshId))),
                        snd (performOperations cfg ops (new_prover cfg None freshId))).
Proof.
  intros Hk. pose proof (performOperations_ok cfg ops _ (new_prover_inv cfg freshId Hk)) as H.
  destruct (performOperations cfg ops _) as [p' rs]. destruct H as [_ H].
  by rewrite new_prover_dict in H.
Qed.
End Theorems.

(** ** Witnesses *)

Lemma prover_implements_dictionary_witness :
  snd (performOneOperation run_cfg (Remove (run_key 8)) run_prover) =
    Success (Some [z2b 80; z2b 81]) /\
  snd (performOneOperation run_cfg (Remove (run_key 8)) run_prover) =
    try_map fst (dict_step run_cfg (Remove (run_key 8)) (dict run_cfg run_prover)).
Proof.
  split; [by vm_compute|].
  apply (prover_implements_dictionary run_cfg (Remove (run_key 8)) run_prover
    (fst (performOneOperation run_cfg (Remove (run_key 8)) run_prover)) _
    run_keyLength run_reachable).
  apply surjective_pairing.
Defined.

Lemma prover_failure_atomic_witness :
  unchanged run_prover (fst (performOneOperation run_cfg (Insert (run_key 8) []) run_prover)).
Proof.
  apply (prover_failure_atomic run_cfg (Insert (run_key 8) []) run_prover _
    (Raised "already exists") run_keyLength run_reachable).
  by vm_compute.
Defined.

Lemma prover_checkTree_witness : checkTree run_cfg false run_prover = Success tt.
Proof. apply (prover_checkTree run_cfg run_prover run_keyLength run_reachable). Defined.

Lemma prover_lookup_witness :
  unauthenticatedLookup (run_key 9) run_prover = Success (dict run_cfg run_prover !! run_key 9).
Proof. apply (prover_lookup run_cfg (run_key 9) run_prover run_keyLength run_reachable). by vm_compute. Defined.

Lemma prover_digest_defined_witness :
  prover_digest run_prover = Success (label (topNode run_prover) ++ [z2b (rootNodeHeight (tree run_prover))]).
Proof.
  apply (prover_digest_defined run_cfg run_prover run_keyLength run_reachable). by vm_compute.
Defined.

Lemma prover_generateProof_witness :
  exists p' proof, generateProof run_cfg run_prover = (p', Success proof).
Proof.
  destruct (prover_generateProof run_cfg run_prover run_keyLength run_reachable)
    as (p' & proof & E & _). by exists p', proof.
Defined.

Lemma prover_batch_witness :
  snd (dict_run run_cfg run_ops ∅) = snd (performOperations run_cfg run_ops (new_prover run_cfg None 1)).
Proof. rewrite (prover_batch run_cfg run_ops 1 run_keyLength). reflexivity. Defined.
