(* ===== verification/AvlVerifier.v ===== *)
(** * AvlVerifier: BatchAVLVerifier

    scrypto/.../avltree/batch/BatchAVLVerifier.scala: the verifier's version of
    the abstract methods, the reconstruction of the tree from the packed proof
    and the verification of one operation.  The parser's loop has fuel: with
    variable value lengths a negative length in the proof moves the cursor
    back, so the loop of the code need not end. *)

From S2P Require Import Prelude External AvlNode AvlOps AvlProver.

(** ** Fields of the verifier *)
Record VerifierFields := VF {
  directionsIndex : Z;
  v_lastRightStep : Z;
  v_replayIndex : Z
}.

Definition init_vfields : VerifierFields := VF 0 0 0.

Section VerifierMethods.
Context `{G : Guava} (proof : bytes).

(** nextDirectionIsLeft *)
Definition verifier_nextDirectionIsLeft (key : ADKey) (r : Node) : Eff VerifierFields bool :=
  let! f := gets id in
  let! b := lift_try (bit_of proof (directionsIndex f)) in
  modify (fun f => VF (directionsIndex f + 1)
                      (if b then v_lastRightStep f else directionsIndex f)
                      (v_replayIndex f)) ;!
  ret b.

(** keyMatchesLeaf *)
Definition verifier_keyMatchesLeaf (key : ADKey) (r : Node) : Eff VerifierFields bool :=
  match asLeaf r with
  | None => throw ClassCast
  | Some (k, _, nk) =>
      let c := compare key k in
      guard IllegalArgument (0 <=? c)%Z ;!
      if (c =? 0)%Z then ret true
      else guard IllegalArgument (compare key nk <? 0)%Z ;! ret false
  end.

(** replayComparison *)
Definition verifier_replayComparison : Eff VerifierFields Z :=
  let! f := gets id in
  let! c :=
    if (v_replayIndex f =? v_lastRightStep f)%Z then ret 0%Z
    else let! b := lift_try (bit_of proof (v_replayIndex f)) in
         ret (if negb b && (v_replayIndex f <? v_lastRightStep f)%Z then 1 else -1)%Z in
  modify (fun f => VF (directionsIndex f) (v_lastRightStep f) (v_replayIndex f + 1)) ;!
  ret c.

Definition verifier_methods : TreeMethods VerifierFields := {|
  nextDirectionIsLeft := verifier_nextDirectionIsLeft;
  keyMatchesLeaf := verifier_keyMatchesLeaf;
  replayComparison := verifier_replayComparison;
  addNode_key := fun _ => None
|}.
End VerifierMethods.

(** ** Reconstruction *)
Section Reconstruct.
Context `{G : Guava} `{HF : CryptographicHash}.

(** The doubling loop: (temp, logNumOps), Int arithmetic *)
Fixpoint logLoop (fuel : nat) (realNumOperations temp logNumOps : Z) : Try Z :=
  match fuel with
  | O => Failure NoFuel
  | S fuel' =>
      if (temp <? realNumOperations)%Z
      then logLoop fuel' realNumOperations (toInt (temp * 2)) (toInt (logNumOps + 1))
      else Success logNumOps
  end.

(** The bound on the number of nodes; 0 when it is not enforced *)
Definition maxNodesOf (fuel : nat) (maxNumOperations maxDeletes : option Z) (height : Z) : Try Z :=
  match maxNumOperations with
  | None => Success 0%Z
  | Some realNumOperations =>
      let? logNumOps := logLoop fuel realNumOperations 1 0 in
      let temp := (1 + Z.max height logNumOps)%Z in
      let hnew := (temp + Z.quot temp 2)%Z in
      let realMaxDeletes := default realNumOperations maxDeletes in
      Success (toInt ((realNumOperations + realMaxDeletes) * (2 * height + 1)
                      + realMaxDeletes * hnew + 1))
  end.

Record ParseState := Parse {
  pos : Z;
  numNodes : Z;
  stack : list Node;
  previousLeaf : option ADKey   (* its next leaf key *)
}.

(** A verifier node: mutated in place, so its identity is never replaced *)
Definition vmeta : meta := Meta 0 true.

(** One iteration of the loop, [n] the tag read at [pos] *)
Definition parseNode (keyLength : nat) (valueLengthOpt : option Z) (proof : bytes)
    (n : byte) (st : ParseState) : Try ParseState :=
  let i := (pos st + 1)%Z in
  let count := (numNodes st + 1)%Z in
  if bool_decide (n = LabelInPackagedProof) then
    let j := (i + Z.of_nat DigestSize)%Z in
    Success (Parse j count (LabelOnlyNode (slice proof i j) :: stack st) None)
  else if bool_decide (n = LeafInPackagedProof) then
    let kl := Z.of_nat keyLength in
    let '(key, i1) := match previousLeaf st with
                      | Some nk => (nk, i)
                      | None => (slice proof i (i + kl), i + kl)%Z
                      end in
    let nextLeafKey := slice proof i1 (i1 + kl) in
    let i2 := (i1 + kl)%Z in
    let? vl_i3 := match valueLengthOpt with
                  | Some vl => Success (vl, i2)
                  | None => let? vl := Ints_fromByteArray (slice proof i2 (i2 + 4)) in
                            Success (vl, (i2 + 4)%Z)
                  end in
    let '(valueLength, i3) := vl_i3 in
    let value := slice proof i3 (i3 + valueLength) in
    Success (Parse (i3 + valueLength) count
                   (Leaf vmeta key value nextLeafKey :: stack st) (Some nextLeafKey))
  else
    match stack st with
    | rightN :: leftN :: s =>
        Success (Parse i count (InternalNode vmeta None (b2z n) leftN rightN :: s) (previousLeaf st))
    | _ => Failure NoSuchElement
    end.

Fixpoint parseLoop (fuel : nat) (keyLength : nat) (valueLengthOpt maxNodes : option Z)
    (proof : bytes) (st : ParseState) : Try ParseState :=
  match fuel with
  | O => Failure NoFuel
  | S fuel' =>
      let? n := array_get proof (pos st) in
      if bool_decide (n = EndOfTreeInPackagedProof) then Success st
      else
        let? _ := require (match maxNodes with
                           | None => true
                           | Some mx => (numNodes st + 1 <=? mx)%Z
                           end) in
        let? st' := parseNode keyLength valueLengthOpt proof n st in
        parseLoop fuel' keyLength valueLengthOpt maxNodes proof st'
  end.

Definition startsWith (a b : bytes) : bool := bool_decide (take (length b) a = b).

(** reconstructedTree before recoverWith: the root, the height and where the
    directions start *)
Definition reconstruct (fuel : nat) (cfg : TreeConfig) (maxNumOperations maxDeletes : option Z)
    (startingDigest proof : bytes) : Try (Node * Z * Z) :=
  let? _ := require (Nat.ltb 0 DigestSize) in
  let? _ := require (Nat.ltb 0 (keyLength cfg)) in
  let? _ := match valueLengthOpt cfg with None => Success tt | Some vl => require (0 <=? vl)%Z end in
  let? _ := require (Nat.eqb (length startingDigest) (DigestSize + 1)) in
  let? lastByte := of_option NoSuchElement (last startingDigest) in
  let height := Z.land (b2z lastByte) 255 in
  let? maxNodes := maxNodesOf fuel maxNumOperations maxDeletes height in
  let? st := parseLoop fuel (keyLength cfg) (valueLengthOpt cfg)
               ((fun _ => maxNodes) <$> maxNumOperations) proof (Parse 0 0 [] None) in
  match stack st with
  | [root] =>
      let? _ := require (startsWith startingDigest (label root)) in
      Success (root, height, ((pos st + 1) * 8)%Z)
  | _ => Failure IllegalArgument
  end.
End Reconstruct.

(** ** The verifier *)
Record BatchAVLVerifier := Verifier {
  v_tree : TreeState VerifierFields;
  v_topNode : option Node
}.

Section Verifier.
Context `{G : Guava} `{HF : CryptographicHash} (cfg : TreeConfig).

(** collectChangedNodes is false in the verifier *)
Definition verifier_cfg : TreeConfig :=
  {| keyLength := keyLength cfg; valueLengthOpt := valueLengthOpt cfg; collectChangedNodes := false |}.

(** The constructor *)
Definition new_verifier (fuel : nat) (maxNumOperations maxDeletes : option Z)
    (startingDigest proof : bytes) : BatchAVLVerifier :=
  match reconstruct fuel cfg maxNumOperations maxDeletes startingDigest proof with
  | Success (root, height, d) =>
      Verifier (TreeSt (VF d 0 0) ∅ 0 0 [] [] height None) (Some root)
  | Failure _ => Verifier (TreeSt init_vfields ∅ 0 0 [] [] 0 None) None
  end.

(** digest; the assertion of [digest] throws *)
Definition verifier_digest (v : BatchAVLVerifier) : Try (option ADDigest) :=
  match v_topNode v with
  | None => Success None
  | Some n => try_map Some (digest (rootNodeHeight (v_tree v)) n)
  end.

Definition set_vreplay (f : VerifierFields) : VerifierFields :=
  VF (directionsIndex f) (v_lastRightStep f) (directionsIndex f).

(** performOneOperation *)
Definition verifyOneOperation (proof : bytes) (operation : Operation)
  : Eff BatchAVLVerifier (option ADValue) := fun v =>
  let s := v_tree v in
  let s0 := set_sub (set_vreplay (sub s)) s in
  match v_topNode v with
  | None => (Verifier s0 None, Failure NoSuchElement)
  | Some top =>
      match returnResultOfOneOperation verifier_cfg (verifier_methods proof) operation top s0 with
      | (s', Success (n, old)) => (Verifier s' (Some n), Success old)
      | (s', Failure e) => (Verifier s' None, Failure e)
      end
  end.

Fixpoint verifyOperations (proof : bytes) (ops : list Operation) (v : BatchAVLVerifier)
  : BatchAVLVerifier * list (Try (option ADValue)) :=
  match ops with
  | [] => (v, [])
  | op :: ops' =>
      let '(v1, r) := verifyOneOperation proof op v in
      let '(v2, rs) := verifyOperations proof ops' v1 in (v2, r :: rs)
  end.

(** extractNodes *)
Fixpoint extract_traverse (extractor : Node -> bool) (rNode : Node) (collected : list Node)
  : list Node :=
  match rNode with
  | InternalNode _ _ _ l r =>
      collected ++ extract_traverse extractor r [] ++ extract_traverse extractor l []
  | _ => if extractor rNode then rNode :: collected else collected
  end.

Definition extractNodes (extractor : Node -> bool) (v : BatchAVLVerifier) : option (list Node) :=
  (fun t => extract_traverse extractor t []) <$> v_topNode v.

(** extractFirstNode *)
Fixpoint extract_first (extractor : Node -> bool) (rNode : Node) : option Node :=
  match rNode with
  | InternalNode _ _ _ l r =>
      match extract_first extractor l with
      | Some n => Some n
      | None => extract_first extractor r
      end
  | _ => if extractor rNode then Some rNode else None
  end.

Definition extractFirstNode (extractor : Node -> bool) (v : BatchAVLVerifier) : option Node :=
  v_topNode v ≫= extract_first extractor.
End Verifier.
