(* ===== verification/AvlSim.v ===== *)
(** * AvlSim: the verifier in lockstep with the prover

    [prune pt vt]: the verifier's tree [vt] is the prover's tree [pt] with some
    subtrees replaced by their labels and the internal keys dropped.  [sim]
    relates two runs: whenever the second (the verifier's) succeeds, so does
    the first (the prover's), with related results.  Every routine of
    AuthenticatedTreeOps preserves [prune]. *)

From S2P Require Import Prelude External AvlNode AvlOps AvlProver AvlInv AvlDelete AvlBits AvlModify.
From S2P Require Import AvlProverSpec AvlVerifier.

Section Sim.
Context {S1 S2 : Type}.

Definition sim {A B} (m1 : Eff S1 A) (s1 : S1) (m2 : Eff S2 B) (s2 : S2)
    (R : A -> S1 -> B -> S2 -> Prop) : Prop :=
  forall s2' b, m2 s2 = (s2', Success b) ->
  exists s1' a, m1 s1 = (s1', Success a) /\ R a s1' b s2'.

Lemma sim_ret {A B} (a : A) (b : B) s1 s2 (R : A -> S1 -> B -> S2 -> Prop) :
  R a s1 b s2 -> sim (ret a) s1 (ret b) s2 R.
Proof. intros H s2' b' [= <- <-]. by eexists _, _. Qed.

Lemma sim_throw {A B} (m1 : Eff S1 A) e s1 s2 (R : A -> S1 -> B -> S2 -> Prop) :
  sim m1 s1 (throw e) s2 R.
Proof. intros s2' b' [=]. Qed.

Lemma sim_modify f g s1 s2 (R : unit -> S1 -> unit -> S2 -> Prop) :
  R tt (f s1) tt (g s2) -> sim (modify f) s1 (modify g) s2 R.
Proof. intros H s2' b' [= <- <-]. by eexists _, _. Qed.

Lemma sim_gets {A B} (f : S1 -> A) (g : S2 -> B) s1 s2 (R : A -> S1 -> B -> S2 -> Prop) :
  R (f s1) s1 (g s2) s2 -> sim (gets f) s1 (gets g) s2 R.
Proof. intros H s2' b' [= <- <-]. by eexists _, _. Qed.

Lemma sim_lift {A} (t : Try A) s1 s2 (R : A -> S1 -> A -> S2 -> Prop) :
  (forall a, t = Success a -> R a s1 a s2) -> sim (lift_try t) s1 (lift_try t) s2 R.
Proof. intros H s2' b' [= <- Ht]. eexists _, _. split; [|by apply H]. by unfold lift_try; rewrite Ht. Qed.

Lemma sim_guard e b s1 s2 (R : unit -> S1 -> unit -> S2 -> Prop) :
  (b = true -> R tt s1 tt s2) -> sim (guard e b) s1 (guard e b) s2 R.
Proof. intros H. destruct b; [by apply sim_ret, H|apply sim_throw]. Qed.

Lemma sim_bind {A B A' B'} (m1 : Eff S1 A) (k1 : A -> Eff S1 A') (m2 : Eff S2 B)
    (k2 : B -> Eff S2 B') s1 s2 R :
  sim m1 s1 m2 s2 (fun a s1' b s2' => sim (k1 a) s1' (k2 b) s2' R) ->
  sim (bind m1 k1) s1 (bind m2 k2) s2 R.
Proof.
  intros H s2' b' Hb. apply bind_success in Hb as (s2m & b & E2 & E2').
  destruct (H _ _ E2) as (s1m & a & E1 & Hk). rewrite (bind_run _ _ _ _ _ E1). by apply Hk.
Qed.

Lemma sim_mono {A B} (m1 : Eff S1 A) s1 (m2 : Eff S2 B) s2 (R R' : A -> S1 -> B -> S2 -> Prop) :
  sim m1 s1 m2 s2 R -> (forall a s1' b s2', R a s1' b s2' -> R' a s1' b s2') ->
  sim m1 s1 m2 s2 R'.
Proof. intros H HR s2' b E. destruct (H _ _ E) as (s1' & a & E1 & Hr). eauto. Qed.
End Sim.

(** ** Pruned trees *)
Section Prune.
Context `{HF : CryptographicHash}.

Inductive prune : Node -> Node -> Prop :=
| prune_label n l : l = label n -> prune n (LabelOnlyNode l)
| prune_leaf m m' k v nk : prune (Leaf m k v nk) (Leaf m' k v nk)
| prune_node m m' k b l r l' r' : prune l l' -> prune r r' ->
    prune (InternalNode m k b l r) (InternalNode m' None b l' r').

Lemma prune_label_eq n n' : prune n n' -> label n' = label n.
Proof. induction 1 as [n l ->| |m m' k b l r l' r' _ IHl _ IHr]; simpl; [done..|]. by rewrite IHl, IHr. Qed.

Lemma prune_internal_inv n m' k' b l' r' : prune n (InternalNode m' k' b l' r') ->
  exists m k l r, n = InternalNode m k b l r /\ k' = None /\ prune l l' /\ prune r r'.
Proof. inversion 1; subst. eauto 10. Qed.

Lemma prune_leaf_inv n m' k v nk : prune n (Leaf m' k v nk) -> exists m, n = Leaf m k v nk.
Proof. inversion 1; subst. eauto. Qed.

(** Two tree states that agree on what the shared code reads and writes. *)
Record srel {S1 S2} (P : S1 -> S2 -> Prop) (s1 : TreeState S1) (s2 : TreeState S2) : Prop := SRel {
  sr_sub : P (sub s1) (sub s2);
  sr_height : rootNodeHeight s1 = rootNodeHeight s2;
  sr_saved : option_Forall2 prune (savedNode s1) (savedNode s2)
}.
End Prune.

(** Open a [prune] against a node of known shape. *)
Ltac prune_inv :=
  repeat match goal with
  | H : prune _ (InternalNode _ _ _ _ _) |- _ =>
      apply prune_internal_inv in H; destruct H as (? & ? & ? & ? & -> & -> & ? & ?)
  | H : prune _ (Leaf _ _ _ _) |- _ => apply prune_leaf_inv in H; destruct H as [? ->]
  end.

Section SimOps.
Context `{G : Guava} `{HF : CryptographicHash} {S1 S2 : Type} (cfg1 cfg2 : TreeConfig).
Context (P : S1 -> S2 -> Prop).
Abbreviation R A B := (A -> TreeState S1 -> B -> TreeState S2 -> Prop).

Lemma sim_visit n n' op b (s1 : TreeState S1) (s2 : TreeState S2) (Q : R unit unit) :
  srel P s1 s2 -> (forall s1' s2', srel P s1' s2' -> Q tt s1' tt s2') ->
  sim (onNodeVisit cfg1 n op b) s1 (onNodeVisit cfg2 n' op b) s2 Q.
Proof.
  intros [Hs Hh Hn] HQ s2' [] E2.
  pose proof (wp_onNodeVisit cfg1 n op b s1 (fun r s => r = Success tt /\ frame s1 s)
    (fun _ F _ => conj eq_refl F)) as [Hr1 F1].
  pose proof (wp_onNodeVisit cfg2 n' op b s2 (fun r s => r = Success tt /\ frame s2 s)
    (fun _ F _ => conj eq_refl F)) as [_ F2]. rewrite E2 in F2. simpl in F2.
  eexists _, tt. split; [rewrite <- Hr1; apply surjective_pairing|]. apply HQ.
  destruct F1, F2. split; congruence.
Qed.

Lemma sim_touch m m' s1 s2 (Q : R meta meta) :
  srel P s1 s2 -> (forall m1 m2 s1' s2', srel P s1' s2' -> Q m1 s1' m2 s2') ->
  sim (touch m) s1 (touch m') s2 Q.
Proof.
  intros [Hs Hh Hn] HQ. unfold sim, touch.
  destruct (isNew m), (isNew m'); intros s2' b [= <- <-]; eexists _, _; (split; [done|]);
    by apply HQ.
Qed.

Lemma sim_alloc s1 s2 (Q : R meta meta) :
  srel P s1 s2 -> (forall m1 m2 s1' s2', srel P s1' s2' -> Q m1 s1' m2 s2') ->
  sim alloc s1 alloc s2 Q.
Proof. intros [Hs Hh Hn] HQ s2' b [= <- <-]. eexists _, _. split; [done|]. by apply HQ. Qed.

Lemma sim_getNew m m' k b l l' r r' s1 s2 (Q : R Node Node) :
  srel P s1 s2 -> prune l l' -> prune r r' ->
  (forall n n' s1' s2', srel P s1' s2' -> prune n n' -> Q n s1' n' s2') ->
  sim (getNew m k b l r) s1 (getNew m' None b l' r') s2 Q.
Proof.
  intros Hs Hl Hr HQ. apply sim_bind, sim_touch; [done|]. intros. apply sim_ret, HQ; [done|by constructor].
Qed.

Lemma sim_getNewLeaf m m' k v nk s1 s2 (Q : R Node Node) :
  srel P s1 s2 ->
  (forall n n' s1' s2', srel P s1' s2' -> prune n n' -> Q n s1' n' s2') ->
  sim (getNewLeaf m k v nk) s1 (getNewLeaf m' k v nk) s2 Q.
Proof. intros Hs HQ. apply sim_bind, sim_touch; [done|]. intros. apply sim_ret, HQ; [done|constructor]. Qed.

Lemma sim_getNewKey m m' k key s1 s2 (Q : R (meta * option ADKey) (meta * option ADKey)) :
  srel P s1 s2 ->
  (forall m1 k1 m2 s1' s2', srel P s1' s2' -> Q (m1, k1) s1' (m2, None) s2') ->
  sim (getNewKey m k key) s1 (getNewKey m' None key) s2 Q.
Proof.
  intros [Hs Hh Hn] HQ s2' b [= <- <-]. destruct k as [k|]; [|by eexists _, _; split; [|by apply HQ]].
  unfold getNewKey, touch. destruct (isNew m); eexists _, _; (split; [done|]); by apply HQ.
Qed.
End SimOps.

Ltac sim_step :=
  match goal with
  | |- sim _ _ (throw _) _ _ => apply sim_throw
  | |- sim (bind _ _) _ (bind _ _) _ _ => apply sim_bind
  | |- sim (ret _) _ (ret _) _ _ => apply sim_ret
  | |- sim (guard _ _) _ (guard _ _) _ _ => apply sim_guard; intros ?
  | |- sim (lift_try _) _ (lift_try _) _ _ => apply sim_lift; intros ? ?
  | |- sim (onNodeVisit _ _ _ _) _ _ _ _ =>
      eapply sim_visit; [eassumption|]; intros ? ? ?
  | |- sim (touch _) _ _ _ _ => eapply sim_touch; [eassumption|]; intros ? ? ? ? ?
  | |- sim alloc _ _ _ _ => eapply sim_alloc; [eassumption|]; intros ? ? ? ? ?
  | |- sim (getNew _ _ _ _ _) _ _ _ _ =>
      eapply sim_getNew; [eassumption|first [eassumption|by constructor]..|]; intros ? ? ? ? ? ?
  | |- sim (getNewLeaf _ _ _ _) _ _ _ _ =>
      eapply sim_getNewLeaf; [eassumption|]; intros ? ? ? ? ? ?
  | |- sim (getNewKey _ _ _) _ _ _ _ =>
      eapply sim_getNewKey; [eassumption|]; intros ? ? ? ? ? ?
  end.

(** ** The rebalancing routines *)
Section SimRebalance.
Context `{G : Guava} `{HF : CryptographicHash} {S1 S2 : Type} (cfg1 cfg2 : TreeConfig).
Context (P : S1 -> S2 -> Prop).

(** Related results that keep the states related. *)
Definition node_rel (n : Node) (s1 : TreeState S1) (n' : Node) (s2 : TreeState S2) : Prop :=
  srel P s1 s2 /\ prune n n'.

Definition flagged_rel (a : Node * bool) (s1 : TreeState S1) (b : Node * bool)
    (s2 : TreeState S2) : Prop :=
  srel P s1 s2 /\ prune (fst a) (fst b) /\ snd a = snd b.

Definition modified_rel (a b : ModifyResult) : Prop :=
  let '(n, ch, inc, del, old) := a in
  let '(n', ch', inc', del', old') := b in
  prune n n' /\ ch = ch' /\ inc = inc' /\ del = del' /\ old = old'.

Definition mres_rel (a : ModifyResult) (s1 : TreeState S1) (b : ModifyResult)
    (s2 : TreeState S2) : Prop := srel P s1 s2 /\ modified_rel a b.

Lemma sim_doubleLeft m m' k l l' r r' s1 s2 :
  srel P s1 s2 -> prune l l' -> prune r r' ->
  sim (doubleLeftRotate m k l r) s1 (doubleLeftRotate m' None l' r') s2 node_rel.
Proof.
  intros Hs Hl Hr. unfold doubleLeftRotate.
  destruct r' as [|? ? ? [] ?|]; try apply sim_throw. prune_inv.
  repeat sim_step. by split.
Qed.

Lemma sim_doubleRight m m' k l l' r r' s1 s2 :
  srel P s1 s2 -> prune l l' -> prune r r' ->
  sim (doubleRightRotate m k l r) s1 (doubleRightRotate m' None l' r') s2 node_rel.
Proof.
  intros Hs Hl Hr. unfold doubleRightRotate.
  destruct l' as [|? ? ? ? []|]; try apply sim_throw. prune_inv.
  repeat sim_step. by split.
Qed.

Lemma sim_rebalanceLeft m m' k b l l' r r' res res' s1 s2 :
  srel P s1 s2 -> prune l l' -> prune r r' -> modified_rel res res' ->
  sim (rebalanceLeft m k b l r res) s1 (rebalanceLeft m' None b l' r' res') s2 mres_rel.
Proof.
  destruct res as [[[[n ch] inc] del] old], res' as [[[[n' ch'] inc'] del'] old'].
  intros Hs Hl Hr (Hn & -> & -> & -> & ->). unfold rebalanceLeft.
  destruct ch'; [|apply sim_ret; split; [done|]; by repeat constructor].
  destruct (inc' && (b <? 0)%Z).
  - destruct n' as [| lm lk lb ll lr|]; try apply sim_throw. prune_inv. destruct (lb <? 0)%Z.
    + repeat sim_step. split; [done|]. by repeat constructor.
    + apply sim_bind. eapply sim_mono; [eapply sim_doubleRight; [done|by constructor|done]|].
      intros a t1 c t2 [Hs' Hp]. apply sim_ret. by split_and!.
  - repeat sim_step. split; [done|]. by split_and!.
Qed.

Lemma sim_rebalanceRight m m' k b l l' r r' res res' s1 s2 :
  srel P s1 s2 -> prune l l' -> prune r r' -> modified_rel res res' ->
  sim (rebalanceRight m k b l r res) s1 (rebalanceRight m' None b l' r' res') s2 mres_rel.
Proof.
  destruct res as [[[[n ch] inc] del] old], res' as [[[[n' ch'] inc'] del'] old'].
  intros Hs Hl Hr (Hn & -> & -> & -> & ->). unfold rebalanceRight.
  destruct ch'; [|apply sim_ret; split; [done|]; by repeat constructor].
  destruct (inc' && (0 <? b)%Z).
  - destruct n' as [| lm lk lb ll lr|]; try apply sim_throw. prune_inv. destruct (0 <? lb)%Z.
    + repeat sim_step. split; [done|]. by repeat constructor.
    + apply sim_bind. eapply sim_mono; [eapply sim_doubleLeft; [done|done|by constructor]|].
      intros a t1 c t2 [Hs' Hp]. apply sim_ret. by split_and!.
  - repeat sim_step. split; [done|]. by split_and!.
Qed.

Lemma sim_rebalanceLeftShrunk m m' k b l l' r r' dec op s1 s2 :
  srel P s1 s2 -> prune l l' -> prune r r' ->
  sim (rebalanceLeftShrunk cfg1 m k b l r dec op) s1
      (rebalanceLeftShrunk cfg2 m' None b l' r' dec op) s2 flagged_rel.
Proof.
  intros Hs Hl Hr. unfold rebalanceLeftShrunk. destruct (dec && (0 <? b)%Z).
  - sim_step. sim_step. destruct r' as [| rm rk rb rl rr|]; try apply sim_throw. prune_inv.
    destruct (rb <? 0)%Z.
    + sim_step. sim_step. apply sim_bind. eapply sim_mono; [eapply sim_doubleLeft; [done|done|by constructor]|].
      intros a t1 c t2 [Hs' Hp]. apply sim_ret. by split_and!.
    + repeat sim_step. by split_and!.
  - repeat sim_step. by split_and!.
Qed.

Lemma sim_rebalanceRightShrunk m m' k b l l' r r' dec op s1 s2 :
  srel P s1 s2 -> prune l l' -> prune r r' ->
  sim (rebalanceRightShrunk cfg1 m k b l r dec op) s1
      (rebalanceRightShrunk cfg2 m' None b l' r' dec op) s2 flagged_rel.
Proof.
  intros Hs Hl Hr. unfold rebalanceRightShrunk. destruct (dec && (b <? 0)%Z).
  - sim_step. sim_step. destruct l' as [| rm rk rb rl rr|]; try apply sim_throw. prune_inv.
    destruct (0 <? rb)%Z.
    + sim_step. sim_step. apply sim_bind. eapply sim_mono; [eapply sim_doubleRight; [done|by constructor|done]|].
      intros a t1 c t2 [Hs' Hp]. apply sim_ret. by split_and!.
    + repeat sim_step. by split_and!.
  - repeat sim_step. by split_and!.
Qed.

Lemma sim_changeNextLeafKey n' : forall n nk op s1 s2, srel P s1 s2 -> prune n n' ->
  sim (changeNextLeafKeyOfMaxNode cfg1 n nk op) s1
      (changeNextLeafKeyOfMaxNode cfg2 n' nk op) s2 node_rel.
Proof.
  induction n' as [|m k b l IHl r IHr|m k v nk']; intros n nk op s1 s2 Hs Hn.
  - destruct n; simpl; apply sim_bind; sim_step; apply sim_throw.
  - prune_inv. cbn [changeNextLeafKeyOfMaxNode]. do 2 sim_step. apply sim_bind.
    eapply sim_mono; [by apply IHr|]. intros a t1 c t2 [Hs' Hp]. sim_step. by split.
  - prune_inv. simpl. repeat sim_step. by split.
Qed.

Lemma sim_changeKeyAndValue n' : forall n nk nv op s1 s2, srel P s1 s2 -> prune n n' ->
  sim (changeKeyAndValueOfMinNode cfg1 n nk nv op) s1
      (changeKeyAndValueOfMinNode cfg2 n' nk nv op) s2 node_rel.
Proof.
  induction n' as [|m k b l IHl r IHr|m k v nk']; intros n nk nv op s1 s2 Hs Hn.
  - destruct n; simpl; apply sim_bind; sim_step; apply sim_throw.
  - prune_inv. cbn [changeKeyAndValueOfMinNode]. do 2 sim_step. apply sim_bind.
    eapply sim_mono; [by apply IHl|]. intros a t1 c t2 [Hs' Hp]. sim_step. by split.
  - prune_inv. simpl. repeat sim_step. by split.
Qed.
End SimRebalance.

(** ** Deletion *)

(** A computation that never succeeds is simulated by anything. *)
Definition fails {S A} (m : Eff S A) : Prop := forall s s' a, m s <> (s', Success a).

Section Fails.
Context {S : Type}.

Lemma fails_throw {A} e : fails (@throw S A e).
Proof. by intros s s' a. Qed.
Lemma fails_now {A B} (m : Eff S A) (k : A -> Eff S B) : fails m -> fails (bind m k).
Proof. intros H s s' b (s1 & a & E & _)%bind_success. by apply H in E. Qed.
Lemma fails_later {A B} (m : Eff S A) (k : A -> Eff S B) : (forall a, fails (k a)) -> fails (bind m k).
Proof. intros H s s' b (s1 & a & _ & E)%bind_success. by apply H in E. Qed.
Lemma sim_fails {S1 A B} (m1 : Eff S1 A) (m2 : Eff S B) s1 s2 R : fails m2 -> sim m1 s1 m2 s2 R.
Proof. intros H s2' b E. by apply H in E. Qed.
End Fails.

Section SimDelete.
Context `{GL : GuavaLaws} `{HF : CryptographicHash} {S1 S2 : Type} (cfg1 cfg2 : TreeConfig)
  (T1 : TreeMethods S1) (T2 : TreeMethods S2).
Definition any (x1 : S1) (x2 : S2) : Prop := True.

Lemma fails_delete_label l dm op : fails (deleteHelper cfg2 T2 (LabelOnlyNode l) dm op).
Proof. apply fails_throw. Qed.
Lemma fails_min_label l nk nv op :
  fails (changeKeyAndValueOfMinNode (S := S2) cfg2 (LabelOnlyNode l) nk nv op).
Proof. apply fails_later. intros _. apply fails_throw. Qed.

Lemma fails_hard (m : meta) k (b : Z) l newLeft dec op :
  fails (let! saved := gets savedNode in
         match saved with
         | Some (Leaf _ sk sv _) =>
             modify (set_saved None) ;!
             let! mk := getNewKey m k sk in
             let! rn2 := changeKeyAndValueOfMinNode (S := S2) cfg2 (LabelOnlyNode l) sk sv op in
             let! m' := touch (fst mk) in
             rebalanceLeftShrunk cfg2 m' (snd mk) b newLeft rn2 dec op
         | _ => throw NoSuchElement
         end).
Proof.
  apply fails_later. intros [[]|]; try apply fails_throw. do 2 (apply fails_later; intros).
  apply fails_now, fails_min_label.
Qed.

(** Saving the maximum leaf, on both sides. *)
Lemma srel_saved o1 o2 (s1 : TreeState S1) (s2 : TreeState S2) :
  srel any s1 s2 -> option_Forall2 prune o1 o2 -> srel any (set_saved o1 s1) (set_saved o2 s2).
Proof. intros [] H. by split. Qed.

(** The hard case: the key is replaced by the saved maximum. *)
Lemma sim_hard m m' k b ml ml' r r' dec op s1 s2 :
  srel any s1 s2 -> prune ml ml' -> prune r r' ->
  sim (let! saved := gets savedNode in
       match saved with
       | Some (Leaf _ sk sv _) =>
           modify (set_saved None) ;!
           let! mk := getNewKey m k sk in
           let! rn2 := changeKeyAndValueOfMinNode cfg1 r sk sv op in
           let! m' := touch (fst mk) in
           rebalanceLeftShrunk cfg1 m' (snd mk) b ml rn2 dec op
       | _ => throw NoSuchElement
       end) s1
      (let! saved := gets savedNode in
       match saved with
       | Some (Leaf _ sk sv _) =>
           modify (set_saved None) ;!
           let! mk := getNewKey m' None sk in
           let! rn2 := changeKeyAndValueOfMinNode cfg2 r' sk sv op in
           let! m' := touch (fst mk) in
           rebalanceLeftShrunk cfg2 m' (snd mk) b ml' rn2 dec op
       | _ => throw NoSuchElement
       end) s2 (flagged_rel any).
Proof.
  intros Hs Hml Hr. apply sim_bind, sim_gets.
  destruct (savedNode s2) as [[]|] eqn:E; try apply sim_throw.
  destruct (sr_saved _ _ _ Hs) as [x y Hp|]; [|discriminate]. injection E as ->. prune_inv.
  apply sim_bind, sim_modify. pose proof (srel_saved None None _ _ Hs ltac:(constructor)) as Hs'.
  do 2 sim_step. apply sim_bind. eapply sim_mono; [by apply sim_changeKeyAndValue|].
  intros a t1 c t2 [Ht Hp2]. simpl. do 2 sim_step. by apply sim_rebalanceLeftShrunk.
Qed.

Lemma sim_on_sub {A} (m1 : Eff S1 A) (m2 : Eff S2 A) s1 s2 x1 x2 (c : A) (Q : A -> TreeState S1 -> A -> TreeState S2 -> Prop) :
  m1 (sub s1) = (x1, Success c) -> m2 (sub s2) = (x2, Success c) ->
  Q c (set_sub x1 s1) c (set_sub x2 s2) -> sim (on_sub m1) s1 (on_sub m2) s2 Q.
Proof.
  intros E1 E2 HQ s2' b. unfold on_sub. rewrite E1, E2. intros [= <- <-]. by eexists _, _.
Qed.

(** Removing the maximum, no replay involved. *)
(** Reduce the tests on a known direction, leaving [deleteHelper] folded. *)
#[local] Ltac branch := cbn [asLeaf isLeaf Z.leb Z.ltb Z.eqb Z.compare Pos.compare Pos.compare_cont
                             CompOpp andb negb].

Lemma sim_deleteMax n' : forall n op s1 s2, srel any s1 s2 -> prune n n' ->
  sim (deleteHelper cfg1 T1 n true op) s1 (deleteHelper cfg2 T2 n' true op) s2 (flagged_rel any).
Proof.
  induction n' as [|m k b l IHl r IHr|m k v nk']; intros n op s1 s2 Hs Hn;
    [apply sim_fails, fails_throw| |apply sim_fails, fails_throw].
  prune_inv. cbn [deleteHelper]. sim_step. sim_step. sim_step. sim_step. sim_step. sim_step.
  destruct r as [|rm rk rb rl rr|rm rk rv rnk].
  - apply sim_fails, fails_now, fails_delete_label.
  - prune_inv. branch. sim_step. eapply sim_mono; [apply IHr; [done|by constructor]|].
    intros [a ab] t1 [c cb] t2 (Ht & Hp & Eb). simpl in Hp, Eb. subst cb.
    by apply sim_rebalanceRightShrunk.
  - prune_inv. branch. sim_step. sim_step. apply sim_bind, sim_modify, sim_ret.
    split; [|done]. apply srel_saved; [done|]. by repeat constructor.
Qed.

(** Both sides are about to replay [cs]. *)
Definition both_replay (cs : list Z) (x1 : S1) (x2 : S2) : Prop := replays T1 x1 cs /\ replays T2 x2 cs.

Lemma srel_weaken (P Q : S1 -> S2 -> Prop) s1 s2 :
  (P (sub s1) (sub s2) -> Q (sub s1) (sub s2)) -> srel P s1 s2 -> srel Q s1 s2.
Proof. intros H []. split; auto. Qed.

Lemma sim_replay c cs s1 s2 Q :
  srel (both_replay (c :: cs)) s1 s2 ->
  (forall s1' s2', srel (both_replay cs) s1' s2' -> Q c s1' c s2') ->
  sim (on_sub (replayComparison T1)) s1 (on_sub (replayComparison T2)) s2 Q.
Proof.
  intros [[(x1 & E1 & H1) (x2 & E2 & H2)] Hh Hn] HQ. eapply sim_on_sub; [done..|].
  by apply HQ.
Qed.

Lemma srel_any P s1 s2 : srel P s1 s2 -> srel any s1 s2.
Proof. by apply srel_weaken. Qed.

Lemma sim_delete n' : forall n lo hi h key op s1 s2,
  srel (both_replay (cmps key n)) s1 s2 -> prune n n' -> wf lo hi n h ->
  sim (deleteHelper cfg1 T1 n false op) s1 (deleteHelper cfg2 T2 n' false op) s2 (flagged_rel any).
Proof.
  induction n' as [|m k b l IHl r IHr|m k v nk']; intros n lo hi h key op s1 s2 Hs Hn Hwf;
    [apply sim_fails, fails_throw| |apply sim_fails, fails_throw].
  prune_inv. wf_open Hwf as k' hl hr Hl Hr Hb. cbn [deleteHelper]. sim_step. eapply sim_visit; [exact Hs|].
  intros s1' s2' Hs'. cbn [cmps] in Hs'.
  destruct (Z.eqb_spec (compare key k') 0) as [E0|E0];
    [|destruct (Z.ltb_spec (compare key k') 0) as [E1|E1]];
    sim_step; (eapply sim_replay; [exact Hs'|]); intros t1 t2 Ht; branch.
  - apply srel_any in Ht. do 2 sim_step.
    destruct r as [|rm rk rb rl rr|rm rk rv rnk].
    + apply sim_fails. destruct l as [|? ? ? ? ?|]; branch.
      * apply fails_now, fails_delete_label.
      * apply fails_later. intros [? ?]. apply fails_hard.
      * apply fails_later. intros _. apply fails_now, fails_min_label.
    + prune_inv. destruct l as [|? ? ? ? ?|]; branch.
      * apply sim_fails, fails_now, fails_delete_label.
      * prune_inv. branch. sim_step. eapply sim_mono; [by apply sim_deleteMax; [|constructor]|].
        intros [a ab] u1 [c cb] u2 (Hu & Hp & Eb). simpl in Hp, Eb. subst cb. branch.
        apply sim_hard; [done|done|by constructor].
      * prune_inv. branch. do 2 sim_step. sim_step.
        eapply sim_mono; [by apply sim_changeKeyAndValue; [|constructor]|].
        intros a u1 c u2 [Hu Hp]. apply sim_ret. by split_and!.
    + prune_inv. branch. do 2 sim_step. do 2 sim_step. sim_step.
      eapply sim_mono; [by apply sim_changeNextLeafKey|].
      intros a u1 c u2 [Hu Hp]. apply sim_ret. by split_and!.
  - destruct l as [|lm lk lb ll lr|].
    + apply sim_fails. apply fails_later. intros _. apply fails_now, fails_delete_label.
    + prune_inv. branch. do 2 sim_step. sim_step.
      eapply sim_mono; [eapply IHl; [exact Ht|by constructor|done]|].
      intros [a ab] u1 [c cb] u2 (Hu & Hp & Eb). simpl in Hp, Eb. subst cb. branch.
      by apply sim_rebalanceLeftShrunk.
    + apply sim_bind, sim_fails. unfold guard. branch. apply fails_throw.
  - do 2 sim_step. destruct r as [|rm rk rb rl rr|rm rk rv rnk].
    + apply sim_fails, fails_now, fails_delete_label.
    + prune_inv. branch. sim_step.
      eapply sim_mono; [eapply IHr; [exact Ht|by constructor|done]|].
      intros [a ab] u1 [c cb] u2 (Hu & Hp & Eb). simpl in Hp, Eb. subst cb. branch.
      by apply sim_rebalanceRightShrunk.
    + prune_inv. branch. do 2 sim_step. apply sim_bind, sim_guard. discriminate.
Qed.
End SimDelete.
