(* ===== verification/AvlSound.v ===== *)
(** * AvlSound: a verifier that accepts agrees with the prover

    The search of the verifier follows the prover's path whenever it succeeds,
    so an accepted operation returns what the prover returned and leaves the
    pruned image of the prover's tree.  The tree a verifier reconstructs under
    the prover's digest is the pruned image of the prover's tree, unless two
    inputs hashed in the two trees collide. *)

From S2P Require Import Prelude External AvlNode AvlOps AvlProver AvlInv AvlDelete AvlBits AvlModify.
From S2P Require Import AvlProverSpec AvlVerifier AvlSim.

Section Search.
Context `{GL : GuavaLaws} `{HF : CryptographicHash} (cfg : TreeConfig) (proof : bytes).
Abbreviation V := (verifier_methods proof).
Abbreviation anypv := (@any ProverFields VerifierFields).

(** The bits of the proof from [d] on are [bs]. *)
Definition vbits (d : Z) (bs : list bool) : Prop :=
  forall (i : nat) (b : bool), bs !! i = Some b -> bit_of proof (d + Z.of_nat i) = Success b.

Lemma vbits_cons d b bs : bit_of proof d = Success b -> vbits (d + 1) bs -> vbits d (b :: bs).
Proof.
  intros H0 H [|i] b' Hi; simpl in Hi.
  - injection Hi as <-. by rewrite Z.add_0_r.
  - replace (d + Z.of_nat (S i))%Z with (d + 1 + Z.of_nat i)%Z by lia. by apply H.
Qed.

(** What an accepted search tells: the key lies in the searched interval,
    the proof holds the prover's path, and the last right step is the match. *)
Definition searched (fnd : bool) (key lo hi : ADKey) (n : Node) (x x' : VerifierFields) : Prop :=
  kle lo key /\ klt key hi /\ vbits (directionsIndex x) (path fnd key n) /\
  v_replayIndex x' = v_replayIndex x /\
  (fnd = true -> v_lastRightStep x' = v_lastRightStep x) /\
  (fnd = false -> hit key n = true ->
   v_lastRightStep x' = (directionsIndex x + zlen (cmps key n) - 1)%Z).

(** *** The leaf *)

Lemma sim_modifyFound (P : ProverFields -> VerifierFields -> Prop) m m' k v nk op s1 s2 : srel P s1 s2 ->
  sim (modifyFound cfg m k v nk op) s1 (modifyFound (verifier_cfg cfg) m' k v nk op) s2 (mres_rel P).
Proof.
  intros Hs. unfold modifyFound. destruct (isLookup op).
  { repeat sim_step. split; [done|]. by repeat constructor. }
  do 2 sim_step. destruct a as [newV|].
  - do 2 sim_step. repeat sim_step. split; [done|]. by split_and!.
  - repeat sim_step. split; [done|]. by repeat constructor.
Qed.

Lemma sim_modifyMissing (P : ProverFields -> VerifierFields -> Prop) m m' k v nk key op s1 s2 : srel P s1 s2 ->
  sim (modifyMissing cfg prover_methods m k v nk key op) s1
      (modifyMissing (verifier_cfg cfg) V m' k v nk key op) s2 (mres_rel P).
Proof.
  intros Hs. unfold modifyMissing. destruct (isLookup op).
  { repeat sim_step. split; [done|]. by repeat constructor. }
  do 2 sim_step. destruct a as [newV|].
  - do 2 sim_step. do 2 sim_step. sim_step. unfold addNode. sim_step. sim_step.
    repeat sim_step. split; [done|]. by split_and!; [repeat constructor|..].
  - repeat sim_step. split; [done|]. by repeat constructor.
Qed.

(** *** The search *)

(** The key is in the interval of an accepted search. *)
Lemma verifier_range op key s2' res n' : forall n lo hi h s2,
  prune n n' -> wf lo hi n h ->
  modifyHelper (verifier_cfg cfg) V n' key op s2 = (s2', Success res) ->
  kle lo key /\ klt key hi.
Proof.
  revert s2' res. induction n' as [|m k b l IHl r IHr|m k v nk]; intros s2' res n lo hi h s2 Hp Hwf E.
  - discriminate.
  - prune_inv. wf_open Hwf as k' hl hr Hl Hr Hb. cbn [modifyHelper] in E. eff_inv.
    destruct a; eff_inv.
    + destruct (IHl _ _ _ _ _ _ _ H Hl E1) as [? Hk]. split; [done|].
      eapply klt_trans; [exact Hk|by eapply wf_lt].
    + destruct (IHr _ _ _ _ _ _ _ H0 Hr E1) as [Hk ?]. split; [|done].
      right. eapply klt_le_trans; [by eapply wf_lt|done].
  - prune_inv. wf_inv. cbn [modifyHelper] in E. eff_inv. clear E.
    unfold on_sub in E0. destruct (keyMatchesLeaf _ _ _ _) as [x1 [c|]] eqn:Ek; [|discriminate].
    cbn in Ek. unfold verifier_keyMatchesLeaf in Ek. cbn in Ek. unfold guard in Ek.
    destruct (Z.leb_spec 0 (compare key k)) as [Hc|]; [|by eff_inv].
    destruct (Z.eqb_spec (compare key k) 0) as [Ec|Ec].
    + apply compare_eq in Ec as ->. split; [by left|done].
    + destruct (Z.ltb_spec (compare key nk) 0) as [Hc2|]; [|by eff_inv].
      split; [right; apply compare_gt; lia|done].
Qed.

(** A step of the verifier's search and what it reads. *)
Lemma verifier_next_inv key n x x' b :
  verifier_nextDirectionIsLeft proof key n x = (x', Success b) ->
  bit_of proof (directionsIndex x) = Success b /\
  x' = VF (directionsIndex x + 1) (if b then v_lastRightStep x else directionsIndex x) (v_replayIndex x).
Proof. unfold verifier_nextDirectionIsLeft. intros E. eff_inv. by unfold id in *. Qed.

Definition search_lo (fnd : bool) (key lo : ADKey) : Prop :=
  if fnd then key = lo else klt lo key.

(** Both leaf checks give the same answer. *)
Lemma sim_leaf m m' k v nk key op fnd bs ri lrs s1 s2 :
  klt k nk -> search_lo fnd key k -> pfields bs ri lrs fnd (sub s1) -> srel anypv s1 s2 ->
  sim (modifyHelper cfg prover_methods (Leaf m k v nk) key op) s1
      (modifyHelper (verifier_cfg cfg) V (Leaf m' k v nk) key op) s2
      (fun a s1' b s2' => mres_rel anypv a s1' b s2' /\ sub s2' = sub s2).
Proof.
  intros Hlt Hlo Hpf Hs. cbn [modifyHelper].
  destruct (prover_matches_spec key (Leaf m k v nk) _ _ _ _ _ Hpf) as (f' & E1 & _).
  intros s2' r (t2 & c & E2 & Er)%bind_success.
  assert (t2 = s2 /\ c = fnd) as [-> ->].
  { unfold on_sub in E2. cbn in E2. unfold verifier_keyMatchesLeaf in E2. cbn in E2.
    destruct fnd; simpl in Hlo.
    - subst key. rewrite compare_refl in E2. cbn in E2. injection E2 as <- <-. by destruct s2.
    - pose proof (klt_ne _ _ Hlo). unfold guard in E2.
      destruct (Z.leb_spec 0 (compare key k)); [|discriminate].
      destruct (Z.eqb_spec (compare key k) 0) as [Ec|]; [by apply compare_eq in Ec|].
      destruct (compare key nk <? 0)%Z; [|discriminate]. injection E2 as <- <-. by destruct s2. }
  assert (srel (fun _ x2 => x2 = sub s2) (set_sub f' s1) s2) as Hs'.
  { destruct Hs. by split. }
  assert (forall a s1' b s2', mres_rel (fun _ x2 => x2 = sub s2) a s1' b s2' ->
    mres_rel anypv a s1' b s2' /\ sub s2' = sub s2) as Hw.
  { intros a s1' b t2 [[Hx ? ?] Ha]. by split. }
  unfold on_sub at 1. unfold bind at 1. cbn [keyMatchesLeaf prover_methods]. rewrite E1.
  destruct fnd.
  - exact (sim_mono _ _ _ _ _ _ (sim_modifyFound _ m m' k v nk op _ _ Hs') Hw _ _ Er).
  - exact (sim_mono _ _ _ _ _ _ (sim_modifyMissing _ m m' k v nk key op _ _ Hs') Hw _ _ Er).
Qed.

(** The way back up keeps what the search established. *)
Lemma sim_up_left (F : VerifierFields -> Prop) m m' k b l l' r r' key op t1 t2 :
  prune l l' -> prune r r' ->
  sim (modifyHelper cfg prover_methods l key op) t1 (modifyHelper (verifier_cfg cfg) V l' key op) t2
      (fun a s1' b s2' => mres_rel anypv a s1' b s2' /\ F (sub s2')) ->
  sim (let! res := modifyHelper cfg prover_methods l key op in
       onNodeVisit cfg (InternalNode m k b l r) op false ;! rebalanceLeft m k b l r res) t1
      (let! res := modifyHelper (verifier_cfg cfg) V l' key op in
       onNodeVisit (verifier_cfg cfg) (InternalNode m' None b l' r') op false ;!
       rebalanceLeft m' None b l' r' res) t2
      (fun a s1' b s2' => mres_rel anypv a s1' b s2' /\ F (sub s2')).
Proof.
  intros Hl Hr H. apply sim_bind. eapply sim_mono; [exact H|]. intros a u1 c u2 [[[_ ? ?] Ha] Hf].
  assert (srel (fun _ x2 => F x2) u1 u2) as Hu by done.
  do 2 sim_step. eapply sim_mono; [by apply sim_rebalanceLeft|].
  intros a' w1 c' w2 [[? ? ?] ?]. by split.
Qed.

Lemma sim_up_right (F : VerifierFields -> Prop) m m' k b l l' r r' key op t1 t2 :
  prune l l' -> prune r r' ->
  sim (modifyHelper cfg prover_methods r key op) t1 (modifyHelper (verifier_cfg cfg) V r' key op) t2
      (fun a s1' b s2' => mres_rel anypv a s1' b s2' /\ F (sub s2')) ->
  sim (let! res := modifyHelper cfg prover_methods r key op in
       onNodeVisit cfg (InternalNode m k b l r) op false ;! rebalanceRight m k b l r res) t1
      (let! res := modifyHelper (verifier_cfg cfg) V r' key op in
       onNodeVisit (verifier_cfg cfg) (InternalNode m' None b l' r') op false ;!
       rebalanceRight m' None b l' r' res) t2
      (fun a s1' b s2' => mres_rel anypv a s1' b s2' /\ F (sub s2')).
Proof.
  intros Hl Hr H. apply sim_bind. eapply sim_mono; [exact H|]. intros a u1 c u2 [[[_ ? ?] Ha] Hf].
  assert (srel (fun _ x2 => F x2) u1 u2) as Hu by done.
  do 2 sim_step. eapply sim_mono; [by apply sim_rebalanceRight|].
  intros a' w1 c' w2 [[? ? ?] ?]. by split.
Qed.

(** What the search below a step says about the search from the node. *)
Lemma searched_left fnd key lo k hi m b l r y x' :
  bit_of proof (directionsIndex y) = Success true -> klt key k -> klt key hi ->
  searched fnd key lo k l (VF (directionsIndex y + 1) (v_lastRightStep y) (v_replayIndex y)) x' ->
  searched fnd key lo hi (InternalNode m (Some k) b l r) y x'.
Proof.
  intros Hbit Hk Hhi (H1 & _ & Hv & Hri & Ht & Hf). unfold klt in Hk.
  split_and!; [done|done| |done|done|].
  - simpl. destruct fnd; [by apply vbits_cons|].
    destruct (Z.eqb_spec (compare key k) 0); [lia|]. destruct (Z.ltb_spec (compare key k) 0); [|lia].
    by apply vbits_cons.
  - unfold hit in *. simpl in *. destruct (Z.eqb_spec (compare key k) 0); [lia|].
    destruct (Z.ltb_spec (compare key k) 0); [|lia]. simpl. intros -> Hh.
    rewrite Hf by done. unfold zlen. simpl. lia.
Qed.

Lemma searched_right key lo k hi m b l r y x' :
  bit_of proof (directionsIndex y) = Success false -> klt k key -> kle lo key ->
  searched false key k hi r (VF (directionsIndex y + 1) (directionsIndex y) (v_replayIndex y)) x' ->
  searched false key lo hi (InternalNode m (Some k) b l r) y x'.
Proof.
  intros Hbit Hk Hlo (_ & H2 & Hv & Hri & Ht & Hf). apply compare_gt in Hk.
  split_and!; [done|done| |done|done|].
  - simpl. destruct (Z.eqb_spec (compare key k) 0); [lia|].
    destruct (Z.ltb_spec (compare key k) 0); [lia|]. by apply vbits_cons.
  - unfold hit in *. simpl in *. destruct (Z.eqb_spec (compare key k) 0); [lia|].
    destruct (Z.ltb_spec (compare key k) 0); [lia|]. simpl. intros _ Hh.
    rewrite Hf by done. unfold zlen. simpl. lia.
Qed.

Lemma searched_match key lo hi m b l r y x' :
  bit_of proof (directionsIndex y) = Success false -> kle lo key ->
  searched true key key hi r (VF (directionsIndex y + 1) (directionsIndex y) (v_replayIndex y)) x' ->
  searched false key lo hi (InternalNode m (Some key) b l r) y x'.
Proof.
  intros Hbit Hlo (_ & H2 & Hv & Hri & Ht & Hf).
  split_and!; [done|done| |done|done|].
  - simpl. rewrite compare_refl. by apply vbits_cons.
  - simpl. rewrite compare_refl. simpl. intros _ _. rewrite Ht by done. unfold zlen. simpl. lia.
Qed.

Lemma srel_any_set f y (s1 : TreeState ProverFields) (s2 : TreeState VerifierFields) :
  srel anypv s1 s2 -> srel anypv (set_sub f s1) (set_sub y s2).
Proof. intros []. by split. Qed.

Lemma sim_modifyHelper op key n' : forall n fnd lo hi h bs ri lrs s1 s2,
  prune n n' -> wf lo hi n h -> search_lo fnd key lo ->
  pfields bs ri lrs fnd (sub s1) -> srel anypv s1 s2 ->
  sim (modifyHelper cfg prover_methods n key op) s1
      (modifyHelper (verifier_cfg cfg) V n' key op) s2
      (fun a s1' b s2' => mres_rel anypv a s1' b s2' /\ searched fnd key lo hi n (sub s2) (sub s2')).
Proof.
  induction n' as [|m k b l IHl r IHr|m k v nk]; intros n fnd lo hi h bs ri lrs s1 s2 Hp Hwf Hlo Hpf Hs.
  - apply sim_fails, fails_throw.
  - intros s2' res E. pose proof (verifier_range _ _ _ _ _ _ _ _ _ _ Hp Hwf E) as [Hk1 Hk2].
    prune_inv. wf_open Hwf as k' hl hr Hl Hr Hb.
    destruct (prover_next_spec key x k' (hr - hl) x1 x2 bs ri lrs fnd (sub s1) Hpf) as (f' & E1 & Hf').
    cbn [modifyHelper] in E |- *. unfold on_sub at 1. unfold bind at 1.
    cbn [nextDirectionIsLeft prover_methods]. rewrite E1.
    apply bind_success in E as (t2 & c & E2 & E).
    unfold on_sub in E2. cbn [nextDirectionIsLeft verifier_methods] in E2.
    destruct (verifier_nextDirectionIsLeft proof key _ (sub s2)) as [y2 c'] eqn:En. injection E2 as <- ->.
    apply verifier_next_inv in En as [Hbit Ey].
    destruct c; pose proof E as (t3 & c3 & E3 & _)%bind_success.
    + destruct (verifier_range _ _ _ _ _ _ _ _ _ _ H Hl E3) as [_ Hk].
      assert (compare key k' < 0)%Z as Hc by done.
      replace (fnd || negb (compare key k' =? 0)%Z && (compare key k' <? 0)%Z) with true in * by
        (symmetry; apply orb_true_iff; right; lia).
      replace (fnd || (compare key k' =? 0)%Z) with fnd in Hf' by (destruct fnd; simpl; lia).
      pose proof (IHl _ _ _ _ _ _ _ _ (set_sub f' s1) _ H Hl Hlo Hf' (srel_any_set f' y2 _ _ Hs)) as IH.
      destruct (sim_up_left _ x m (Some k') (hr - hl) _ _ _ _ _ _ _ _ H H0 IH _ _ E) as (s1' & a & Ea & Hm & Hsr).
      exists s1', a. split; [exact Ea|]. split; [exact Hm|]. simpl in Hsr. subst y2.
        by eapply searched_left.
    + destruct (verifier_range _ _ _ _ _ _ _ _ _ _ H0 Hr E3) as [Hk _].
      destruct fnd.
      { simpl in Hlo. subst key. exfalso. eapply klt_irrefl, klt_le_trans; [|exact Hk]. by eapply wf_lt. }
      assert (~ (compare key k' < 0)%Z) as Hc by (by apply kle_nlt).
      replace (compare key k' <? 0)%Z with false in * by lia. rewrite andb_false_r in *.
      destruct (Z.eqb_spec (compare key k') 0) as [Eq|Ne]; simpl in Hf', E1.
      * apply compare_eq in Eq as ->.
        pose proof (IHr _ true _ _ _ _ _ _ (set_sub f' s1) _ H0 Hr eq_refl Hf' (srel_any_set f' y2 _ _ Hs)) as IH.
        destruct (sim_up_right _ x m (Some k') (hr - hl) _ _ _ _ _ _ _ _ H H0 IH _ _ E) as (s1' & a & Ea & Hm & Hsr).
        exists s1', a. split; [exact Ea|]. split; [exact Hm|]. simpl in Hsr. subst y2.
        by apply searched_match.
      * assert (klt k' key) as Hgt by (apply compare_gt; lia).
        pose proof (IHr _ false _ _ _ _ _ _ (set_sub f' s1) _ H0 Hr Hgt Hf' (srel_any_set f' y2 _ _ Hs)) as IH.
        destruct (sim_up_right _ x m (Some k') (hr - hl) _ _ _ _ _ _ _ _ H H0 IH _ _ E) as (s1' & a & Ea & Hm & Hsr).
        exists s1', a. split; [exact Ea|]. split; [exact Hm|]. simpl in Hsr. subst y2.
        by apply searched_right.
  - prune_inv. wf_inv. intros s2' res E.
    pose proof (verifier_range _ _ _ _ _ _ _ _ _ _ (prune_leaf x m k v nk) (wf_leaf x k v nk H2) E) as [Hk1 Hk2].
    destruct (sim_leaf x _ _ _ _ _ _ _ _ _ _ _ _ H2 Hlo Hpf Hs _ _ E) as (s1' & a & Ea & Hm & Hsub).
    exists s1', a. split; [done|]. split; [done|]. rewrite Hsub. split_and!; try done.
Qed.
End Search.

(** ** One operation *)
Section SoundOperation.
Context `{GL : GuavaLaws} `{HF : CryptographicHash} (cfg : TreeConfig) (proof : bytes).
Abbreviation V := (verifier_methods proof).
Abbreviation anypv := (@any ProverFields VerifierFields).

Lemma sim_wp {S1 S2 A B} (m1 : Eff S1 A) s1 (m2 : Eff S2 B) s2 R Q :
  sim m1 s1 m2 s2 R -> wp m1 s1 Q ->
  sim m1 s1 m2 s2 (fun a s1' b s2' => R a s1' b s2' /\ Q (Success a) s1').
Proof.
  intros H Hw s2' b E. destruct (H _ _ E) as (s1' & a & E1 & HR). exists s1', a.
  split; [done|]. split; [done|]. unfold wp in Hw. by rewrite E1 in Hw.
Qed.

Lemma verifier_replays key lo hi n x x' :
  searched proof false key lo hi n x x' -> v_replayIndex x = directionsIndex x ->
  hit key n = true -> replays V x' (cmps key n).
Proof.
  intros (_ & _ & Hv & Hri & _ & Hlrs) Hx Hhit. specialize (Hlrs eq_refl Hhit).
  set (X := fun i => VF (directionsIndex x') (v_lastRightStep x') i).
  replace x' with (X (directionsIndex x)) by (subst X; destruct x'; simpl in *; congruence).
  apply (replays_path _ _ (v_lastRightStep x')); [| |done|done].
  - intros i b Hi Hlt. cbn. unfold verifier_replayComparison, bind, gets, modify, ret, lift_try, id. simpl.
    destruct (Z.eqb_spec (directionsIndex x + Z.of_nat i) (v_lastRightStep x')); [lia|].
    rewrite (Hv _ _ Hi). simpl.
    destruct (Z.ltb_spec (directionsIndex x + Z.of_nat i) (v_lastRightStep x')); [|lia].
    by destruct b.
  - cbn. unfold verifier_replayComparison, bind, gets, modify, ret, id. simpl. by rewrite Z.eqb_refl.
Qed.

Lemma decide_delete op old : decide_op cfg op old = Success (Some None) -> is_Some old.
Proof.
  unfold decide_op. destruct (isLookup op); [done|]. destruct old; [done|].
  destruct (updateFn op None) as [[?|]|]; simpl; try done. by destruct (checkValueLength _ _).
Qed.

(** Two roots with related states and equal old values. *)
Definition op_rel (a : Node * option ADValue) (s1 : TreeState ProverFields)
    (b : Node * option ADValue) (s2 : TreeState VerifierFields) : Prop :=
  srel anypv s1 s2 /\ prune (fst a) (fst b) /\ snd a = snd b.

Lemma srel_height z1 z2 s1 s2 : srel anypv s1 s2 -> z1 = z2 ->
  srel anypv (set_height z1 s1) (set_height z2 s2).
Proof. intros [] ->. by split. Qed.

(** The deletion that follows an accepted search. *)
Lemma sim_root_delete n n' h key op s1 s2 old :
  srel (both_replay prover_methods V (cmps key n)) s1 s2 -> prune n n' ->
  wf (NegativeInfinityKey cfg) (PositiveInfinityKey cfg) n h ->
  sim (let! del := deleteHelper cfg prover_methods n false op in
       let '(postDeleteRootNode, heightDecreased) := del in
       (if heightDecreased then modify (fun s => set_height (rootNodeHeight s - 1) s) else ret tt) ;!
       ret (postDeleteRootNode, old)) s1
      (let! del := deleteHelper (verifier_cfg cfg) V n' false op in
       let '(postDeleteRootNode, heightDecreased) := del in
       (if heightDecreased then modify (fun s => set_height (rootNodeHeight s - 1) s) else ret tt) ;!
       ret (postDeleteRootNode, old)) s2 op_rel.
Proof.
  intros Hs Hp Hwf. sim_step. eapply sim_mono; [by eapply sim_delete|].
  intros [a d] u1 [b d'] u2 (Hu & Hpr & Hd). simpl in Hpr, Hd. subst d'.
  destruct d; sim_step; [apply sim_modify|]; repeat sim_step; split_and!; try done.
  apply srel_height; [done|]. f_equal. apply Hu.
Qed.

Lemma sim_returnResult op n n' h bs lrs s1 s2 :
  prune n n' -> wf (NegativeInfinityKey cfg) (PositiveInfinityKey cfg) n h ->
  pfields bs (zlen bs) lrs false (sub s1) -> rootNodeHeight s1 = rootNodeHeight s2 ->
  v_replayIndex (sub s2) = directionsIndex (sub s2) ->
  sim (returnResultOfOneOperation cfg prover_methods op n) s1
      (returnResultOfOneOperation (verifier_cfg cfg) V op n') s2 op_rel.
Proof.
  intros Hp Hwf Hpf Hs Hri. unfold returnResultOfOneOperation. cbv zeta.
  change (NegativeInfinityKey (verifier_cfg cfg)) with (NegativeInfinityKey cfg).
  change (PositiveInfinityKey (verifier_cfg cfg)) with (PositiveInfinityKey cfg).
  change (keyLength (verifier_cfg cfg)) with (keyLength cfg).
  sim_step. sim_step. sim_step. sim_step. sim_step. sim_step. sim_step. apply sim_modify.
  assert (klt (NegativeInfinityKey cfg) (op_key op)) as Hlo by (apply compare_gt; lia).
  assert (klt (op_key op) (PositiveInfinityKey cfg)) as Hhi by (unfold klt; lia).
  set (t1 := set_saved None s1). set (t2 := set_saved None s2).
  assert (srel anypv t1 t2) as Ht by (by repeat constructor).
  apply sim_bind. eapply sim_mono.
  { apply (sim_wp _ _ _ _ _ (fun r s1' =>
       pfields (bs ++ path false (op_key op) n) (zlen bs) (last_match false (op_key op) n bs lrs) false (sub s1') /\
       modify_outcome cfg op (op_key op) (NegativeInfinityKey cfg) (PositiveInfinityKey cfg) h n t1 r s1')
      (sim_modifyHelper cfg proof op (op_key op) n' n false _ _ _ bs (zlen bs) lrs t1 t2 Hp Hwf Hlo Hpf Ht)).
    eapply (modifyHelper_spec cfg n false); [done|by split|exact Hpf|]. by intros. }
  intros [[[[a ch] inc] del] old] u1 [[[[b ch'] inc'] del'] old'] u2
    [[[Hu (Hab & <- & <- & <- & <-)] Hsr] [Hpf' Hout]].
  destruct del; [|destruct inc; sim_step; [apply sim_modify|]; repeat sim_step; split_and!; try done;
                  apply srel_height; [done|]; f_equal; apply Hu].
  unfold modify_outcome in Hout.
  destruct (decide_op cfg op (to_map n !! op_key op)) as [[[v|]|]|e] eqn:Ed.
  - destruct Hout as (? & ? & [=] & _).
  - injection Hout as -> -> -> ->. 
    assert (hit (op_key op) n = true) as Hhit by (eapply cmps_hit; eauto using decide_delete).
    eapply sim_root_delete; [|done|done]. destruct Hu as [_ Hh Hsv]. split; [|done|done].
    split; [by eapply prover_replays|by eapply verifier_replays].
  - by injection Hout.
  - by destruct Hout.
Qed.
End SoundOperation.

(** ** A sequence of operations *)
Section SoundRun.
Context `{GL : GuavaLaws} `{HF : CryptographicHash} (cfg : TreeConfig) (proof : bytes).

(** The verifier, unless it has rejected, holds the pruned image of the
    prover's tree and its height. *)
Definition follows (p : BatchAVLProver) (v : BatchAVLVerifier) : Prop :=
  match v_topNode v with
  | None => True
  | Some vt => prune (topNode p) vt /\ rootNodeHeight (tree p) = rootNodeHeight (v_tree v)
  end.

Lemma verify_step op p v v' r :
  prover_inv cfg p -> follows p v -> verifyOneOperation cfg proof op v = (v', r) ->
  match r with
  | Success o => exists p', performOneOperation cfg op p = (p', Success o) /\ follows p' v'
  | Failure _ => v_topNode v' = None
  end.
Proof.
  intros [Hwf (bs & ri & lrs & Hpf)] Hf. unfold verifyOneOperation, follows in *.
  destruct (v_topNode v) as [vt|]; [|by intros [= <- <-]]. destruct Hf as [Hp Hh].
  set (s2 := set_sub _ _). set (s1 := set_sub (set_replayIndex (directionsBitLength (sub (tree p))) (sub (tree p))) (tree p)).
  assert (pfields bs (zlen bs) lrs false (sub s1)) as Hpf' by (destruct Hpf; by split).
  pose proof (sim_returnResult cfg proof op (topNode p) vt _ bs lrs s1 s2 Hp Hwf Hpf' Hh eq_refl) as Hsim.
  destruct (returnResultOfOneOperation (verifier_cfg cfg) _ op vt s2) as [t2 [[n' old]|e]] eqn:E;
    intros [= <- <-]; [|done].
  destruct (Hsim _ _ E) as (t1 & [n old1] & E1 & [_ Hh' _] & Hp' & Ho). simpl in Hp', Ho. subst old1.
  exists (Prover t1 n (oldTopNode p)). split; [|by split].
  unfold performOneOperation. fold s1. by rewrite E1.
Qed.

Lemma verify_rejected ops : forall v, v_topNode v = None ->
  v_topNode (fst (verifyOperations cfg proof ops v)) = None /\
  Forall (fun r => isSuccess r = false) (snd (verifyOperations cfg proof ops v)).
Proof.
  induction ops as [|op ops IH]; intros v Hv; simpl; [done|].
  unfold verifyOneOperation. rewrite Hv. destruct (IH (Verifier (set_sub (set_vreplay (sub (v_tree v))) (v_tree v)) None) eq_refl).
  destruct (verifyOperations _ _ _ _). simpl in *. auto.
Qed.

Lemma verify_run ops : forall p v, prover_inv cfg p -> follows p v ->
  (forall i o, snd (verifyOperations cfg proof ops v) !! i = Some (Success o) ->
               snd (performOperations cfg ops p) !! i = Some (Success o)) /\
  follows (fst (performOperations cfg ops p)) (fst (verifyOperations cfg proof ops v)).
Proof.
  induction ops as [|op ops IH]; intros p v Hp Hf; [done|].
  destruct (verifyOneOperation cfg proof op v) as [v1 r] eqn:E.
  pose proof (verify_step op p v v1 r Hp Hf E) as Hr.
  destruct (performOneOperation cfg op p) as [p1 r1] eqn:E1.
  destruct (performOneOperation_ok cfg op p p1 r1 Hp E1) as [Hp1 _].
  simpl. rewrite E, E1. destruct r as [o|e].
  - destruct Hr as (p1' & [= -> ->] & Hf1). destruct (IH p1' v1 Hp1 Hf1) as [Hres Hfol].
    destruct (performOperations cfg ops p1') as [p2 rs1], (verifyOperations cfg proof ops v1) as [v2 rs2].
    simpl in *. split; [|done]. intros [|i] o'; simpl; [done|apply Hres].
  - destruct (verify_rejected ops v1 Hr) as [Hn Hall].
    destruct (performOperations cfg ops p1) as [p2 rs1], (verifyOperations cfg proof ops v1) as [v2 rs2].
    simpl in *. split; [|unfold follows; by rewrite Hn].
    intros [|i] o'; simpl; [done|]. intros Hi. rewrite Forall_lookup in Hall.
    by specialize (Hall i _ Hi).
Qed.
End SoundRun.
