(* ===== verification/AvlReconstruct.v ===== *)
(** * AvlReconstruct: the tree a proof unpacks to

    Labels determine trees up to pruning or a collision; the parser only
    builds nodes whose keys and labels have the configured lengths; so a proof
    accepted under the prover's digest unpacks to the pruned image of the
    prover's tree.  Also: when the parser's loop ends. *)

From S2P Require Import Prelude External AvlNode AvlOps AvlProver AvlInv AvlDelete AvlBits AvlModify.
From S2P Require Import AvlProverSpec AvlVerifier AvlSim AvlSound.

(** ** Equal labels *)
Section Labels.
Context `{GL : GuavaLaws} `{HF : CryptographicHash} (kl : nat).

(** The inputs hashed to label a tree. *)
Fixpoint preimages (n : Node) : list bytes :=
  match n with
  | LabelOnlyNode _ => []
  | InternalNode _ _ b l r =>
      concat_arrays [[InternalNodePrefix; z2b b]; label l; label r] :: preimages l ++ preimages r
  | Leaf _ k v nk => [LeafPrefix :: concat_arrays [k; v; nk]]
  end.

Definition collision_between (n n' : Node) : Prop :=
  exists x y, x ∈ preimages n /\ y ∈ preimages n' /\ x <> y /\ hash x = hash y.

(** Leaf keys of the configured length (prover). *)
Fixpoint psized (n : Node) : Prop :=
  match n with
  | LabelOnlyNode _ => False
  | InternalNode _ _ b l r => (-1 <= b <= 1)%Z /\ psized l /\ psized r
  | Leaf _ k _ nk => length k = kl /\ length nk = kl
  end.

(** Shape of the nodes the verifier's parser builds. *)
Fixpoint vsized (n : Node) : Prop :=
  match n with
  | LabelOnlyNode l => length l = DigestSize
  | InternalNode _ k b l r => k = None /\ (-128 <= b <= 127)%Z /\ vsized l /\ vsized r
  | Leaf _ k _ nk => length k = kl /\ length nk = kl
  end.

Lemma psized_label n : psized n -> length (label n) = DigestSize.
Proof. destruct n; simpl; [done|intros; apply hash_size..]. Qed.
Lemma vsized_label n : vsized n -> length (label n) = DigestSize.
Proof. destruct n; simpl; [done|intros; apply hash_size..]. Qed.

Lemma z2b_inj_signed a b : (-128 <= a <= 127)%Z -> (-128 <= b <= 127)%Z -> z2b a = z2b b -> a = b.
Proof.
  intros Ha Hb E. rewrite <- (toByte_small a), <- (toByte_small b), <- !b2z_z2b, E by lia. done.
Qed.

Lemma collision_head n n' x y : head (preimages n) = Some x ->
  head (preimages n') = Some y -> x <> y -> hash x = hash y -> collision_between n n'.
Proof.
  destruct (preimages n) eqn:E, (preimages n') eqn:E'; try done. intros [= ->] [= ->] Hne Hh.
  exists x, y. rewrite E, E'. split_and!; [left|left|done..].
Qed.

Lemma collision_sub n n' l l' : preimages l ⊆ preimages n -> preimages l' ⊆ preimages n' ->
  collision_between l l' -> collision_between n n'.
Proof. intros Hs Hs' (x & y & Hx & Hy & H). exists x, y. auto. Qed.

#[local] Ltac collide :=
  eapply collision_head; [reflexivity|reflexivity|try done|by symmetry].

Lemma label_prune n' : forall n, psized n -> vsized n' -> label n' = label n ->
  prune n n' \/ collision_between n n'.
Proof.
  induction n' as [l'|m' k' b' l' IHl r' IHr|m' k' v' nk']; intros n Hn Hn' E.
  - left. by constructor.
  - destruct n as [|m k b l r|m k v nk]; simpl in Hn; [done| |].
    2:{ right. collide. }
    simpl in Hn'. destruct Hn as (Hb & Hl & Hr), Hn' as (-> & Hb' & Hl' & Hr').
    destruct (decide (concat_arrays [[InternalNodePrefix; z2b b]; label l; label r] =
                      concat_arrays [[InternalNodePrefix; z2b b']; label l'; label r'])) as [Ec|Ne].
    2:{ right. collide. }
    cbn in Ec. rewrite !app_nil_r in Ec. injection Ec as Eb Ec.
    apply app_inv_length in Ec as [El Er]; [|by rewrite psized_label, vsized_label].
    apply z2b_inj_signed in Eb as ->; [|lia..].
    destruct (IHl l Hl Hl' (eq_sym El)) as [Pl|Cl].
    2:{ right. revert Cl. apply collision_sub; simpl; clear; set_solver. }
    destruct (IHr r Hr Hr' (eq_sym Er)) as [Pr|Cr].
    2:{ right. revert Cr. apply collision_sub; simpl; clear; set_solver. }
    left. by constructor.
  - destruct n as [|m k b l r|m k v nk]; simpl in Hn; [done| |].
    { right. collide. }
    simpl in Hn'. destruct Hn as [Hk Hnk], Hn' as [Hk' Hnk'].
    destruct (decide (concat_arrays [k; v; nk] = concat_arrays [k'; v'; nk'])) as [Ec|Ne].
    2:{ right. collide. by intros [= ?]. }
    cbn in Ec. rewrite !app_nil_r in Ec.
    apply app_inv_length in Ec as [-> Ec]; [|congruence].
    apply app_inv_length_r in Ec as [-> ->]; [|congruence]. left. constructor.
Qed.

(** The keys of a well-formed tree have the length of its dictionary's. *)
Lemma wf_psized lo hi n h : wf lo hi n h ->
  (forall k, is_Some (to_map n !! k) -> length k = kl) -> length hi = kl -> psized n.
Proof.
  induction 1 as [m k v nk Hk|m lo k hi b l r hl hr Hl IHl Hr IHr Eb Hb]; simpl; intros Hkeys Hhi.
  - split; [|done]. apply Hkeys. rewrite lookup_singleton_eq. eauto.
  - split; [done|]. split.
    + apply IHl.
      * intros x [v Hv]. apply Hkeys. exists v. by apply lookup_union_Some_l.
      * apply Hkeys. rewrite (to_map_right _ _ _ _ _ _ _ _ Hl Hr (kle_refl _)). by eapply wf_min.
    + apply IHr; [|done]. intros x [v Hv]. apply Hkeys. exists v.
      destruct (wf_range _ _ _ _ _ _ Hr Hv) as [Hx _].
      by rewrite (to_map_right _ _ _ _ _ _ _ _ Hl Hr Hx).
Qed.
End Labels.

(** ** The parser *)
Section Parser.
Context `{GL : GuavaLaws} `{HF : CryptographicHash} (cfg : TreeConfig) (proof : bytes).
Abbreviation kl := (keyLength cfg).

Lemma slice_length (l : bytes) i n : (0 <= i)%Z -> (i + Z.of_nat n <= zlen l)%Z ->
  length (slice l i (i + Z.of_nat n)) = n.
Proof.
  intros Hi Hn. unfold slice, zlen in *. rewrite Z.max_l by lia.
  rewrite length_take, length_drop. lia.
Qed.

Lemma array_get_bound {A} (l : list A) i a : array_get l i = Success a -> (0 <= i < zlen l)%Z.
Proof.
  unfold array_get, zlen. destruct (Z.ltb_spec i 0); [done|].
  destruct (l !! Z.to_nat i) eqn:E; [|done]. apply lookup_lt_Some in E. lia.
Qed.

(** While the cursor is inside the proof, everything built has full length. *)
Definition parse_ok (st : ParseState) : Prop :=
  (pos st <= zlen proof)%Z ->
  Forall (vsized kl) (stack st) /\ forall nk, previousLeaf st = Some nk -> length nk = kl.

Lemma b2z_range b : (-128 <= b2z b <= 127)%Z.
Proof. unfold b2z, toByte. pose proof (wrap_range 8 (ub b) ltac:(lia)). simpl in *. lia. Qed.

Lemma parseNode_ok n st st' :
  match valueLengthOpt cfg with Some vl => (0 <= vl)%Z | None => True end ->
  array_get proof (pos st) = Success n -> parse_ok st ->
  parseNode kl (valueLengthOpt cfg) proof n st = Success st' -> parse_ok st'.
Proof.
  intros Hvl Hget Hok. apply array_get_bound in Hget as Hb. destruct (Hok ltac:(lia)) as [Hst Hprev].
  clear Hok. unfold parseNode. destruct (bool_decide (n = LabelInPackagedProof)).
  { intros [= <-] Hpos. simpl in *. split; [|done]. constructor; [|done]. simpl.
    apply slice_length; lia. }
  destruct (bool_decide (n = LeafInPackagedProof)).
  2:{ destruct (stack st) as [|rightN [|leftN s]] eqn:Es; try discriminate. intros [= <-] _. simpl.
      apply Forall_cons in Hst as [Hr Hst]. apply Forall_cons in Hst as [Hl Hst].
      split; [|done]. constructor; [|done]. simpl. split_and!; try done; apply b2z_range. }
  assert (exists key i1, match previousLeaf st with
                         | Some nk => (nk, pos st + 1)%Z
                         | None => (slice proof (pos st + 1) (pos st + 1 + Z.of_nat kl), pos st + 1 + Z.of_nat kl)%Z
                         end = (key, i1) /\ (pos st + 1 <= i1)%Z /\
                         ((i1 <= zlen proof)%Z -> length key = kl)) as (key & i1 & -> & Hi1 & Hkey).
  { destruct (previousLeaf st) as [nk|]; eexists _, _; (split; [done|]); split; [lia|by auto|lia|].
    intros. apply slice_length; lia. }
  destruct (valueLengthOpt cfg) as [vl|].
  - intros [= <-] Hpos. simpl in Hpos |- *. split.
    + constructor; [|done]. simpl. split; [apply Hkey; lia|apply slice_length; lia].
    + intros nk [= <-]. apply slice_length; lia.
  - destruct (Ints_fromByteArray _) as [vl|] eqn:Ei; [|done]. intros [= <-] Hpos. simpl in Hpos |- *.
    assert (i1 + Z.of_nat kl + 4 <= zlen proof)%Z as Hlen.
    { destruct (Z.le_gt_cases (i1 + Z.of_nat kl + 4) (zlen proof)) as [|Hgt]; [done|].
      pose proof (ints_short (slice proof (i1 + Z.of_nat kl) (i1 + Z.of_nat kl + 4))) as Hs.
      rewrite Ei in Hs. unfold slice, zlen in *. rewrite length_take, length_drop in Hs.
      by specialize (Hs ltac:(lia)). }
    split.
    + constructor; [|done]. simpl. split; [apply Hkey; lia|apply slice_length; lia].
    + intros nk [= <-]. apply slice_length; lia.
Qed.

Lemma parseLoop_ok fuel mx : forall st st',
  match valueLengthOpt cfg with Some vl => (0 <= vl)%Z | None => True end ->
  parse_ok st -> parseLoop fuel kl (valueLengthOpt cfg) mx proof st = Success st' ->
  Forall (vsized kl) (stack st').
Proof.
  induction fuel as [|fuel IH]; intros st st' Hvl Hok; simpl; [done|].
  destruct (array_get proof (pos st)) as [n|] eqn:Eg; [simpl|done].
  destruct (bool_decide _).
  - intros [= <-]. apply Hok. apply array_get_bound in Eg. lia.
  - destruct (require _); [simpl|done].
    destruct (parseNode _ _ _ _ _) as [st1|] eqn:Ep; [simpl|done].
    apply IH; [done|]. by eapply parseNode_ok.
Qed.

(** A reconstructed root has a full label, the one the digest starts with. *)
Lemma reconstruct_ok fuel mn md sd root h d :
  reconstruct fuel cfg mn md sd proof = Success (root, h, d) ->
  vsized kl root /\ exists b, sd = label root ++ [b] /\ h = Z.land (b2z b) 255.
Proof.
  unfold reconstruct. unfold require at 1. destruct (Nat.ltb 0 DigestSize); [simpl|done].
  unfold require at 1. destruct (Nat.ltb 0 kl); [simpl|done].
  destruct (match valueLengthOpt cfg with None => Success tt | Some vl => require (0 <=? vl)%Z end) eqn:Evl; [|done].
  simpl. unfold require at 1. destruct (Nat.eqb_spec (length sd) (DigestSize + 1)) as [Hsd|]; [simpl|done].
  destruct (last sd) as [b|] eqn:Eb; [simpl|done].
  destruct (maxNodesOf _ _ _ _) as [mx|]; [simpl|done].
  destruct (parseLoop _ _ _ _ _ _) as [st|] eqn:Ep; [simpl|done].
  destruct (stack st) as [|r [|]] eqn:Es; [done| |done].
  unfold require, startsWith. destruct (bool_decide_reflect (take (length (label r)) sd = label r)) as [Hl|];
    [simpl|done]. intros [= <- <- <-].
  assert (vsized kl r) as Hr.
  { apply parseLoop_ok in Ep; [|destruct (valueLengthOpt cfg); [|done]; unfold require in Evl;
      destruct (Z.leb_spec 0 z); by try lia|by intros _; split].
    rewrite Es in Ep. by apply Forall_cons in Ep as [Hr _]. }
  split; [done|]. exists b. split; [|done].
  apply last_Some in Eb as [sd' ->]. rewrite length_app in Hsd. simpl in Hsd.
  f_equal. rewrite (vsized_label _ _ Hr) in Hl.
  rewrite take_app_length' in Hl by lia. done.
Qed.
End Parser.

(** ** When the loops end *)
Section Termination.
Context `{GL : GuavaLaws} `{HF : CryptographicHash}.

Lemma parseNode_progress kl vlo proof n st st' :
  parseNode kl vlo proof n st = Success st' ->
  numNodes st' = (numNodes st + 1)%Z /\
  match vlo with Some vl => (0 <= vl)%Z -> (pos st < pos st')%Z | None => True end.
Proof.
  unfold parseNode. destruct (bool_decide (n = LabelInPackagedProof)).
  { intros [= <-]. simpl. split; [done|]. destruct vlo; lia. }
  destruct (bool_decide (n = LeafInPackagedProof)).
  - destruct (previousLeaf st), vlo as [vl|]; simpl; intros E.
    1,3: injection E as <-; simpl; split; [done|lia].
    all: destruct (Ints_fromByteArray _); simpl in E; [by injection E as <-|done].
  - destruct (stack st) as [|? [|]]; [done..|]. intros [= <-]. simpl. split; [done|]. destruct vlo; lia.
Qed.

Lemma parseNode_noFuel kl vlo proof n st : parseNode kl vlo proof n st <> Failure NoFuel.
Proof.
  unfold parseNode. destruct (bool_decide (n = LabelInPackagedProof)); [done|].
  destruct (bool_decide (n = LeafInPackagedProof)); [|by destruct (stack st) as [|? [|]]].
  destruct (previousLeaf st), vlo as [vl|]; simpl; try done;
    (match goal with |- context [Ints_fromByteArray ?b] =>
       destruct (Nat.lt_ge_cases (length b) 4) as [Hb|Hb];
       [by rewrite (ints_short b Hb)|by destruct (ints_total b Hb) as [? ->]] end).
Qed.

Lemma array_get_noFuel {A} (l : list A) i : array_get l i <> Failure NoFuel.
Proof. unfold array_get. destruct (i <? 0)%Z; [done|]. by destruct (l !! _). Qed.

Lemma bind_noFuel {A B} (t : Try A) (f : A -> Try B) :
  t <> Failure NoFuel -> (forall a, t = Success a -> f a <> Failure NoFuel) ->
  try_bind t f <> Failure NoFuel.
Proof. destruct t as [a|e]; simpl; [auto|congruence]. Qed.

(** One iteration: the loop goes on from a state with one more node. *)
Lemma parseLoop_step fuel kl vlo mx proof st :
  (forall n st', array_get proof (pos st) = Success n ->
     match mx with Some m => (numNodes st + 1 <= m)%Z | None => True end ->
     parseNode kl vlo proof n st = Success st' ->
     parseLoop fuel kl vlo mx proof st' <> Failure NoFuel) ->
  parseLoop (S fuel) kl vlo mx proof st <> Failure NoFuel.
Proof.
  intros H. simpl. apply bind_noFuel; [apply array_get_noFuel|]. intros n Eg.
  destruct (bool_decide _); [done|]. apply bind_noFuel; [unfold require; by repeat case_match|].
  intros [] Er. apply bind_noFuel; [apply parseNode_noFuel|]. intros st' Ep.
  apply (H n st' Eg); [|done]. destruct mx; [|done]. unfold require in Er.
  destruct (Z.leb_spec (numNodes st + 1) z); [done|discriminate].
Qed.

(** The parser ends: within the node bound when the number of operations is
    bounded, within the length of the proof when values have a fixed
    length. *)
Lemma parseLoop_bounded kl vlo m proof fuel : forall st,
  (m - numNodes st < Z.of_nat fuel)%Z -> (0 < fuel)%nat ->
  parseLoop fuel kl vlo (Some m) proof st <> Failure NoFuel.
Proof.
  induction fuel as [|fuel IH]; intros st Hf H0; [lia|]. apply parseLoop_step.
  intros n st' _ Hle E. apply parseNode_progress in E as [E _]. apply IH; lia.
Qed.

Lemma parseLoop_fixed kl vl mx proof fuel : (0 <= vl)%Z -> forall st,
  (zlen proof - pos st < Z.of_nat fuel)%Z -> (0 < fuel)%nat ->
  parseLoop fuel kl (Some vl) mx proof st <> Failure NoFuel.
Proof.
  intros Hvl. induction fuel as [|fuel IH]; intros st Hf H0; [lia|]. apply parseLoop_step.
  intros n st' Eg _ E. apply array_get_bound in Eg. apply parseNode_progress in E as [_ E].
  specialize (E Hvl). apply IH; lia.
Qed.

(** *** The doubling loop of the node bound *)

Lemma logLoop_ok n : (n <= 2 ^ 30)%Z -> forall fuel k, (0 <= k <= 30)%Z -> (30 - k < Z.of_nat fuel)%Z ->
  (k = 0 \/ 2 ^ (k - 1) < n)%Z ->
  exists l, logLoop fuel n (2 ^ k) k = Success l /\ (0 <= l <= 30)%Z /\ (n <= 2 ^ l)%Z /\
            (l = 0 \/ 2 ^ (l - 1) < n)%Z.
Proof.
  intros Hn. induction fuel as [|fuel IH]; intros k Hk Hf Hlow; [lia|]. simpl.
  destruct (Z.ltb_spec (2 ^ k) n) as [Hlt|Hge]; [|by exists k].
  assert (k < 30)%Z as Hk30.
  { destruct (Z.eq_dec k 30%Z) as [->|]; [|lia]. change (2 ^ 30)%Z with 1073741824%Z in *. lia. }
  pose proof (Z.pow_le_mono_r 2 (k + 1) 30 ltac:(lia) ltac:(lia)) as Hp.
  pose proof (Z.pow_pos_nonneg 2 (k + 1) ltac:(lia) ltac:(lia)).
  change (2 ^ 30)%Z with 1073741824%Z in Hp.
  rewrite (Z.mul_comm _ 2), <- Z.pow_succ_r by lia. unfold Z.succ.
  rewrite !toInt_small by (unfold MinInt, MaxInt; lia).
  apply IH; [lia|lia|]. right. by replace (k + 1 - 1)%Z with k by lia.
Qed.

(** Above [2^30] the Int variable overflows to 0 and the loop never ends. *)
Lemma logLoop_zero n fuel : forall k, (0 < n)%Z -> logLoop fuel n 0 k = Failure NoFuel.
Proof.
  induction fuel as [|fuel IH]; intros k Hn; [done|]. simpl.
  destruct (Z.ltb_spec 0 n); [|lia]. by apply IH.
Qed.

Lemma logLoop_diverges n fuel : (2 ^ 30 < n)%Z -> logLoop fuel n 1 0 = Failure NoFuel.
Proof.
  intros Hn. change (2 ^ 30)%Z with 1073741824%Z in Hn.
  do 32 (destruct fuel as [|fuel]; [done|]; cbn [logLoop];
         match goal with |- context [(?a <? n)%Z] => destruct (Z.ltb_spec a n);
           [|lia] end;
         match goal with |- logLoop _ _ ?a ?b = _ =>
           let a' := eval vm_compute in a in let b' := eval vm_compute in b in
           change a with a'; change b with b' end).
  apply logLoop_zero. lia.
Qed.
End Termination.
