(* ===== verification/AvlVerifierThms.v ===== *)
(** * AvlVerifierThms: the properties of BatchAVLVerifier *)

From S2P Require Import Prelude External AvlNode AvlOps AvlProver AvlInv AvlDelete AvlBits AvlModify.
From S2P Require Import AvlProverSpec AvlProverThms AvlVerifier AvlSim AvlSound AvlReconstruct.

(** ** Keys stored by a reachable prover *)
Section Keys.
Context `{GL : GuavaLaws} `{HF : CryptographicHash} (cfg : TreeConfig).

Definition keys_sized (m : gmap ADKey ADValue) : Prop :=
  forall k, is_Some (m !! k) -> length k = keyLength cfg.

Lemma dict_step_keys op m old m' : dict_step cfg op m = Success (old, m') ->
  keys_sized m -> keys_sized m'.
Proof.
  unfold dict_step. destruct (valid_key cfg (op_key op)) eqn:Hv; [|done].
  destruct (decide_op _ _ _) as [d|]; [|done]. simpl. intros [= _ <-] Hk k Hs.
  assert (length (op_key op) = keyLength cfg) as Hlen.
  { unfold valid_key in Hv. apply andb_true_iff in Hv as [_ Hv]. by apply Nat.eqb_eq. }
  destruct d as [[v|]|]; [| |by apply Hk].
  - destruct (decide (op_key op = k)) as [<-|]; [done|].
    rewrite lookup_insert_ne in Hs by done. by apply Hk.
  - destruct Hs as [v [_ Hs]%lookup_delete_Some]. by apply Hk.
Qed.

Lemma reachable_keys p : 0 < keyLength cfg -> reachable cfg p -> keys_sized (dict cfg p).
Proof.
  intros Hk. induction 1 as [i|p op p' r Hp IH E|p p' r Hp IH E|p Hp IH].
  - rewrite new_prover_dict. intros k [? H]. by rewrite lookup_empty in H.
  - destruct (reachable_inv cfg p Hk Hp) as [Hinv _].
    destruct (performOneOperation_ok cfg op p p' r Hinv E) as [_ Hr].
    destruct (dict_step cfg op (dict cfg p)) as [[old m']|e] eqn:Ed.
    + destruct Hr as (_ & <- & _). by eapply dict_step_keys.
    + destruct Hr as [_ Hu]. by rewrite (unchanged_dict _ _ _ Hu).
  - destruct (generateProof_ok cfg p (reachable_inv cfg p Hk Hp)) as (p2 & pr & E2 & _ & Hd & _).
    rewrite E2 in E. injection E as <- _. by rewrite Hd.
  - done.
Qed.

Lemma reachable_psized p : 0 < keyLength cfg -> reachable cfg p -> psized (keyLength cfg) (topNode p).
Proof.
  intros Hk Hp. destruct (reachable_inv cfg p Hk Hp) as [[Hwf _] _].
  eapply wf_psized; [exact Hwf| |apply length_replicate].
  intros k Hs. destruct (decide (NegativeInfinityKey cfg = k)) as [<-|Hne]; [apply length_replicate|].
  apply (reachable_keys p Hk Hp). unfold dict. by rewrite lookup_delete_ne.
Qed.

Lemma height_byte h : (0 <= h < 256)%Z -> Z.land (b2z (z2b h)) 255 = h.
Proof.
  intros Hh. change 255%Z with (Z.ones 8). rewrite Z.land_ones by lia. rewrite b2z_z2b.
  unfold toByte, wrap. change (2 ^ (8 - 1))%Z with 128%Z. change (2 ^ 8)%Z with 256%Z.
  rewrite Zminus_mod_idemp_l. replace (h + 128 - 128)%Z with h by lia. by apply Z.mod_small.
Qed.

(** The collision a proof would need: between the prover's tree and the
    tree the proof unpacks to. *)
Definition forged (p : BatchAVLProver) (v : BatchAVLVerifier) : Prop :=
  match v_topNode v with Some root => collision_between (topNode p) root | None => False end.

(** A verifier built under the prover's digest follows the prover. *)
Lemma new_verifier_follows p d fuel mn md proof :
  0 < keyLength cfg -> reachable cfg p -> prover_digest p = Success d ->
  let v := new_verifier cfg fuel mn md d proof in follows p v \/ forged p v.
Proof.
  intros Hk Hp Hd. unfold new_verifier, follows, forged.
  destruct (reconstruct _ _ _ _ _ _) as [[[root h] dd]|] eqn:Er; simpl; [|by left].
  destruct (reconstruct_ok cfg proof _ _ _ _ _ _ _ Er) as (Hvs & b & Ed & Eh).
  unfold prover_digest, digest in Hd. revert Hd. case_match eqn:Eb; [|done]. intros [= <-].
  apply app_inj_tail in Ed as [El <-]. rewrite height_byte in Eh by lia.
  destruct (label_prune (keyLength cfg) root (topNode p) (reachable_psized p Hk Hp) Hvs (eq_sym El)); auto.
Qed.
End Keys.

Section Theorems.
Context `{GL : GuavaLaws} `{HF : CryptographicHash} (cfg : TreeConfig).

(** C1: soundness of the batch verifier.  Whatever bytes the proof is made
    of, a verifier started from the prover's digest that accepts an
    operation returned what the prover (hence the dictionary) returns for
    it, and as long as it has not rejected, its digest is the prover's,
    unless the proof exhibits a collision of the hash function: two
    different inputs with one hash among those labelling the two trees. *)
Theorem verifier_sound p d fuel mn md proof ops :
  0 < keyLength cfg -> reachable cfg p -> prover_digest p = Success d ->
  let v := new_verifier cfg fuel mn md d proof in
  let '(v', rs) := verifyOperations cfg proof ops v in
  let '(p', prs) := performOperations cfg ops p in
  forged p v \/
  (forall i o, rs !! i = Some (Success o) -> prs !! i = Some (Success o)) /\
  (forall d', verifier_digest v' = Success (Some d') -> prover_digest p' = Success d').
Proof.
  intros Hk Hp Hd v. destruct (reachable_inv cfg p Hk Hp) as [Hinv _].
  destruct (new_verifier_follows cfg p d fuel mn md proof Hk Hp Hd) as [Hf|Hf].
  2:{ destruct (verifyOperations _ _ _ _), (performOperations _ _ _). by left. }
  destruct (verify_run cfg proof ops p _ Hinv Hf) as [Hres Hfol]. fold v in Hres, Hfol.
  destruct (verifyOperations _ _ _ _) as [v' rs], (performOperations _ _ _) as [p' prs]. simpl in *.
  right. split; [done|]. intros d'. unfold verifier_digest, follows, prover_digest in *.
  destruct (v_topNode v') as [vt|]; [|done]. destruct Hfol as [Hpr Hh].
  unfold digest. rewrite (prune_label_eq _ _ Hpr), <- Hh. destruct (_ && _); [|done]. simpl. by intros [= <-].
Qed.

(** Reconstruction ends: with a bound on the number of operations (at
    most 2^30) within [maxNodes] iterations, and with fixed value lengths
    within the length of the proof, it never runs out of fuel. *)
Theorem reconstruct_terminates fuel mn md sd proof :
  match mn, valueLengthOpt cfg with
  | None, None => False
  | Some n, _ => (n <= 2 ^ 30)%Z /\ (2 ^ 31 <= Z.of_nat fuel)%Z
  | None, Some _ => (zlen proof < Z.of_nat fuel)%Z
  end ->
  reconstruct fuel cfg mn md sd proof <> Failure NoFuel.
Proof.
  intros Hb. unfold reconstruct.
  repeat (apply bind_noFuel; [unfold require; by repeat case_match|]; intros [] ?).
  apply bind_noFuel; [by destruct (last sd)|]. intros b _.
  apply bind_noFuel.
  { unfold maxNodesOf. destruct mn as [n|]; [|done]. destruct Hb as [Hn Hf].
    destruct (logLoop_ok n Hn fuel 0 ltac:(lia) ltac:(lia) ltac:(by left)) as (l & El & _).
    change (2 ^ 0)%Z with 1%Z in El. by rewrite El. }
  intros mx Hmx. apply bind_noFuel.
  - destruct mn as [n|]; simpl.
    + apply parseLoop_bounded; [|lia]. simpl.
      enough (mx < 2 ^ 31)%Z by lia. revert Hmx. unfold maxNodesOf.
      destruct (logLoop _ _ _ _); simpl; [|done]. intros [= <-]. unfold toInt.
      match goal with |- (wrap 32 ?z < _)%Z => pose proof (wrap_range 32 z ltac:(lia)) as Hw end.
      change (32 - 1)%Z with 31%Z in Hw. lia.
    + destruct (valueLengthOpt cfg) as [vl|] eqn:Evl; [|done].
      unfold require in *. destruct (Z.leb_spec 0 vl); [|done].
      apply parseLoop_fixed; [done|simpl; lia|]. pose proof (zlen_nonneg proof). lia.
  - intros st _. destruct (stack st) as [|? []]; try done.
    apply bind_noFuel; [unfold require; by repeat case_match|done].
Qed.
End Theorems.

(** A bound of more than 2^30 operations makes the verifier's
    constructor loop forever: the doubled Int overflows to 0. *)
Theorem maxNumOperations_overflow `{GL : GuavaLaws} `{HF : CryptographicHash} cfg n md sd proof :
  (2 ^ 30 < n)%Z -> (0 < DigestSize)%nat -> (0 < keyLength cfg)%nat -> valueLengthOpt cfg = None ->
  length sd = (DigestSize + 1)%nat ->
  forall fuel, reconstruct fuel cfg (Some n) md sd proof = Failure NoFuel.
Proof.
  intros Hn Hd Hk Hv Hsd fuel. unfold reconstruct, require. rewrite Hv.
  rewrite (proj2 (Nat.ltb_lt _ _) Hd), (proj2 (Nat.ltb_lt _ _) Hk), Hsd, Nat.eqb_refl. simpl.
  destruct (last sd) as [b|] eqn:El.
  - simpl. by rewrite logLoop_diverges.
  - apply last_None in El. subst. simpl in Hsd. lia.
Qed.

(** C11: with no bound on the operations and variable value lengths, a proof
    of thirteen bytes with a negative value length keeps the parser at one
    leaf forever. *)
Definition looping_proof : bytes :=
  z2b <$> [2; 5; 6; 0; 0; 0; 0; 2; 7; -1; -1; -1; -6]%Z.

Lemma looping_step fuel stk n : exists st',
  parseLoop (S fuel) 1 None None looping_proof (Parse 7 n stk (Some [z2b 7])) =
  parseLoop fuel 1 None None looping_proof st' /\ pos st' = 7%Z /\ previousLeaf st' = Some [z2b 7].
Proof. eexists. split; [by cbn|done]. Qed.

Lemma looping_forever fuel : forall st, pos st = 7%Z -> previousLeaf st = Some [z2b 7] ->
  parseLoop fuel 1 None None looping_proof st = Failure NoFuel.
Proof.
  induction fuel as [|fuel IH]; intros [p n stk prev] Hp Hl; [done|]. simpl in Hp, Hl. subst.
  destruct (looping_step fuel stk n) as (st' & -> & H1 & H2). by apply IH.
Qed.

Theorem negative_length_loops fuel h :
  reconstruct fuel run_cfg None None [z2b 0; z2b 0; h] looping_proof = Failure NoFuel.
Proof.
  unfold reconstruct. simpl. destruct fuel as [|[|fuel]]; [done..|].
  assert (exists stk n, parseLoop (S (S fuel)) 1 None None looping_proof (Parse 0 0 [] None) =
    parseLoop fuel 1 None None looping_proof (Parse 7 n stk (Some [z2b 7]))) as (stk & n & E).
  { eexists _, _. by cbn. }
  cbn [keyLength valueLengthOpt run_cfg]. rewrite E, looping_forever; done.
Qed.

(** ** Witnesses *)

(** The prover after its first proof, a batch of operations, their proof. *)
Definition batch_prover : BatchAVLProver := fst (generateProof run_cfg run_prover).
Definition batch_ops : list Operation :=
  [Insert (run_key 20) [z2b 3]; Remove (run_key 7); Lookup (run_key 2);
   UpdateLongBy (run_key 30) 6; Remove (run_key 2); RemoveIfExists (run_key 77)].
Definition batch_digest : bytes := default [] (to_option (prover_digest batch_prover)).
Definition batch_proof : bytes :=
  default [] (to_option (snd (generateProof run_cfg (fst (performOperations run_cfg batch_ops batch_prover))))).
Definition batch_verifier : BatchAVLVerifier :=
  new_verifier run_cfg 1000 (Some 6%Z) None batch_digest batch_proof.

Lemma batch_reachable : reachable run_cfg batch_prover.
Proof. eapply reach_proof; [apply run_reachable|apply surjective_pairing]. Qed.

Lemma verifier_sound_witness :
  Forall (fun r => isSuccess r = true) (snd (verifyOperations run_cfg batch_proof batch_ops batch_verifier)) /\
  (let '(v', rs) := verifyOperations run_cfg batch_proof batch_ops batch_verifier in
   let '(p', prs) := performOperations run_cfg batch_ops batch_prover in
   forged batch_prover batch_verifier \/
   (forall i o, rs !! i = Some (Success o) -> prs !! i = Some (Success o)) /\
   (forall d', verifier_digest v' = Success (Some d') -> prover_digest p' = Success d')).
Proof.
  split; [vm_compute; by repeat constructor|].
  apply (verifier_sound run_cfg batch_prover batch_digest 1000 (Some 6%Z) None batch_proof batch_ops
    run_keyLength batch_reachable). by vm_compute.
Defined.

Lemma reconstruct_terminates_witness :
  reconstruct 40 {| keyLength := 1; valueLengthOpt := Some 2%Z; collectChangedNodes := false |}
    None None [z2b 0; z2b 0; z2b 0] looping_proof <> Failure NoFuel.
Proof. apply reconstruct_terminates. by vm_compute. Defined.

Lemma maxNumOperations_overflow_witness :
  reconstruct 100 run_cfg (Some (2 ^ 30 + 1)%Z) None [z2b 0; z2b 0; z2b 0] looping_proof = Failure NoFuel.
Proof. apply maxNumOperations_overflow; simpl; try done; lia. Defined.
