(* ===== verification/Vlq.v ===== *)
(** * Vlq: the binary writer and reader

    sparkz-util/.../serialization/VLQWriter.scala, VLQReader.scala,
    VLQByteBufferWriter.scala, VLQByteBufferReader.scala and
    encode/ZigZagEncoder.scala.  A writer's state is what it has written, a
    reader's state is what it has not read yet.  [writes] and [reads] are the
    contract the serializers of the network layer are proved against: what one
    writes the other reads back, leaving the rest of the input. *)

From S2P Require Import Prelude.

(** ** ZigZag *)

(** [x >>> k] on a [w]-bit integer *)
Definition ushr (w x k : Z) : Z := wrap w (Z.shiftr (x mod 2 ^ w) k).

Definition encodeZigZagInt (n : Z) : Z := Z.lxor (toInt (Z.shiftl n 1)) (Z.shiftr n 31).
Definition decodeZigZagInt (n : Z) : Z := Z.lxor (ushr 32 n 1) (toInt (- Z.land n 1)).
Definition encodeZigZagLong (n : Z) : Z := Z.lxor (toLong (Z.shiftl n 1)) (Z.shiftr n 63).
Definition decodeZigZagLong (n : Z) : Z := Z.lxor (ushr 64 n 1) (toLong (- Z.land n 1)).

Definition toShort (z : Z) : Z := wrap 16 z.
Definition isShort (z : Z) : bool := (-32768 <=? z)%Z && (z <=? 32767)%Z.

(** ** VLQWriter over a byte buffer *)

Abbreviation Writer := (Eff bytes).

(** VLQByteBufferWriter.putBytes and put *)
Definition putBytes (xs : bytes) : Writer unit := modify (fun out => out ++ xs).
Definition putByte (x : Z) : Writer unit := putBytes [z2b x].

(** Writer.putUByte *)
Definition putUByte (x : Z) : Writer unit :=
  guard IllegalArgument ((0 <=? x)%Z && (x <=? 255)%Z) ;! putByte (toByte x).

(** VLQByteBufferWriter.putBoolean *)
Definition putBoolean (x : bool) : Writer unit := putByte (if x then 1 else 0).

(** putULong: the loop fills a ten-byte buffer *)
Fixpoint putULong_loop (fuel position : nat) (value : Z) : Try bytes :=
  match fuel with
  | O => Failure NoFuel
  | S fuel' =>
      if Nat.ltb position 10 then
        if (Z.land value (Z.lnot 127) =? 0)%Z then Success [z2b value]
        else let? rest := putULong_loop fuel' (S position) (ushr 64 value 7) in
             Success (z2b (Z.lor (Z.land (toInt value) 127) 128) :: rest)
      else Failure IndexOutOfBounds
  end.

Definition putULong (x : Z) : Writer unit :=
  let! bs := lift_try (putULong_loop 11 0 x) in putBytes bs.

Definition putLong (x : Z) : Writer unit := putULong (encodeZigZagLong x).
Definition putInt (x : Z) : Writer unit := putULong (encodeZigZagInt x).
Definition putShort (x : Z) : Writer unit := putULong (encodeZigZagInt x).
Definition putUInt (x : Z) : Writer unit :=
  guard IllegalArgument ((0 <=? x)%Z && (x <=? 4294967295)%Z) ;! putULong x.
Definition putUShort (x : Z) : Writer unit :=
  guard IllegalArgument ((0 <=? x)%Z && (x <=? 65535)%Z) ;! putUInt x.

(** putOption *)
Definition putOption {T} (x : option T) (putValue : T -> Writer unit) : Writer unit :=
  match x with
  | Some v => putByte 1 ;! putValue v
  | None => putByte 0
  end.

(** putShortString of a string given by its bytes *)
Definition putShortString (s : bytes) : Writer unit :=
  guard IllegalArgument (Nat.ltb (length s) 256) ;!
  putUByte (toByte (zlen s)) ;!
  putBytes s.

(** ** VLQReader over a byte buffer *)

Abbreviation Reader := (Eff bytes).

(** getByte: BufferUnderflowException at the end; the value as a signed byte *)
Definition getByte : Reader Z := fun s =>
  match s with
  | [] => (s, Failure (Raised "BufferUnderflow"))
  | b :: s' => (s', Success (b2z b))
  end.

Definition getBytes (size : Z) : Reader bytes := fun s =>
  if negb (size <=? zlen s)%Z then (s, Failure IllegalArgument)
  else if (size <? 0)%Z then (s, Failure (Raised "NegativeArraySize"))
  else (drop (Z.to_nat size) s, Success (take (Z.to_nat size) s)).

Definition remaining : Reader Z := gets zlen.

Definition getUByte : Reader Z := let! b := getByte in ret (Z.land b 255).
Definition getBoolean : Reader bool := let! b := getByte in ret (b =? 1)%Z.

(** getULong *)
Fixpoint getULong_loop (fuel : nat) (result shift : Z) : Reader Z :=
  match fuel with
  | O => throw NoFuel
  | S fuel' =>
      if (shift <? 64)%Z then
        let! b := getByte in
        let result' := Z.lor result (toLong (Z.shiftl (Z.land b 127) shift)) in
        if (Z.land b 128 =? 0)%Z then ret result'
        else getULong_loop fuel' result' (shift + 7)
      else throw (Raised "Cannot deserialize Long value")
  end.

Definition getULong : Reader Z := getULong_loop 11 0 0.

Definition getLong : Reader Z := let! x := getULong in ret (decodeZigZagLong x).
Definition getInt : Reader Z := let! x := getULong in ret (decodeZigZagInt (toInt x)).
Definition getShort : Reader Z := let! x := getULong in ret (toShort (decodeZigZagInt (toInt x))).
Definition getUInt : Reader Z :=
  let! x := getULong in
  guard IllegalArgument ((0 <=? x)%Z && (x <=? 4294967295)%Z) ;! ret x.
Definition getUShort : Reader Z :=
  let! x := getULong in
  let x := toInt x in
  guard IllegalArgument ((0 <=? x)%Z && (x <=? 65535)%Z) ;! ret x.

(** getOption *)
Definition getOption {T} (getValue : Reader T) : Reader (option T) :=
  let! tag := getByte in
  if (tag =? 0)%Z then ret None else let! v := getValue in ret (Some v).

(** getShortString: the bytes of the string *)
Definition getShortString : Reader bytes := let! size := getUByte in getBytes size.

(** ** Bit arrays *)

(** java.util.BitSet: bytes, least significant bit first *)
Definition byte_of_bits (bs : list bool) : Z :=
  foldr (fun (b : bool) acc => (if b then 1 else 0) + 2 * acc)%Z 0%Z bs.

Fixpoint pack_bits (fuel : nat) (bs : list bool) : bytes :=
  match fuel, bs with
  | S fuel', _ :: _ => z2b (byte_of_bits (take 8 bs)) :: pack_bits fuel' (drop 8 bs)
  | _, _ => []
  end.

(** BitSet.toByteArray stops at the last byte with a set bit. *)
Fixpoint strip_zeros (l : bytes) : bytes :=
  match l with
  | [] => []
  | b :: l' =>
      match strip_zeros l' with
      | [] => if (ub b =? 0)%Z then [] else [b]
      | l'' => b :: l''
      end
  end.

Definition bitset_toByteArray (bs : list bool) : bytes := strip_zeros (pack_bits (length bs) bs).

(** Arrays.copyOf *)
Definition copyOf (l : bytes) (n : nat) : bytes := take n (l ++ replicate n (z2b 0)).

Definition putBits (xs : list bool) : Writer unit :=
  match xs with
  | [] => ret tt
  | _ => putBytes (copyOf (bitset_toByteArray xs) (Z.to_nat (Z.shiftr (zlen xs + 7) 3)))
  end.

(** BitSet.valueOf(bytes).get(i) *)
Definition bitset_get (bs : bytes) (i : nat) : bool :=
  match bs !! (i / 8)%nat with
  | Some b => Z.testbit (ub b) (Z.of_nat (i mod 8))
  | None => false
  end.

Definition getBits (size : Z) : Reader (list bool) :=
  if (size =? 0)%Z then ret []
  else let! bs := getBytes (Z.shiftr (size + 7) 3) in
       guard (Raised "NegativeArraySize") (0 <=? size)%Z ;!
       ret (bitset_get bs <$> seq 0 (Z.to_nat size)).
