(* ===== verification/VlqThms.v ===== *)
(** * VlqThms: what the writer writes the reader reads back *)

From S2P Require Import Prelude External AvlBits Vlq.

#[local] Ltac Zify.zify_post_hook ::= Z.div_mod_to_equations.

(** ** The contract *)

(** [writes m e]: [m] appends exactly [e]; [reads g e a]: from an input that
    starts with [e], [g] returns [a] and leaves what follows [e]. *)
Definition writes (m : Writer unit) (e : bytes) : Prop := forall out, m out = (out ++ e, Success tt).
Definition reads {A} (g : Reader A) (e : bytes) (a : A) : Prop :=
  forall rest, g (e ++ rest) = (rest, Success a).

Lemma writes_bind m k e1 e2 : writes m e1 -> writes k e2 -> writes (m ;! k) (e1 ++ e2).
Proof. intros H1 H2 out. unfold bind. rewrite H1, H2. by rewrite app_assoc. Qed.

Lemma writes_guard e b m w : b = true -> writes m w -> writes (guard e b ;! m) w.
Proof. by intros -> H. Qed.

Lemma writes_bytes xs : writes (putBytes xs) xs.
Proof. done. Qed.

Lemma writes_ret : writes (ret tt) [].
Proof. intros out. by rewrite app_nil_r. Qed.

Lemma reads_bind {A B} (g : Reader A) (k : A -> Reader B) e1 e2 a b :
  reads g e1 a -> reads (k a) e2 b -> reads (bind g k) (e1 ++ e2) b.
Proof. intros H1 H2 rest. unfold bind. by rewrite <- app_assoc, H1, H2. Qed.

Lemma reads_map {A B} (g : Reader A) (f : A -> B) e a :
  reads g e a -> reads (let! x := g in ret (f x)) e (f a).
Proof. intros H rest. unfold bind. by rewrite H. Qed.

Lemma reads_ret {A} (a : A) : reads (ret a) [] a.
Proof. done. Qed.

Lemma reads_guard {A} e b (g : Reader A) w a : b = true -> reads g w a -> reads (guard e b ;! g) w a.
Proof. by intros -> H. Qed.

Lemma reads_byte b : reads getByte [b] (b2z b).
Proof. done. Qed.

Lemma reads_bytes xs : reads (getBytes (zlen xs)) xs xs.
Proof.
  intros rest. unfold getBytes. rewrite zlen_app. pose proof (zlen_nonneg rest). pose proof (zlen_nonneg xs).
  replace (zlen xs <=? zlen xs + zlen rest)%Z with true by lia.
  replace (zlen xs <? 0)%Z with false by lia. simpl. unfold zlen. rewrite Nat2Z.id.
  by rewrite drop_app_length, take_app_length.
Qed.

(** A writer and a reader that agree on a value. *)
Definition roundtrip {A} (put : A -> Writer unit) (get : Reader A) (a : A) : Prop :=
  exists e, writes (put a) e /\ reads get e a.

Lemma roundtrip_intro {A} (put : A -> Writer unit) get a e :
  writes (put a) e -> reads get e a -> roundtrip put get a.
Proof. by exists e. Qed.

(** ** Bytes *)

Lemma b2z_land_255 b : Z.land (b2z b) 255 = ub b.
Proof.
  apply Z.eqb_eq. revert b. refine (byte_forall (fun b => Z.land (b2z b) 255 =? ub b)%Z _).
  by vm_compute.
Qed.

Lemma putUByte_reads x : (0 <= x <= 255)%Z -> roundtrip putUByte getUByte x.
Proof.
  intros Hx. apply (roundtrip_intro _ _ _ [z2b (toByte x)]).
  - apply writes_guard; [lia|]. apply writes_bytes.
  - unfold getUByte. replace x with (Z.land (b2z (z2b (toByte x))) 255) at 2;
      [by apply (reads_map getByte (fun b => Z.land b 255))|].
    rewrite b2z_land_255, ub_z2b. unfold toByte, wrap.
    change (2 ^ (8 - 1))%Z with 128%Z. change (2 ^ 8)%Z with 256%Z. lia.
Qed.

(** ** Unsigned variable-length integers *)

(** The encoding of an unsigned number: groups of seven bits. *)
Fixpoint venc (fuel : nat) (v : Z) : bytes :=
  match fuel with
  | O => []
  | S fuel' => if (v <? 128)%Z then [z2b v] else z2b (v mod 128 + 128) :: venc fuel' (v / 128)
  end.

Lemma land_127 z : Z.land z 127 = (z mod 128)%Z.
Proof. change 127%Z with (Z.ones 7). by rewrite Z.land_ones. Qed.

Lemma lor_128 z : (0 <= z < 128)%Z -> Z.lor z 128 = (z + 128)%Z.
Proof.
  intros Hz. assert (Z.land z 128 = 0)%Z as E.
  { apply Z.bits_inj'. intros n Hn. rewrite Z.land_spec, Z.bits_0. change 128%Z with (2 ^ 7)%Z.
    rewrite Z.pow2_bits_eqb by lia. destruct (Z.eqb_spec 7 n) as [<-|]; [|apply andb_false_r].
    rewrite andb_true_r. destruct (Z.eq_dec z 0%Z) as [->|]; [apply Z.bits_0|].
    apply Z.bits_above_log2; [lia|]. apply Z.log2_lt_pow2; lia. }
  pose proof (Z.add_lor_land z 128). lia.
Qed.

Lemma lor_disjoint r w s : (0 <= s)%Z -> (0 <= r < 2 ^ s)%Z ->
  Z.lor r (Z.shiftl w s) = (r + w * 2 ^ s)%Z.
Proof.
  intros Hs Hr. assert (Z.land r (Z.shiftl w s) = 0)%Z as E.
  { apply Z.bits_inj'. intros n Hn. rewrite Z.land_spec, Z.bits_0.
    destruct (Z.lt_ge_cases n s); [by rewrite Z.shiftl_spec_low, andb_false_r|].
    destruct (Z.eq_dec r 0%Z) as [->|]; [by rewrite Z.bits_0|].
    rewrite (Z.bits_above_log2 r); [done|lia|]. apply Z.log2_lt_pow2; [lia|].
    apply (Z.lt_le_trans _ (2 ^ s)); [lia|]. apply Z.pow_le_mono_r; lia. }
  pose proof (Z.add_lor_land r (Z.shiftl w s)). rewrite Z.shiftl_mul_pow2 in * by lia. lia.
Qed.

Lemma toLong_small z : (- 2 ^ 63 <= z < 2 ^ 63)%Z -> toLong z = z.
Proof.
  unfold toLong, wrap. intros H. change (64 - 1)%Z with 63%Z.
  change (2 ^ 63)%Z with 9223372036854775808%Z in *. change (2 ^ 64)%Z with 18446744073709551616%Z.
  rewrite Z.mod_small by lia. lia.
Qed.

Lemma toInt_mod128 z : (toInt z mod 128 = z mod 128)%Z.
Proof.
  unfold toInt, wrap. change (2 ^ (32 - 1))%Z with 2147483648%Z. change (2 ^ 32)%Z with 4294967296%Z. lia.
Qed.

Lemma land_lnot_127 v : (Z.land v (Z.lnot 127) =? 0)%Z = ((0 <=? v) && (v <? 128))%Z.
Proof.
  rewrite <- Z.ldiff_land. change 127%Z with (Z.ones 7) at 1. rewrite Z.ldiff_ones_r by lia.
  rewrite Z.shiftl_mul_pow2, Z.shiftr_div_pow2 by lia. change (2 ^ 7)%Z with 128%Z. lia.
Qed.

Lemma putULong_loop_venc fuel : forall pos value,
  (- 2 ^ 63 <= value < 2 ^ 63)%Z -> (pos <= 9)%nat -> (10 - pos <= fuel)%nat ->
  (value mod 2 ^ 64 < 2 ^ (7 * (10 - Z.of_nat pos)))%Z ->
  putULong_loop fuel pos value = Success (venc fuel (value mod 2 ^ 64)).
Proof.
  induction fuel as [|fuel IH]; intros pos value Hv Hpos Hf Hu; [lia|].
  cbn [putULong_loop venc]. replace (Nat.ltb pos 10) with true by (symmetry; apply Nat.ltb_lt; lia).
  rewrite land_lnot_127. set (u := (value mod 2 ^ 64)%Z) in *.
  assert (u = value \/ (u = value + 2 ^ 64 /\ value < 0))%Z as Eu by (unfold u; lia).
  assert (0 <= u < 2 ^ 64)%Z as Hur by (unfold u; lia).
  change (2 ^ 63)%Z with 9223372036854775808%Z in *. change (2 ^ 64)%Z with 18446744073709551616%Z in *.
  destruct (Z.ltb_spec u 128) as [Hs|Hl].
  - replace ((0 <=? value) && (value <? 128))%Z with true by lia.
    assert (u = value)%Z as -> by lia. done.
  - replace ((0 <=? value) && (value <? 128))%Z with false by lia.
    assert (pos <> 9)%nat by (intros ->; simpl in Hu; lia).
    assert (ushr 64 value 7 = u / 128)%Z as ->.
    { unfold ushr. change (2 ^ 64)%Z with 18446744073709551616%Z. fold u.
      rewrite Z.shiftr_div_pow2 by lia. change (2 ^ 7)%Z with 128%Z. apply toLong_small.
      change (2 ^ 63)%Z with 9223372036854775808%Z. lia. }
    assert ((u / 128) mod 18446744073709551616 = u / 128)%Z as Em by (apply Z.mod_small; lia).
    rewrite IH; [|lia|lia|lia|].
    + simpl. rewrite Em. do 3 f_equal.
      rewrite land_127, toInt_mod128, lor_128 by lia. lia.
    + rewrite Em. replace (7 * (10 - Z.of_nat pos))%Z with (7 * (10 - Z.of_nat (S pos)) + 7)%Z in Hu by lia.
      rewrite Z.pow_add_r in Hu by lia. change (2 ^ 7)%Z with 128%Z in Hu.
      apply Z.div_lt_upper_bound; lia.
Qed.

Lemma b2z_group v : (0 <= v < 128)%Z ->
  Z.land (b2z (z2b v)) 127 = v /\ Z.land (b2z (z2b v)) 128 = 0%Z /\
  Z.land (b2z (z2b (v + 128))) 127 = v /\ (Z.land (b2z (z2b (v + 128))) 128 =? 0)%Z = false.
Proof.
  intros Hv.
  assert (forallb (fun v => (Z.land (b2z (z2b v)) 127 =? v)%Z && (Z.land (b2z (z2b v)) 128 =? 0)%Z &&
    (Z.land (b2z (z2b (v + 128))) 127 =? v)%Z && negb (Z.land (b2z (z2b (v + 128))) 128 =? 0)%Z)
    (seqZ 0 128) = true) as H by (by vm_compute).
  rewrite forallb_forall in H. specialize (H v). rewrite !andb_true_iff, !Z.eqb_eq, negb_true_iff in H.
  destruct H as [[[? ?] ?] ?]; [|done]. apply list_elem_of_In, elem_of_seqZ. lia.
Qed.

(** The last group may reach the sign bit. *)
Lemma lor_last_group r v s : (0 <= s <= 63)%Z -> (0 <= r < 2 ^ s)%Z -> (0 <= v < 2 ^ (64 - s))%Z ->
  Z.lor r (toLong (Z.shiftl v s)) = toLong (r + v * 2 ^ s).
Proof.
  intros Hs Hr Hv. set (h := (2 ^ (63 - s))%Z).
  assert (h * 2 ^ s = 2 ^ 63)%Z as Eh by (unfold h; rewrite <- Z.pow_add_r by lia; f_equal; lia).
  assert (2 ^ (64 - s) = 2 * h)%Z as E2.
  { unfold h. rewrite <- Z.pow_succ_r by lia. f_equal. lia. }
  assert (0 < 2 ^ s)%Z by (apply Z.pow_pos_nonneg; lia).
  destruct (Z.lt_ge_cases v h) as [Hlt|Hge].
  - assert ((v + 1) * 2 ^ s <= 2 ^ 63)%Z by (rewrite <- Eh; apply Z.mul_le_mono_nonneg_r; lia).
    rewrite !toLong_small; [apply lor_disjoint; lia|lia|rewrite Z.shiftl_mul_pow2 by lia; lia].
  - assert (toLong (Z.shiftl v s) = Z.shiftl (v - 2 * h) s) as ->.
    { rewrite !Z.shiftl_mul_pow2 by lia. unfold toLong, wrap. change (64 - 1)%Z with 63%Z.
      replace ((v - 2 * h) * 2 ^ s)%Z with (v * 2 ^ s - 2 ^ 64)%Z by (change (2 ^ 64)%Z with (2 * 2 ^ 63)%Z; lia).
      assert (v * 2 ^ s < 2 * 2 ^ 63)%Z by nia. assert (2 ^ 63 <= v * 2 ^ s)%Z by nia.
      change (2 ^ 63)%Z with 9223372036854775808%Z in *. change (2 ^ 64)%Z with 18446744073709551616%Z. lia. }
    rewrite lor_disjoint by lia.
    assert ((v + 1) * 2 ^ s <= 2 * 2 ^ 63)%Z by (rewrite <- Eh; nia).
    assert (2 ^ 63 <= v * 2 ^ s)%Z by nia.
    replace ((v - 2 * h) * 2 ^ s)%Z with (v * 2 ^ s - 2 * 2 ^ 63)%Z by lia.
    unfold toLong, wrap. change (64 - 1)%Z with 63%Z.
    change (2 ^ 63)%Z with 9223372036854775808%Z in *. change (2 ^ 64)%Z with 18446744073709551616%Z. lia.
Qed.

Lemma getULong_loop_venc k : forall fuel result shift v rest,
  (0 <= shift <= 63)%Z -> (0 <= result < 2 ^ shift)%Z -> (0 <= v)%Z ->
  (v < 2 ^ (64 - shift))%Z -> (v < 128 ^ Z.of_nat k)%Z -> (k <= fuel)%nat -> (0 < k)%nat ->
  (shift mod 7 = 0)%Z ->
  getULong_loop fuel result shift (venc k v ++ rest) =
    (rest, Success (toLong (result + v * 2 ^ shift))).
Proof.
  induction k as [|k IH]; intros fuel result shift v rest Hsh Hr Hv Hv64 Hvk Hf Hk Hm7; [lia|].
  destruct fuel as [|fuel]; [lia|]. cbn [getULong_loop venc].
  replace (shift <? 64)%Z with true by lia.
  destruct (Z.ltb_spec v 128) as [Hlt|Hge].
  - cbn. unfold bind. simpl. destruct (b2z_group v) as (E1 & E2 & _); [lia|]. rewrite E1, E2. simpl.
    unfold ret. by rewrite lor_last_group by lia.
  - cbn. unfold bind. simpl. destruct (b2z_group (v mod 128)) as (_ & _ & E1 & E2); [lia|].
    rewrite E1, E2.
    assert (shift <= 56)%Z as Hs56.
    { destruct (Z.le_gt_cases shift 56); [done|].
      assert (2 ^ (64 - shift) <= 2 ^ 7)%Z by (apply Z.pow_le_mono_r; lia).
      change (2 ^ 7)%Z with 128%Z in *. lia. }
    assert (0 < 2 ^ shift)%Z by (apply Z.pow_pos_nonneg; lia).
    assert (2 ^ (shift + 7) = 128 * 2 ^ shift)%Z as E7 by (rewrite Z.pow_add_r by lia; lia).
    assert (2 ^ (64 - shift) = 128 * 2 ^ (64 - (shift + 7)))%Z as E64.
    { replace (64 - shift)%Z with (7 + (64 - (shift + 7)))%Z by lia. by rewrite Z.pow_add_r by lia. }
    assert (128 ^ Z.of_nat (S k) = 128 * 128 ^ Z.of_nat k)%Z as Ek.
    { rewrite Nat2Z.inj_succ, Z.pow_succ_r by lia. done. }
    rewrite lor_last_group; [|lia|lia|].
    2:{ assert (2 ^ 8 <= 2 ^ (64 - shift))%Z by (apply Z.pow_le_mono_r; lia).
        change (2 ^ 8)%Z with 256%Z in *. lia. }
    assert (2 ^ (shift + 7) <= 2 ^ 63)%Z by (apply Z.pow_le_mono_r; lia).
    assert (result + v mod 128 * 2 ^ shift < 2 ^ (shift + 7))%Z by nia.
    rewrite toLong_small by nia.
    destruct (decide (k = 0)%nat) as [->|]; [simpl in Hvk; lia|].
    rewrite IH; [|lia|nia|lia|lia|lia|lia|lia|lia].
    do 2 f_equal. rewrite E7. f_equal. pose proof (Z.div_mod v 128). nia.
Qed.

(** ** Round trips *)

Lemma putULong_roundtrip x : isLong x = true -> roundtrip putULong getULong x.
Proof.
  unfold isLong. intros Hx. apply (roundtrip_intro _ _ _ (venc 11 (x mod 2 ^ 64))).
  - unfold putULong. intros out. unfold bind, lift_try.
    rewrite putULong_loop_venc; [done|lia|lia|lia|]. simpl.
    change (2 ^ 64)%Z with 18446744073709551616%Z. lia.
  - intros rest. unfold getULong. rewrite getULong_loop_venc; [|lia..].
    do 2 f_equal. rewrite Z.add_0_l, Z.mul_1_r. unfold toLong, wrap.
    change (64 - 1)%Z with 63%Z. change (2 ^ 63)%Z with 9223372036854775808%Z in *.
    change (2 ^ 64)%Z with 18446744073709551616%Z. lia.
Qed.

(** *** ZigZag, at any width [w] *)

Lemma lxor_sign w z n : (0 < w)%Z -> (- 2 ^ w <= n < 2 ^ w)%Z ->
  Z.lxor z (Z.shiftr n w) = if (n <? 0)%Z then (- z - 1)%Z else z.
Proof.
  intros Hw Hn. rewrite Z.shiftr_div_pow2 by lia.
  destruct (Z.ltb_spec n 0).
  - replace (n / 2 ^ w)%Z with (-1)%Z; [rewrite Z.lxor_m1_r; unfold Z.lnot; lia|].
    apply Z.div_unique with (n + 2 ^ w)%Z; lia.
  - rewrite Z.div_small by lia. apply Z.lxor_0_r.
Qed.

Lemma land_1 n : Z.land n 1 = (n mod 2)%Z.
Proof. change 1%Z with (Z.ones 1). by rewrite Z.land_ones. Qed.

Lemma lxor_parity z n : Z.lxor z (- (n mod 2)) = if (n mod 2 =? 0)%Z then z else (- z - 1)%Z.
Proof.
  destruct (Z.eqb_spec (n mod 2) 0) as [->|]; [apply Z.lxor_0_r|].
  replace (- (n mod 2))%Z with (-1)%Z by lia. rewrite Z.lxor_m1_r. unfold Z.lnot. lia.
Qed.

(** What encoding computes: twice the number, or one less than minus twice. *)
Lemma encodeZigZagInt_eq n : isInt n = true ->
  encodeZigZagInt n = toInt (if (n <? 0)%Z then - (2 * n) - 1 else 2 * n)%Z.
Proof.
  unfold isInt, MinInt, MaxInt. change (2 ^ 31)%Z with 2147483648%Z. intros Hn. unfold encodeZigZagInt.
  rewrite lxor_sign by (change (2 ^ 31)%Z with 2147483648%Z; lia).
  rewrite Z.shiftl_mul_pow2 by lia. change (2 ^ 1)%Z with 2%Z. unfold toInt, wrap.
  change (2 ^ (32 - 1))%Z with 2147483648%Z. change (2 ^ 32)%Z with 4294967296%Z.
  destruct (Z.ltb_spec n 0); lia.
Qed.

Lemma zigzag_int n : isInt n = true -> decodeZigZagInt (encodeZigZagInt n) = n.
Proof.
  intros Hn. rewrite encodeZigZagInt_eq by done. revert Hn.
  unfold isInt, MinInt, MaxInt, decodeZigZagInt, ushr. intros Hn. rewrite land_1.
  rewrite Z.shiftr_div_pow2 by lia. unfold toInt, wrap. change (2 ^ 1)%Z with 2%Z.
  change (2 ^ (32 - 1))%Z with 2147483648%Z. change (2 ^ 31)%Z with 2147483648%Z in *.
  change (2 ^ 32)%Z with 4294967296%Z.
  set (e := (if n <? 0 then _ else _)%Z). set (m := ((e + 2147483648) mod 4294967296 - 2147483648)%Z).
  replace ((- (m mod 2) + 2147483648) mod 4294967296 - 2147483648)%Z with (- (m mod 2))%Z by lia.
  rewrite lxor_parity. subst e m.
  destruct (Z.ltb_spec n 0); case_match eqn:E; lia.
Qed.

Lemma encodeZigZagLong_eq n : isLong n = true ->
  encodeZigZagLong n = toLong (if (n <? 0)%Z then - (2 * n) - 1 else 2 * n)%Z.
Proof.
  unfold isLong. change (2 ^ 63)%Z with 9223372036854775808%Z. intros Hn. unfold encodeZigZagLong.
  rewrite lxor_sign by (change (2 ^ 63)%Z with 9223372036854775808%Z; lia).
  rewrite Z.shiftl_mul_pow2 by lia. change (2 ^ 1)%Z with 2%Z. unfold toLong, wrap.
  change (2 ^ (64 - 1))%Z with 9223372036854775808%Z. change (2 ^ 64)%Z with 18446744073709551616%Z.
  destruct (Z.ltb_spec n 0); lia.
Qed.

Lemma zigzag_long n : isLong n = true -> decodeZigZagLong (encodeZigZagLong n) = n.
Proof.
  intros Hn. rewrite encodeZigZagLong_eq by done. revert Hn.
  unfold isLong, decodeZigZagLong, ushr. intros Hn. rewrite land_1.
  rewrite Z.shiftr_div_pow2 by lia. unfold toLong, wrap. change (2 ^ 1)%Z with 2%Z.
  change (2 ^ (64 - 1))%Z with 9223372036854775808%Z. change (2 ^ 63)%Z with 9223372036854775808%Z in *.
  change (2 ^ 64)%Z with 18446744073709551616%Z.
  set (e := (if n <? 0 then _ else _)%Z).
  set (m := ((e + 9223372036854775808) mod 18446744073709551616 - 9223372036854775808)%Z).
  replace ((- (m mod 2) + 9223372036854775808) mod 18446744073709551616 - 9223372036854775808)%Z
    with (- (m mod 2))%Z by lia.
  rewrite lxor_parity. subst e m.
  destruct (Z.ltb_spec n 0); case_match eqn:E; lia.
Qed.

Lemma toInt_range z : isInt (toInt z) = true.
Proof.
  unfold isInt, MinInt, MaxInt. pose proof (wrap_range 32 z ltac:(lia)) as H. unfold toInt.
  change (32 - 1)%Z with 31%Z in H. lia.
Qed.

Lemma toLong_range z : isLong (toLong z) = true.
Proof.
  unfold isLong. pose proof (wrap_range 64 z ltac:(lia)) as H. unfold toLong.
  change (64 - 1)%Z with 63%Z in H. lia.
Qed.

Lemma isInt_isLong z : isInt z = true -> isLong z = true.
Proof.
  unfold isInt, isLong, MinInt, MaxInt. change (2 ^ 31)%Z with 2147483648%Z.
  change (2 ^ 63)%Z with 9223372036854775808%Z. lia.
Qed.

Lemma toInt_id z : isInt z = true -> toInt z = z.
Proof. unfold isInt. intros H. apply toInt_small. lia. Qed.

Lemma roundtrip_map (put put' : Z -> Writer unit) (get : Reader Z) f g x :
  (forall out, put' x out = put (f x) out) -> roundtrip put get (f x) -> g (f x) = x ->
  roundtrip put' (let! y := get in ret (g y)) x.
Proof.
  intros Hp (e & Hw & Hr) Hg. exists e. split.
  - intros out. by rewrite Hp, Hw.
  - apply (reads_map get g) in Hr. by rewrite Hg in Hr.
Qed.

Lemma putLong_roundtrip x : isLong x = true -> roundtrip putLong getLong x.
Proof.
  intros Hx. apply (roundtrip_map putULong putLong getULong encodeZigZagLong decodeZigZagLong x);
    [done| |by apply zigzag_long].
  apply putULong_roundtrip. rewrite encodeZigZagLong_eq by done. apply toLong_range.
Qed.

Lemma encodeZigZagInt_range x : isInt x = true -> isInt (encodeZigZagInt x) = true.
Proof. intros Hx. rewrite encodeZigZagInt_eq by done. apply toInt_range. Qed.

Lemma putInt_roundtrip x : isInt x = true -> roundtrip putInt getInt x.
Proof.
  intros Hx. apply (roundtrip_map putULong putInt getULong encodeZigZagInt (fun y => decodeZigZagInt (toInt y)) x);
    [done| |].
  - by apply putULong_roundtrip, isInt_isLong, encodeZigZagInt_range.
  - rewrite toInt_id by (by apply encodeZigZagInt_range). by apply zigzag_int.
Qed.

Lemma isShort_isInt x : isShort x = true -> isInt x = true.
Proof. unfold isShort, isInt, MinInt, MaxInt. change (2 ^ 31)%Z with 2147483648%Z. lia. Qed.

Lemma putShort_roundtrip x : isShort x = true -> roundtrip putShort getShort x.
Proof.
  intros Hx. apply isShort_isInt in Hx as Hi.
  apply (roundtrip_map putULong putShort getULong encodeZigZagInt
    (fun y => toShort (decodeZigZagInt (toInt y))) x); [done| |].
  - by apply putULong_roundtrip, isInt_isLong, encodeZigZagInt_range.
  - rewrite toInt_id by (by apply encodeZigZagInt_range). rewrite zigzag_int by done.
    unfold toShort, wrap, isShort in *. change (2 ^ (16 - 1))%Z with 32768%Z. change (2 ^ 16)%Z with 65536%Z. lia.
Qed.

Lemma putUInt_roundtrip x : (0 <= x <= 4294967295)%Z -> roundtrip putUInt getUInt x.
Proof.
  intros Hx. destruct (putULong_roundtrip x) as (e & Hw & Hr).
  { unfold isLong. change (2 ^ 63)%Z with 9223372036854775808%Z. lia. }
  exists e. split; [apply writes_guard; [lia|done]|].
  intros rest. unfold getUInt, bind at 1. rewrite Hr.
  replace ((0 <=? x)%Z && (x <=? 4294967295)%Z) with true by lia. done.
Qed.

Lemma putUShort_roundtrip x : (0 <= x <= 65535)%Z -> roundtrip putUShort getUShort x.
Proof.
  intros Hx. destruct (putULong_roundtrip x) as (e & Hw & Hr).
  { unfold isLong. change (2 ^ 63)%Z with 9223372036854775808%Z. lia. }
  exists e. split; [do 2 (apply writes_guard; [lia|]); done|].
  intros rest. unfold getUShort, bind at 1. rewrite Hr. cbv zeta.
  rewrite toInt_small by (unfold MinInt, MaxInt; change (2 ^ 31)%Z with 2147483648%Z; lia).
  replace ((0 <=? x)%Z && (x <=? 65535)%Z) with true by lia. done.
Qed.

(** *** Options and short strings *)

Lemma putOption_roundtrip {T} (put : T -> Writer unit) get (x : option T) :
  (forall v, x = Some v -> roundtrip put get v) ->
  roundtrip (fun x => putOption x put) (getOption get) x.
Proof.
  intros H. destruct x as [v|].
  - destruct (H v eq_refl) as (e & Hw & Hr). exists ([z2b 1] ++ e). split.
    + apply writes_bind; [apply writes_bytes|done].
    + apply (reads_bind _ _ _ _ 1%Z); [by apply reads_byte|]. cbn [Z.eqb].
      by apply (reads_map get Some).
  - exists [z2b 0]. split; [apply writes_bytes|]. intros rest. done.
Qed.

Lemma putShortString_roundtrip s : length s < 128 -> roundtrip putShortString getShortString s.
Proof.
  intros Hs. assert (toByte (zlen s) = zlen s) as E by (apply toByte_small; unfold zlen; lia).
  destruct (putUByte_reads (zlen s)) as (e & Hw & Hr); [unfold zlen; lia|].
  exists (e ++ s). split.
  - apply writes_guard; [apply Nat.ltb_lt; lia|]. rewrite E. by apply writes_bind.
  - eapply reads_bind; [exact Hr|apply reads_bytes].
Qed.

(** A string of 128 bytes or more is never written: its length, cast to a
    byte, is negative and fails the range check of [putUByte]. *)
Lemma putShortString_long s out : 128 <= length s ->
  putShortString s out = (out, Failure IllegalArgument).
Proof.
  intros Hs. unfold putShortString, guard. destruct (Nat.ltb_spec (length s) 256); [|done].
  unfold bind at 1, ret, putUByte, guard. 
  replace ((0 <=? toByte (zlen s))%Z && (toByte (zlen s) <=? 255)%Z) with false; [done|].
  unfold toByte, wrap, zlen. change (2 ^ (8 - 1))%Z with 128%Z. change (2 ^ 8)%Z with 256%Z. lia.
Qed.

(** *** The size of a variable-length number *)

Lemma venc_length fuel : forall v, (0 <= v)%Z -> (0 < fuel)%nat ->
  (1 <= length (venc fuel v))%nat /\
  (v < 128 ^ Z.of_nat fuel -> v < 128 ^ Z.of_nat (length (venc fuel v)))%Z /\
  (v = 0 \/ 128 ^ (Z.of_nat (length (venc fuel v)) - 1) <= v)%Z.
Proof.
  induction fuel as [|fuel IH]; intros v Hv Hf; [lia|]. cbn [venc].
  destruct (Z.ltb_spec v 128) as [Hlt|Hge]; cbn [length].
  - split; [lia|]. split; [done|]. destruct (decide (v = 0)%Z); [by left|right].
    change (128 ^ (Z.of_nat 1 - 1))%Z with 1%Z. lia.
  - split; [lia|]. destruct (decide (fuel = 0)%nat) as [->|Hne].
    { split; [simpl; lia|]. right. simpl. lia. }
    destruct (IH (v / 128)%Z ltac:(lia) ltac:(lia)) as (H1 & H2 & H3).
    set (n := length (venc fuel (v / 128))) in *.
    rewrite !Nat2Z.inj_succ, !Z.pow_succ_r by lia. split.
    + intros Hb. assert (v / 128 < 128 ^ Z.of_nat fuel)%Z as Hq by (apply Z.div_lt_upper_bound; lia).
      specialize (H2 Hq). lia.
    + right. destruct H3 as [H3|H3]; [lia|].
      replace (Z.succ (Z.of_nat n) - 1)%Z with (Z.succ (Z.of_nat n - 1)) by lia.
      rewrite Z.pow_succ_r by lia. lia.
Qed.

(** *** Bit arrays *)

Lemma byte_of_bits_testbit bs : forall i, Z.testbit (byte_of_bits bs) (Z.of_nat i) = default false (bs !! i).
Proof.
  induction bs as [|b bs IH]; intros i; [by rewrite Z.testbit_0_l|]. cbn [byte_of_bits foldr].
  change (foldr _ _ bs) with (byte_of_bits bs).
  replace ((if b then 1 else 0) + 2 * byte_of_bits bs)%Z with (2 * byte_of_bits bs + Z.b2z b)%Z
    by (destruct b; simpl; lia).
  destruct i as [|i]; [by rewrite Z.testbit_0_r|].
  rewrite Nat2Z.inj_succ, Z.testbit_succ_r by lia. apply IH.
Qed.

Lemma pack_bits_length fuel : forall bs, (length bs <= fuel)%nat ->
  length (pack_bits fuel bs) = ((length bs + 7) / 8)%nat.
Proof.
  induction fuel as [|fuel IH]; intros [|b bs] Hf; try (simpl in Hf; lia); [done..|].
  cbn [pack_bits length]. rewrite IH; rewrite length_drop; cbn [length] in *; [|lia].
  pose proof (Nat.div_mod_eq (S (length bs) - 8 + 7) 8). pose proof (Nat.div_mod_eq (S (length bs) + 7) 8).
  pose proof (Nat.mod_upper_bound (S (length bs) - 8 + 7) 8 ltac:(lia)).
  pose proof (Nat.mod_upper_bound (S (length bs) + 7) 8 ltac:(lia)). lia.
Qed.

Lemma pack_bits_get fuel : forall bs i, (length bs <= fuel)%nat ->
  bitset_get (pack_bits fuel bs) i = default false (bs !! i).
Proof.
  induction fuel as [|fuel IH]; intros [|b bs] i Hf; try (simpl in Hf; lia); [done..|].
  unfold bitset_get. cbn [pack_bits].
  destruct (decide (i < 8)%nat) as [Hi|Hi].
  - rewrite (Nat.div_small i 8), (Nat.mod_small i 8) by done. cbn [lookup list_lookup].
    rewrite z2b_testbit, byte_of_bits_testbit by lia. by rewrite lookup_take_lt.
  - replace (i / 8)%nat with (S ((i - 8) / 8)).
    2:{ replace i with ((i - 8) + 1 * 8)%nat at 2 by lia. rewrite Nat.div_add by lia. lia. }
    replace (i mod 8)%nat with ((i - 8) mod 8)%nat.
    2:{ replace i with ((i - 8) + 1 * 8)%nat at 2 by lia. by rewrite Nat.Div0.mod_add. }
    cbn [lookup list_lookup]. specialize (IH (drop 8 (b :: bs)) (i - 8)%nat).
    etrans; [apply IH; rewrite length_drop; simpl in *; lia|].
    rewrite lookup_drop. by replace (8 + (i - 8))%nat with i by lia.
Qed.

Lemma strip_zeros_spec l : exists n, l = strip_zeros l ++ replicate n (z2b 0).
Proof.
  induction l as [|b l [n IH]]; [by exists 0|]. cbn [strip_zeros].
  destruct (strip_zeros l) as [|x l'] eqn:E.
  - destruct (Z.eqb_spec (ub b) 0) as [Eb|].
    + exists (S n). simpl. rewrite IH. simpl. f_equal. by rewrite <- (z2b_ub b), Eb.
    + exists n. simpl. by rewrite IH at 1.
  - exists n. simpl. by rewrite IH at 1.
Qed.

Lemma copyOf_strip l : copyOf (strip_zeros l) (length l) = l.
Proof.
  destruct (strip_zeros_spec l) as [n E]. unfold copyOf. revert E.
  generalize (strip_zeros l). intros s ->. rewrite length_app, length_replicate.
  rewrite Nat.add_comm, replicate_add, app_assoc. apply take_app_length'.
  rewrite length_app, length_replicate. lia.
Qed.

Lemma putBits_roundtrip xs : roundtrip putBits (getBits (zlen xs)) xs.
Proof.
  destruct xs as [|x xs]; [by apply (roundtrip_intro _ _ _ []); [apply writes_ret|]|].
  set (l := x :: xs). set (e := pack_bits (length l) l).
  assert (Z.to_nat (Z.shiftr (zlen l + 7) 3) = length e) as El.
  { unfold e. rewrite pack_bits_length by lia. rewrite Z.shiftr_div_pow2 by lia. unfold zlen.
    change (2 ^ 3)%Z with (Z.of_nat 8). replace (Z.of_nat (length l) + 7)%Z with (Z.of_nat (length l + 7)) by lia.
    by rewrite <- Nat2Z.inj_div, Nat2Z.id. }
  exists e. split.
  - intros out. unfold putBits. fold l. rewrite El. unfold bitset_toByteArray. fold e.
    by rewrite copyOf_strip.
  - unfold getBits. replace (zlen l =? 0)%Z with false by (unfold zlen, l; simpl; lia).
    replace (Z.shiftr (zlen l + 7) 3) with (zlen e).
    2:{ unfold zlen at 1. rewrite <- El. rewrite Z2Nat.id; [done|]. apply Z.shiftr_nonneg. unfold zlen. lia. }
    rewrite <- (app_nil_r e) at 2. eapply reads_bind; [apply reads_bytes|].
    apply reads_guard; [apply Z.leb_le, zlen_nonneg|].
    assert (bitset_get e <$> seq 0 (Z.to_nat (zlen l)) = l) as ->; [|done].
    unfold zlen. rewrite Nat2Z.id. apply list_eq. intros i. rewrite list_lookup_fmap.
    unfold e. destruct (decide (i < length l)%nat) as [Hi|Hi].
    + rewrite lookup_seq_lt by done. change (bitset_get (pack_bits (length l) l) <$> Some (0 + i)%nat) with (Some (bitset_get (pack_bits (length l) l) i)). rewrite pack_bits_get by lia.
      destruct (lookup_lt_is_Some_2 l i Hi) as [y ->]. done.
    + rewrite lookup_seq_ge, lookup_ge_None_2 by lia. done.
Qed.

(** ** The properties of the writer and reader *)


(** Every integer of a type's range that the writer puts, the reader gets
    back, whatever follows in the input: signed and unsigned, of all widths,
    through ZigZag or not. *)
Theorem vlq_numbers_roundtrip x :
  (isLong x = true -> roundtrip putULong getULong x /\ roundtrip putLong getLong x) /\
  (isInt x = true -> roundtrip putInt getInt x) /\
  (isShort x = true -> roundtrip putShort getShort x) /\
  ((0 <= x <= 4294967295)%Z -> roundtrip putUInt getUInt x) /\
  ((0 <= x <= 65535)%Z -> roundtrip putUShort getUShort x) /\
  ((0 <= x <= 255)%Z -> roundtrip putUByte getUByte x).
Proof.
  split_and!; auto using putInt_roundtrip, putShort_roundtrip, putUInt_roundtrip,
    putUShort_roundtrip, putUByte_reads, putULong_roundtrip, putLong_roundtrip.
Qed.

(** A bit array of any length comes back, given its length. *)
Theorem vlq_bits_roundtrip xs : roundtrip putBits (getBits (zlen xs)) xs.
Proof. apply putBits_roundtrip. Qed.

(** [putULong] writes the least number of seven-bit groups that holds the
    value as an unsigned 64-bit number: one to ten bytes, ten for every
    negative value. *)
Theorem vlq_size x out : isLong x = true -> exists e,
  putULong x out = (out ++ e, Success tt) /\
  (1 <= length e <= 10)%nat /\
  (x mod 2 ^ 64 < 128 ^ zlen e)%Z /\
  (length e = 1%nat \/ (128 ^ (zlen e - 1) <= x mod 2 ^ 64)%Z) /\
  ((x < 0)%Z -> length e = 10%nat).
Proof.
  unfold isLong. intros Hx. set (u := (x mod 2 ^ 64)%Z). exists (venc 11 u).
  assert (0 <= u < 2 ^ 64)%Z as Hu by (apply Z.mod_pos_bound; lia).
  assert (x < 0 -> 2 ^ 63 <= u)%Z as Hneg.
  { intros Hlt. unfold u. replace x with (x + 2 ^ 64 + (-1) * 2 ^ 64)%Z by lia.
    rewrite Z.mod_add, Z.mod_small by lia. lia. }
  destruct (venc_length 11 u ltac:(lia) ltac:(lia)) as (H1 & H2 & H3).
  assert (u < 128 ^ Z.of_nat 11)%Z as H11 by (change (128 ^ Z.of_nat 11)%Z with 151115727451828646838272%Z; lia).
  specialize (H2 H11). unfold zlen. set (n := length (venc 11 u)) in *.
  assert (n <= 10)%nat as Hn.
  { destruct (Nat.le_gt_cases n 10) as [|Hgt]; [done|]. destruct H3 as [H3|H3].
    - subst n. rewrite H3 in Hgt. vm_compute in Hgt. lia.
    - assert (128 ^ 10 <= 128 ^ (Z.of_nat n - 1))%Z by (apply Z.pow_le_mono_r; lia).
      change (128 ^ 10)%Z with 1180591620717411303424%Z in *. lia. }
  split_and!; [|lia|lia|done| |].
  - unfold putULong, bind, lift_try. rewrite putULong_loop_venc; [done|lia|lia|lia|].
    simpl. fold u. change (2 ^ 70)%Z with 1180591620717411303424%Z. lia.
  - destruct H3 as [H3|H3]; [left|by right]. subst n. by rewrite H3.
  - intros Hlt. specialize (Hneg Hlt). assert (~ n <= 9)%nat; [|lia]. intros Hn9.
    assert (128 ^ Z.of_nat n <= 128 ^ 9)%Z by (apply Z.pow_le_mono_r; lia).
    change (128 ^ 9)%Z with 9223372036854775808%Z in *. change (2 ^ 63)%Z with 9223372036854775808%Z in *. lia.
Qed.

Lemma isLong_shiftr z : isLong z = true <-> (Z.shiftr z 63 = 0 \/ Z.shiftr z 63 = -1)%Z.
Proof.
  unfold isLong. rewrite Z.shiftr_div_pow2 by lia.
  change (2 ^ 63)%Z with 9223372036854775808%Z. pose proof (Z.div_mod z 9223372036854775808).
  pose proof (Z.mod_pos_bound z 9223372036854775808). lia.
Qed.

Lemma isLong_lor a b : isLong a = true -> isLong b = true -> isLong (Z.lor a b) = true.
Proof.
  rewrite !isLong_shiftr, Z.shiftr_lor. intros [-> | ->] [-> | ->]; simpl; auto.
Qed.

Lemma getULong_loop_total fuel : forall result shift s,
  isLong result = true -> (64 - shift <= 7 * (Z.of_nat fuel - 1))%Z -> (0 < fuel)%nat ->
  match getULong_loop fuel result shift s with
  | (s', Success v) => isLong v = true /\ exists e, s = e ++ s' /\ (1 <= length e < fuel)%nat
  | (_, Failure e) => e <> NoFuel
  end.
Proof.
  induction fuel as [|fuel IH]; intros result shift s Hr Hf H0; [lia|]. cbn [getULong_loop].
  destruct (Z.ltb_spec shift 64); [|done]. unfold bind. destruct s as [|b s]; [done|]. simpl.
  set (r' := Z.lor result _).
  assert (isLong r' = true) as Hr' by (apply isLong_lor; [done|apply toLong_range]).
  destruct (Z.land (b2z b) 128 =? 0)%Z.
  - split; [done|]. exists [b]. simpl. split; [done|lia].
  - specialize (IH r' (shift + 7)%Z s Hr' ltac:(lia) ltac:(lia)).
    destruct (getULong_loop fuel r' (shift + 7) s) as [s' [v|e]]; [|done].
    destruct IH as (Hv & e & -> & He). split; [done|]. exists (b :: e). simpl. split; [done|lia].
Qed.

(** [getULong] on any input: it never loops, fails only at the end of the
    input or after ten groups, and otherwise returns a Long after consuming
    one to ten bytes from the front of the input. *)
Theorem getULong_total s :
  match getULong s with
  | (s', Success v) => isLong v = true /\ exists e, s = e ++ s' /\ (1 <= length e <= 10)%nat
  | (_, Failure e) => e <> NoFuel
  end.
Proof.
  pose proof (getULong_loop_total 11 0 0 s eq_refl ltac:(lia) ltac:(lia)) as H. unfold getULong.
  destruct (getULong_loop 11 0 0 s) as [s' [v|e]]; [|done].
  destruct H as (Hv & e & E & Hl). split; [done|]. exists e. split; [done|lia].
Qed.

(** [putShortString] round-trips strings of fewer than 128 bytes and throws
    for every longer one, although it accepts lengths below 256. *)
Theorem putShortString_limit s :
  (length s < 128 -> roundtrip putShortString getShortString s) /\
  (128 <= length s -> forall out, putShortString s out = (out, Failure IllegalArgument)).
Proof. split; [apply putShortString_roundtrip|intros H out; by apply putShortString_long]. Qed.

(** ** Witnesses *)

Lemma vlq_numbers_roundtrip_witness :
  roundtrip putLong getLong (-5)%Z /\ roundtrip putUShort getUShort 40000%Z /\
  getInt (fst (putInt (-300) [])) = ([], Success (-300)%Z).
Proof.
  split_and!; [apply (vlq_numbers_roundtrip (-5)); done
              |apply (vlq_numbers_roundtrip 40000); lia|by vm_compute].
Defined.

Lemma vlq_size_witness : exists e, putULong (-1)%Z [] = ([] ++ e, Success tt) /\ length e = 10%nat.
Proof. destruct (vlq_size (-1) [] eq_refl) as (e & E & _ & _ & _ & H). exists e. split; [done|]. by apply H. Defined.

Lemma putShortString_limit_witness :
  roundtrip putShortString getShortString [z2b 65] /\
  putShortString (replicate 200 (z2b 65)) [] = ([], Failure IllegalArgument).
Proof.
  split; [apply putShortString_limit; simpl; lia|].
  apply (putShortString_limit (replicate 200 (z2b 65))). rewrite length_replicate. lia.
Defined.
