(* ===== verification/Merkle.v ===== *)
(** * Merkle: binary Merkle trees, single and batch inclusion proofs

    scrypto/.../authds/merkle/Node.scala, MerkleTree.scala, MerkleProof.scala,
    BatchMerkleProof.scala and serialization/BatchMerkleProofSerializer.scala.
    The loops over the layers of a tree take fuel; [calcTopNode],
    [proofByIndices] and [batch_valid] give the bound under which
    MerkleThms shows they always end, where they do. *)

From S2P Require Import Prelude External.

(** ** Scala collections *)

(** grouped(2) *)
Fixpoint grouped2 {A} (l : list A) : list (A * option A) :=
  match l with
  | [] => []
  | [x] => [(x, None)]
  | x :: y :: l' => (x, Some y) :: grouped2 l'
  end.

(** grouped(n), for a positive n; each step takes an element, so the length is fuel enough *)
Fixpoint grouped_fuel {A} (fuel n : nat) (l : list A) : list (list A) :=
  match fuel, l with
  | S fuel', _ :: _ => take n l :: grouped_fuel fuel' n (drop n l)
  | _, _ => []
  end.
Definition grouped {A} (n : nat) (l : list A) : list (list A) := grouped_fuel (length l) n l.

(** distinct: first occurrences *)
Fixpoint distinct {A} `{EqDecision A} (l : list A) : list A :=
  match l with
  | [] => []
  | x :: l' => x :: filter (fun y => y <> x) (distinct l')
  end.

(** diff: multiset difference *)
Fixpoint remove_first {A} `{EqDecision A} (x : A) (l : list A) : list A :=
  match l with
  | [] => []
  | y :: l' => if decide (y = x) then l' else y :: remove_first x l'
  end.
Definition seq_diff {A} `{EqDecision A} (l xs : list A) : list A := foldl (fun l x => remove_first x l) l xs.

(** sortBy: a stable sort *)
Fixpoint insert_by {A} (key : A -> Z) (x : A) (l : list A) : list A :=
  match l with
  | [] => [x]
  | y :: l' => if (key x <=? key y)%Z then x :: l else y :: insert_by key x l'
  end.
Definition sortBy {A} (key : A -> Z) (l : list A) : list A := foldr (insert_by key) [] l.

(** ** Nodes and trees *)

Abbreviation Digest := bytes.
Abbreviation Side := Z.

Section Merkle.
Context `{HF : CryptographicHash}.

Inductive Node :=
| InternalNode (left right : Node)
| Leaf (data : bytes)
| EmptyNode
| EmptyRootNode.

Definition LeafPrefix : byte := z2b 0.
Definition InternalNodePrefix : byte := z2b 1.

Fixpoint node_hash (n : Node) : Digest :=
  match n with
  | InternalNode l r => prefixedHash InternalNodePrefix [node_hash l; node_hash r]
  | Leaf data => prefixedHash LeafPrefix [data]
  | EmptyNode => []
  | EmptyRootNode => replicate DigestSize (z2b 0)
  end.

Record MerkleTree := Tree {
  topNode : Node;
  elementsHashIndex : gmap bytes Z
}.

Definition rootHash (t : MerkleTree) : Digest := node_hash (topNode t).
Definition tree_length (t : MerkleTree) : Z := Z.of_nat (size (elementsHashIndex t)).

(** max(2^ceil(log2 length), 2): the double computation is exact for fewer
    than 2^29 leaves; log2 0 is minus infinity. *)
Definition lengthWithEmptyLeafs (t : MerkleTree) : Z := Z.max (2 ^ Z.log2_up (tree_length t)) 2.

Definition pair_nodes (lr : Node * option Node) : Node :=
  InternalNode lr.1 (match lr.2 with Some r => r | None => EmptyNode end).

Fixpoint calcTopNode (fuel : nat) (nodes : list Node) : Try Node :=
  match nodes with
  | [] => Success EmptyRootNode
  | _ =>
      match fuel with
      | O => Failure NoFuel
      | S fuel' =>
          let nextNodes := pair_nodes <$> grouped2 nodes in
          match nextNodes with
          | [top] => Success top
          | _ => calcTopNode fuel' nextNodes
          end
      end
  end.

(** MerkleTree.apply *)
Definition index_elements (leafs : list Node) : gmap bytes Z :=
  foldl (fun m p => <[node_hash p.2 := p.1]> m) ∅ (zip (Z.of_nat <$> seq 0 (length leafs)) leafs).

Definition mk_tree (payload : list bytes) : Try MerkleTree :=
  let leafs := Leaf <$> payload in
  let? top := calcTopNode (length leafs) leafs in
  Success (Tree top (index_elements leafs)).

(** ** Single proofs *)

Definition LeftSide : Side := 0%Z.
Definition RightSide : Side := 1%Z.

Record MerkleProof := Proof_ {
  leafData : bytes;
  levels : list (Digest * Side)
}.

Fixpoint proof_loop (node : Node) (i curLength : Z) (acc : list (Digest * Side))
    : option (bytes * list (Digest * Side)) :=
  match node with
  | InternalNode l r =>
      if (i <? Z.quot curLength 2)%Z
      then proof_loop l i (Z.quot curLength 2) (acc ++ [(node_hash r, LeftSide)])
      else if (i <? curLength)%Z
      then proof_loop r (i - Z.quot curLength 2) (Z.quot curLength 2) (acc ++ [(node_hash l, RightSide)])
      else None
  | Leaf data => Some (data, rev acc)
  | _ => None
  end.

Definition proofByIndex (t : MerkleTree) (index : Z) : option MerkleProof :=
  if (0 <=? index)%Z && (index <? tree_length t)%Z then
    (fun lp => Proof_ lp.1 lp.2) <$> proof_loop (topNode t) index (lengthWithEmptyLeafs t) []
  else None.

Definition proofByElementHash (t : MerkleTree) (h : Digest) : option MerkleProof :=
  elementsHashIndex t !! h ≫= proofByIndex t.

Definition proofByElement (t : MerkleTree) (element : Node) : option MerkleProof :=
  proofByElementHash t (node_hash element).

(** valid: one level of the fold *)
Definition level_hash (prevHash : Digest) (level : Digest * Side) : Digest :=
  if (level.2 =? LeftSide)%Z then prefixedHash InternalNodePrefix [prevHash ++ level.1]
  else prefixedHash InternalNodePrefix [level.1 ++ prevHash].

Definition valid (p : MerkleProof) (expectedRootHash : Digest) : bool :=
  bool_decide (foldl level_hash (prefixedHash LeafPrefix [leafData p]) (levels p) = expectedRootHash).

(** ** Batch proofs *)

Record BatchMerkleProof := Batch {
  indices : list (Z * Digest);
  proofs : list (Digest * Side)
}.

Definition neighbours (i : Z) : Z * Z :=
  if (Z.rem i 2 =? 0)%Z then (i, (i + 1)%Z) else ((i - 1)%Z, i).

(** The hash of a layer's pair *)
Definition pair_hash (lr : Digest * option Digest) : Digest :=
  prefixedHash InternalNodePrefix [lr.1; match lr.2 with Some r => r | None => node_hash EmptyNode end].

(** l.lift(i) *)
Definition lift_index (l : list Digest) (i : Z) : option Digest :=
  if (i <? 0)%Z then None else l !! Z.to_nat i.

(** The loop of proofByIndices *)
Fixpoint indices_loop (fuel : nat) (a : list Z) (l : list Digest) : Try (list (Digest * Side)) :=
  match fuel with
  | O => Failure NoFuel
  | S fuel' =>
      let b_pruned := distinct (neighbours <$> a) in
      let b_flat := b_pruned ≫= (fun p => [p.1; p.2]) in
      let dif := seq_diff b_flat a in
      let m := (fun i => (default (node_hash EmptyNode) (lift_index l i),
                          if (Z.rem i 2 =? 0)%Z then LeftSide else RightSide)) <$> dif in
      let a_new := (fun p => Z.quot p.1 2) <$> b_pruned in
      let l_new := pair_hash <$> grouped2 l in
      if Nat.ltb 1 (length l_new) then
        let? m' := indices_loop fuel' a_new l_new in Success (m ++ m')
      else Success m
  end.

(** hashes.apply over a list of indices *)
Fixpoint apply_all (l : list Digest) (a : list Z) : Try (list Digest) :=
  match a with
  | [] => Success []
  | i :: a' => let? h := array_get l i in let? hs := apply_all l a' in Success (h :: hs)
  end.

Definition tree_hashes (t : MerkleTree) : list Digest :=
  fst <$> sortBy snd (map_to_list (elementsHashIndex t)).

Definition proofByIndices (t : MerkleTree) (idx : list Z) : Try (option BatchMerkleProof) :=
  if negb (bool_decide (idx = [])) && forallb (fun i => (0 <=? i)%Z && (i <? tree_length t)%Z) idx then
    let hashes := tree_hashes t in
    let normalized_indices := sortBy id (distinct idx) in
    let? multiproof := indices_loop (length hashes) normalized_indices hashes in
    let? hs := apply_all hashes normalized_indices in
    Success (Some (Batch (zip normalized_indices hs) multiproof))
  else Success None.

(** One layer of BatchMerkleProof.valid: the next hashes and the rest of the multiproof *)
Fixpoint batch_level (b : list (Z * Z)) (e : list Digest) (m : list (Digest * Side))
    : Try (list Digest * list (Digest * Side)) :=
  match b, e with
  | p :: b', h :: e' =>
      let consume (rest : list (Digest * Side) -> Try (list Digest * list (Digest * Side))) :=
        match m with
        | [] => Failure NoSuchElement
        | (mh, side) :: m' =>
            let x := if (side =? LeftSide)%Z then prefixedHash InternalNodePrefix [mh ++ h]
                     else prefixedHash InternalNodePrefix [h ++ mh] in
            let? (e_new, m_new) := rest m' in Success (x :: e_new, m_new)
        end in
      match b', e' with
      | p' :: b'', h' :: e'' =>
          if decide (p = p') then
            let? (e_new, m_new) := batch_level b'' e'' m in
            Success (prefixedHash InternalNodePrefix [h ++ h'] :: e_new, m_new)
          else consume (batch_level b' e')
      | _, _ => consume (batch_level b' e')
      end
  | _, _ => Success ([], m)
  end.

(** The loop of BatchMerkleProof.valid *)
Fixpoint batch_loop (fuel : nat) (a : list Z) (e : list Digest) (m : list (Digest * Side)) : Try (list Digest) :=
  match fuel with
  | O => Failure NoFuel
  | S fuel' =>
      let b := neighbours <$> a in
      if negb (Nat.eqb (length e) (length b)) then Failure AssertionError else
      let? (e_new, m_new) := batch_level b e m in
      let a_new := (fun p => Z.quot p.1 2) <$> distinct b in
      if negb (bool_decide (m_new = [])) || Nat.ltb 1 (length e_new) then
        let n := Nat.min (length a_new) (length e_new) in
        batch_loop fuel' a_new (take n e_new) m_new
      else Success e_new
  end.

Definition batch_valid (fuel : nat) (p : BatchMerkleProof) (expectedRootHash : Digest) : Try bool :=
  let e := sortBy fst (indices p) in
  let? r := batch_loop fuel (fst <$> indices p) (snd <$> e) (proofs p) in
  match r with
  | [root] => Success (bool_decide (root = expectedRootHash))
  | _ => Success false
  end.
End Merkle.

(** ** BatchMerkleProofSerializer *)

Section Serializer.
Context `{HF : CryptographicHash} `{G : Guava}.

Definition indexSize : nat := 4.
Definition indicesSize : nat := DigestSize + indexSize.
Definition proofsSize : nat := DigestSize + 1.

Definition indicesToBytes (l : list (Z * Digest)) : bytes :=
  concat ((fun i => Ints_toByteArray i.1 ++ i.2) <$> l).

(** The hash of an empty node is written as 32 zero bytes. *)
Definition proofsToBytes (l : list (Digest * Side)) : bytes :=
  concat ((fun p => (match p.1 with [] => replicate 32 (z2b 0) | h => h end) ++ [z2b p.2]) <$> l).

Definition serialize (bmp : BatchMerkleProof) : bytes :=
  Ints_toByteArray (zlen (indices bmp)) ++ Ints_toByteArray (zlen (proofs bmp)) ++
  indicesToBytes (indices bmp) ++ proofsToBytes (proofs bmp).

Fixpoint map_try {A B} (f : A -> Try B) (l : list A) : Try (list B) :=
  match l with
  | [] => Success []
  | x :: l' => let? y := f x in let? ys := map_try f l' in Success (y :: ys)
  end.

Definition indicesFromBytes (bs : bytes) : Try (list (Z * Digest)) :=
  map_try (fun b => let? index := Ints_fromByteArray (slice b 0 (Z.of_nat indexSize)) in
                    Success (index, slice b (Z.of_nat indexSize) (Z.of_nat indicesSize)))
    (grouped indicesSize bs).

Definition proofsFromBytes (bs : bytes) : Try (list (Digest * Side)) :=
  map_try (fun b => let hashBytes := slice b 0 (Z.of_nat DigestSize) in
                    let hash := if forallb (fun x => bool_decide (x = z2b 0)) hashBytes then [] else hashBytes in
                    let? side := array_get b (Z.of_nat DigestSize) in
                    Success (hash, b2z side))
    (grouped proofsSize bs).

(** splitAt; the products are Int products. *)
Definition splitAt {A} (l : list A) (n : Z) : list A * list A := (take (Z.to_nat n) l, drop (Z.to_nat n) l).

Definition deserialize (bs : bytes) : Try BatchMerkleProof :=
  if (zlen bs <? 8)%Z then Failure (Raised "Deserialization error, empty input.") else
  let? numIndices := Ints_fromByteArray (slice bs 0 4) in
  let? numProofs := Ints_fromByteArray (slice bs 4 8) in
  let nI := toInt (numIndices * Z.of_nat indicesSize) in
  let nP := toInt (numProofs * Z.of_nat proofsSize) in
  let '(i, p) := splitAt (drop 8 bs) nI in
  if negb (zlen i =? nI)%Z || negb (zlen p =? nP)%Z then Failure (Raised "Deserialization error, invalid input.") else
  let? idx := indicesFromBytes i in
  let? ps := proofsFromBytes p in
  Success (Batch idx ps).
End Serializer.
