(* ===== verification/MerkleSpec.v ===== *)
(** * MerkleSpec: shape of the trees, layers, and what a hash level determines

    [full] and [layer] describe the trees [calcTopNode] builds; [root_of] is the
    root of a layer of hashes; [level_inv] is the step of the soundness proofs. *)

From S2P Require Import Prelude External Merkle.

Section Shape.
Context `{HF : CryptographicHash}.

(** ** Layers *)

Lemma grouped2_ind {A} (P : list A -> Prop) :
  P [] -> (forall x, P [x]) -> (forall x y l, P l -> P (x :: y :: l)) -> forall l, P l.
Proof.
  intros H0 H1 H2 l. assert (P l /\ forall x, P (x :: l)) as [H _]; [|done].
  induction l as [|a l [IH IH']]; [by split|]. split; [done|]. intros x. by apply H2.
Qed.

Lemma grouped2_length {A} (l : list A) : length (grouped2 l) = (length l + 1) `div` 2.
Proof.
  induction l as [| |x y l IH] using grouped2_ind; [done|done|]. cbn [grouped2 length]. rewrite IH.
  replace (S (S (length l)) + 1) with ((length l + 1) + 1 * 2) by lia. rewrite Nat.div_add by lia. lia.
Qed.

Lemma grouped2_shorter {A} (l : list A) : 1 < length (grouped2 l) -> length (grouped2 l) < length l.
Proof. rewrite grouped2_length. intros H. pose proof (Nat.div_mod_eq (length l + 1) 2). lia. Qed.

Lemma grouped2_nonempty {A} (l : list A) : l <> [] -> 0 < length (grouped2 l).
Proof. intros H. destruct l as [|x [|y l]]; simpl; [done|lia|lia]. Qed.

Definition next (l : list Digest) : list Digest := pair_hash <$> grouped2 l.

Lemma pair_nodes_hash ns : node_hash <$> (pair_nodes <$> grouped2 ns) = next (node_hash <$> ns).
Proof.
  unfold next. induction ns as [| |x y l IH] using grouped2_ind; [done|done|].
  cbn [grouped2]. by rewrite !fmap_cons, IH.
Qed.

Inductive root_of : list Digest -> Digest -> Prop :=
| root_one l h : next l = [h] -> root_of l h
| root_step l h : 1 < length (next l) -> root_of (next l) h -> root_of l h.

(** ** [calcTopNode] *)

(** [full k n ls]: [n] is a tree of depth [k] over the leaves [ls], its missing
    subtrees on the right replaced by [EmptyNode]. *)
Inductive full : nat -> Node -> list Node -> Prop :=
| full_leaf n : full 0 n [n]
| full_both k l r ls rs : full k l ls -> length ls = 2 ^ k -> full k r rs ->
    full (S k) (InternalNode l r) (ls ++ rs)
| full_left k l ls : full k l ls -> full (S k) (InternalNode l EmptyNode) ls.

(** A layer of such trees, all but the last complete. *)
Inductive layer (k : nat) : list Node -> list Node -> Prop :=
| layer_one n ls : full k n ls -> layer k [n] ls
| layer_cons n ns ls rs : full k n ls -> length ls = 2 ^ k -> layer k ns rs -> layer k (n :: ns) (ls ++ rs).

Lemma full_length k n ls : full k n ls -> 1 <= length ls <= 2 ^ k.
Proof.
  induction 1 as [n|k l r ls rs H1 IH1 Hl H2 IH2|k l ls H IH]; rewrite ?length_app; simpl; lia.
Qed.

Lemma layer_leaves ns : ns <> [] -> layer 0 ns ns.
Proof.
  induction ns as [|n ns IH]; [done|]. intros _. destruct ns as [|n' ns].
  - apply layer_one, full_leaf.
  - apply (layer_cons 0 n (n' :: ns) [n] (n' :: ns)); [apply full_leaf|done|by apply IH].
Qed.

Lemma layer_next k ns ls : layer k ns ls -> layer (S k) (pair_nodes <$> grouped2 ns) ls.
Proof.
  revert ls. induction ns as [|x|x y ns IH] using grouped2_ind; intros ls H.
  - inversion H.
  - inversion H as [n l Hf|n l l1 l2 H1 H2 H3]; subst; [|by inversion H3]. by apply layer_one, full_left.
  - inversion H as [|n l ls1 rs1 Hx Hlx Hy]; subst.
    inversion Hy as [n l Hf|n l ls2 rs2 Hfy Hly Hr]; subst; simpl.
    + apply layer_one. by apply full_both.
    + rewrite app_assoc. apply layer_cons; [by apply full_both|rewrite length_app; simpl; lia|by apply IH].
Qed.

Lemma layer_length k ns ls : layer k ns ls -> (length ns - 1) * 2 ^ k < length ls.
Proof.
  induction 1 as [n ls H|n ns ls rs Hf Hl H IH]; [pose proof (full_length _ _ _ H); simpl; lia|].
  rewrite length_app. simpl length. destruct ns; [inversion H|]. simpl length in *. lia.
Qed.

(** The loop ends with the root of the whole list, at the least depth that holds it. *)
Lemma calcTopNode_layer fuel k ns ls : ns <> [] -> layer k ns ls -> length ns <= fuel ->
  exists K top, calcTopNode fuel ns = Success top /\ full (S K) top ls /\
    (K = k \/ 2 ^ K < length ls) /\ root_of (node_hash <$> ns) (node_hash top).
Proof.
  revert k ns. induction fuel as [|fuel IH]; intros k ns Hne Hl Hf.
  { destruct ns; [done|simpl in Hf; lia]. }
  pose proof (layer_next _ _ _ Hl) as Hn. pose proof (pair_nodes_hash ns) as Hh.
  pose proof (grouped2_nonempty ns Hne) as H0. pose proof (grouped2_shorter ns) as Hs.
  pose proof (layer_length _ _ _ Hn) as Hlen.
  assert (length (pair_nodes <$> grouped2 ns) = length (grouped2 ns)) as Hg by apply length_fmap.
  destruct ns as [|n0 ns0]; [done|]. cbn [calcTopNode]. set (ns := n0 :: ns0) in *. clearbody ns.
  destruct (pair_nodes <$> grouped2 ns) as [|top [|n1 nn]] eqn:E.
  - simpl in Hg. lia.
  - exists k, top. split; [done|]. split; [|split; [by left|]].
    + inversion Hn as [|n l l1 l2 _ _ H3]; subst; [done|inversion H3].
    + apply root_one. by rewrite <- Hh.
  - simpl in Hg. specialize (Hs ltac:(lia)). destruct (IH (S k) (top :: n1 :: nn)) as (K & t & E1 & E2 & E3 & E4); [done|done|simpl; simpl in Hf; lia|].
    exists K, t. split; [done|]. split; [done|]. split.
    + right. destruct E3 as [->|]; [|done]. simpl length in Hlen.
      pose proof (Nat.mul_le_mono_r 1 (S (S (length nn)) - 1) (2 ^ S k)). lia.
    + apply root_step; rewrite <- Hh; [simpl; lia|done].
Qed.

(** ** Single proofs: completeness *)

Lemma quot_pow2 k : Z.quot (2 ^ Z.of_nat (S k)) 2 = (2 ^ Z.of_nat k)%Z.
Proof. rewrite Nat2Z.inj_succ, Z.pow_succ_r, Z.mul_comm by lia. apply Z.quot_mul. lia. Qed.

Lemma level_hash_left h x : level_hash h (x, LeftSide) = prefixedHash InternalNodePrefix [h; x].
Proof. unfold level_hash, prefixedHash. unfold concat_arrays. simpl. by rewrite !app_nil_r. Qed.

Lemma level_hash_right h x : level_hash h (x, RightSide) = prefixedHash InternalNodePrefix [x; h].
Proof. unfold level_hash, prefixedHash. unfold concat_arrays. simpl. by rewrite !app_nil_r. Qed.

Definition leaf_hash (d : bytes) : Digest := prefixedHash LeafPrefix [d].

Lemma proof_loop_full k n ls : full k n ls -> (forall x, x ∈ ls -> exists d, x = Leaf d) ->
  forall i d acc, ls !! i = Some (Leaf d) ->
  exists path, proof_loop n (Z.of_nat i) (2 ^ Z.of_nat k) acc = Some (d, rev (acc ++ path)) /\
    foldl level_hash (leaf_hash d) (rev path) = node_hash n.
Proof.
  induction 1 as [n|k l r ls rs H1 IH1 Hl H2 IH2|k l ls H1 IH1]; intros Hls i d acc Hi.
  - destruct i; [|done]. injection Hi as ->. exists []. by rewrite app_nil_r.
  - assert (Z.quot (2 ^ Z.of_nat (S k)) 2 = 2 ^ Z.of_nat k)%Z as Hq by apply quot_pow2.
    pose proof (Nat2Z.inj_pow 2 k) as Hz. change (Z.of_nat 2) with 2%Z in Hz.
    cbn [proof_loop]. rewrite Hq. pose proof (full_length _ _ _ H2).
    destruct (Z.ltb_spec (Z.of_nat i) (2 ^ Z.of_nat k)) as [Hlt|Hge].
    + rewrite lookup_app_l in Hi by lia.
      destruct (IH1 (fun x Hx => Hls x (proj2 (elem_of_app _ _ _) (or_introl Hx))) i d (acc ++ [(node_hash r, LeftSide)]) Hi) as (path & -> & E).
      exists ((node_hash r, LeftSide) :: path). rewrite <- app_assoc. split; [done|].
      simpl rev. rewrite foldl_snoc, E. cbn [node_hash]. apply level_hash_left.
    + rewrite lookup_app_r in Hi by lia. pose proof (lookup_lt_Some _ _ _ Hi).
      rewrite (proj2 (Z.ltb_lt _ _)) by (rewrite Nat2Z.inj_succ, Z.pow_succ_r; lia).
      replace (Z.of_nat i - 2 ^ Z.of_nat k)%Z with (Z.of_nat (i - length ls)) by lia.
      destruct (IH2 (fun x Hx => Hls x (proj2 (elem_of_app _ _ _) (or_intror Hx))) (i - length ls) d (acc ++ [(node_hash l, RightSide)]) Hi) as (path & -> & E).
      exists ((node_hash l, RightSide) :: path). rewrite <- app_assoc. split; [done|].
      simpl rev. rewrite foldl_snoc, E. cbn [node_hash]. apply level_hash_right.
  - assert (Z.quot (2 ^ Z.of_nat (S k)) 2 = 2 ^ Z.of_nat k)%Z as Hq by apply quot_pow2.
    pose proof (Nat2Z.inj_pow 2 k) as Hz. change (Z.of_nat 2) with 2%Z in Hz.
    cbn [proof_loop]. rewrite Hq. pose proof (full_length _ _ _ H1). pose proof (lookup_lt_Some _ _ _ Hi).
    rewrite (proj2 (Z.ltb_lt _ _)) by lia.
    destruct (IH1 Hls i d (acc ++ [(node_hash EmptyNode, LeftSide)]) Hi) as (path & -> & E).
    exists ((node_hash EmptyNode, LeftSide) :: path). rewrite <- app_assoc. split; [done|].
    simpl rev. rewrite foldl_snoc, E. cbn [node_hash]. apply level_hash_left.
Qed.

(** ** What one level determines *)

(** Nodes of a tree with a leaf on its left spine; [EmptyNode] only on the right. *)
Inductive proper : Node -> Prop :=
| proper_leaf d : proper (Leaf d)
| proper_both l r : proper l -> proper r -> proper (InternalNode l r)
| proper_left l : proper l -> proper (InternalNode l EmptyNode).

Lemma proper_hash_length n : proper n -> length (node_hash n) = DigestSize.
Proof. destruct 1; apply hash_size. Qed.

Lemma full_proper k n ls : full k n ls -> (forall x, x ∈ ls -> exists d, x = Leaf d) -> proper n.
Proof.
  induction 1 as [n|k l r ls rs H1 IH1 Hl H2 IH2|k l ls H1 IH1]; intros Hls.
  - destruct (Hls n) as [d ->]; [by apply list_elem_of_singleton|constructor].
  - constructor; [apply IH1|apply IH2]; intros x Hx; apply Hls, elem_of_app; [by left|by right].
  - by constructor; apply IH1.
Qed.

(** The nodes of a tree *)
Fixpoint nodes_of (n : Node) : list Node :=
  n :: match n with InternalNode l r => nodes_of l ++ nodes_of r | _ => [] end.

Lemma nodes_of_self n : n ∈ nodes_of n.
Proof. destruct n; apply list_elem_of_here. Qed.

Lemma nodes_of_leaf k n ls d : full k n ls -> (forall x, x ∈ ls -> exists d, x = Leaf d) ->
  Leaf d ∈ nodes_of n -> Leaf d ∈ ls.
Proof.
  induction 1 as [n|k l r ls rs H1 IH1 Hl H2 IH2|k l ls H1 IH1]; intros Hls.
  - destruct (Hls n) as [d' ->]; [by apply list_elem_of_singleton|]. done.
  - intros [?|[Hd|Hd]%elem_of_app]%elem_of_cons; [done|apply elem_of_app..].
    + left. apply IH1; [|done]. intros x Hx. apply Hls, elem_of_app. by left.
    + right. apply IH2; [|done]. intros x Hx. apply Hls, elem_of_app. by right.
  - intros [?|[Hd|Hd]%elem_of_app]%elem_of_cons; [done|by apply IH1|].
    by apply list_elem_of_singleton in Hd.
Qed.

(** The inputs hashed to make a tree *)
Definition node_input (l r : Digest) : bytes := InternalNodePrefix :: concat_arrays [l; r].
Definition leaf_input (d : bytes) : bytes := LeafPrefix :: concat_arrays [d].

Fixpoint hashed (n : Node) : list bytes :=
  match n with
  | InternalNode l r => node_input (node_hash l) (node_hash r) :: hashed l ++ hashed r
  | Leaf d => [leaf_input d]
  | _ => []
  end.

Lemma hashed_nodes n top : n ∈ nodes_of top -> hashed n ⊆ hashed top.
Proof.
  induction top as [l IHl r IHr|d| |]; cbn [nodes_of]; intros [->|Hn]%elem_of_cons; try done; try (by inversion Hn).
  cbn [hashed]. apply elem_of_app in Hn as [Hn|Hn]; [apply IHl in Hn|apply IHr in Hn]; set_solver.
Qed.

Lemma prefixed_inj_in made checked p p' xs ys :
  p' :: concat_arrays ys ∈ made -> p :: concat_arrays xs ∈ checked -> prefixedHash p xs = prefixedHash p' ys ->
  (p = p' /\ concat_arrays xs = concat_arrays ys) \/ collides made checked.
Proof. intros Hm Hc E. eapply hash_inj_in in E as [[= -> ->]|?]; [by left|by right|done|done]. Qed.

Lemma prefixes_differ : LeafPrefix <> InternalNodePrefix.
Proof. done. Qed.

(** A hash of two parts that is a node's hash makes each digest-sized part the
    hash of a child. *)
Lemma level_inv made checked n x y : proper n -> hashed n ⊆ made ->
  InternalNodePrefix :: concat_arrays [x ++ y] ∈ checked ->
  prefixedHash InternalNodePrefix [x ++ y] = node_hash n ->
  collides made checked \/
  exists l r, n = InternalNode l r /\
    (length x = DigestSize -> x = node_hash l) /\
    (length y = DigestSize -> y = node_hash r \/ y = node_hash l).
Proof.
  intros Hp Hm Hc E. destruct Hp as [d|l r Hl Hr|l Hl]; cbn [node_hash] in E;
    (eapply prefixed_inj_in in E as [[Ep E]|]; [|by left|apply Hm; left|exact Hc]); try done;
    unfold concat_arrays in E; simpl in E; rewrite !app_nil_r in E; right; [exists l, r|exists l, EmptyNode];
    (split; [done|]); pose proof (proper_hash_length l Hl) as Ll.
  - pose proof (proper_hash_length r Hr) as Lr. split; intros L.
    + apply app_inv_length in E as [E _]; [done|congruence].
    + apply app_inv_length_r in E as [_ E]; [by left|congruence].
  - split; intros L.
    + rewrite <- (app_nil_r (node_hash l)) in E. apply app_inv_length in E as [E _]; [done|congruence].
    + right. apply (f_equal length) in E as E2. rewrite length_app in E2.
      destruct x; [done|simpl in E2; lia].
Qed.
End Shape.
