(* ===== verification/MerkleBatch.v ===== *)
(** * MerkleBatch: the layers of a batch proof

    [parents] and [missing] are what one layer of the prover and of the
    validator compute on a strictly increasing list of indices: the indices of
    the next layer, and the neighbours the multiproof supplies. *)

From stdpp Require Import sorting.
From S2P Require Import Prelude External Merkle MerkleSpec.

Abbreviation increasing := (StronglySorted Z.lt).

Definition dbl (p : Z) : Z * Z := ((2 * p)%Z, (2 * p + 1)%Z).

Definition other (i : Z) : Z := if (Z.rem i 2 =? 0)%Z then (i + 1)%Z else (i - 1)%Z.

Fixpoint parents (a : list Z) : list Z :=
  match a with
  | [] => []
  | i :: a' =>
      match a' with
      | j :: a'' => if decide (i / 2 = j / 2)%Z then (i / 2)%Z :: parents a'' else (i / 2)%Z :: parents a'
      | [] => [(i / 2)%Z]
      end
  end.

Fixpoint missing (a : list Z) : list Z :=
  match a with
  | [] => []
  | i :: a' =>
      match a' with
      | j :: a'' => if decide (i / 2 = j / 2)%Z then missing a'' else other i :: missing a'
      | [] => [other i]
      end
  end.

Lemma rem2 i : (Z.rem i 2 =? 0)%Z = (i mod 2 =? 0)%Z.
Proof.
  pose proof (Z.quot_rem' i 2). pose proof (Z.div_mod i 2). pose proof (Z.mod_pos_bound i 2).
  pose proof (Z.rem_bound_abs i 2). destruct (Z.eqb_spec (Z.rem i 2) 0), (Z.eqb_spec (i mod 2) 0); lia.
Qed.

Lemma neighbours_dbl i : neighbours i = dbl (i / 2).
Proof.
  unfold neighbours, dbl. rewrite rem2. pose proof (Z.div_mod i 2). pose proof (Z.mod_pos_bound i 2).
  destruct (Z.eqb_spec (i mod 2) 0); f_equal; lia.
Qed.

Lemma dbl_inj p q : dbl p = dbl q -> p = q.
Proof. unfold dbl. intros [=]. lia. Qed.

(** The induction of one layer: a single index, two neighbours, or an index
    whose neighbour is missing. *)
Lemma layer_ind (P : list Z -> Prop) :
  P [] -> (forall i, P [i]) ->
  (forall i j a, (i / 2 = j / 2)%Z -> P a -> P (i :: j :: a)) ->
  (forall i j a, (i / 2 <> j / 2)%Z -> P (j :: a) -> P (i :: j :: a)) ->
  forall a, P a.
Proof.
  intros H0 H1 H2 H3 a. assert (P a /\ forall i, P (i :: a)) as [H _]; [|done].
  induction a as [|j a [IH IH']]; [by split|]. split; [done|]. intros i.
  destruct (decide (i / 2 = j / 2)%Z); auto.
Qed.

Lemma parents_in a p : p ∈ parents a <-> exists i, i ∈ a /\ p = (i / 2)%Z.
Proof.
  induction a as [|i|i j a E IH|i j a E IH] using layer_ind.
  - split; [intros H; inversion H|intros (i & H & _); inversion H].
  - cbn [parents]. rewrite list_elem_of_singleton. split; [intros ->; exists i|intros (k & ->%list_elem_of_singleton & ->)]; [|done].
    split; [by apply list_elem_of_singleton|done].
  - cbn [parents]. rewrite decide_True by done. rewrite elem_of_cons, IH. split.
    + intros [->|(k & Hk & ->)]; [exists i|exists k]; (split; [|done]); [by left|by right; right].
    + intros (k & [->|[->|Hk]%elem_of_cons]%elem_of_cons & ->); [by left|by left|right; by exists k].
  - cbn [parents]. rewrite decide_False by done. rewrite elem_of_cons.
    change (match a with | [] => _ | _ => _ end) with (parents (j :: a)). rewrite IH. split.
    + intros [->|(k & Hk & ->)]; [exists i|exists k]; (split; [|done]); [by left|by right].
    + intros (k & [->|Hk]%elem_of_cons & ->); [by left|right; by exists k].
Qed.

Lemma increasing_tail i a : increasing (i :: a) -> increasing a /\ forall k, k ∈ a -> (i < k)%Z.
Proof. intros [H1 H2]%StronglySorted_inv. split; [done|]. by apply Forall_forall. Qed.

(** The elements after two neighbours have another parent. *)
Lemma later_parents i j a p : increasing (i :: j :: a) -> (i / 2 = j / 2)%Z -> p ∈ parents a -> (i / 2 < p)%Z.
Proof.
  intros [H1 Hi]%increasing_tail E Hp. apply increasing_tail in H1 as [_ Hj].
  apply parents_in in Hp as (k & Hk & ->). pose proof (Hj k Hk). pose proof (Hi j (list_elem_of_here _ _)).
  pose proof (Z.div_mod i 2). pose proof (Z.div_mod j 2). pose proof (Z.div_mod k 2).
  pose proof (Z.mod_pos_bound i 2). pose proof (Z.mod_pos_bound j 2). pose proof (Z.mod_pos_bound k 2). lia.
Qed.

Lemma next_parents i j a p : increasing (i :: j :: a) -> (i / 2 <> j / 2)%Z -> p ∈ parents (j :: a) -> (i / 2 < p)%Z.
Proof.
  intros [H1 Hi]%increasing_tail E Hp. apply parents_in in Hp as (k & Hk & ->).
  apply increasing_tail in H1 as [_ Hj]. pose proof (Hi j (list_elem_of_here _ _)).
  pose proof (Z.div_le_mono i j 2).
  apply elem_of_cons in Hk as [->|Hk]; [lia|]. pose proof (Hj k Hk). pose proof (Z.div_le_mono j k 2). lia.
Qed.

Lemma increasing_cons i a : increasing a -> (forall k, k ∈ a -> (i < k)%Z) -> increasing (i :: a).
Proof. intros H1 H2. constructor; [done|]. by apply Forall_forall. Qed.

Lemma parents_increasing a : increasing a -> increasing (parents a).
Proof.
  induction a as [|i|i j a E IH|i j a E IH] using layer_ind; intros Ha; [constructor|repeat constructor| |].
  - pose proof (later_parents i j a) as Hl. cbn [parents]. rewrite decide_True by done.
    pose proof Ha as [[H2 _]%increasing_tail _]%increasing_tail. apply increasing_cons; [by apply IH|]. intros k. by apply Hl.
  - pose proof (next_parents i j a) as Hl. cbn [parents]. rewrite decide_False by done.
    pose proof Ha as [H2 _]%increasing_tail. apply increasing_cons; [by apply IH|]. intros k. by apply Hl.
Qed.

Lemma filter_none {A} `{EqDecision A} (x : A) (l : list A) : x ∉ l -> filter (fun y => y <> x) l = l.
Proof.
  induction l as [|y l IH]; [done|]. intros [Hn Hl]%not_elem_of_cons.
  rewrite filter_cons_True by done. by rewrite IH.
Qed.

Lemma dbl_not_in p (l : list Z) : (forall q, q ∈ l -> (p < q)%Z) -> dbl p ∉ dbl <$> l.
Proof.
  intros H (q & E%dbl_inj & Hq)%list_elem_of_fmap. specialize (H q Hq). lia.
Qed.

(** The pairs a layer looks at are those of the parents. *)
Lemma distinct_neighbours a : increasing a -> distinct (neighbours <$> a) = dbl <$> parents a.
Proof.
  induction a as [|i|i j a E IH|i j a E IH] using layer_ind; intros Ha.
  - done.
  - simpl. by rewrite neighbours_dbl.
  - rewrite !fmap_cons. cbn [distinct parents]. rewrite decide_True by done.
    pose proof Ha as [[H2 _]%increasing_tail _]%increasing_tail. rewrite IH by done.
    rewrite !neighbours_dbl, <- E, fmap_cons. f_equal.
    assert (dbl (i / 2) ∉ dbl <$> parents a) as Hn by (apply dbl_not_in; intros q; by apply (later_parents i j)).
    rewrite filter_cons_False by (intros H; exact (H eq_refl)). by rewrite !(filter_none _ (dbl <$> parents a)).
  - rewrite fmap_cons. cbn [distinct]. pose proof Ha as [H2 _]%increasing_tail. rewrite IH by done.
    change (parents (i :: j :: a)) with
      (if decide (i / 2 = j / 2)%Z then (i / 2)%Z :: parents a else (i / 2)%Z :: parents (j :: a)).
    rewrite decide_False by done. rewrite neighbours_dbl, fmap_cons. f_equal.
    apply filter_none, dbl_not_in. intros q. by apply (next_parents i j a).
Qed.

Lemma seq_diff_skip (x : Z) l a : x ∉ a -> seq_diff (x :: l) a = x :: seq_diff l a.
Proof.
  revert l. induction a as [|y a IH]; intros l H; [done|]. apply not_elem_of_cons in H as [Hy Ha].
  unfold seq_diff in *. cbn [foldl remove_first]. rewrite decide_False by done. by apply IH.
Qed.

Lemma seq_diff_hit (x : Z) l a : seq_diff (x :: l) (x :: a) = seq_diff l a.
Proof. unfold seq_diff. simpl. by rewrite decide_True. Qed.

Lemma seq_diff_second (x y : Z) l a : x <> y -> seq_diff (x :: y :: l) (y :: a) = seq_diff (x :: l) a.
Proof. intros H. unfold seq_diff. simpl. rewrite decide_False by done. by rewrite decide_True. Qed.

Definition flat (l : list Z) : list Z := (dbl <$> l) ≫= (fun p => [p.1; p.2]).

Lemma flat_cons p l : flat (p :: l) = (2 * p)%Z :: (2 * p + 1)%Z :: flat l.
Proof. done. Qed.

(** One index without its neighbour. *)
Lemma seq_diff_one i a l : increasing (i :: a) -> (forall k, k ∈ a -> (i / 2 < k / 2)%Z) ->
  seq_diff (flat ((i / 2)%Z :: l)) (i :: a) = other i :: seq_diff (flat l) a.
Proof.
  intros [Ha Hi]%increasing_tail Hp. rewrite flat_cons. unfold other. rewrite rem2.
  pose proof (Z.div_mod i 2). pose proof (Z.mod_pos_bound i 2).
  destruct (Z.eqb_spec (i mod 2) 0) as [E|E].
  - replace (2 * (i / 2))%Z with i by lia. rewrite seq_diff_hit, seq_diff_skip; [done|].
    intros Hk%Hp. pose proof (Z.div_mod (i + 1) 2). pose proof (Z.mod_pos_bound (i + 1) 2). lia.
  - replace (2 * (i / 2) + 1)%Z with i by lia. rewrite seq_diff_second by lia.
    replace (2 * (i / 2))%Z with (i - 1)%Z by lia. apply seq_diff_skip. intros Hk%Hi. lia.
Qed.

Lemma seq_diff_missing a : increasing a -> seq_diff (flat (parents a)) a = missing a.
Proof.
  induction a as [|i|i j a E IH|i j a E IH] using layer_ind; intros Ha.
  - done.
  - cbn [parents missing]. rewrite seq_diff_one; [done|done|]. intros k Hk. inversion Hk.
  - cbn [parents missing]. rewrite !decide_True by done. rewrite flat_cons.
    pose proof Ha as [[H2 _]%increasing_tail Hi]%increasing_tail. specialize (Hi j (list_elem_of_here _ _)).
    pose proof (Z.div_mod i 2). pose proof (Z.mod_pos_bound i 2).
    pose proof (Z.div_mod j 2). pose proof (Z.mod_pos_bound j 2).
    replace (2 * (i / 2))%Z with i by lia. replace (i + 1)%Z with j by lia.
    by rewrite !seq_diff_hit, IH.
  - change (parents (i :: j :: a)) with
      (if decide (i / 2 = j / 2)%Z then (i / 2)%Z :: parents a else (i / 2)%Z :: parents (j :: a)).
    change (missing (i :: j :: a)) with
      (if decide (i / 2 = j / 2)%Z then missing a else other i :: missing (j :: a)).
    rewrite !decide_False by done. pose proof Ha as [H2 _]%increasing_tail.
    rewrite seq_diff_one; [by rewrite IH|done|]. intros k Hk. apply (next_parents i j a); [done|done|].
    apply parents_in. by exists k.
Qed.

Section Layers.
Context `{HF : CryptographicHash}.

(** ** Completeness of a layer *)

Definition val (l : list Digest) (i : Z) : Digest := default [] (lift_index l i).
Definition up (v : Z -> Digest) (p : Z) : Digest := prefixedHash InternalNodePrefix [v (2 * p)%Z ++ v (2 * p + 1)%Z].
Definition side_of (i : Z) : Side := if (Z.rem i 2 =? 0)%Z then LeftSide else RightSide.
Definition supplied (v : Z -> Digest) (a : list Z) : list (Digest * Side) := (fun i => (v i, side_of i)) <$> missing a.

Lemma consume_hash v i :
  (if (side_of (other i) =? LeftSide)%Z then prefixedHash InternalNodePrefix [v (other i) ++ v i]
   else prefixedHash InternalNodePrefix [v i ++ v (other i)]) = up v (i / 2)%Z.
Proof.
  unfold side_of, other, up. rewrite !rem2. pose proof (Z.div_mod i 2). pose proof (Z.mod_pos_bound i 2).
  destruct (Z.eqb_spec (i mod 2) 0) as [E|E].
  - replace ((i + 1) mod 2 =? 0)%Z with false.
    + simpl. by replace (2 * (i / 2))%Z with i by lia.
    + symmetry. apply Z.eqb_neq. pose proof (Z.div_mod (i + 1) 2). pose proof (Z.mod_pos_bound (i + 1) 2). lia.
  - replace ((i - 1) mod 2 =? 0)%Z with true.
    + simpl. replace (2 * (i / 2))%Z with (i - 1)%Z by lia. by replace (i - 1 + 1)%Z with i by lia.
    + symmetry. apply Z.eqb_eq. pose proof (Z.div_mod (i - 1) 2). pose proof (Z.mod_pos_bound (i - 1) 2). lia.
Qed.

Lemma batch_level_complete v a rest : increasing a ->
  batch_level (neighbours <$> a) (v <$> a) (supplied v a ++ rest) = Success (up v <$> parents a, rest).
Proof.
  induction a as [|i|i j a E IH|i j a E IH] using layer_ind; intros Ha.
  - done.
  - simpl. by rewrite consume_hash.
  - unfold supplied. cbn [missing parents]. rewrite !decide_True by done. rewrite !fmap_cons.
    cbn [batch_level]. rewrite decide_True by by rewrite !neighbours_dbl, E.
    pose proof Ha as [[H2 _]%increasing_tail Hi]%increasing_tail. specialize (Hi j (list_elem_of_here _ _)).
    unfold supplied in IH. rewrite IH by done. simpl.
    pose proof (Z.div_mod i 2). pose proof (Z.mod_pos_bound i 2).
    pose proof (Z.div_mod j 2). pose proof (Z.mod_pos_bound j 2).
    assert (up v (i / 2)%Z = prefixedHash InternalNodePrefix [v i ++ v j]) as ->; [|done].
    unfold up. replace (2 * (i / 2))%Z with i by lia. by replace (i + 1)%Z with j by lia.
  - unfold supplied.
    change (parents (i :: j :: a)) with
      (if decide (i / 2 = j / 2)%Z then (i / 2)%Z :: parents a else (i / 2)%Z :: parents (j :: a)).
    change (missing (i :: j :: a)) with
      (if decide (i / 2 = j / 2)%Z then missing a else other i :: missing (j :: a)).
    rewrite !decide_False by done. pose proof Ha as [H2 _]%increasing_tail. specialize (IH H2).
    unfold supplied in IH. rewrite !(fmap_cons _ i), !(fmap_cons _ (other i)), (fmap_cons _ (i / 2)%Z).
    rewrite !(fmap_cons _ j) in *. cbn [batch_level app] in *. rewrite decide_False.
    + cbv zeta in IH |- *. rewrite IH. cbn [try_bind]. by rewrite consume_hash.
    + rewrite !neighbours_dbl. by intros ?%dbl_inj.
Qed.

Lemma grouped2_lookup {A} (l : list A) n :
  grouped2 l !! n = (fun x => (x, l !! (2 * n + 1)%nat)) <$> l !! (2 * n)%nat.
Proof.
  revert n. induction l as [|x|x y l IH] using grouped2_ind; intros n; [done|by destruct n|].
  destruct n as [|n]; [done|]. cbn [grouped2]. rewrite lookup_cons_ne_0 by done. cbn [pred].
  rewrite IH. replace (2 * S n)%nat with (S (S (2 * n))) by lia.
  by replace (S (S (2 * n)) + 1)%nat with (S (S (2 * n + 1))) by lia.
Qed.

Lemma next_val l p : (0 <= p < zlen (next l))%Z -> val (next l) p = up (val l) p.
Proof.
  intros Hp. unfold val, up, lift_index. rewrite !(proj2 (Z.ltb_ge _ _)) by lia.
  unfold next, zlen in *. rewrite length_fmap in Hp. rewrite list_lookup_fmap, grouped2_lookup.
  destruct (lookup_lt_is_Some_2 (grouped2 l) (Z.to_nat p) ltac:(lia)) as [[x o] Hx].
  rewrite grouped2_lookup in Hx. destruct (l !! (2 * Z.to_nat p)%nat) as [y|] eqn:E; [|done].
  simpl in Hx. injection Hx as -> Ho. simpl.
  replace (Z.to_nat (2 * p)) with (2 * Z.to_nat p)%nat by lia. rewrite E.
  replace (Z.to_nat (2 * p + 1)) with (2 * Z.to_nat p + 1)%nat by lia.
  unfold pair_hash, prefixedHash, concat_arrays. simpl. rewrite !app_nil_r.
  by destruct (l !! (2 * Z.to_nat p + 1)%nat).
Qed.

(** Indices of a layer *)
Definition in_range (l : list Digest) (a : list Z) : Prop := forall i, i ∈ a -> (0 <= i < zlen l)%Z.

Lemma parents_in_range l a : in_range l a -> in_range (next l) (parents a).
Proof.
  intros H p (i & Hi & ->)%parents_in. specialize (H i Hi). unfold next, zlen in *.
  rewrite length_fmap, grouped2_length. rewrite Nat2Z.inj_div, Nat2Z.inj_add.
  change (Z.of_nat 2) with 2%Z. change (Z.of_nat 1) with 1%Z.
  pose proof (Z.div_mod i 2). pose proof (Z.mod_pos_bound i 2).
  pose proof (Z.div_mod (Z.of_nat (length l) + 1) 2). pose proof (Z.mod_pos_bound (Z.of_nat (length l) + 1) 2). lia.
Qed.

Lemma next_vals l a : in_range l a -> up (val l) <$> parents a = val (next l) <$> parents a.
Proof.
  intros H. apply list_fmap_ext. intros k p Hp. symmetry. apply next_val.
  apply (parents_in_range l a H). by eapply list_elem_of_lookup_2.
Qed.

Lemma parents_nonempty a : a <> [] -> parents a <> [].
Proof. destruct a as [|i [|j a]]; [done|done|]. intros _. cbn [parents]. by case_decide. Qed.

Lemma dbl_quot (l : list Z) : (fun p => Z.quot p.1 2) <$> (dbl <$> l) = l.
Proof.
  induction l as [|p l IH]; [done|]. rewrite !fmap_cons, IH. f_equal. simpl.
  rewrite Z.mul_comm. by apply Z.quot_mul.
Qed.

(** The multiproof for the layers above and including [l] takes the hashes at
    any increasing list of indices to the root. *)
Lemma batch_complete l h : root_of l h -> forall a, increasing a -> a <> [] -> in_range l a ->
  exists m, (forall fuel, length l <= fuel -> indices_loop fuel a l = Success m) /\
    (forall fuel, length l <= fuel -> batch_loop fuel a (val l <$> a) m = Success [h]) /\
    (length a = 1 -> m <> []).
Proof.
  induction 1 as [l h Hn|l h Hn Hr IH]; intros a Ha Hne Hin.
  all: assert (0 < length l) as Hl0 by
    (destruct a as [|i a]; [done|]; specialize (Hin i (list_elem_of_here _ _)); unfold zlen in Hin; lia).
  all: assert (length a = 1 -> supplied (val l) a <> []) as Hone by (by destruct a as [|i [|j a]]).
  all: assert (forall a : list Z, Nat.eqb (length (val l <$> a)) (length (neighbours <$> a)) = true) as Hlen by
    (intros; rewrite !length_fmap; apply Nat.eqb_refl).
  - exists (supplied (val l) a). split; [|split; [|done]].
    + intros [|fuel] Hf; [lia|]. cbn [indices_loop]. rewrite distinct_neighbours by done.
      change ((dbl <$> parents a) ≫= (fun p => [p.1; p.2])) with (flat (parents a)).
      rewrite seq_diff_missing by done. change (pair_hash <$> grouped2 l) with (next l). by rewrite Hn.
    + intros [|fuel] Hf; [lia|]. cbn [batch_loop]. rewrite Hlen. cbn [negb].
      rewrite <- (app_nil_r (supplied (val l) a)), batch_level_complete by done. cbn [try_bind].
      pose proof (parents_in_range l a Hin) as Hr. pose proof (next_vals l a Hin) as Hv.
      pose proof (parents_increasing a Ha) as Hi. pose proof (parents_nonempty a Hne) as Hp.
      rewrite Hn in Hr, Hv. rewrite Hv. destruct (parents a) as [|p [|q ps]]; [done| |].
      * specialize (Hr p (list_elem_of_here _ _)). unfold zlen in Hr. simpl in Hr. by replace p with 0%Z by lia.
      * exfalso. pose proof (Hr p (list_elem_of_here _ _)).
        pose proof (Hr q (list_elem_of_further _ _ _ (list_elem_of_here _ _))). unfold zlen in *. simpl in *.
        apply increasing_tail in Hi as [_ Hi]. specialize (Hi q (list_elem_of_here _ _)). lia.
  - destruct (IH (parents a) (parents_increasing a Ha) (parents_nonempty a Hne) (parents_in_range l a Hin))
      as (m' & H1 & H2 & H3).
    assert (length (next l) < length l) as Hs by (unfold next in *; rewrite length_fmap in *; by apply grouped2_shorter).
    exists (supplied (val l) a ++ m'). split; [|split].
    + intros [|fuel] Hf; [lia|]. cbn [indices_loop]. rewrite distinct_neighbours by done.
      change ((dbl <$> parents a) ≫= (fun p => [p.1; p.2])) with (flat (parents a)).
      rewrite seq_diff_missing by done. change (pair_hash <$> grouped2 l) with (next l).
      rewrite (proj2 (Nat.ltb_lt _ _)) by done. by rewrite dbl_quot, H1 by lia.
    + intros [|fuel] Hf; [lia|]. cbn [batch_loop]. rewrite Hlen. cbn [negb].
      rewrite batch_level_complete by done. cbn [try_bind]. rewrite distinct_neighbours, dbl_quot by done.
      rewrite (next_vals l a Hin), length_fmap, Nat.min_id, firstn_all2 by by rewrite length_fmap.
      replace (negb _ || _) with true; [by apply H2; lia|].
      symmetry. apply orb_true_iff. destruct (decide (length (parents a) = 1)) as [E|E].
      * left. rewrite bool_decide_false; [done|by apply H3].
      * right. apply Nat.ltb_lt. pose proof (parents_nonempty a Hne). destruct (parents a); [done|simpl in *; lia].
    + intros E. specialize (Hone E). by destruct (supplied (val l) a).
Qed.
End Layers.
