(* ===== verification/MerkleThms.v ===== *)
(** * MerkleThms: completeness and soundness of the inclusion proofs, the round
    trip of BatchMerkleProofSerializer, and the limits of trees with repeated elements *)

From S2P Require Import Prelude External Merkle MerkleSpec.

Section MerkleThms.
Context `{HF : CryptographicHash}.

(** ** The tree of a payload *)

Lemma index_elements_aux (js : list Z) (ns : list Node) (m0 : gmap bytes Z) :
  length js = length ns -> NoDup (node_hash <$> ns) -> (forall n, n ∈ ns -> m0 !! node_hash n = None) ->
  foldl (fun m p => <[node_hash p.2 := p.1]> m) m0 (zip js ns) =
    list_to_map (zip (node_hash <$> ns) js) ∪ m0.
Proof.
  revert js m0. induction ns as [|n ns IH]; intros js m0 Hl Hn Hm; destruct js as [|i js]; try done.
  - simpl. by rewrite (left_id_L ∅ (∪)).
  - simpl. inversion_clear Hn as [|? ? Hx Hn']. injection Hl as Hl.
    assert ((list_to_map (zip (node_hash <$> ns) js) : gmap bytes Z) !! node_hash n = None) as Hnone.
    { apply not_elem_of_list_to_map_1. rewrite fst_zip; [done|rewrite length_fmap; lia]. }
    rewrite IH; [|done|done|].
    + rewrite <- insert_union_l. by rewrite insert_union_r.
    + intros n' Hn''. rewrite lookup_insert_ne; [apply Hm; by right|].
      intros Heq. apply Hx. rewrite Heq. by apply list_elem_of_fmap_2.
Qed.

Lemma index_elements_eq (ns : list Node) : NoDup (node_hash <$> ns) ->
  index_elements ns = list_to_map (zip (node_hash <$> ns) (Z.of_nat <$> seq 0 (length ns))).
Proof.
  intros Hn. unfold index_elements. rewrite index_elements_aux; [by rewrite (right_id_L ∅ (∪))| |done|].
  - by rewrite length_fmap, length_seq.
  - intros n _. apply lookup_empty.
Qed.

Lemma index_zip_fst (ns : list Node) : (zip (node_hash <$> ns) (Z.of_nat <$> seq 0 (length ns))).*1 = node_hash <$> ns.
Proof. apply fst_zip. rewrite !length_fmap, length_seq. lia. Qed.

Lemma index_elements_size (ns : list Node) : NoDup (node_hash <$> ns) -> size (index_elements ns) = length ns.
Proof.
  intros Hn. rewrite index_elements_eq by done. rewrite map_size_list_to_map by by rewrite index_zip_fst.
  rewrite length_zip, !length_fmap, length_seq. lia.
Qed.

Lemma index_elements_lookup (ns : list Node) i n : NoDup (node_hash <$> ns) -> ns !! i = Some n ->
  index_elements ns !! node_hash n = Some (Z.of_nat i).
Proof.
  intros Hn Hi. rewrite index_elements_eq by done. apply elem_of_list_to_map_1; [by rewrite index_zip_fst|].
  apply list_elem_of_lookup. exists i. apply lookup_zip_with_Some. exists (node_hash n), (Z.of_nat i).
  split; [done|]. split; [by rewrite list_lookup_fmap, Hi|].
  pose proof (lookup_lt_Some _ _ _ Hi). rewrite list_lookup_fmap, lookup_seq_lt by done. done.
Qed.

Lemma leafs_hashes (payload : list bytes) : node_hash <$> (Leaf <$> payload) = leaf_hash <$> payload.
Proof. by rewrite <- list_fmap_compose. Qed.

Lemma leafs_are_leaves (payload : list bytes) x : x ∈ Leaf <$> payload -> exists d, x = Leaf d.
Proof. intros (d & -> & _)%list_elem_of_fmap. by exists d. Qed.

Lemma mk_tree_ok (payload : list bytes) : payload <> [] ->
  exists K top, mk_tree payload = Success (Tree top (index_elements (Leaf <$> payload))) /\
    full (S K) top (Leaf <$> payload) /\ (K = 0 \/ 2 ^ K < length payload) /\
    root_of (leaf_hash <$> payload) (node_hash top).
Proof.
  intros Hne. unfold mk_tree. assert (Leaf <$> payload <> []) as Hl by by destruct payload.
  destruct (calcTopNode_layer (length (Leaf <$> payload)) 0 _ _ Hl (layer_leaves _ Hl)) as (K & top & E1 & E2 & E3 & E4);
    [done|]. rewrite length_fmap in E3. rewrite leafs_hashes in E4.
  exists K, top. by rewrite E1.
Qed.

Lemma lengthWithEmptyLeafs_depth t K n :
  tree_length t = Z.of_nat n -> 1 <= n <= 2 ^ S K -> (K = 0 \/ 2 ^ K < n) ->
  lengthWithEmptyLeafs t = (2 ^ Z.of_nat (S K))%Z.
Proof.
  intros Ht Hn HK. unfold lengthWithEmptyLeafs. rewrite Ht.
  destruct (decide (n = 1)) as [->|Hne].
  { destruct HK as [->|HK]; [done|]. destruct (Nat.pow_nonzero 2 K); lia. }
  assert (Z.log2_up (Z.of_nat n) = Z.of_nat (S K)) as ->.
  { apply Z.log2_up_unique; [lia|]. pose proof (Nat2Z.inj_pow 2 (S K)) as H1. pose proof (Nat2Z.inj_pow 2 K) as H2.
    change (Z.of_nat 2) with 2%Z in H1, H2.
    replace (Z.pred (Z.of_nat (S K))) with (Z.of_nat K) by lia. rewrite <- H1, <- H2.
    destruct HK as [->|HK]; [simpl in *; lia|lia]. }
  apply Z.max_l. change 2%Z with (2 ^ 1)%Z at 1. apply Z.pow_le_mono_r; lia.
Qed.

(** C28: completeness: in the tree of a payload whose elements have distinct
    hashes, every element has a proof, found by its index and by its hash, that
    carries the element and is valid for the root. *)
Theorem merkle_proof_complete payload i d :
  NoDup (leaf_hash <$> payload) -> payload !! i = Some d ->
  exists t p, mk_tree payload = Success t /\
    proofByIndex t (Z.of_nat i) = Some p /\ proofByElement t (Leaf d) = Some p /\
    leafData p = d /\ valid p (rootHash t) = true.
Proof.
  intros Hn Hi. destruct (mk_tree_ok payload) as (K & top & Et & Hf & HK & _); [by destruct payload|].
  assert (NoDup (node_hash <$> (Leaf <$> payload))) as Hn' by by rewrite leafs_hashes.
  assert ((Leaf <$> payload) !! i = Some (Leaf d)) as Hi' by by rewrite list_lookup_fmap, Hi.
  set (t := Tree top (index_elements (Leaf <$> payload))) in *.
  assert (tree_length t = Z.of_nat (length payload)) as Hl.
  { unfold tree_length. simpl. by rewrite index_elements_size, length_fmap. }
  pose proof (full_length _ _ _ Hf) as Hb. rewrite length_fmap in Hb.
  pose proof (lengthWithEmptyLeafs_depth t K _ Hl Hb HK) as Hd.
  destruct (proof_loop_full _ _ _ Hf (leafs_are_leaves payload) i d [] Hi') as (path & Ep & Ev).
  assert (proofByIndex t (Z.of_nat i) = Some (Proof_ d (rev path))) as Hp.
  { unfold proofByIndex. pose proof (lookup_lt_Some _ _ _ Hi). rewrite Hl, Hd.
    rewrite (proj2 (Z.leb_le _ _)), (proj2 (Z.ltb_lt _ _)) by lia. simpl andb. simpl topNode. by rewrite Ep. }
  exists t, (Proof_ d (rev path)). split; [done|]. split; [done|]. split; [|split; [done|]].
  - unfold proofByElement, proofByElementHash.
    change (elementsHashIndex t) with (index_elements (Leaf <$> payload)).
    rewrite (index_elements_lookup _ i (Leaf d) Hn' Hi'). done.
  - unfold valid. simpl. by apply bool_decide_eq_true.
Qed.

(** The inputs hashed to check a proof: its leaf's, and each level's *)
Definition level_input (h : Digest) (level : Digest * Side) : bytes :=
  InternalNodePrefix :: concat_arrays [if (level.2 =? LeftSide)%Z then h ++ level.1 else level.1 ++ h].

Fixpoint level_inputs (h : Digest) (levels : list (Digest * Side)) : list bytes :=
  match levels with
  | [] => []
  | level :: levels' => level_input h level :: level_inputs (level_hash h level) levels'
  end.

Definition proof_inputs (p : MerkleProof) : list bytes :=
  leaf_input (leafData p) :: level_inputs (leaf_hash (leafData p)) (levels p).

Lemma level_hash_input h level : level_hash h level = hash (level_input h level).
Proof. unfold level_hash, level_input, prefixedHash. by destruct (_ =? _)%Z. Qed.

Lemma level_inputs_snoc levels : forall h level,
  level_inputs h (levels ++ [level]) = level_inputs h levels ++ [level_input (foldl level_hash h levels) level].
Proof. induction levels as [|l levels IH]; intros h level; cbn; [done|]. by rewrite IH. Qed.

(** A chain of levels that ends in a node's hash starts from a node's hash. *)
Lemma levels_inv made levels n h : proper n -> hashed n ⊆ made -> length h = DigestSize ->
  foldl level_hash h levels = node_hash n ->
  collides made (level_inputs h levels) \/ exists n', n' ∈ nodes_of n /\ proper n' /\ h = node_hash n'.
Proof.
  revert n. induction levels as [|[x side] levels IH] using rev_ind; intros n Hp Hm Hh E.
  - right. exists n. split; [apply nodes_of_self|done].
  - rewrite foldl_snoc in E. set (h' := foldl level_hash h levels) in *.
    assert (length h' = DigestSize) as Lh.
    { unfold h'. destruct levels as [|lv levels _] using rev_ind; [done|]. rewrite foldl_snoc.
      unfold level_hash. destruct (_ =? _)%Z; apply hash_size. }
    rewrite level_inputs_snoc. fold h'. set (checked := level_inputs h levels ++ _).
    assert (collides made checked \/ exists l r, n = InternalNode l r /\ (h' = node_hash r \/ h' = node_hash l)) as Hc.
    { assert (level_input h' (x, side) ∈ checked) as Hi by (apply elem_of_app; right; apply list_elem_of_here).
      unfold level_hash in E. unfold level_input in Hi. simpl in E, Hi.
      destruct (side =? LeftSide)%Z; eapply level_inv in E as [?|(l & r & -> & Hx & Hy)]; try done; try (by left);
        right; exists l, r; auto. }
    destruct Hc as [?|(l & r & -> & Hlr)]; [by left|].
    assert (forall c, c ∈ [l; r] -> proper c -> h' = node_hash c ->
            collides made checked \/ exists n', n' ∈ nodes_of (InternalNode l r) /\ proper n' /\ h = node_hash n') as Hgo.
    { intros c Hc Hpc Hn.
      assert (c ∈ nodes_of (InternalNode l r)) as Hin.
      { simpl. right. apply elem_of_app. apply elem_of_cons in Hc as [->|Hc]; [left|apply list_elem_of_singleton in Hc as ->; right]; apply nodes_of_self. }
      destruct (IH c Hpc (transitivity (hashed_nodes _ _ Hin) Hm) Hh Hn) as [C|(n' & H1 & H2 & H3)];
        [left; eapply collides_mono, C; set_solver|right].
      exists n'. split; [|done]. simpl. right. apply elem_of_app.
      apply elem_of_cons in Hc as [->|Hc]; [by left|]. apply list_elem_of_singleton in Hc as ->. by right. }
    inversion Hp as [|? ? Hpl Hpr|? Hpl]; subst.
    + destruct Hlr as [Hr|Hl]; [apply (Hgo r)|apply (Hgo l)]; try done; set_solver.
    + destruct Hlr as [Hr|Hl]; [|apply (Hgo l)]; try done; [|set_solver].
      pose proof (proper_hash_length _ Hpl) as L. apply (Hgo l); [set_solver|done|].
      rewrite Hr. simpl in *. rewrite Hr in Lh. simpl in Lh. rewrite <- Lh in L. by destruct (node_hash l).
Qed.

(** C27: soundness: a proof that is valid for the root of a non-empty payload
    carries an element of the payload, unless one of the inputs hashed to check
    it collides with one of those hashed to make the tree. *)
Theorem merkle_proof_sound payload t p :
  payload <> [] -> mk_tree payload = Success t -> valid p (rootHash t) = true ->
  leafData p ∈ payload \/ collides (hashed (topNode t)) (proof_inputs p).
Proof.
  intros Hne Ht Hv. destruct (mk_tree_ok payload Hne) as (K & top & Et & Hf & _ & _).
  rewrite Et in Ht. injection Ht as <-. unfold valid, rootHash in Hv. simpl in Hv. apply bool_decide_eq_true in Hv.
  apply (levels_inv (hashed top)) in Hv as [C|(n' & Hin & Hp & Hh)].
  - right. eapply collides_mono, C; [done|]. unfold proof_inputs. cbn [topNode]. set_solver.
  - apply hashed_nodes in Hin as Hs.
    destruct Hp as [d|l r _ _|l _]; cbn [node_hash] in Hh;
      (eapply (prefixed_inj_in (hashed top) (proof_inputs p)) in Hh as [[Ep Eh]|];
        [|by right|apply Hs, list_elem_of_here|apply list_elem_of_here]); try (by destruct prefixes_differ).
    left. unfold concat_arrays in Eh. simpl in Eh. rewrite !app_nil_r in Eh. subst d.
    apply (nodes_of_leaf _ _ _ _ Hf (leafs_are_leaves payload)) in Hin.
    apply list_elem_of_fmap in Hin as (d & [= ->] & Hin). done.
  - apply (full_proper _ _ _ Hf), leafs_are_leaves.
  - done.
  - apply hash_size.
Qed.
End MerkleThms.

(** ** Witnesses *)

Section Witnesses.
#[local] Existing Instance toy_hash.

Definition sample_payload : list bytes := [[z2b 1]; [z2b 2]; [z2b 3]; [z2b 4]; [z2b 5]].
Definition sample_tree : MerkleTree :=
  match mk_tree sample_payload with Success t => t | Failure _ => Tree EmptyRootNode ∅ end.
Definition sample_proof : MerkleProof := default (Proof_ [] []) (proofByIndex sample_tree 2).
Lemma sample_distinct : NoDup (leaf_hash <$> sample_payload).
Proof. apply (bool_decide_unpack _). by vm_compute. Qed.

Lemma sample_tree_ok : mk_tree sample_payload = Success sample_tree.
Proof. vm_compute. reflexivity. Qed.

Lemma merkle_proof_complete_witness : exists t p, mk_tree sample_payload = Success t /\
  proofByIndex t 2 = Some p /\ leafData p = [z2b 3] /\ valid p (rootHash t) = true.
Proof.
  destruct (merkle_proof_complete sample_payload 2 [z2b 3] sample_distinct eq_refl) as (t & p & H1 & H2 & _ & H3 & H4).
  by exists t, p.
Defined.

Lemma merkle_proof_sound_witness :
  valid sample_proof (rootHash sample_tree) = true /\ 
  leafData sample_proof ∈ sample_payload /\ ~ collides (hashed (topNode sample_tree)) (proof_inputs sample_proof).
Proof.
  assert (~ collides (hashed (topNode sample_tree)) (proof_inputs sample_proof)) as Hn by (apply (bool_decide_unpack _); by vm_compute).
  split; [by vm_compute|]. split; [|exact Hn].
  destruct (merkle_proof_sound sample_payload sample_tree sample_proof) as [H|C]; [done|apply sample_tree_ok|by vm_compute|exact H|done].
Defined.
End Witnesses.

(** ** The serializer of batch proofs *)


Lemma grouped_concat {A} n (cs : list (list A)) : 0 < n -> (forall c, c ∈ cs -> length c = n) ->
  grouped n (concat cs) = cs.
Proof.
  intros Hn Hc. unfold grouped. assert (forall fuel, length cs <= fuel -> grouped_fuel fuel n (concat cs) = cs) as H.
  { induction cs as [|c cs IH]; intros fuel Hf; [by destruct fuel|]. destruct fuel as [|fuel]; [simpl in Hf; lia|].
    assert (length c = n) as Lc by (apply Hc; by left). simpl concat.
    destruct c as [|x c]; [simpl in Lc; lia|]. cbn [app grouped_fuel].
    change (x :: c ++ concat cs) with ((x :: c) ++ concat cs).
    rewrite <- Lc, take_app_length, drop_app_length. rewrite Lc, IH; [done| |simpl in Hf; lia].
    intros c' Hc'. apply Hc. by right. }
  apply H. clear H. induction cs as [|c cs IH]; [done|]. simpl. rewrite length_app.
  rewrite (Hc c) by by left. assert (length cs <= length (concat cs)) by (apply IH; intros; apply Hc; by right). lia.
Qed.

Lemma concat_length {A} n (cs : list (list A)) : (forall c, c ∈ cs -> length c = n) ->
  length (concat cs) = length cs * n.
Proof.
  induction cs as [|c cs IH]; intros Hc; [done|]. simpl. rewrite length_app, (Hc c), IH; [done| |by left].
  intros c' Hc'. apply Hc. by right.
Qed.

Lemma map_try_fmap {A B} (f : A -> Try B) (g : B -> A) (l : list B) :
  (forall x, x ∈ l -> f (g x) = Success x) -> map_try f (g <$> l) = Success l.
Proof.
  induction l as [|x l IH]; intros H; [done|]. rewrite fmap_cons. cbn [map_try]. rewrite (H x) by by left. cbn [try_bind].
  rewrite IH; [done|]. intros y Hy. apply H. by right.
Qed.

Lemma slice_prefix {A} (l1 l2 : list A) : slice (l1 ++ l2) 0 (Z.of_nat (length l1)) = l1.
Proof. unfold slice. simpl. rewrite Z.sub_0_r, Nat2Z.id. apply take_app_length. Qed.

Lemma slice_middle {A} (l1 l2 l3 : list A) n m :
  n = Z.of_nat (length l1) -> m = (n + Z.of_nat (length l2))%Z -> slice (l1 ++ l2 ++ l3) n m = l2.
Proof.
  intros -> ->. unfold slice. rewrite Z.max_l by lia. rewrite Nat2Z.id, drop_app_length.
  replace (Z.to_nat _) with (length l2) by lia. apply take_app_length.
Qed.

Lemma slice_suffix {A} (l1 l2 : list A) n m : n = Z.of_nat (length l1) -> m = (n + zlen l2)%Z ->
  slice (l1 ++ l2) n m = l2.
Proof.
  intros -> ->. unfold slice, zlen. rewrite Z.max_l by lia. rewrite Nat2Z.id, drop_app_length.
  replace (Z.to_nat _) with (length l2) by lia. apply take_ge. lia.
Qed.

Section Serializer.
Context `{HF : CryptographicHash} `{GL : GuavaLaws}.

Definition zeros : bytes := replicate 32 (z2b 0).

(** What a proof of the library contains: digests of 32 bytes, or none for an
    empty node; a digest of zeros would be read back as an empty node. *)
Record serializable (p : BatchMerkleProof) : Prop := {
  ser_indices i h : (i, h) ∈ indices p -> isInt i = true /\ length h = 32;
  ser_proofs h s : (h, s) ∈ proofs p -> (-128 <= s <= 127)%Z /\ (h = [] \/ (length h = 32 /\ h <> zeros));
  ser_sizes : (zlen (indices p) * 36 <= MaxInt /\ zlen (proofs p) * 33 <= MaxInt)%Z
}.

Lemma forallb_zeros h : forallb (fun x => bool_decide (x = z2b 0)) h = true -> h = replicate (length h) (z2b 0).
Proof.
  induction h as [|x h IH]; [done|]. simpl. intros [->%bool_decide_eq_true H]%andb_true_iff. by rewrite <- IH.
Qed.

Definition index_chunk (i : Z * Digest) : bytes := Ints_toByteArray i.1 ++ i.2.
Definition written (h : bytes) : bytes := match h with [] => zeros | h' => h' end.
Definition proof_chunk (p : Digest * Side) : bytes := written p.1 ++ [z2b p.2].

Lemma proofsToBytes_chunks l : proofsToBytes l = concat (proof_chunk <$> l).
Proof. unfold proofsToBytes. f_equal. apply list_fmap_ext. by intros _ [[|x h] s] _. Qed.

Lemma indicesFromBytes_ok (l : list (Z * Digest)) : DigestSize = 32 ->
  (forall i h, (i, h) ∈ l -> isInt i = true /\ length h = 32) ->
  indicesFromBytes (concat (index_chunk <$> l)) = Success l /\ length (concat (index_chunk <$> l)) = length l * 36.
Proof.
  intros HD Hl. assert (forall c, c ∈ index_chunk <$> l -> length c = 36) as Hc.
  { intros c ([i h] & -> & Hin)%list_elem_of_fmap. destruct (Hl i h Hin) as [_ Lh].
    unfold index_chunk. simpl. by rewrite length_app, ints_length, Lh. }
  split; [|rewrite (concat_length 36), length_fmap by done; done].
  unfold indicesFromBytes, indicesSize, indexSize. rewrite HD. change (32 + 4) with 36.
  rewrite grouped_concat; [|lia|done]. apply map_try_fmap. intros [i h] Hin. destruct (Hl i h Hin) as [Hi Lh].
  unfold index_chunk. simpl fst. simpl snd.
  rewrite <- (ints_length i) at 1. rewrite slice_prefix. rewrite <- (app_nil_r (Ints_toByteArray i)) at 1.
  rewrite ints_from_to by done. cbn [try_bind]. rewrite (slice_suffix (Ints_toByteArray i) h); [done| |].
  - by rewrite ints_length.
  - unfold zlen. by rewrite Lh.
Qed.

Lemma proofsFromBytes_ok (l : list (Digest * Side)) : DigestSize = 32 ->
  (forall h s, (h, s) ∈ l -> (-128 <= s <= 127)%Z /\ (h = [] \/ (length h = 32 /\ h <> zeros))) ->
  proofsFromBytes (concat (proof_chunk <$> l)) = Success l /\ length (concat (proof_chunk <$> l)) = length l * 33.
Proof.
  intros HD Hl. assert (forall h, h = [] \/ (length h = 32 /\ h <> zeros) ->
    length (written h) = 32) as Lb by (by intros h [->|[Lh _]]; [|destruct h]).
  assert (forall c, c ∈ proof_chunk <$> l -> length c = 33) as Hc.
  { intros c ([h s] & -> & Hin)%list_elem_of_fmap. destruct (Hl h s Hin) as [_ Hh].
    unfold proof_chunk. rewrite length_app. by rewrite Lb. }
  split; [|rewrite (concat_length 33), length_fmap by done; done].
  unfold proofsFromBytes, proofsSize. rewrite HD. change (32 + 1) with 33.
  rewrite grouped_concat; [|lia|done]. apply map_try_fmap. intros [h s] Hin. destruct (Hl h s Hin) as [Hs Hh].
  unfold proof_chunk. simpl fst. simpl snd. specialize (Lb h Hh).
  set (b := written h) in *.
  replace (Z.of_nat 32) with (Z.of_nat (length b)) by by rewrite Lb. cbv beta. rewrite slice_prefix. unfold array_get.
  rewrite (proj2 (Z.ltb_ge _ _)), Nat2Z.id by lia.
  rewrite lookup_app_r, Nat.sub_diag by done. cbn [lookup list_lookup of_option try_bind].
  rewrite b2z_z2b, toByte_small by done. do 2 f_equal. unfold b.
  destruct Hh as [->|[Lh Hz]]; [done|]. destruct h as [|x h]; [done|].
  destruct (forallb _ _) eqn:E; [|done]. apply forallb_zeros in E.
  change (written (x :: h)) with (x :: h) in E. by rewrite Lh in E.
Qed.

(** A serialized batch proof is read back as it was. *)
Theorem batch_serializer_roundtrip p : DigestSize = 32 -> serializable p ->
  deserialize (serialize p) = Success p.
Proof.
  intros HD [Hi Hp Hs]. destruct p as [idx ps]. simpl in *.
  destruct (indicesFromBytes_ok idx HD Hi) as [Ei Li]. destruct (proofsFromBytes_ok ps HD Hp) as [Ep Lp].
  unfold serialize, deserialize. simpl indices. simpl proofs.
  change (indicesToBytes idx) with (concat (index_chunk <$> idx)).
  rewrite proofsToBytes_chunks.
  set (bi := concat (index_chunk <$> idx)) in *. set (bp := concat (proof_chunk <$> ps)) in *.
  pose proof (ints_length (zlen idx)) as L1. pose proof (ints_length (zlen ps)) as L2.
  set (h1 := Ints_toByteArray (zlen idx)) in *. set (h2 := Ints_toByteArray (zlen ps)) in *.
  assert (isInt (zlen idx) = true /\ isInt (zlen ps) = true) as [I1 I2].
  { unfold isInt, MinInt, MaxInt, zlen in *. lia. }
  rewrite (proj2 (Z.ltb_ge _ _)) by (rewrite !zlen_app; unfold zlen; lia).
  assert (slice (h1 ++ h2 ++ bi ++ bp) 0 4 = h1) as ->.
  { change 4%Z with (Z.of_nat 4). rewrite <- L1. apply slice_prefix. }
  assert (slice (h1 ++ h2 ++ bi ++ bp) 4 8 = h2) as ->.
  { apply slice_middle; lia. }
  assert (Ints_fromByteArray h1 = Success (zlen idx)) as -> by (rewrite <- (app_nil_r h1); by apply ints_from_to).
  assert (Ints_fromByteArray h2 = Success (zlen ps)) as -> by (rewrite <- (app_nil_r h2); by apply ints_from_to).
  cbn [try_bind]. unfold indicesSize, indexSize, proofsSize. rewrite HD.
  change (Z.of_nat (32 + 4)) with 36%Z. change (Z.of_nat (32 + 1)) with 33%Z.
  rewrite !toInt_small by (unfold MinInt, MaxInt, zlen in *; lia).
  unfold splitAt. replace (drop 8 (h1 ++ h2 ++ bi ++ bp)) with (bi ++ bp).
  2:{ rewrite app_assoc. replace 8 with (length (h1 ++ h2)) by (rewrite length_app; lia). by rewrite drop_app_length. }
  replace (Z.to_nat (zlen idx * 36)) with (length bi) by (unfold zlen; lia).
  rewrite take_app_length, drop_app_length.
  rewrite (proj2 (Z.eqb_eq _ _)), (proj2 (Z.eqb_eq _ _)) by (unfold zlen; lia). cbn [negb orb].
  rewrite Ei. cbn [try_bind]. rewrite Ep. done.
Qed.
End Serializer.

(** ** Repeated elements *)

(** The index keeps one entry per hash, so the length a tree reports counts
    distinct hashes: the last of these four elements has no proof. *)
Lemma repeated_elements_no_proof `{HF : CryptographicHash} a b : leaf_hash a <> leaf_hash b ->
  exists t, mk_tree [a; a; a; b] = Success t /\ tree_length t = 2%Z /\ proofByElement t (Leaf b) = None.
Proof.
  intros Hne. eexists. split; [reflexivity|].
  assert (index_elements (Leaf <$> [a; a; a; b]) = <[leaf_hash b := 3%Z]> {[leaf_hash a := 2%Z]}) as E.
  { unfold index_elements. simpl. fold (leaf_hash a) (leaf_hash b). by rewrite !insert_insert_eq. }
  unfold proofByElement, proofByElementHash, proofByIndex, tree_length. cbn [fmap list_fmap] in E. cbn [elementsHashIndex topNode].
  cbn [fmap list_fmap]. rewrite E.
  assert (size (<[leaf_hash b := 3%Z]> {[leaf_hash a := 2%Z]} : gmap bytes Z) = 2) as ->.
  { rewrite map_size_insert_None, map_size_singleton; [done|]. by rewrite lookup_singleton_ne. }
  split; [done|]. simpl node_hash. fold (leaf_hash b). by rewrite lookup_insert_eq.
Qed.

(** ** Witnesses *)

(** ** Witness *)

#[local] Existing Instance toy_hash32.

Lemma batch_serializer_roundtrip_witness :
  deserialize (serialize (Batch [(7%Z, hash [])] [(hash [z2b 1], LeftSide); ([], RightSide)])) =
    Success (Batch [(7%Z, hash [])] [(hash [z2b 1], LeftSide); ([], RightSide)]).
Proof.
  apply batch_serializer_roundtrip; [done|]. split.
  - intros i h [= -> ->]%list_elem_of_singleton. by vm_compute.
  - intros h s [[= -> ->]|[= -> ->]%list_elem_of_singleton]%elem_of_cons.
    + split; [by vm_compute|]. right. split; [by vm_compute|]. intros H. vm_compute in H. discriminate H.
    + split; [by vm_compute|]. by left.
  - by vm_compute.
Defined.
