(* ===== verification/MerkleBatchThms.v ===== *)
(** * MerkleBatchThms: batch proofs, complete for distinct elements, sound for
    increasing indices only; their termination and their serialization *)

From stdpp Require Import sorting.
From S2P Require Import Prelude External Merkle MerkleSpec MerkleBatch MerkleThms.

(** ** Sorting *)

Lemma insert_by_perm {A} (key : A -> Z) x l : insert_by key x l ≡ₚ x :: l.
Proof.
  induction l as [|y l IH]; [done|]. simpl. destruct (_ <=? _)%Z; [done|]. rewrite IH. apply Permutation_swap.
Qed.

Lemma sortBy_perm {A} (key : A -> Z) l : sortBy key l ≡ₚ l.
Proof. induction l as [|x l IH]; [done|]. simpl. rewrite insert_by_perm. by rewrite IH. Qed.

Lemma insert_by_sorted {A} (key : A -> Z) x l :
  StronglySorted (fun a b => key a <= key b)%Z l -> StronglySorted (fun a b => key a <= key b)%Z (insert_by key x l).
Proof.
  induction l as [|y l IH]; intros Hs; simpl; [repeat constructor|].
  apply StronglySorted_inv in Hs as [Hs Hy]. destruct (Z.leb_spec (key x) (key y)).
  - constructor; [by constructor|]. constructor; [done|]. eapply Forall_impl; [done|]. simpl. lia.
  - constructor; [by apply IH|]. rewrite insert_by_perm. constructor; [lia|done].
Qed.

Lemma sortBy_sorted {A} (key : A -> Z) l : StronglySorted (fun a b => key a <= key b)%Z (sortBy key l).
Proof. induction l as [|x l IH]; [constructor|]. by apply insert_by_sorted. Qed.

(** Distinct keys make the order strict, and the sorted list unique. *)
Lemma sorted_strict {A} (key : A -> Z) l : NoDup (key <$> l) ->
  StronglySorted (fun a b => key a <= key b)%Z l -> StronglySorted (fun a b => key a < key b)%Z l.
Proof.
  induction l as [|x l IH]; intros Hn Hs; [constructor|]. rewrite fmap_cons in Hn. apply NoDup_cons in Hn as [Hx Hn].
  apply StronglySorted_inv in Hs as [Hs Hf]. constructor; [by apply IH|].
  apply Forall_forall. intros y Hy. rewrite Forall_forall in Hf. specialize (Hf y Hy). simpl in Hf.
  assert (key x <> key y); [|lia]. intros E. apply Hx. rewrite E. by apply list_elem_of_fmap_2.
Qed.

Lemma sortBy_unique {A} (key : A -> Z) l l' :
  l ≡ₚ l' -> StronglySorted (fun a b => key a < key b)%Z l' -> sortBy key l = l'.
Proof.
  intros Hp Hs. assert (NoDup (key <$> l')) as Hn.
  { clear Hp. induction Hs as [|x l' _ IH Hf]; [constructor|]. rewrite fmap_cons. apply NoDup_cons. split; [|done].
    intros (y & E & Hy)%list_elem_of_fmap. rewrite Forall_forall in Hf. specialize (Hf y Hy). simpl in Hf. lia. }
  apply (StronglySorted_unique_strong (fun a b => key a < key b)%Z).
  - intros x y _ _. lia.
  - apply sorted_strict, sortBy_sorted. by rewrite sortBy_perm, Hp.
  - done.
  - by rewrite sortBy_perm.
Qed.

Lemma distinct_in {A} `{EqDecision A} (l : list A) x : x ∈ distinct l <-> x ∈ l.
Proof.
  induction l as [|y l IH]; [done|]. simpl. rewrite !elem_of_cons, list_elem_of_filter, IH.
  destruct (decide (x = y)) as [->|Hne]; tauto.
Qed.

Lemma distinct_NoDup {A} `{EqDecision A} (l : list A) : NoDup (distinct l).
Proof.
  induction l as [|y l IH]; [constructor|]. simpl. apply NoDup_cons. split.
  - rewrite list_elem_of_filter. by intros [H _].
  - by apply NoDup_filter.
Qed.

Lemma sorted_distinct idx : increasing (sortBy id (distinct idx)).
Proof.
  assert (NoDup (id <$> sortBy id (distinct idx))) as Hn.
  { rewrite sortBy_perm, list_fmap_id. apply distinct_NoDup. }
  exact (sorted_strict id _ Hn (sortBy_sorted id _)).
Qed.

Lemma sorted_distinct_in idx i : i ∈ sortBy id (distinct idx) <-> i ∈ idx.
Proof. by rewrite sortBy_perm, distinct_in. Qed.

Section BatchThms.
Context `{HF : CryptographicHash}.

(** ** Completeness *)

Lemma zip_snd_sorted {A} (hs : list A) k :
  StronglySorted (fun a b => a.2 < b.2)%Z (zip hs (Z.of_nat <$> seq k (length hs))).
Proof.
  revert k. induction hs as [|h hs IH]; intros k; simpl; [constructor|]. constructor; [apply IH|].
  apply Forall_forall. intros [x i] Hx. apply elem_of_zip_r in Hx. apply list_elem_of_fmap in Hx as (n & -> & Hn).
  apply elem_of_seq in Hn. simpl. lia.
Qed.

Lemma tree_hashes_payload payload top : NoDup (leaf_hash <$> payload) ->
  tree_hashes (Tree top (index_elements (Leaf <$> payload))) = leaf_hash <$> payload.
Proof.
  intros Hn. unfold tree_hashes. simpl. rewrite <- leafs_hashes in *.
  rewrite (index_elements_eq _ Hn).
  rewrite (sortBy_unique snd _ (zip (node_hash <$> (Leaf <$> payload)) (Z.of_nat <$> seq 0 (length (Leaf <$> payload))))).
  - apply index_zip_fst.
  - apply map_to_list_to_map. by rewrite index_zip_fst.
  - rewrite <- (length_fmap node_hash (Leaf <$> payload)). apply zip_snd_sorted.
Qed.

Lemma apply_all_val l a : in_range l a -> apply_all l a = Success (val l <$> a).
Proof.
  induction a as [|i a IH]; intros H; [done|]. simpl.
  pose proof (H i (list_elem_of_here _ _)) as Hi. unfold zlen in Hi.
  destruct (lookup_lt_is_Some_2 l (Z.to_nat i) ltac:(lia)) as [x Hx].
  unfold array_get. rewrite (proj2 (Z.ltb_ge _ _)), Hx by lia. cbn [of_option try_bind].
  rewrite IH by (intros j Hj; apply H; by right). cbn [try_bind].
  assert (val l i = x) as E; [|by rewrite <- E].
  unfold val, lift_index. by rewrite (proj2 (Z.ltb_ge _ _)), Hx by lia.
Qed.

Lemma increasing_unsorted {B} (a : list Z) (hs : list B) : increasing a -> length a = length hs ->
  sortBy fst (zip a hs) = zip a hs.
Proof.
  intros Ha Hl. apply sortBy_unique; [done|]. revert hs Hl.
  induction Ha as [|i a Hs IH Hf]; intros [|h hs] Hl; try done; [constructor|]. simpl. constructor.
  - apply IH. by injection Hl.
  - apply Forall_forall. intros [j x] Hx. apply elem_of_zip_l in Hx. rewrite Forall_forall in Hf. by apply Hf.
Qed.

Lemma zip_fmap_in {A B} (f : A -> B) (l : list A) x y : (x, y) ∈ zip l (f <$> l) -> x ∈ l /\ y = f x.
Proof.
  induction l as [|z l IH]; intros H; [inversion H|]. rewrite fmap_cons in H.
  apply elem_of_cons in H as [[= -> ->]|H]; [split; [by left|done]|]. destruct (IH H). split; [by right|done].
Qed.

(** C18: completeness of batch proofs: in the tree of a payload whose elements
    have distinct hashes, any non-empty choice of indices, in any order and with
    repetitions, has a batch proof; it lists the chosen leaves' hashes by index,
    and the validator, run long enough, accepts it for the root. *)
Theorem batch_proof_complete payload idx :
  NoDup (leaf_hash <$> payload) -> idx <> [] -> (forall i, i ∈ idx -> 0 <= i < zlen payload)%Z ->
  exists t p, mk_tree payload = Success t /\ proofByIndices t idx = Success (Some p) /\
    (forall i, i ∈ (indices p).*1 <-> i ∈ idx) /\
    (forall i h, (i, h) ∈ indices p -> exists d, payload !! Z.to_nat i = Some d /\ h = leaf_hash d) /\
    forall fuel, length payload <= fuel -> batch_valid fuel p (rootHash t) = Success true.
Proof.
  intros Hn Hne Hin.
  assert (payload <> []) as Hp.
  { destruct idx as [|i idx]; [done|]. specialize (Hin i (list_elem_of_here _ _)). unfold zlen in Hin.
    intros ->. simpl in Hin. lia. }
  destruct (mk_tree_ok payload Hp) as (K & top & Et & Hf & HK & Hr).
  set (t := Tree top (index_elements (Leaf <$> payload))) in *. set (hs := leaf_hash <$> payload) in *.
  set (a := sortBy id (distinct idx)).
  assert (in_range hs a) as Hrange.
  { intros i Hi%sorted_distinct_in%Hin. unfold hs, zlen in *. by rewrite length_fmap. }
  assert (a <> []) as Ha.
  { destruct idx as [|i idx']; [done|]. intros E. assert (i ∈ a) as Hi by (apply sorted_distinct_in; by left).
    rewrite E in Hi. inversion Hi. }
  destruct (batch_complete hs (node_hash top) Hr a (sorted_distinct idx) Ha Hrange) as (m & H1 & H2 & _).
  exists t, (Batch (zip a (val hs <$> a)) m). split; [done|]. split; [|split; [|split]].
  - unfold proofByIndices. rewrite bool_decide_false by done. assert (tree_hashes t = hs) as -> by by apply tree_hashes_payload.
    fold a. replace (forallb _ idx) with true; cbn [negb andb].
    + rewrite H1 by done. cbn [try_bind]. by rewrite apply_all_val.
    + symmetry. apply forallb_forall. intros i Hi%list_elem_of_In%Hin. unfold zlen in Hi.
      unfold tree_length. simpl. rewrite index_elements_size by by rewrite leafs_hashes. rewrite length_fmap. lia.
  - intros i. simpl. rewrite fst_zip by by rewrite length_fmap. apply sorted_distinct_in.
  - simpl. intros i h [Hi ->]%zip_fmap_in. specialize (Hrange i Hi). unfold hs, zlen in Hrange.
    rewrite length_fmap in Hrange. destruct (lookup_lt_is_Some_2 payload (Z.to_nat i) ltac:(lia)) as [d Hd].
    exists d. split; [done|]. unfold val, lift_index, hs.
    rewrite (proj2 (Z.ltb_ge _ _)) by lia. by rewrite list_lookup_fmap, Hd.
  - intros fuel Hf'. unfold batch_valid. simpl. rewrite increasing_unsorted;
      [|apply sorted_distinct|by rewrite length_fmap].
    rewrite fst_zip, snd_zip by by rewrite length_fmap. rewrite H2; [|unfold hs; by rewrite length_fmap].
    cbn [try_bind]. by rewrite bool_decide_true.
Qed.

(** ** Soundness *)

Definition in_nodes (top : Node) (h : Digest) : Prop := exists n, n ∈ nodes_of top /\ proper n /\ h = node_hash n.

Lemma nodes_of_trans n top : n ∈ nodes_of top -> forall n', n' ∈ nodes_of n -> n' ∈ nodes_of top.
Proof.
  induction top as [l IHl r IHr|d| |]; cbn [nodes_of]; intros [->|Hn]%elem_of_cons n' Hn';
    try done; try (by apply not_elem_of_nil in Hn).
  right. apply elem_of_app in Hn as [Hn|Hn]; apply elem_of_app; [left; by apply IHl|right; by apply IHr].
Qed.

Lemma child_in_nodes top l r c : InternalNode l r ∈ nodes_of top -> c = l \/ c = r -> c ∈ nodes_of top.
Proof.
  intros Hin Hc. apply (nodes_of_trans (InternalNode l r)); [done|]. cbn [nodes_of]. right. apply elem_of_app.
  destruct Hc as [->| ->]; [left|right]; apply nodes_of_self.
Qed.

(** The inputs hashed to check a batch proof, layer by layer; where the check
    fails there are no more of them. *)
Definition two_input (x y : Digest) : bytes := InternalNodePrefix :: concat_arrays [x ++ y].

Fixpoint batch_level_inputs (b : list (Z * Z)) (e : list Digest) (m : list (Digest * Side)) : list bytes :=
  match b, e with
  | p :: b', h :: e' =>
      let consume (rest : list (Digest * Side) -> list bytes) :=
        match m with
        | [] => []
        | (mh, side) :: m' => (if (side =? LeftSide)%Z then two_input mh h else two_input h mh) :: rest m'
        end in
      match b', e' with
      | p' :: b'', h' :: e'' =>
          if decide (p = p') then two_input h h' :: batch_level_inputs b'' e'' m
          else consume (batch_level_inputs b' e')
      | _, _ => consume (batch_level_inputs b' e')
      end
  | _, _ => []
  end.

Fixpoint batch_loop_inputs (fuel : nat) (a : list Z) (e : list Digest) (m : list (Digest * Side)) : list bytes :=
  match fuel with
  | O => []
  | S fuel' =>
      let b := neighbours <$> a in
      match batch_level b e m with
      | Success (e_new, m_new) =>
          let a_new := (fun p => Z.quot p.1 2) <$> distinct b in
          batch_level_inputs b e m ++
            if negb (bool_decide (m_new = [])) || Nat.ltb 1 (length e_new)
            then batch_loop_inputs fuel' a_new (take (Nat.min (length a_new) (length e_new)) e_new) m_new
            else []
      | Failure _ => []
      end
  end.

Definition batch_inputs (fuel : nat) (p : BatchMerkleProof) : list bytes :=
  batch_loop_inputs fuel (fst <$> indices p) (snd <$> sortBy fst (indices p)) (proofs p).

Lemma level_in_nodes top checked x y :
  two_input x y ∈ checked -> in_nodes top (prefixedHash InternalNodePrefix [x ++ y]) ->
  collides (hashed top) checked \/ ((length x = DigestSize -> in_nodes top x) /\ (length y = DigestSize -> in_nodes top y)).
Proof.
  intros Hc (n & Hn & Hp & E). apply (level_inv (hashed top) checked) in E as [?|(l & r & -> & Hx & Hy)];
    [by left| |done|by apply hashed_nodes|exact Hc]. right.
  assert (proper l) as Hl by by inversion Hp.
  assert (in_nodes top (node_hash l)) as Hil.
  { exists l. split; [|done]. apply (child_in_nodes top l r); [done|by left]. }
  split; intros L; [by rewrite (Hx L)|]. destruct (Hy L) as [Er|Er]; rewrite Er; [|done].
  inversion Hp as [|? ? _ Hr|]; subst.
  - exists r. split; [|done]. apply (child_in_nodes top l r); [done|by right].
  - pose proof (proper_hash_length l Hl) as Ll. simpl in *. rewrite <- L in Ll. by destruct (node_hash l).
Qed.

(** The outcome of one layer: the next hashes are those of its inputs, each given
    hash is a half of one input, their number is that of the parents, and something was
    consumed. *)
Record layer_ok (a : list Z) (e : list Digest) (m : list (Digest * Side)) (e' : list Digest)
    (m' : list (Digest * Side)) (ins : list bytes) : Prop := {
  lo_length : length e' = length (parents a);
  lo_measure : length e' + length m' + (if decide (a = []) then 0 else 1) <= length e + length m;
  lo_hashed : e' = hash <$> ins;
  lo_halves h : h ∈ e -> exists x y, two_input x y ∈ ins /\ (h = x \/ h = y)
}.

Lemma layer_ok_nil m : layer_ok [] [] m [] m [].
Proof. split; [done|simpl; lia|done|]; intros h H; inversion H. Qed.

Lemma layer_ok_consume i a h e s m e' m' ins u v :
  layer_ok a e m e' m' ins -> parents (i :: a) = (i / 2)%Z :: parents a -> h = u \/ h = v ->
  layer_ok (i :: a) (h :: e) (s :: m) (prefixedHash InternalNodePrefix [u ++ v] :: e') m' (two_input u v :: ins).
Proof.
  intros [H1 H2 H3 H4] Hp Huv. split.
  - rewrite Hp. simpl. by rewrite H1.
  - rewrite decide_False by done. simpl. lia.
  - by rewrite H3.
  - intros x [->|Hh]%elem_of_cons; [exists u, v; split; [by left|done]|].
    destruct (H4 x Hh) as (y & z & Hyz & ?). exists y, z. split; [by right|done].
Qed.

Lemma layer_ok_merge i j a h h' e m e' m' ins :
  layer_ok a e m e' m' ins -> (i / 2 = j / 2)%Z ->
  layer_ok (i :: j :: a) (h :: h' :: e) m (prefixedHash InternalNodePrefix [h ++ h'] :: e') m' (two_input h h' :: ins).
Proof.
  intros [H1 H2 H3 H4] Hp. split.
  - cbn [parents]. rewrite decide_True by done. simpl. by rewrite H1.
  - rewrite decide_False by done. simpl. lia.
  - by rewrite H3.
  - intros x [->|[->|Hh]%elem_of_cons]%elem_of_cons;
      [exists h, h'; split; [by left|by left]|exists h, h'; split; [by left|by right]|].
    destruct (H4 x Hh) as (y & z & Hyz & ?). exists y, z. split; [by right|done].
Qed.

Lemma batch_level_ok a : forall e m e' m', length a = length e ->
  batch_level (neighbours <$> a) e m = Success (e', m') ->
  layer_ok a e m e' m' (batch_level_inputs (neighbours <$> a) e m).
Proof.
  induction a as [|i|i j a Ep IH|i j a Ep IH] using layer_ind; intros e m e' m' Hl E.
  - destruct e; [|done]. injection E as <- <-. apply layer_ok_nil.
  - destruct e as [|h [|]]; try done. cbn in E. destruct m as [|[mh side] m0]; [done|]. simpl in E.
    cbn [fmap list_fmap batch_level_inputs]. destruct (side =? LeftSide)%Z; injection E as <- <-;
      (apply layer_ok_consume; [apply layer_ok_nil|done|auto]).
  - destruct e as [|h [|h' e]]; try done. rewrite !fmap_cons in E. cbn [batch_level] in E.
    rewrite decide_True in E by by rewrite !neighbours_dbl, Ep.
    destruct (batch_level (neighbours <$> a) e m) as [[e1 m1]|] eqn:E1; [|done]. simpl in E.
    injection E as <- <-. rewrite !fmap_cons. cbn [batch_level_inputs].
    rewrite decide_True by by rewrite !neighbours_dbl, Ep. apply layer_ok_merge; [|done]. apply IH; [by simpl in Hl; lia|done].
  - destruct e as [|h [|h' e]]; try done. rewrite fmap_cons in E.
    change (batch_level (neighbours i :: (neighbours <$> j :: a)) (h :: h' :: e) m) with
      (if decide (neighbours i = neighbours j)
       then let? (e_new, m_new) := batch_level (neighbours <$> a) e m in
            Success (prefixedHash InternalNodePrefix [h ++ h'] :: e_new, m_new)
       else match m with
            | [] => Failure NoSuchElement
            | (mh, side) :: m' =>
                let? (e_new, m_new) := batch_level (neighbours <$> j :: a) (h' :: e) m' in
                Success ((if (side =? LeftSide)%Z then prefixedHash InternalNodePrefix [mh ++ h]
                          else prefixedHash InternalNodePrefix [h ++ mh]) :: e_new, m_new)
            end) in E.
    rewrite decide_False in E by (rewrite !neighbours_dbl; by intros ?%dbl_inj).
    destruct m as [|[mh side] m0]; [done|].
    destruct (batch_level (neighbours <$> j :: a) (h' :: e) m0) as [[e1 m1]|] eqn:E1; [|done]. cbn in E.
    assert (parents (i :: j :: a) = (i / 2)%Z :: parents (j :: a)) as Hp by (cbn [parents]; by rewrite decide_False).
    apply IH in E1; [|simpl in Hl |- *; lia].
    change (batch_level_inputs (neighbours <$> i :: j :: a) (h :: h' :: e) ((mh, side) :: m0)) with
      (if decide (neighbours i = neighbours j)
       then two_input h h' :: batch_level_inputs (neighbours <$> a) e ((mh, side) :: m0)
       else (if (side =? LeftSide)%Z then two_input mh h else two_input h mh) ::
            batch_level_inputs (neighbours <$> j :: a) (h' :: e) m0).
    rewrite decide_False by (rewrite !neighbours_dbl; by intros ?%dbl_inj).
    destruct (side =? LeftSide)%Z; injection E as <- <-; (apply layer_ok_consume; [done|done|auto]).
Qed.

Lemma distinct_length a : increasing a -> length (distinct (neighbours <$> a)) = length (parents a).
Proof. intros H. by rewrite distinct_neighbours, length_fmap. Qed.

(** The hashes a validation starts from are those of nodes, if it ends in one. *)
Lemma batch_loop_sound top fuel a e m h0 :
  increasing a -> (forall h, h ∈ e -> length h = DigestSize) ->
  batch_loop fuel a e m = Success [h0] -> in_nodes top h0 ->
  collides (hashed top) (batch_loop_inputs fuel a e m) \/ forall h, h ∈ e -> in_nodes top h.
Proof.
  revert a e m. induction fuel as [|fuel IH]; intros a e m Ha He E Hin; [done|]. cbn [batch_loop] in E. cbn [batch_loop_inputs].
  destruct (Nat.eqb_spec (length e) (length (neighbours <$> a))) as [Hl|]; [|done]. rewrite length_fmap in Hl.
  cbn [negb] in E. destruct (batch_level (neighbours <$> a) e m) as [[e' m']|] eqn:El; [|done]. cbn [try_bind] in E.
  apply batch_level_ok in El as [L1 _ L3 L4]; [|done].
  set (ins := batch_level_inputs _ _ _) in *. match goal with |- context [ins ++ ?r] => set (rest := r) end.
  assert (collides (hashed top) (ins ++ rest) \/ forall h, h ∈ e' -> in_nodes top h) as Hnext.
  { unfold rest. clear rest. destruct (_ || _).
    - rewrite length_fmap, distinct_length, <- L1, Nat.min_id, firstn_all in E |- * by done.
      eapply IH in E as [C|?]; [left|by right| | |done].
      { eapply collides_mono, C; [done|set_solver]. }
      2:{ rewrite L3. intros h (x & -> & _)%list_elem_of_fmap. apply hash_size. }
      rewrite distinct_neighbours, dbl_quot by done. by apply parents_increasing.
    - injection E as ->. right. by intros h ->%list_elem_of_singleton. }
  destruct Hnext as [?|Hnext]; [by left|].
  assert (forall l : list Digest, (forall h, h ∈ l -> h ∈ e) -> collides (hashed top) (ins ++ rest) \/ forall h, h ∈ l -> in_nodes top h) as Hall.
  { induction l as [|h l IHl]; intros Hsub; [right; intros h H; inversion H|].
    destruct IHl as [?|IHl]; [intros h' Hh'; apply Hsub; by right|by left|].
    destruct (L4 h (Hsub h (list_elem_of_here _ _))) as (x & y & Hxy & Hh).
    destruct (level_in_nodes top (ins ++ rest) x y) as [?|[Hx Hy]]; [apply elem_of_app; by left| |by left|].
    { apply Hnext. rewrite L3. by apply (list_elem_of_fmap_2 hash _ (two_input x y)). }
    right. intros h' [->|Hh']%elem_of_cons; [|by apply IHl].
    pose proof (He h (Hsub h (list_elem_of_here _ _))). destruct Hh as [->| ->]; auto. }
  apply Hall. auto.
Qed.

Lemma increasing_fst (l : list (Z * Digest)) : increasing l.*1 -> sortBy fst l = l.
Proof.
  intros H. apply sortBy_unique; [done|]. induction l as [|[i h] l IH]; [constructor|]. simpl in *.
  apply increasing_tail in H as [H1 H2]. constructor; [by apply IH|]. apply Forall_forall. intros [j x] Hx.
  apply H2. by apply (list_elem_of_fmap_2 fst) in Hx.
Qed.

(** C29: soundness of batch proofs: when the indices of an accepted proof are
    strictly increasing and its hashes are digests, each hash in it that is the
    hash of some leaf data is that of an element of the payload, unless the input
    of that leaf, or one of those hashed to check the proof, collides with one of
    those hashed to make the tree. *)
Theorem batch_proof_sound payload t p fuel i d :
  payload <> [] -> mk_tree payload = Success t ->
  increasing (indices p).*1 -> (forall i h, (i, h) ∈ indices p -> length h = DigestSize) ->
  batch_valid fuel p (rootHash t) = Success true ->
  (i, leaf_hash d) ∈ indices p ->
  d ∈ payload \/ collides (hashed (topNode t)) (leaf_input d :: batch_inputs fuel p).
Proof.
  intros Hne Ht Hi Hd Hv Hin. destruct (mk_tree_ok payload Hne) as (K & top & Et & Hf & _ & _).
  rewrite Et in Ht. injection Ht as <-. unfold batch_valid in Hv. rewrite increasing_fst in Hv by done.
  destruct (batch_loop _ _ _ _) as [[|root [|]]|] eqn:El; try done. cbn [try_bind] in Hv.
  injection Hv as ->%bool_decide_eq_true. unfold rootHash in El. simpl in El.
  pose proof (full_proper _ _ _ Hf (leafs_are_leaves payload)) as Hp.
  apply (batch_loop_sound top) in El as [C|Hall]; [right| | | |].
  - eapply collides_mono, C; [done|]. unfold batch_inputs. rewrite increasing_fst by done. set_solver.
  - destruct (Hall (leaf_hash d)) as (n & Hn & Hpn & E); [by apply (list_elem_of_fmap_2 snd) in Hin|].
    apply hashed_nodes in Hn as Hs.
    destruct Hpn as [d'|l r _ _|l _]; cbn [node_hash] in E;
      (eapply (prefixed_inj_in (hashed top) (leaf_input d :: batch_inputs fuel p)) in E as [[Ep E]|];
        [|by right|apply Hs, list_elem_of_here|apply list_elem_of_here]); try (by destruct prefixes_differ).
    left. unfold concat_arrays in E. simpl in E. rewrite !app_nil_r in E. subst d'.
    apply (nodes_of_leaf _ _ _ _ Hf (leafs_are_leaves payload)) in Hn.
    by apply list_elem_of_fmap in Hn as (d' & [= ->] & Hn).
  - done.
  - intros h ([j x] & -> & Hx)%list_elem_of_fmap. by eapply Hd.
  - exists top. split; [apply nodes_of_self|done].
Qed.

(** The restriction to increasing indices is needed: for any four elements
    and any forged hash, a batch proof that claims the forged hash at a repeated
    index is accepted for the root. *)
Theorem batch_proof_forgery d0 d1 d2 d3 forged extra :
  exists t, mk_tree [d0; d1; d2; d3] = Success t /\
    batch_valid 2 (Batch [(0%Z, leaf_hash d0); (0%Z, leaf_hash d1); (0%Z, forged)]
                         [(extra, RightSide); (pair_hash (leaf_hash d2, Some (leaf_hash d3)), RightSide)])
      (rootHash t) = Success true.
Proof.
  eexists. split; [reflexivity|]. unfold batch_valid. simpl.
  rewrite bool_decide_true; [done|]. unfold rootHash, pair_hash, leaf_hash. simpl.
  unfold prefixedHash, concat_arrays. simpl.
  by rewrite !app_nil_r.
Qed.

(** ** Termination *)

Lemma batch_level_fuel b e m : batch_level b e m <> Failure NoFuel.
Proof.
  assert (forall n b e m, length b <= n -> batch_level b e m <> Failure NoFuel) as H; [|by eapply H].
  clear b e m. induction n as [|n IH]; intros [|p b] [|h e] m' Hn; try done; simpl in Hn; [lia|].
  assert (forall m, batch_level b e m <> Failure NoFuel) as Hb by (intros; apply IH; lia).
  cbn [batch_level]. destruct b as [|p' b], e as [|h' e]; try (destruct m' as [|[]]; [done|];
    match goal with |- context [try_bind ?t _] => destruct t as [[]|] eqn:E end; [done|]; intros [= ->]; by eapply Hb).
  destruct (decide _).
  - destruct (batch_level b e m') as [[]|] eqn:E; [done|]. intros [= ->]. eapply (IH b e m'); [simpl in Hn; lia|done].
  - destruct m' as [|[]]; [done|].
    match goal with |- context [try_bind ?t _] => destruct t as [[]|] eqn:E end; [done|]; intros [= ->]; by eapply Hb.
Qed.

Lemma batch_loop_ends fuel a e m : a <> [] -> length e + length m < fuel -> batch_loop fuel a e m <> Failure NoFuel.
Proof.
  revert a e m. induction fuel as [|fuel IH]; intros a e m Ha Hf; [lia|]. cbn [batch_loop].
  destruct (Nat.eqb_spec (length e) (length (neighbours <$> a))) as [Hl|]; [|done]. rewrite length_fmap in Hl.
  cbn [negb]. destruct (batch_level (neighbours <$> a) e m) as [[e' m']|x] eqn:El; cbn [try_bind].
  - apply batch_level_ok in El as [L1 L2 _ _]; [|done]. rewrite decide_False in L2 by done.
    destruct (_ || _); [|done]. apply IH.
    + destruct a as [|i a]; [done|]. by rewrite !fmap_cons.
    + rewrite length_take. lia.
  - intros [= ->]. by apply batch_level_fuel in El.
Qed.

(** Validation of a batch proof with at least one index always ends, after
    at most as many layers as it has indices and hashes; without indices but
    with hashes it never does. *)
Theorem batch_valid_ends p root :
  (indices p <> [] -> batch_valid (S (length (indices p) + length (proofs p))) p root <> Failure NoFuel) /\
  (indices p = [] -> proofs p <> [] -> forall fuel, batch_valid fuel p root = Failure NoFuel).
Proof.
  unfold batch_valid. split.
  - intros Hne H. pose proof (batch_loop_ends (S (length (indices p) + length (proofs p))) (indices p).*1
      (sortBy fst (indices p)).*2 (proofs p)) as Hb.
    destruct (batch_loop _ _ _ _) as [r|x]; cbn [try_bind] in H; [by destruct r as [|? []]|].
    apply Hb; [by destruct (indices p)| |by injection H as ->]. rewrite length_fmap, sortBy_perm. lia.
  - intros -> Hm fuel. simpl. assert (batch_loop fuel [] [] (proofs p) = Failure NoFuel) as ->; [|done].
    induction fuel as [|fuel IH]; [done|]. cbn [batch_loop]. simpl.
    rewrite bool_decide_false by done. exact IH.
Qed.
End BatchThms.

(** ** Witnesses *)

Section Witnesses.
#[local] Existing Instance toy_hash.

Definition batch_payload : list bytes := [[z2b 1]; [z2b 2]; [z2b 3]; [z2b 4]; [z2b 5]].
Definition batch_tree : MerkleTree :=
  match mk_tree batch_payload with Success t => t | Failure _ => Tree EmptyRootNode ∅ end.
Definition batch_of (idx : list Z) : BatchMerkleProof :=
  match proofByIndices batch_tree idx with Success (Some p) => p | _ => Batch [] [] end.

Lemma batch_proof_complete_witness : exists t p, mk_tree batch_payload = Success t /\
  proofByIndices t [4; 1; 1; 0]%Z = Success (Some p) /\ batch_valid 5 p (rootHash t) = Success true.
Proof.
  destruct (batch_proof_complete batch_payload [4; 1; 1; 0]%Z) as (t & p & H1 & H2 & _ & _ & H3).
  - apply (bool_decide_unpack _). by vm_compute.
  - done.
  - intros i Hi. unfold zlen. simpl. repeat (apply elem_of_cons in Hi as [->|Hi]; [lia|]). inversion Hi.
  - exists t, p. split; [done|]. split; [done|]. by apply H3.
Defined.

Lemma batch_proof_sound_witness :
  batch_valid 9 (batch_of [1; 4]%Z) (rootHash batch_tree) = Success true /\ 
  [z2b 5] ∈ batch_payload /\
  ~ collides (hashed (topNode batch_tree)) (leaf_input [z2b 5] :: batch_inputs 9 (batch_of [1; 4]%Z)).
Proof.
  assert (~ collides (hashed (topNode batch_tree)) (leaf_input [z2b 5] :: batch_inputs 9 (batch_of [1; 4]%Z))) as Hn
    by (apply (bool_decide_unpack _); by vm_compute).
  split; [by vm_compute|]. split; [|exact Hn].
  destruct (batch_proof_sound batch_payload batch_tree (batch_of [1; 4]%Z) 9 4 [z2b 5]) as [H|C]; [..|exact H|done].
  - done.
  - vm_compute. reflexivity.
  - vm_compute. repeat constructor.
  - assert (forallb (fun x => Nat.eqb (length x.2) DigestSize) (indices (batch_of [1; 4]%Z)) = true) as H by by vm_compute.
    intros i h Hin%list_elem_of_In. rewrite forallb_forall in H. by apply Nat.eqb_eq, (H (i, h)).
  - by vm_compute.
  - vm_compute. right. left.
Defined.

Lemma batch_valid_ends_witness :
  batch_valid 4 (batch_of [1]%Z) [] <> Failure NoFuel /\
  batch_valid 1000 (Batch [] [([], LeftSide)]) [] = Failure NoFuel.
Proof.
  split.
  - apply (proj1 (batch_valid_ends (batch_of [1]%Z) [])). by vm_compute.
  - by apply (proj2 (batch_valid_ends (Batch [] [([], LeftSide)]) [])).
Defined.
End Witnesses.
