(* ===== verification/SparseMerkle.v ===== *)
(** * SparseMerkle: the sparse Merkle tree

    scrypto/.../authds/merkle/sparse/Node.scala and SparseMerkleTree.scala.
    A tree object holds its root digest, its height and a proof for its last
    index; the leaves themselves are kept by whoever keeps proofs.  Indices are
    BigInts, so [Z]; a height is a Byte.  The specification side, the digest of
    a map of leaves, is in SparseMerkleThms. *)

From S2P Require Import Prelude External Merkle.

Section SparseMerkle.
Context `{HF : CryptographicHash}.

(** ** Nodes *)

(** A node, its subtrees absent where nothing was appended. *)
Inductive Node :=
| InternalNode (left right : option Node)
| Leaf (idx : Z) (data : bytes)
| LeafHash (digest : Digest).

Definition isNull (n : Node) : bool :=
  match n with
  | InternalNode None None => true
  | _ => false
  end.

Fixpoint node_hash (n : Node) : Digest :=
  match n with
  | InternalNode l r =>
      let leftHash := match l with Some l => node_hash l | None => [] end in
      let rightHash := match r with Some r => node_hash r | None => [] end in
      if isNull n then [] else hash (leftHash ++ rightHash)
  | Leaf idx data => hash (toByteArray idx ++ data)
  | LeafHash digest => digest
  end.

(** ** Proofs *)

(** Levels are bottom-up; an absent digest is an empty sibling. *)
Record SparseMerkleProof := SProof {
  idx : Z;
  leafDataOpt : option bytes;
  levels : list (option Digest)
}.

Definition indexToBits (idx height : Z) : list bool :=
  Z.testbit idx <$> seqZ 0 height.

Definition indexToBitsReverse (idx height : Z) : list bool :=
  (fun i => Z.testbit idx (height - 1 - i)) <$> seqZ 0 height.

Definition zeroProof (height : Z) : SparseMerkleProof :=
  SProof 0 None ((fun _ => None) <$> seqZ 1 height).

(** One level of the fold of propagateChanges: the node above [nodeOpt]. *)
Definition updLevel (nodeOpt : option Node) (ndigOpt : option Digest) (side : bool) : option Node :=
  let neighbourOpt := LeafHash <$> ndigOpt in
  match nodeOpt, neighbourOpt with
  | None, None => None
  | _, _ => Some (if side then InternalNode neighbourOpt nodeOpt else InternalNode nodeOpt neighbourOpt)
  end.

Definition propagate_step (acc : option Node * list (option Digest)) (level : option Digest * bool)
    : option Node * list (option Digest) :=
  let upd := updLevel acc.1 level.1 level.2 in
  (upd, acc.2 ++ [node_hash <$> upd]).

(** dropRight(1) *)
Definition dropRight1 {A} (l : list A) : list A := take (length l - 1) l.

Definition propagateChanges (p : SparseMerkleProof) (leafDataOpt : option bytes)
    : option Digest * list (option Digest) :=
  let height := toByte (zlen (levels p)) in
  let leafOpt := (fun leafData => Leaf (idx p) leafData) <$> leafDataOpt in
  let leafOptHash := node_hash <$> leafOpt in
  let sides := indexToBits (idx p) height in
  let '(rootHashOpt, wayDigests) :=
    foldl propagate_step (leafOpt, [leafOptHash]) (zip (levels p) sides) in
  (node_hash <$> rootHashOpt, dropRight1 wayDigests).

Definition valid (p : SparseMerkleProof) (expectedRootHash : option Digest) (height : Z) : Try bool :=
  let? _ := require (zlen (levels p) =? height)%Z in
  let calcRootHash := (propagateChanges p (leafDataOpt p)).1 in
  Success match calcRootHash, expectedRootHash with
          | Some calcRoot, Some expRoot => bool_decide (calcRoot = expRoot)
          | None, None => true
          | _, _ => false
          end.

(** ** Trees *)

Record SparseMerkleTree := STree {
  rootDigest : option Digest;
  height : Z;
  lastProof : SparseMerkleProof
}.

Definition lastIndex (t : SparseMerkleTree) : Z := idx (lastProof t).

Definition emptyTree (height : Z) : SparseMerkleTree := STree None height (zeroProof height).

(** The other valid, of a proof against a tree *)
Definition valid_tree (p : SparseMerkleProof) (tree : SparseMerkleTree) : Try bool :=
  valid p (rootDigest tree) (height tree).

(** The bits from max - 1 down to 0; the first on which the indices differ. *)
Fixpoint diverging_from (idx1 idx2 : Z) (bits : nat) : option Z :=
  match bits with
  | O => None
  | S bi => if Bool.eqb (Z.testbit idx1 (Z.of_nat bi)) (Z.testbit idx2 (Z.of_nat bi))
            then diverging_from idx1 idx2 bi
            else Some (toByte (Z.of_nat bi))
  end.
Definition firstDivergingBitPosition (idx1 idx2 max : Z) : option Z :=
  diverging_from idx1 idx2 (Z.to_nat max).

(** Vector.updated throws outside the vector. *)
Definition updated {A} (l : list A) (i : Z) (x : A) : Try (list A) :=
  if (0 <=? i)%Z && (i <? zlen l)%Z then Success (<[Z.to_nat i := x]> l) else Failure IndexOutOfBounds.

Definition updateProof (height changesIdx : Z) (changeLeafData : option bytes)
    (changesPath : list (option Digest)) (proof : SparseMerkleProof) : Try SparseMerkleProof :=
  match firstDivergingBitPosition (idx proof) changesIdx height with
  | None => Success (SProof (idx proof) changeLeafData (levels proof))
  | Some divergingIndex =>
      let? digest := array_get changesPath divergingIndex in
      let? levels' := updated (levels proof) divergingIndex digest in
      Success (SProof (idx proof) (leafDataOpt proof) levels')
  end.

(** One step of the fold of increaseCapacity at bit [bitIdx], on the buffer
    being filled and whether the indices have diverged. *)
Definition capacity_step (siblings path : list (option Digest)) (lastIndexBits newLastIndexBits : list bool)
    (acc : list (option Digest) * bool) (bitIdx : Z) : Try (list (option Digest) * bool) :=
  let? oldBit := array_get lastIndexBits bitIdx in
  let? newBit := array_get newLastIndexBits bitIdx in
  let diverged := acc.2 || negb (Bool.eqb oldBit newBit) in
  let? updElem := if negb diverged then array_get siblings bitIdx
                  else if negb newBit then Success None
                  else array_get path bitIdx in
  let? vec := updated acc.1 bitIdx updElem in
  Success (vec, diverged).

Fixpoint capacity_loop (step : list (option Digest) * bool -> Z -> Try (list (option Digest) * bool))
    (bits : nat) (acc : list (option Digest) * bool) : Try (list (option Digest) * bool) :=
  match bits with
  | O => Success acc
  | S bi => let? acc' := step acc (Z.of_nat bi) in capacity_loop step bi acc'
  end.

Definition increaseCapacity (t : SparseMerkleTree) : Try SparseMerkleProof :=
  let li := (lastIndex t + 1)%Z in
  let path := (propagateChanges (lastProof t) None).2 in
  let siblings := levels (lastProof t) in
  let lastIndexBits := indexToBits (lastIndex t) (height t) in
  let newLastIndexBits := indexToBits (lastIndex t + 1) (height t) in
  let vec := replicate (Z.to_nat (height t)) None in
  let? r := capacity_loop (capacity_step siblings path lastIndexBits newLastIndexBits)
              (Z.to_nat (height t)) (vec, false) in
  Success (SProof li (leafDataOpt (lastProof t)) r.1).

Definition FilterFn := Z -> option bytes -> bool.
Definition passAllFilterFn : FilterFn := fun _ _ => true.

Definition update (t : SparseMerkleTree) (proof : SparseMerkleProof) (newLeafData : option bytes)
    (proofsToUpdate : list SparseMerkleProof) (filterFn : FilterFn)
    : Try (SparseMerkleTree * list SparseMerkleProof) :=
  let proofIdx := idx proof in
  let? _ := require (zlen (levels proof) =? height t)%Z in
  let? _ := require (zlen (levels (lastProof t)) =? height t)%Z in
  let? _ := require (proofIdx <=? lastIndex t + 1)%Z in
  let? _ := require (filterFn proofIdx newLeafData) in
  let? ok := valid proof (rootDigest t) (height t) in
  let? _ := require ok in
  let '(newRoot, changes) := propagateChanges proof newLeafData in
  let? lp := if (proofIdx =? lastIndex t)%Z then increaseCapacity t else Success (lastProof t) in
  let? newLp := updateProof (height t) proofIdx newLeafData changes lp in
  let? updatedProofs := map_try (updateProof (height t) proofIdx newLeafData changes) proofsToUpdate in
  let updTree := STree newRoot (height t) newLp in
  Success (updTree, updatedProofs).

End SparseMerkle.
