(* ===== verification/SparseMerkleThms.v ===== *)
(** * SparseMerkleThms: a sparse Merkle tree is the digest of a map of leaves

    [sub] is the digest of the leaves below a position; [honest] is the proof
    that a holder of the whole map would give.  An update with the honest proof
    of a leaf makes, of a tree and of any honest proofs, those of the updated
    map; membership proofs bind the leaf, and where proofs can be forged. *)

From S2P Require Import Prelude External Merkle SparseMerkle.

Section Spec.
Context `{HF : CryptographicHash}.

(** ** Positions *)

(** The position, among the subtrees of height [k], of the one holding leaf [i]. *)
Definition ancestor (i : Z) (k : nat) : Z := Z.shiftr i (Z.of_nat k).
Definition sibling (q : Z) : Z := Z.lxor q 1.

Definition join (l r : option Digest) : option Digest :=
  match l, r with
  | None, None => None
  | _, _ => Some (hash (default [] l ++ default [] r))
  end.

(** The digest of the subtree of height [k] at position [p], none when it is empty. *)
Fixpoint sub (m : gmap Z bytes) (k : nat) (p : Z) : option Digest :=
  match k with
  | O => (fun data => hash (toByteArray p ++ data)) <$> m !! p
  | S k' => join (sub m k' (2 * p)) (sub m k' (2 * p + 1))
  end.

Definition honest (m : gmap Z bytes) (h : nat) (i : Z) : SparseMerkleProof :=
  SProof i (m !! i) ((fun k => sub m k (sibling (ancestor i k))) <$> seq 0 h).

Definition set_leaf (m : gmap Z bytes) (i : Z) (d : option bytes) : gmap Z bytes :=
  partial_alter (fun _ => d) i m.

(** [t] is the tree of [m]: its last index is the first of the unused ones. *)
Record represents (t : SparseMerkleTree) (m : gmap Z bytes) (h : nat) : Prop := {
  rep_height : height t = Z.of_nat h;
  rep_bound : 0 < h <= 127;
  rep_root : rootDigest t = sub m h 0;
  rep_last : lastProof t = honest m h (lastIndex t);
  rep_range : (0 <= lastIndex t < 2 ^ Z.of_nat h)%Z;
  rep_unused : forall i, (lastIndex t <= i)%Z -> m !! i = None
}.

(** ** Bits *)

Lemma ancestor_bit i k : ancestor i k = (2 * ancestor i (S k) + Z.b2z (Z.testbit i (Z.of_nat k)))%Z.
Proof.
  unfold ancestor. replace (Z.of_nat (S k)) with (Z.of_nat k + 1)%Z by lia.
  rewrite <- Z.shiftr_shiftr, <- Z.div2_spec by lia.
  replace (Z.testbit i (Z.of_nat k)) with (Z.odd (Z.shiftr i (Z.of_nat k))); [apply Z.div2_odd|].
  rewrite <- Z.bit0_odd, Z.shiftr_spec by lia. f_equal.
Qed.

Lemma ancestor_top i h : (0 <= i < 2 ^ Z.of_nat h)%Z -> ancestor i h = 0%Z.
Proof. intros H. unfold ancestor. rewrite Z.shiftr_div_pow2 by lia. by apply Z.div_small. Qed.

Lemma testbit_high i h n : (0 <= i < 2 ^ h)%Z -> (h <= n)%Z -> Z.testbit i n = false.
Proof.
  intros Hi Hn. destruct (Z.lt_ge_cases h 0) as [Hh|Hh]; [rewrite Z.pow_neg_r in Hi by lia; lia|].
  rewrite <- (Z.mod_small i (2 ^ h)) by lia. apply Z.mod_pow2_bits_high. lia.
Qed.

Lemma ancestor_testbit i k n : (0 <= n)%Z -> Z.testbit (ancestor i k) n = Z.testbit i (n + Z.of_nat k).
Proof. intros H. unfold ancestor. by apply Z.shiftr_spec. Qed.

Lemma sibling_bit q b : sibling (2 * q + Z.b2z b) = (2 * q + Z.b2z (negb b))%Z.
Proof.
  unfold sibling. apply Z.bits_inj'. intros n Hn. rewrite Z.lxor_spec.
  destruct (decide (n = 0)%Z) as [->|H0].
  - rewrite !Z.testbit_0_r. by destruct b.
  - replace n with (Z.succ (n - 1))%Z by lia. rewrite !Z.testbit_succ_r by lia.
    replace (Z.testbit 1 (Z.succ (n - 1))) with false; [by destruct (Z.testbit q _)|].
    symmetry. apply (testbit_high 1 1); lia.
Qed.

Lemma sibling_cases q : sibling q = if Z.odd q then (q - 1)%Z else (q + 1)%Z.
Proof.
  rewrite (Z.div2_odd q) at 1. rewrite sibling_bit.
  pose proof (Z.div2_odd q). destruct (Z.odd q); simpl in *; lia.
Qed.

Lemma sibling_other q : sibling q <> q.
Proof. rewrite sibling_cases. destruct (Z.odd q); lia. Qed.

Lemma ancestor_parent j k p b : ancestor j k = (2 * p + Z.b2z b)%Z -> ancestor j (S k) = p.
Proof.
  rewrite ancestor_bit. destruct b, (Z.testbit j (Z.of_nat k)); simpl; lia.
Qed.

(** Where the sibling of an ancestor of [j] is an ancestor of [i]: at the highest differing bit. *)
Lemma sibling_ancestor i j h d k :
  (0 <= i < 2 ^ Z.of_nat h)%Z -> (0 <= j < 2 ^ Z.of_nat h)%Z -> k < h ->
  Z.testbit j (Z.of_nat d) <> Z.testbit i (Z.of_nat d) ->
  (forall n, d < n < h -> Z.testbit j (Z.of_nat n) = Z.testbit i (Z.of_nat n)) ->
  sibling (ancestor j k) = ancestor i k <-> k = d.
Proof.
  intros Hi Hj Hk Hd Habove. split.
  - intros E. apply (f_equal (fun q n => Z.testbit q n)) in E.
    assert (Hbit : forall n, (0 <= n)%Z -> xorb (Z.testbit j (n + Z.of_nat k)) (Z.testbit 1 n) = Z.testbit i (n + Z.of_nat k)).
    { intros n Hn. apply (f_equal (fun f => f n)) in E. unfold sibling in E.
      rewrite Z.lxor_spec, !ancestor_testbit in E by done. done. }
    destruct (Nat.lt_trichotomy k d) as [Hlt|[?|Hgt]]; [|done|].
    + specialize (Hbit (Z.of_nat d - Z.of_nat k)%Z ltac:(lia)).
      replace (Z.of_nat d - Z.of_nat k + Z.of_nat k)%Z with (Z.of_nat d) in Hbit by lia.
      rewrite (testbit_high 1 1) in Hbit by lia. rewrite xorb_false_r in Hbit. done.
    + specialize (Hbit 0%Z ltac:(lia)). rewrite Z.add_0_l in Hbit. change (Z.testbit 1 0) with true in Hbit.
      rewrite Habove in Hbit by lia.
      by destruct (Z.testbit i (Z.of_nat k)).
  - intros ->. apply Z.bits_inj'. intros n Hn. unfold sibling.
    rewrite Z.lxor_spec, !ancestor_testbit by done.
    destruct (decide (n = 0)%Z) as [->|H0].
    + rewrite Z.add_0_l. change (Z.testbit 1 0) with true.
      by destruct (Z.testbit j _), (Z.testbit i _).
    + rewrite (testbit_high 1 1), xorb_false_r by lia.
      destruct (Z.lt_ge_cases (n + Z.of_nat d) (Z.of_nat h)).
      * replace (n + Z.of_nat d)%Z with (Z.of_nat (Z.to_nat (n + Z.of_nat d))) by lia. apply Habove. lia.
      * by rewrite !(testbit_high _ (Z.of_nat h)) by lia.
Qed.

Lemma ancestor_eq i j h : (0 <= i < 2 ^ Z.of_nat h)%Z -> (0 <= j < 2 ^ Z.of_nat h)%Z ->
  (forall n, n < h -> Z.testbit j (Z.of_nat n) = Z.testbit i (Z.of_nat n)) -> j = i.
Proof.
  intros Hi Hj H. apply Z.bits_inj'. intros n Hn.
  destruct (Z.lt_ge_cases n (Z.of_nat h)); [|by rewrite !(testbit_high _ (Z.of_nat h)) by lia].
  replace n with (Z.of_nat (Z.to_nat n)) by lia. apply H. lia.
Qed.

(** ** Digests of subtrees *)

Lemma sub_local m m' k : forall p, (forall j, ancestor j k = p -> m !! j = m' !! j) -> sub m k p = sub m' k p.
Proof.
  induction k as [|k IH]; intros p H; cbn [sub].
  - rewrite (H p); [done|]. apply Z.shiftr_0_r.
  - f_equal; apply IH; intros j E; apply H.
    + apply (ancestor_parent _ _ _ false). simpl. lia.
    + by apply (ancestor_parent _ _ _ true).
Qed.

Lemma sub_empty m k p : (forall j, ancestor j k = p -> m !! j = None) -> sub m k p = None.
Proof.
  intros H. rewrite (sub_local m ∅) by (intros j Hj; by rewrite lookup_empty, H). clear H.
  revert p. induction k as [|k IH]; intros p; cbn [sub]; [by rewrite lookup_empty|]. by rewrite !IH.
Qed.

Lemma sub_step m k i :
  sub m (S k) (ancestor i (S k)) =
  if Z.testbit i (Z.of_nat k) then join (sub m k (sibling (ancestor i k))) (sub m k (ancestor i k))
  else join (sub m k (ancestor i k)) (sub m k (sibling (ancestor i k))).
Proof.
  cbn [sub]. rewrite (ancestor_bit i k). rewrite sibling_bit.
  destruct (Z.testbit i (Z.of_nat k)); cbn [negb Z.b2z]; by rewrite ?Z.add_0_r.
Qed.

Lemma sub_other m i d k p : p <> ancestor i k -> sub (set_leaf m i d) k p = sub m k p.
Proof.
  intros H. apply sub_local. intros j Hj. unfold set_leaf. rewrite lookup_partial_alter_ne; [done|].
  intros ->. by apply H.
Qed.

Lemma join_updLevel n dig side :
  node_hash <$> updLevel n dig side =
  if side then join dig (node_hash <$> n) else join (node_hash <$> n) dig.
Proof. destruct n, dig, side; reflexivity. Qed.

(** ** Propagation of a change *)

Lemma indexToBits_seq i h : indexToBits i (Z.of_nat h) = (fun k => Z.testbit i (Z.of_nat k)) <$> seq 0 h.
Proof. unfold indexToBits, seqZ. rewrite Nat2Z.id, <- list_fmap_compose. apply list_fmap_ext. intros k x _. simpl. f_equal. lia. Qed.

Lemma zip_fmap {A B C} (f : A -> B) (g : A -> C) l : zip (f <$> l) (g <$> l) = (fun x => (f x, g x)) <$> l.
Proof. induction l as [|x l IH]; [done|]. cbn. f_equal. apply IH. Qed.

(** The siblings of [i]'s ancestors are the same before and after its leaf changes. *)
Lemma propagate_fold m i d h :
  let leaf := (fun data => Leaf i data) <$> d in
  let r := foldl propagate_step (leaf, [node_hash <$> leaf])
             ((fun k => (sub m k (sibling (ancestor i k)), Z.testbit i (Z.of_nat k))) <$> seq 0 h) in
  (node_hash <$> r.1) = sub (set_leaf m i d) h (ancestor i h) /\
  r.2 = (fun k => sub (set_leaf m i d) k (ancestor i k)) <$> seq 0 (S h).
Proof.
  assert (E0 : node_hash <$> ((fun data => Leaf i data) <$> d) = sub (set_leaf m i d) 0 (ancestor i 0)).
  { unfold ancestor. rewrite Z.shiftr_0_r. cbn [sub]. unfold set_leaf. rewrite lookup_partial_alter_eq. by destruct d. }
  cbn zeta. induction h as [|h [IH1 IH2]].
  - cbn. rewrite E0. done.
  - rewrite seq_S, fmap_app, foldl_app, Nat.add_0_l. cbn [fmap list_fmap foldl].
    destruct (foldl _ _ _) as [n ds]. cbn [fst snd] in IH1, IH2. unfold propagate_step. cbn [fst snd].
    assert (E : node_hash <$> updLevel n (sub m h (sibling (ancestor i h))) (Z.testbit i (Z.of_nat h))
                = sub (set_leaf m i d) (S h) (ancestor i (S h))).
    { rewrite join_updLevel, IH1, sub_step, (sub_other m i d h (sibling _)) by apply sibling_other. done. }
    split; [done|]. by rewrite IH2, E, (seq_S (S h)), fmap_app.
Qed.

Lemma zlen_honest m h i : zlen (levels (honest m h i)) = Z.of_nat h.
Proof. unfold zlen. cbn. by rewrite length_fmap, length_seq. Qed.

Lemma propagate_honest m h i d : h <= 127 -> (0 <= i < 2 ^ Z.of_nat h)%Z ->
  propagateChanges (honest m h i) d =
  (sub (set_leaf m i d) h 0, (fun k => sub (set_leaf m i d) k (ancestor i k)) <$> seq 0 h).
Proof.
  intros Hh Hi. unfold propagateChanges. rewrite zlen_honest, toByte_small by lia.
  cbn [idx honest levels]. rewrite indexToBits_seq, zip_fmap.
  pose proof (propagate_fold m i d h) as [H1 H2]. cbn zeta in H1, H2.
  destruct (foldl _ _ _) as [n ds]. cbn [fst snd] in H1, H2. rewrite H1, H2, (ancestor_top i h Hi). f_equal.
  unfold dropRight1. rewrite seq_S, fmap_app, length_app, length_fmap, length_seq. cbn [length fmap list_fmap].
  apply take_app_length'. rewrite length_fmap, length_seq. lia.
Qed.

Lemma set_leaf_same m i : set_leaf m i (m !! i) = m.
Proof. unfold set_leaf. by rewrite partial_alter_self. Qed.

(** An honest proof is valid for the root of the map. *)
Lemma valid_honest m h i : h <= 127 -> (0 <= i < 2 ^ Z.of_nat h)%Z ->
  valid (honest m h i) (sub m h 0) (Z.of_nat h) = Success true.
Proof.
  intros Hh Hi. unfold valid. rewrite zlen_honest, Z.eqb_refl. cbn [require try_bind].
  rewrite propagate_honest by done. cbn [leafDataOpt honest fst]. rewrite set_leaf_same.
  destruct (sub m h 0); [|done]. by rewrite bool_decide_true.
Qed.

(** ** Proofs of other leaves after a change *)

Lemma diverging_spec i j bits : bits <= 127 ->
  match diverging_from j i bits with
  | None => forall n, n < bits -> Z.testbit j (Z.of_nat n) = Z.testbit i (Z.of_nat n)
  | Some b => exists d, b = Z.of_nat d /\ d < bits /\ Z.testbit j (Z.of_nat d) <> Z.testbit i (Z.of_nat d) /\
      forall n, d < n < bits -> Z.testbit j (Z.of_nat n) = Z.testbit i (Z.of_nat n)
  end.
Proof.
  induction bits as [|b IH]; intros Hb; cbn [diverging_from]; [lia|]. specialize (IH ltac:(lia)).
  destruct (Bool.eqb _ _) eqn:E.
  - apply Bool.eqb_prop in E. destruct (diverging_from j i b) as [x|].
    + destruct IH as (d & -> & Hd & Hne & Hab). exists d. repeat split; [lia|done|].
      intros n Hn. destruct (decide (n = b)) as [->|]; [done|]. apply Hab. lia.
    + intros n Hn. destruct (decide (n = b)) as [->|]; [done|]. apply IH. lia.
  - apply Bool.eqb_false_iff in E. rewrite toByte_small by lia. exists b. repeat split; [lia|done|lia].
Qed.

Lemma array_get_nth {A} (l : list A) k x : l !! k = Some x -> array_get l (Z.of_nat k) = Success x.
Proof.
  intros E. unfold array_get. destruct (Z.ltb_spec (Z.of_nat k) 0); [lia|]. by rewrite Nat2Z.id, E.
Qed.

Lemma updated_nth {A} (l : list A) k x : k < length l -> updated l (Z.of_nat k) x = Success (<[k := x]> l).
Proof.
  intros H. unfold updated, zlen. rewrite (proj2 (Z.leb_le _ _)), (proj2 (Z.ltb_lt _ _)) by lia. by rewrite Nat2Z.id.
Qed.

Lemma lookup_fmap_seq {A} (f : nat -> A) n k : k < n -> (f <$> seq 0 n) !! k = Some (f k).
Proof. intros H. by rewrite list_lookup_fmap, lookup_seq_lt. Qed.

Lemma updateProof_honest m h i j d : h <= 127 ->
  (0 <= i < 2 ^ Z.of_nat h)%Z -> (0 <= j < 2 ^ Z.of_nat h)%Z ->
  updateProof (Z.of_nat h) i d ((fun k => sub (set_leaf m i d) k (ancestor i k)) <$> seq 0 h) (honest m h j)
  = Success (honest (set_leaf m i d) h j).
Proof.
  intros Hh Hi Hj. unfold updateProof, firstDivergingBitPosition. cbn [idx honest levels leafDataOpt].
  rewrite Nat2Z.id. pose proof (diverging_spec i j h Hh) as D. destruct (diverging_from j i h) as [b|].
  - destruct D as (k & -> & Hk & Hne & Hab).
    erewrite array_get_nth by by apply lookup_fmap_seq. cbn [try_bind].
    rewrite updated_nth by by rewrite length_fmap, length_seq. cbn [try_bind]. unfold honest. do 2 f_equal.
    + unfold set_leaf. rewrite lookup_partial_alter_ne; [done|]. by intros ->.
    + apply list_eq. intros n. destruct (decide (n < h)) as [Hn|Hn].
      * rewrite (lookup_fmap_seq _ h n) by done. pose proof (sibling_ancestor i j h k n Hi Hj Hn Hne Hab) as S.
        destruct (decide (n = k)) as [->|Hnk].
        -- rewrite list_lookup_insert_eq by by rewrite length_fmap, length_seq. by rewrite (proj2 S eq_refl).
        -- rewrite list_lookup_insert_ne by done. rewrite lookup_fmap_seq, sub_other by (done || tauto). done.
      * rewrite !lookup_ge_None_2; rewrite ?length_insert, ?length_fmap, ?length_seq; [done|lia|lia].
  - rewrite (ancestor_eq i j h Hi Hj D). unfold honest. do 2 f_equal.
    + unfold set_leaf. by rewrite lookup_partial_alter_eq.
    + apply list_fmap_ext. intros n k _. symmetry. apply sub_other, sibling_other.
Qed.

(** ** Moving on to the next index *)

Lemma ancestor_mono i j k : (i <= j)%Z -> (ancestor i k <= ancestor j k)%Z.
Proof. intros H. unfold ancestor. rewrite !Z.shiftr_div_pow2 by lia. apply Z.div_le_mono; lia. Qed.

Lemma ancestor_next i k : (ancestor (i + 1) k <= ancestor i k + 1)%Z.
Proof.
  unfold ancestor. rewrite !Z.shiftr_div_pow2 by lia.
  replace (i / 2 ^ Z.of_nat k + 1)%Z with ((i + 1 * 2 ^ Z.of_nat k) / 2 ^ Z.of_nat k)%Z by (rewrite Z.div_add by lia; lia).
  apply Z.div_le_mono; lia.
Qed.

(** Above the last index everything is empty; the new last index has on its left
    at most the subtree the old one completed. *)
Lemma next_sibling m l k : (forall i, (l <= i)%Z -> m !! i = None) ->
  sub m k (sibling (ancestor (l + 1) k)) =
  if decide (ancestor l k = ancestor (l + 1) k) then sub m k (sibling (ancestor l k))
  else if Z.testbit (l + 1) (Z.of_nat k) then sub m k (ancestor l k) else None.
Proof.
  intros Hu. case_decide as E; [by rewrite E|].
  pose proof (ancestor_next l k). pose proof (ancestor_mono l (l + 1) k ltac:(lia)).
  pose proof (ancestor_bit (l + 1) k) as B. rewrite B at 1. rewrite sibling_bit.
  destruct (Z.testbit (l + 1) (Z.of_nat k)); cbn [negb Z.b2z] in *.
  - f_equal. lia.
  - apply sub_empty. intros j Hj. apply Hu.
    destruct (Z.lt_ge_cases j l) as [Hl|]; [|lia]. pose proof (ancestor_mono j l k ltac:(lia)). lia.
Qed.

Lemma diverged_step l k :
  negb (bool_decide (ancestor l (S k) = ancestor (l + 1) (S k))) ||
    negb (Bool.eqb (Z.testbit l (Z.of_nat k)) (Z.testbit (l + 1) (Z.of_nat k)))
  = negb (bool_decide (ancestor l k = ancestor (l + 1) k)).
Proof.
  rewrite (ancestor_bit l k), (ancestor_bit (l + 1) k).
  repeat case_bool_decide; destruct (Z.testbit l _), (Z.testbit (l + 1) _); cbn in *; try done; lia.
Qed.

Lemma capacity_loop_honest m h l path n : n <= h -> (forall i, (l <= i)%Z -> m !! i = None) ->
  path = (fun k => sub m k (ancestor l k)) <$> seq 0 h ->
  forall vec, length vec = h ->
  exists b, capacity_loop (capacity_step (levels (honest m h l)) path
              (indexToBits l (Z.of_nat h)) (indexToBits (l + 1) (Z.of_nat h))) n
              (vec, negb (bool_decide (ancestor l n = ancestor (l + 1) n)))
  = Success (((fun k => sub m k (sibling (ancestor (l + 1) k))) <$> seq 0 n) ++ drop n vec, b).
Proof.
  intros Hn Hu ->. rewrite !indexToBits_seq. induction n as [|n IH]; intros vec Hv.
  - eexists. cbn. by rewrite drop_0.
  - set (x := sub m n (sibling (ancestor (l + 1) n))).
    destruct (IH ltac:(lia) (<[n := x]> vec)) as [b Hb]; [by rewrite length_insert|]. exists b.
    cbn [capacity_loop]. unfold capacity_step at 1.
    erewrite !array_get_nth by by apply lookup_fmap_seq. cbn [try_bind fst snd].
    rewrite diverged_step. rewrite negb_involutive.
    match goal with |- context [try_bind ?t _] => assert (E : t = Success x) end.
    { subst x. rewrite next_sibling by done. case_bool_decide; rewrite ?decide_True, ?decide_False by done; cbn [negb].
      - done.
      - by destruct (Z.testbit (l + 1) (Z.of_nat n)). }
    rewrite E. cbn [try_bind]. rewrite updated_nth by lia. cbn [try_bind].
    unfold levels, honest in Hb |- *. rewrite Hb. do 2 f_equal.
    rewrite seq_S, fmap_app, <- app_assoc. f_equal. rewrite Nat.add_0_l. cbn [fmap list_fmap app]. fold x.
    rewrite insert_take_drop by lia. rewrite drop_app_length' by (rewrite length_take; lia). done.
Qed.

Lemma increaseCapacity_honest t m h : represents t m h -> (lastIndex t + 1 < 2 ^ Z.of_nat h)%Z ->
  increaseCapacity t = Success (honest m h (lastIndex t + 1)).
Proof.
  intros [Hh Hb _ Hl Hr Hu] Hnext. unfold increaseCapacity. rewrite Hh, Nat2Z.id.
  rewrite Hl, propagate_honest by lia. cbn [snd].
  replace (set_leaf m (lastIndex t) None) with m by (symmetry; rewrite <- (Hu (lastIndex t)) by lia; apply set_leaf_same).
  destruct (capacity_loop_honest m h (lastIndex t) _ h (Nat.le_refl h) Hu eq_refl (replicate h None)) as [b E].
  { by rewrite length_replicate. }
  rewrite !ancestor_top in E by lia. rewrite bool_decide_true in E by done. cbn [negb] in E.
  rewrite E. cbn [try_bind fst honest leafDataOpt].
  rewrite drop_ge by (rewrite length_replicate; lia). rewrite app_nil_r. unfold honest. do 2 f_equal.
  rewrite !Hu by lia. done.
Qed.

(** ** Updates *)

Lemma map_try_honest {B} (f : SparseMerkleProof -> Try B) g js :
  Forall (fun p => f p = Success (g p)) js -> map_try f js = Success (g <$> js).
Proof. induction 1 as [|p js E _ IH]; [done|]. cbn. by rewrite E, IH. Qed.

Lemma update_honest t m h i d js filterFn :
  represents t m h -> (0 <= i <= lastIndex t)%Z -> (lastIndex t + 1 < 2 ^ Z.of_nat h)%Z ->
  Forall (fun j => 0 <= j < 2 ^ Z.of_nat h)%Z js -> filterFn i d = true ->
  exists t', update t (honest m h i) d (honest m h <$> js) filterFn
             = Success (t', honest (set_leaf m i d) h <$> js) /\
    represents t' (set_leaf m i d) h /\
    lastIndex t' = if (i =? lastIndex t)%Z then (lastIndex t + 1)%Z else lastIndex t.
Proof.
  intros R Hi Hn Hjs Hf. pose proof R as [Hh Hb Hroot Hl Hr Hu].
  unfold update. cbn [idx honest]. rewrite Hl, !zlen_honest, Hh, Z.eqb_refl, Hf. cbn [require try_bind].
  rewrite (proj2 (Z.leb_le _ _)) by lia. rewrite Hroot, valid_honest by lia. cbn [require try_bind].
  rewrite propagate_honest by lia.
  assert (E : (if (i =? lastIndex t)%Z then increaseCapacity t else Success (honest m h (lastIndex t)))
              = Success (honest m h (if (i =? lastIndex t)%Z then lastIndex t + 1 else lastIndex t)%Z)).
  { destruct (i =? lastIndex t)%Z; [by apply increaseCapacity_honest|done]. }
  rewrite E. cbn [try_bind]. rewrite updateProof_honest by (try lia; destruct (i =? lastIndex t)%Z; lia).
  cbn [try_bind]. rewrite (map_try_honest _ (fun p => honest (set_leaf m i d) h (idx p))).
  - cbn [try_bind]. eexists. split; [|split].
    + rewrite <- list_fmap_compose. reflexivity.
    + split; cbn [height rootDigest lastProof lastIndex idx honest]; try done; [destruct (Z.eqb_spec i (lastIndex t)); lia|].
      intros j Hj. unfold set_leaf. rewrite lookup_partial_alter_ne; [apply Hu|]; destruct (Z.eqb_spec i (lastIndex t)); lia.
    + done.
  - apply Forall_fmap. eapply Forall_impl; [exact Hjs|]. intros j Hj. cbn beta in Hj. apply updateProof_honest; cbn [idx honest]; lia.
Qed.

Lemma represents_empty h : 0 < h <= 127 -> represents (emptyTree (Z.of_nat h)) ∅ h.
Proof.
  intros H. assert (E : forall k p, sub ∅ k p = None) by (intros; by apply sub_empty).
  split; cbn [height rootDigest lastProof lastIndex idx emptyTree zeroProof]; [done|done| | | |done].
  - by rewrite E.
  - unfold zeroProof, honest. f_equal. apply list_eq. intros k.
    unfold seqZ. rewrite Nat2Z.id, !list_lookup_fmap. destruct (decide (k < h)).
    + rewrite !lookup_seq_lt by done. cbn. by rewrite E.
    + rewrite !lookup_seq_ge by lia. done.
  - lia.
Qed.

(** ** Soundness of membership *)

(** What one level adds, for a present node. *)
Lemma fold_present i d bits ls :
  exists n, (foldl propagate_step (Some (Leaf i d), [Some (node_hash (Leaf i d))]) (zip ls bits)).1 = Some n.
Proof.
  generalize (Leaf i d) as n, [Some (node_hash (Leaf i d))] as c. revert bits.
  induction ls as [|l ls IH]; intros [|b bits] n c; cbn; eauto. destruct l, b; cbn; apply IH.
Qed.

(** Levels that hash alike: an absent digest and an empty one are not told apart. *)
Definition same_level (l1 l2 : option Digest) : Prop := default [] l1 = default [] l2.

#[local] Instance same_level_equiv : Equivalence same_level.
Proof. split; red; unfold same_level; congruence. Qed.

(** The inputs hashed going up from a present node, and those hashed for a proof
    with data [d] *)
Definition side_input (h : Digest) (level : option Digest) (side : bool) : bytes :=
  if side then default [] level ++ h else h ++ default [] level.

Fixpoint way_inputs (h : Digest) (way : list (option Digest * bool)) : list bytes :=
  match way with
  | [] => []
  | (level, side) :: way' => side_input h level side :: way_inputs (hash (side_input h level side)) way'
  end.

Definition sparse_inputs (p : SparseMerkleProof) (d : bytes) : list bytes :=
  (toByteArray (idx p) ++ d) ::
  way_inputs (hash (toByteArray (idx p) ++ d)) (zip (levels p) (indexToBits (idx p) (zlen (levels p)))).

(** Two nodes made by leaves going up the same sides to one hash started from one hash. *)
Lemma fold_inj ls1 : forall ls2 bits n1 n2 c1 c2, length ls1 = length ls2 ->
  length (node_hash n1) = DigestSize -> length (node_hash n2) = DigestSize ->
  (node_hash <$> (foldl propagate_step (Some n1, c1) (zip ls1 bits)).1)
    = (node_hash <$> (foldl propagate_step (Some n2, c2) (zip ls2 bits)).1) ->
  (node_hash n1 = node_hash n2 /\
   Forall2 same_level (take (length bits) ls1) (take (length bits) ls2))
  \/ collides (way_inputs (node_hash n2) (zip ls2 bits)) (way_inputs (node_hash n1) (zip ls1 bits)).
Proof.
  induction ls1 as [|l1 ls1 IH]; intros [|l2 ls2] bits n1 n2 c1 c2 Hl H1 H2 E; try done.
  { left. rewrite !take_nil. cbn in E. by injection E as ->. }
  destruct bits as [|b bits].
  { left. cbn in E. injection E as ->. split; [done|]. constructor. }
  injection Hl as Hl. cbn [zip zip_with foldl] in E. unfold propagate_step at 2 4 in E. cbn [fst snd] in E.
  set (up n l := if b then InternalNode (LeafHash <$> l) (Some n) else InternalNode (Some n) (LeafHash <$> l)).
  assert (U : forall n l, updLevel (Some n) l b = Some (up n l)) by (intros n [l|]; by destruct b).
  assert (V : forall n l, node_hash (up n l) =
    hash (side_input (node_hash n) l b)) by (intros n [l|]; by destruct b).
  cbn [zip zip_with way_inputs].
  rewrite !U in E. apply IH in E as [[E F]|C]; [| |done|by rewrite V, hash_size..].
  2:{ right. rewrite !V in C. eapply collides_mono, C; set_solver. }
  rewrite !V in E. eapply hash_inj_in in E as [E|C]; [left|right; exact C|by left|by left].
  unfold side_input in E. destruct b.
  - apply app_inv_length_r in E as [El En]; [|by rewrite H1, H2]. split; [done|]. by constructor.
  - apply app_inv_length in E as [En El]; [|by rewrite H1, H2]. split; [done|]. by constructor.
Qed.

(** Going up from a present leaf uses the digests of a level, not whether they are there. *)
Lemma fold_same ls1 : forall ls2 bits n c1 c2, length ls1 = length ls2 ->
  Forall2 same_level (take (length bits) ls1) (take (length bits) ls2) ->
  forall n', node_hash n' = node_hash n ->
  (node_hash <$> (foldl propagate_step (Some n', c1) (zip ls1 bits)).1)
    = (node_hash <$> (foldl propagate_step (Some n, c2) (zip ls2 bits)).1).
Proof.
  induction ls1 as [|l1 ls1 IH]; intros [|l2 ls2] bits n c1 c2 Hl F n' E; try done; [cbn; by rewrite E|].
  destruct bits as [|b bits]; [cbn; by rewrite E|]. injection Hl as Hl. cbn in F. inversion F as [|???? El F']; subst. unfold same_level in El.
  cbn [zip zip_with foldl]. unfold propagate_step at 2 4. cbn [fst snd].
  destruct l1 as [l1|], l2 as [l2|], b; cbn [updLevel fmap option_fmap option_map]; apply IH; try done;
    cbn in El |- *; rewrite E; subst; done.
Qed.

Lemma propagate_present p d h : zlen (levels p) = Z.of_nat h -> h <= 127 ->
  (propagateChanges p (Some d)).1 =
  (node_hash <$> (foldl propagate_step (Some (Leaf (idx p) d), [Some (node_hash (Leaf (idx p) d))])
                    (zip (levels p) (indexToBits (idx p) (Z.of_nat h)))).1).
Proof.
  intros Hl Hh. unfold propagateChanges. rewrite Hl, toByte_small by lia. cbn [fmap option_fmap option_map].
  by destruct (foldl _ _ _).
Qed.

Lemma valid_present p d root h : leafDataOpt p = Some d -> zlen (levels p) = Z.of_nat h -> h <= 127 ->
  valid p root (Z.of_nat h) = Success true ->
  root = (node_hash <$> (foldl propagate_step (Some (Leaf (idx p) d), [Some (node_hash (Leaf (idx p) d))])
                           (zip (levels p) (indexToBits (idx p) (Z.of_nat h)))).1).
Proof.
  intros Hd Hl Hh. unfold valid. rewrite Hl, Z.eqb_refl, Hd, propagate_present with (h := h) by done. cbn [require try_bind].
  destruct (fold_present (idx p) d (indexToBits (idx p) (Z.of_nat h)) (levels p)) as [n ->].
  destruct root as [r|]; [|done]. intros [= H]. apply bool_decide_eq_true in H. cbn in H |- *. by rewrite H.
Qed.

Lemma valid_zlen p root h : valid p root h = Success true -> zlen (levels p) = h.
Proof. unfold valid. destruct (Z.eqb_spec (zlen (levels p)) h); done. Qed.

(** The levels of a proof of absence that goes through the same hashes: both
    halves of the first input are passed off as the sibling. *)
Definition forged_levels (i : Z) (d : bytes) (l0 : option Digest) (ls : list (option Digest)) : list (option Digest) :=
  let leaf := node_hash (Leaf i d) in
  Some (if Z.testbit i 0 then default [] l0 ++ leaf else leaf ++ default [] l0) :: ls.

Lemma forged_same i d l0 ls h : zlen (l0 :: ls) = Z.of_nat h -> h <= 127 ->
  (propagateChanges (SProof i None (forged_levels i d l0 ls)) None).1 =
  (propagateChanges (SProof i (Some d) (l0 :: ls)) (Some d)).1.
Proof.
  intros Hl Hh. unfold propagateChanges. cbn [levels idx].
  replace (zlen (forged_levels i d l0 ls)) with (Z.of_nat h) by done. rewrite Hl, toByte_small by lia.
  destruct h as [|h]; [unfold zlen in Hl; cbn in Hl; lia|].
  rewrite indexToBits_seq. cbn [seq fmap list_fmap]. set (bits := _ <$> seq 1 h). change (Z.of_nat 0) with 0%Z.
  unfold forged_levels. cbn [zip zip_with foldl fmap option_fmap option_map].
  set (b := Z.testbit i 0). set (x := if b then _ else _).
  unfold propagate_step at 2 4. cbn [fst snd].
  assert (U : exists n n', updLevel None (Some x) b = Some n /\ updLevel (Some (Leaf i d)) l0 b = Some n' /\
                           node_hash n = node_hash n').
  { unfold x. destruct l0, b; cbn; do 2 eexists; (split_and!; [reflexivity..|]); cbn; by rewrite ?app_nil_r. }
  destruct U as (n & n' & -> & -> & U).
  pose proof (fold_same ls ls bits n' [None; Some (node_hash n)] [Some (node_hash (Leaf i d)); Some (node_hash n')]
                eq_refl (reflexivity _) n U) as F.
  revert F. cbn [fmap option_fmap option_map app]. by do 2 destruct (foldl _ _ _).
Qed.

(** A leaf alone below its levels is hashed without regard to the sides. *)
Lemma fold_alone bits : forall n c, exists n',
  (foldl propagate_step (Some n, c) (zip (replicate (length bits) None) bits)).1 = Some n' /\
  node_hash n' = Nat.iter (length bits) hash (node_hash n).
Proof.
  induction bits as [|b bits IH]; intros n c; [by exists n|]. cbn [length replicate zip zip_with foldl].
  unfold propagate_step at 2. cbn [fst snd].
  assert (U : exists up, updLevel (Some n) None b = Some up /\ node_hash up = hash (node_hash n)).
  { destruct b; eexists; (split; [reflexivity|]); cbn; by rewrite ?app_nil_r. }
  destruct U as (up & -> & U).
  destruct (IH up (c ++ [node_hash <$> Some up])) as (n' & E1 & E2). exists n'. split; [done|].
  by rewrite E2, U, <- Nat.iter_succ_r.
Qed.

Lemma propagate_alone i d h : h <= 127 ->
  (propagateChanges (SProof i (Some d) (replicate h None)) (Some d)).1 =
  Some (Nat.iter h hash (hash (toByteArray i ++ d))).
Proof.
  intros Hh. assert (Hl : zlen (replicate h (None : option Digest)) = Z.of_nat h) by (unfold zlen; by rewrite length_replicate).
  rewrite propagate_present with (h := h) by done. cbn [idx levels].
  assert (Hb : length (indexToBits i (Z.of_nat h)) = h) by by rewrite indexToBits_seq, length_fmap, length_seq.
  destruct (fold_alone (indexToBits i (Z.of_nat h)) (Leaf i d) [Some (node_hash (Leaf i d))]) as (n & E1 & E2).
  rewrite Hb in E1, E2. rewrite E1. cbn [fmap option_fmap option_map]. by rewrite E2.
Qed.

(** ** Filling a tree *)

(** Append at the last index, again and again. *)
Fixpoint append_all (t : SparseMerkleTree) (ds : list bytes) : Try SparseMerkleTree :=
  match ds with
  | [] => Success t
  | d :: ds' => let? r := update t (lastProof t) (Some d) [] passAllFilterFn in append_all r.1 ds'
  end.

Lemma append_represents ds : forall t m h, represents t m h ->
  (lastIndex t + zlen ds < 2 ^ Z.of_nat h)%Z ->
  exists t', append_all t ds = Success t' /\
    represents t' (map_seqZ (lastIndex t) ds ∪ m) h /\ lastIndex t' = (lastIndex t + zlen ds)%Z.
Proof.
  induction ds as [|d ds IH]; intros t m h R Hn.
  - exists t. cbn. rewrite (left_id_L ∅ (∪)). split_and!; [done|done|unfold zlen; cbn; lia].
  - unfold zlen in Hn. cbn [length] in Hn. pose proof R as [_ _ _ Hl Hr _].
    destruct (update_honest t m h (lastIndex t) (Some d) [] passAllFilterFn R) as (t1 & E & R1 & E1);
      [lia|lia|constructor|done|]. rewrite Z.eqb_refl in E1.
    destruct (IH t1 _ h R1) as (t' & E' & R' & El'); [unfold zlen; lia|].
    exists t'. cbn [append_all]. rewrite Hl. cbn [fmap list_fmap] in E. rewrite E. cbn [try_bind fst].
    split_and!; [done| |unfold zlen in *; cbn [length]; lia].
    replace (map_seqZ (lastIndex t) (d :: ds) ∪ m) with (map_seqZ (lastIndex t1) ds ∪ set_leaf m (lastIndex t) (Some d)); [done|].
    rewrite E1. cbn [map_seqZ]. rewrite <- insert_union_l. replace (Z.succ (lastIndex t)) with (lastIndex t + 1)%Z by lia.
    change (set_leaf m (lastIndex t) (Some d)) with (<[lastIndex t := d]> m).
    rewrite insert_union_r; [done|]. apply lookup_map_seqZ_None. lia.
Qed.

(** ** Properties *)

(** C20: an update with the honest proof of any appended or next index refines the
    update of the map: the new tree is the tree of the updated map, its last index
    moves on exactly when the last index was filled, and the proofs handed in
    become the honest proofs of the updated map, all of them valid for the new tree. *)
Theorem update_refines t m h i d js filterFn :
  represents t m h -> (0 <= i <= lastIndex t)%Z -> (lastIndex t + 1 < 2 ^ Z.of_nat h)%Z ->
  Forall (fun j => 0 <= j < 2 ^ Z.of_nat h)%Z js -> filterFn i d = true ->
  exists t' ps, update t (honest m h i) d (honest m h <$> js) filterFn = Success (t', ps) /\
    represents t' (set_leaf m i d) h /\
    lastIndex t' = (if (i =? lastIndex t)%Z then lastIndex t + 1 else lastIndex t)%Z /\
    ps = honest (set_leaf m i d) h <$> js /\
    Forall (fun p => valid_tree p t' = Success true) (lastProof t' :: ps).
Proof.
  intros R Hi Hn Hjs Hf. destruct (update_honest t m h i d js filterFn R Hi Hn Hjs Hf) as (t' & E & R' & El).
  exists t', (honest (set_leaf m i d) h <$> js). split_and!; [done|done|done|done|].
  destruct R' as [Hh' Hb' Hr' Hl' Hr2 _]. unfold valid_tree. rewrite Hh', Hr', Hl'. constructor.
  - apply valid_honest; [lia|done].
  - apply Forall_fmap. eapply Forall_impl; [exact Hjs|]. intros j Hj. cbn beta in Hj. apply valid_honest; [lia|done].
Qed.

(** Appending any number of leaves below the capacity of an empty tree
    succeeds, and every leaf then has a valid proof that carries it. *)
Theorem appended_have_proofs h ds : 0 < h <= 127 -> (zlen ds < 2 ^ Z.of_nat h)%Z ->
  exists t, append_all (emptyTree (Z.of_nat h)) ds = Success t /\ lastIndex t = zlen ds /\
    valid_tree (lastProof t) t = Success true /\
    forall i d, ds !! i = Some d ->
      exists p, idx p = Z.of_nat i /\ leafDataOpt p = Some d /\ valid_tree p t = Success true.
Proof.
  intros Hh Hn. destruct (append_represents ds (emptyTree (Z.of_nat h)) ∅ h) as (t & E & R & El);
    [by apply represents_empty|done|].
  cbn [lastIndex emptyTree zeroProof lastProof idx] in R, El. rewrite (right_id_L ∅ (∪)) in R.
  exists t. split_and!; [done|lia| |].
  - destruct R as [Hh' Hb' Hr' Hl' Hr2 _]. unfold valid_tree. rewrite Hh', Hr', Hl'. apply valid_honest; [lia|done].
  - intros i d Hi. exists (honest (map_seqZ 0 ds) h (Z.of_nat i)).
    split_and!; [done| |].
    + cbn [leafDataOpt honest]. apply lookup_map_seqZ_Some. split; [lia|]. by rewrite Z.sub_0_r, Nat2Z.id.
    + destruct R as [Hh' Hb' Hr' _ _ _]. unfold valid_tree. rewrite Hh', Hr'. apply valid_honest; [lia|].
      apply lookup_lt_Some in Hi. unfold zlen in *. lia.
Qed.

(** C30: a proof that the leaf at an index is present, accepted by the tree of a
    map that has the leaf, carries the leaf of the map, and the root computed
    from it for any new data is the root of the map with that data; unless one
    of the inputs hashed to check it collides with one of those hashed to check
    the honest proof of that leaf. *)
Theorem membership_binding t m h p d d0 : represents t m h -> (0 <= idx p < 2 ^ Z.of_nat h)%Z ->
  m !! idx p = Some d0 -> leafDataOpt p = Some d -> valid_tree p t = Success true ->
  (d = d0 /\ forall d', (propagateChanges p (Some d')).1 = sub (set_leaf m (idx p) (Some d')) h 0) \/
  collides (sparse_inputs (honest m h (idx p)) d0) (sparse_inputs p d).
Proof.
  intros [Hh Hb Hroot _ _ _] Hi Hm Hd Hv. unfold valid_tree in Hv. rewrite Hh, Hroot in Hv.
  pose proof (valid_zlen _ _ _ Hv) as Hl. assert (Hl' : length (levels p) = length (levels (honest m h (idx p)))).
  { pose proof (zlen_honest m h (idx p)). unfold zlen in *. lia. }
  pose proof (valid_present p d _ h Hd Hl ltac:(lia) Hv) as E1.
  pose proof (valid_present (honest m h (idx p)) d0 (sub m h 0) h Hm (zlen_honest _ _ _) ltac:(lia)
                (valid_honest m h (idx p) ltac:(lia) Hi)) as E2.
  rewrite E1 in E2. apply fold_inj in E2; [|done|apply hash_size..]. cbn [idx honest] in E2.
  pose proof (zlen_honest m h (idx p)) as Hlh. unfold sparse_inputs. rewrite Hl, Hlh. cbn [idx honest].
  destruct E2 as [[E F]|C]; [|right; eapply collides_mono, C; set_solver]. cbn in E.
  eapply hash_inj_in in E as [E|C]; [left|right; exact C|by left|by left].
  apply app_inv_head in E. split; [done|]. intros d'.
  pose proof (propagate_honest m h (idx p) (Some d') ltac:(lia) Hi) as P. apply (f_equal fst) in P. cbn [fst] in P.
  rewrite <- P, !propagate_present with (h := h) by (done || lia || apply zlen_honest).
  by apply fold_same.
Qed.

(** Whatever the hash function, absence can be forged: since a level may be
    of any length, an accepted proof that there is no leaf exists for every leaf
    that there is. *)
Theorem absence_forgeable t m h i d : represents t m h -> m !! i = Some d -> (0 <= i < 2 ^ Z.of_nat h)%Z ->
  exists p, idx p = i /\ leafDataOpt p = None /\ valid_tree p t = Success true.
Proof.
  intros [Hh Hb Hroot _ _ _] Hm Hi. destruct h as [|h]; [lia|].
  pose proof (valid_honest m (S h) i ltac:(lia) Hi) as Hv. pose proof (zlen_honest m (S h) i) as Hl.
  destruct (honest m (S h) i) as [j d' [|l0 ls]] eqn:E; [done|].
  injection E as <- E' _ _. rewrite Hm in E'. subst d'. cbn [levels] in Hl.
  exists (SProof i None (forged_levels i d l0 ls)). split_and!; [done|done|].
  unfold valid_tree, valid. rewrite Hh, Hroot. cbn [levels leafDataOpt].
  assert (Hl' : zlen (forged_levels i d l0 ls) = Z.of_nat (S h)) by done.
  rewrite Hl', Z.eqb_refl, (forged_same i d l0 ls (S h)) by (done || lia).
  unfold valid in Hv. cbn [levels leafDataOpt] in Hv. by rewrite Hl, Z.eqb_refl in Hv.
Qed.

(** Whatever the hash function, membership can be forged: the index is hashed
    without its length and an absent sibling adds nothing, so in a tree of one
    leaf every way to read the leaf's bytes as another index and data is a leaf
    with an accepted proof. *)
Theorem index_confusion t h i d j d' : represents t {[i := d]} h -> (0 <= i < 2 ^ Z.of_nat h)%Z ->
  toByteArray j ++ d' = toByteArray i ++ d ->
  valid_tree (SProof j (Some d') (replicate h None)) t = Success true.
Proof.
  intros [Hh Hb Hroot _ _ _] Hi E.
  assert (Hl : forall j d, zlen (levels (SProof j d (replicate h None))) = Z.of_nat h) by (intros; unfold zlen; cbn; by rewrite length_replicate).
  assert (Hon : honest {[i := d]} h i = SProof i (Some d) (replicate h None)).
  { unfold honest. f_equal; [apply lookup_singleton_eq|]. apply list_eq. intros k. rewrite list_lookup_fmap.
    destruct (decide (k < h)).
    2:{ rewrite lookup_seq_ge by lia. symmetry. apply lookup_replicate_None. lia. }
    rewrite lookup_seq_lt, lookup_replicate_2 by done. cbn. f_equal. apply sub_empty. intros x Hx.
    apply lookup_singleton_ne. intros ->. by apply (sibling_other (ancestor x k)). }
  pose proof (propagate_honest {[i := d]} h i (Some d) ltac:(lia) Hi) as P. apply (f_equal fst) in P.
  rewrite Hon, propagate_alone in P by lia. cbn [fst] in P.
  pose proof (set_leaf_same {[i := d]} i) as S. rewrite lookup_singleton_eq in S. rewrite S in P.
  unfold valid_tree, valid. rewrite Hl, Hh, Z.eqb_refl, Hroot, <- P. cbn [require try_bind leafDataOpt].
  rewrite propagate_alone, E by lia. by rewrite bool_decide_true.
Qed.

End Spec.

(** ** Witnesses *)

Definition leaf_of (n : nat) : bytes := [z2b (Z.of_nat n)].

(** The tree of height 2 with two leaves. *)
Lemma two_leaves : exists t, append_all (emptyTree 2) [leaf_of 7; leaf_of 8] = Success t /\
  represents t (map_seqZ 0 [leaf_of 7; leaf_of 8]) 2 /\ lastIndex t = 2%Z.
Proof.
  destruct (append_represents [leaf_of 7; leaf_of 8] (emptyTree 2) ∅ 2) as (t & E & R & El);
    [apply (represents_empty 2); lia|done|].
  exists t. cbn [lastIndex emptyTree zeroProof lastProof idx] in R, El. rewrite (right_id_L ∅ (∪)) in R. auto.
Defined.

Lemma update_refines_witness : exists t t' ps, append_all (emptyTree 2) [leaf_of 7; leaf_of 8] = Success t /\
  update t (lastProof t) (Some (leaf_of 9)) (honest (map_seqZ 0 [leaf_of 7; leaf_of 8]) 2 <$> [0; 1; 3])%Z passAllFilterFn
    = Success (t', ps) /\ Forall (fun p => valid_tree p t' = Success true) (lastProof t' :: ps).
Proof.
  destruct two_leaves as (t & E & R & El).
  destruct (update_refines t _ 2 (lastIndex t) (Some (leaf_of 9)) [0; 1; 3]%Z passAllFilterFn R)
    as (t' & ps & E' & _ & _ & _ & F); [lia|cbn; lia|repeat constructor; lia|done|].
  exists t, t', ps. split_and!; [done| |done]. by rewrite (rep_last _ _ _ R).
Defined.

Lemma appended_have_proofs_witness : exists t, append_all (emptyTree 3) (leaf_of <$> seq 0 7) = Success t /\
  lastIndex t = 7%Z /\ valid_tree (lastProof t) t = Success true.
Proof.
  destruct (appended_have_proofs 3 (leaf_of <$> seq 0 7)) as (t & E & El & Hv & _); [lia|vm_compute; done|].
  exists t. split_and!; [exact E|exact El|exact Hv].
Defined.

Lemma membership_binding_witness : exists t p, append_all (emptyTree 2) [leaf_of 7; leaf_of 8] = Success t /\
  valid_tree p t = Success true /\ leafDataOpt p = Some (leaf_of 8) /\
  (propagateChanges p (Some (leaf_of 9))).1 = sub (map_seqZ 0 [leaf_of 7; leaf_of 9]) 2 0.
Proof.
  destruct two_leaves as (t & E & R & El). set (p := honest (map_seqZ 0 [leaf_of 7; leaf_of 8]) 2 1).
  assert (V : valid_tree p t = Success true).
  { unfold valid_tree. rewrite (rep_root _ _ _ R), (rep_height _ _ _ R). apply valid_honest; cbn; lia. }
  exists t, p. split_and!; [exact E|exact V|done|].
  destruct (membership_binding t _ 2 p (leaf_of 8) (leaf_of 8) R) as [[_ H]|C]; [cbn; lia|done|done|exact V| |].
  - by rewrite H.
  - exfalso. revert C. apply (bool_decide_unpack _). by vm_compute.
Defined.

Lemma absence_forgeable_witness : exists t p, append_all (emptyTree 2) [leaf_of 7; leaf_of 8] = Success t /\
  idx p = 1%Z /\ leafDataOpt p = None /\ valid_tree p t = Success true.
Proof.
  destruct two_leaves as (t & E & R & _).
  destruct (absence_forgeable t _ 2 1 (leaf_of 8) R) as (p & H); [done|cbn; lia|]. exists t, p. by split.
Defined.

(** The byte 128 and a leaf at index 0 is read as the leaf at index 128. *)
Lemma index_confusion_witness : exists t, append_all (emptyTree 8) [z2b 128 :: leaf_of 5] = Success t /\
  valid_tree (SProof 128 (Some (leaf_of 5)) (replicate 8 None)) t = Success true.
Proof.
  destruct (append_represents [z2b 128 :: leaf_of 5] (emptyTree 8) ∅ 8) as (t & E & R & _);
    [apply (represents_empty 8); lia|done|].
  exists t. split; [exact E|]. apply (index_confusion t 8 0 (z2b 128 :: leaf_of 5)); [|lia|reflexivity].
  replace {[0%Z := z2b 128 :: leaf_of 5]} with (map_seqZ 0 [z2b 128 :: leaf_of 5] ∪ ∅ : gmap Z bytes); [exact R|reflexivity].
Defined.

(** ** At the bounds of the index *)

(** The last proof of a full tree is not valid for it. *)
Example full_tree_last_proof :
  (let? t := append_all (emptyTree 2) (leaf_of <$> seq 0 3) in valid_tree (lastProof t) t) = Success true /\
  (let? t := append_all (emptyTree 2) (leaf_of <$> seq 0 4) in valid_tree (lastProof t) t) = Success false.
Proof. split; vm_compute; reflexivity. Qed.

(** The bound accepts the index after the last one, and any negative index; the
    last proof is then no longer one once the last index has moved on to them. *)
Example update_beyond_last (i : Z) : i = 1%Z \/ i = (-3)%Z ->
  (let? r := update (emptyTree 2) (SProof i None [None; None]) (Some (leaf_of 7)) [] passAllFilterFn in
   let? t := append_all r.1 [leaf_of 8] in valid_tree (lastProof t) t) = Success false.
Proof. intros [-> | ->]; vm_compute; reflexivity. Qed.
