(* ===== verification/Base16.v ===== *)
(** * Base16: hexadecimal encoding, the conversions of identifiers, and Base58

    sparkz-util/.../encode/Base16.scala, Base58.scala and sparkz-util/.../package.scala.  A
    string's characters are those of Rocq's strings, codes 0 to 255; the code
    treats every larger code like 127, as an error. *)

From S2P Require Import Prelude External.
From Stdlib Require Export Ascii.

Definition char_code (c : ascii) : Z := Z.of_N (N_of_ascii c).

Definition hexArray : list ascii :=
  ["0"; "1"; "2"; "3"; "4"; "5"; "6"; "7"; "8"; "9"; "a"; "b"; "c"; "d"; "e"; "f"]%char.

(** hexIndex: -1 for the characters outside the alphabet *)
Definition hexIndex (c : Z) : Z :=
  if (48 <=? c)%Z && (c <=? 57)%Z then (c - 48)%Z
  else if (97 <=? c)%Z && (c <=? 102)%Z then (c - 87)%Z
  else if (65 <=? c)%Z && (c <=? 70)%Z then (c - 55)%Z
  else (-1)%Z.

Definition hex_char (i : Z) : ascii := default "0"%char (hexArray !! Z.to_nat i).

Fixpoint encode (input : bytes) : string :=
  match input with
  | [] => EmptyString
  | b :: input' =>
      let v := ub b in
      String (hex_char (Z.shiftr v 4)) (String (hex_char (Z.land v 15)) (encode input'))
  end.

(** One pair of characters *)
Definition decode_pair (c1 c2 : Z) : option byte :=
  if (0 <? c1)%Z && (c1 <? 127)%Z && (0 <? c2)%Z && (c2 <? 127)%Z then
    let b1 := hexIndex c1 in
    let b2 := hexIndex c2 in
    if (Z.lor b1 b2 <? 0)%Z then None else Some (z2b (Z.lor (Z.shiftl b1 4) b2))
  else None.

Fixpoint decode_loop (input : string) : option bytes :=
  match input with
  | EmptyString => Some []
  | String c1 (String c2 rest) =>
      match decode_pair (char_code c1) (char_code c2), decode_loop rest with
      | Some b, Some bs => Some (b :: bs)
      | _, _ => None
      end
  | String _ EmptyString => None
  end.

Definition decode (input : string) : Try bytes :=
  if Nat.odd (String.length input) then Failure (Raised "IOException")
  else of_option (Raised "IOException") (decode_loop input).

(** package.scala *)
Definition bytesToId (bs : bytes) : string := encode bs.
Definition idToBytes (id : string) : Try bytes := decode id.

(** ** Round trips *)

Lemma hexIndex_hex_char i : (0 <= i < 16)%Z ->
  hexIndex (char_code (hex_char i)) = i /\ (0 < char_code (hex_char i) < 127)%Z.
Proof.
  intros Hi. assert (forall n, n < 16 -> hexIndex (char_code (hex_char (Z.of_nat n))) = Z.of_nat n /\
    (0 < char_code (hex_char (Z.of_nat n)) < 127)%Z) as H.
  { intros n Hn. do 16 (destruct n as [|n]; [by vm_compute|]). lia. }
  specialize (H (Z.to_nat i) ltac:(lia)). by rewrite Z2Nat.id in H by lia.
Qed.

Lemma decode_pair_hex b : decode_pair (char_code (hex_char (Z.shiftr (ub b) 4))) (char_code (hex_char (Z.land (ub b) 15))) = Some b.
Proof.
  pose proof (ub_range b) as Hb.
  assert (0 <= Z.shiftr (ub b) 4 < 16)%Z as H1.
  { rewrite Z.shiftr_div_pow2 by lia. change (2 ^ 4)%Z with 16%Z.
    pose proof (Z.div_mod (ub b) 16). pose proof (Z.mod_pos_bound (ub b) 16). lia. }
  assert (Z.land (ub b) 15 = ub b mod 16)%Z as E2 by (change 15%Z with (Z.ones 4); by rewrite Z.land_ones).
  assert (0 <= Z.land (ub b) 15 < 16)%Z as H2 by (rewrite E2; apply Z.mod_pos_bound; lia).
  destruct (hexIndex_hex_char _ H1) as [I1 R1]. destruct (hexIndex_hex_char _ H2) as [I2 R2].
  unfold decode_pair. rewrite !(proj2 (Z.ltb_lt _ _)) by lia. cbn [andb]. rewrite I1, I2.
  rewrite (proj2 (Z.ltb_ge _ _)) by (apply Z.lor_nonneg; lia). f_equal.
  rewrite Z.shiftl_mul_pow2 by lia. rewrite E2, Z.shiftr_div_pow2 by lia. change (2 ^ 4)%Z with 16%Z.
  assert (Z.lor (ub b / 16 * 16) (ub b mod 16) = ub b) as ->; [|apply z2b_ub].
  change 16%Z with (2 ^ 4)%Z. rewrite <- Z.shiftl_mul_pow2, <- Z.shiftr_div_pow2, <- Z.land_ones by lia.
  apply Z.bits_inj'. intros n Hn. rewrite Z.lor_spec, Z.land_spec, Z.shiftl_spec by lia.
  destruct (Z.lt_ge_cases n 4).
  - rewrite Z.testbit_neg_r, Z.ones_spec_low by lia. by rewrite andb_true_r.
  - rewrite Z.shiftr_spec, Z.ones_spec_high by lia. rewrite andb_false_r, orb_false_r. f_equal. lia.
Qed.

Lemma encode_even bs : Nat.odd (String.length (encode bs)) = false.
Proof. induction bs as [|b bs IH]; [done|]. exact IH. Qed.

Lemma decode_encode bs : decode (encode bs) = Success bs.
Proof.
  unfold decode. rewrite encode_even. assert (decode_loop (encode bs) = Some bs) as ->; [|done].
  induction bs as [|b bs IH]; [done|]. cbn [encode decode_loop]. by rewrite decode_pair_hex, IH.
Qed.

Lemma encode_inj bs bs' : encode bs = encode bs' -> bs = bs'.
Proof. intros E. pose proof (decode_encode bs) as H. rewrite E, decode_encode in H. congruence. Qed.

(** A canonical identifier: what [encode] produces. *)
Definition lower (c : ascii) : ascii :=
  if (65 <=? char_code c)%Z && (char_code c <=? 70)%Z then ascii_of_N (N_of_ascii c + 32) else c.

Fixpoint lower_string (s : string) : string :=
  match s with EmptyString => EmptyString | String c s' => String (lower c) (lower_string s') end.

Lemma hex_char_lower c : (0 <= hexIndex (char_code c))%Z -> hex_char (hexIndex (char_code c)) = lower c /\ (hexIndex (char_code c) < 16)%Z.
Proof.
  destruct c as [b0 b1 b2 b3 b4 b5 b6 b7].
  destruct b0, b1, b2, b3, b4, b5, b6, b7; vm_compute; intros H; try (by destruct H); split; done.
Qed.

Lemma nibbles h l : (0 <= h < 16)%Z -> (0 <= l < 16)%Z ->
  Z.shiftr (ub (z2b (Z.lor (Z.shiftl h 4) l))) 4 = h /\ Z.land (ub (z2b (Z.lor (Z.shiftl h 4) l))) 15 = l.
Proof.
  intros Hh Hl. assert (forall n m, n < 16 -> m < 16 ->
    let x := ub (z2b (Z.lor (Z.shiftl (Z.of_nat n) 4) (Z.of_nat m))) in
    Z.shiftr x 4 = Z.of_nat n /\ Z.land x 15 = Z.of_nat m) as H.
  { intros n m Hn Hm. do 16 (destruct n as [|n]; [do 16 (destruct m as [|m]; [by vm_compute|]); lia|]). lia. }
  specialize (H (Z.to_nat h) (Z.to_nat l) ltac:(lia) ltac:(lia)). by rewrite !Z2Nat.id in H by lia.
Qed.

Lemma decode_sound s bs : decode s = Success bs -> encode bs = lower_string s.
Proof.
  unfold decode. destruct (Nat.odd _); [done|]. intros H.
  assert (decode_loop s = Some bs) as Hl by (destruct (decode_loop s); simplify_eq/=; done). clear H.
  assert (forall n s bs, String.length s <= n -> decode_loop s = Some bs -> encode bs = lower_string s) as Hn; [|by eapply Hn].
  clear. induction n as [|n IH]; intros s bs Hs Hd.
  - destruct s; [|simpl in Hs; lia]. by injection Hd as <-.
  - destruct s as [|c1 [|c2 s]]; [by injection Hd as <-|done|]. cbn [decode_loop] in Hd.
    destruct (decode_pair _ _) as [b|] eqn:Eb; [|done]. destruct (decode_loop s) as [bs'|] eqn:Es; [|done].
    injection Hd as <-. cbn [encode lower_string]. rewrite (IH s bs') by (simpl in Hs; done || lia).
    unfold decode_pair in Eb. destruct (_ && _); [|done].
    destruct (Z.ltb_spec (Z.lor (hexIndex (char_code c1)) (hexIndex (char_code c2))) 0) as [|Hor]; [done|].
    apply Z.lor_nonneg in Hor as [H1 H2]. injection Eb as <-.
    destruct (hex_char_lower c1 H1) as [L1 R1]. destruct (hex_char_lower c2 H2) as [L2 R2].
    destruct (nibbles (hexIndex (char_code c1)) (hexIndex (char_code c2)) ltac:(lia) ltac:(lia)) as [-> ->].
    by rewrite L1, L2.
Qed.

(** ** Base58 *)

Module Base58.

Definition Alphabet : string := "123456789ABCDEFGHJKLMNPQRSTUVWXYZabcdefghijkmnopqrstuvwxyz".
Definition DecodeTable : list Z :=
  [0; 1; 2; 3; 4; 5; 6; 7; 8; -1; -1; -1; -1; -1; -1; -1; 9; 10; 11; 12; 13; 14; 15; 16; -1; 17; 18; 19; 20; 21; -1;
   22; 23; 24; 25; 26; 27; 28; 29; 30; 31; 32; -1; -1; -1; -1; -1; -1; 33; 34; 35; 36; 37; 38; 39; 40; 41; 42; 43; -1;
   44; 45; 46; 47; 48; 49; 50; 51; 52; 53; 54; 55; 56; 57]%Z.
Definition Base : Z := 58.

(** Alphabet.charAt *)
Definition charAt (i : Z) : ascii := default "1"%char (String.get (Z.to_nat i) Alphabet).

(** The while loop of encode: [bi] in digits before [s] *)
Fixpoint digits_loop (fuel : nat) (bi : Z) (s : string) : Try string :=
  match fuel with
  | O => Failure NoFuel
  | S fuel' =>
      if (Base <=? bi)%Z then digits_loop fuel' (bi / Base) (String (charAt (bi mod Base)) s)
      else Success (String (charAt bi) s)
  end.

(** takeWhile(_ == 0) and takeWhile of the first character: their lengths *)
Fixpoint leading_zeros (input : bytes) : nat :=
  match input with b :: input' => if (ub b =? 0)%Z then S (leading_zeros input') else 0 | [] => 0 end.
Fixpoint leading_ones (input : string) : nat :=
  match input with
  | String c input' => if Ascii.eqb c (charAt 0) then S (leading_ones input') else 0
  | EmptyString => 0
  end.

Definition base58_encode (input : bytes) : Try string :=
  let bi := be_decode input in
  let? s := if (0 <? bi)%Z then digits_loop (S (Z.to_nat (Z.log2 bi))) bi EmptyString else Success EmptyString in
  Success (Nat.iter (leading_zeros input) (String (charAt 0)) s).

Definition toBase58 (c : ascii) : Z :=
  let x := char_code c in
  if (x <? 49)%Z then (-1)%Z
  else if (x <=? 122)%Z then default (-1)%Z (DecodeTable !! Z.to_nat (x - 49)) else (-1)%Z.

(** decodeToBigInteger: the number and the weight of the next digit *)
Fixpoint decode_digits (input : string) : Try (Z * Z) :=
  match input with
  | EmptyString => Success (0, 1)%Z
  | String ch input' =>
      let? (bi, k) := decode_digits input' in
      let alphaIndex := toBase58 ch in
      if (alphaIndex =? -1)%Z then Failure AssertionError else Success (bi + alphaIndex * k, k * Base)%Z
  end.

Definition base58_decode (input : string) : Try bytes :=
  let? (decoded, _) := decode_digits input in
  let bs := if (decoded =? 0)%Z then [] else toByteArray decoded in
  let stripSignBytePos := match bs with b0 :: b1 :: _ => if (ub b0 =? 0)%Z && (b2z b1 <? 0)%Z then 1 else 0 | _ => 0 end in
  Success (replicate (leading_ones input) (z2b 0) ++ drop stripSignBytePos bs).

(** *** Round trip *)

Lemma toBase58_charAt d : (0 <= d < 58)%Z -> toBase58 (charAt d) = d.
Proof.
  intros H. assert (forallb (fun d => (toBase58 (charAt d) =? d)%Z) (seqZ 0 58) = true) as F by (vm_compute; reflexivity).
  rewrite forallb_forall in F. apply Z.eqb_eq, F, list_elem_of_In, elem_of_seqZ. lia.
Qed.

Lemma charAt_first d : (0 <= d < 58)%Z -> charAt d = charAt 0 -> d = 0%Z.
Proof. intros H E. rewrite <- (toBase58_charAt d H), E. reflexivity. Qed.

(** The digits of a positive number are read back, and the first is not the zero digit. *)
Lemma digits_read fuel : forall bi s v k, (0 < bi)%Z -> (Z.log2 bi < Z.of_nat fuel)%Z -> decode_digits s = Success (v, k) ->
  exists s' k', digits_loop fuel bi s = Success s' /\ decode_digits s' = Success (v + bi * k, k')%Z /\ leading_ones s' = 0.
Proof.
  induction fuel as [|fuel IH]; intros bi s v k Hbi Hf E; [pose proof (Z.log2_nonneg bi); lia|].
  cbn [digits_loop]. unfold Base. destruct (Z.leb_spec 58 bi) as [Hge|Hlt].
  - pose proof (Z.mod_pos_bound bi 58 ltac:(lia)) as Hm. pose proof (Z.div_mod bi 58 ltac:(lia)) as Hd.
    assert (0 < bi / 58)%Z by (apply Z.div_str_pos; lia).
    assert (Z.log2 (bi / 58) < Z.log2 bi)%Z.
    { apply (Z.le_lt_trans _ (Z.log2 (bi / 2))); [apply Z.log2_le_mono, Z.div_le_compat_l; lia|].
      rewrite <- Z.div2_div. rewrite Z.div2_spec, Z.log2_shiftr by lia.
      pose proof (Z.log2_le_mono 58 bi Hge) as L. change (Z.log2 58) with 5%Z in L. lia. }
    destruct (IH (bi / 58)%Z (String (charAt (bi mod 58)) s) (v + bi mod 58 * k)%Z (k * 58)%Z) as (s' & k' & E1 & E2 & E3); [done|lia| |].
    + cbn [decode_digits]. rewrite E. cbn [try_bind]. rewrite toBase58_charAt by done.
      destruct (Z.eqb_spec (bi mod 58) (-1)); [lia|done].
    + exists s', k'. split_and!; [done| |done]. rewrite E2. do 2 f_equal. rewrite Hd at 3. ring.
  - eexists _, _. split; [reflexivity|]. split.
    + cbn [decode_digits]. rewrite E. cbn [try_bind]. rewrite toBase58_charAt by lia.
      destruct (Z.eqb_spec bi (-1)); [lia|]. reflexivity.
    + cbn [leading_ones]. destruct (Ascii.eqb_spec (charAt bi) (charAt 0)) as [Ec|]; [|done].
      apply charAt_first in Ec; lia.
Qed.

Lemma leading_ones_iter n s v k : decode_digits s = Success (v, k) ->
  (exists k', decode_digits (Nat.iter n (String (charAt 0)) s) = Success (v, k')) /\
  leading_ones (Nat.iter n (String (charAt 0)) s) = n + leading_ones s.
Proof.
  intros E. induction n as [|n [[k' IH1] IH2]]; [by split; [exists k|]|]. cbn [Nat.iter nat_rect]. split.
  - eexists. cbn [decode_digits]. unfold Nat.iter in IH1. rewrite IH1. cbn [try_bind].
    change (toBase58 (charAt 0)) with 0%Z. cbn [Z.eqb]. by rewrite Z.mul_0_l, Z.add_0_r.
  - cbn [leading_ones]. rewrite Ascii.eqb_refl. unfold Nat.iter in IH2. by rewrite IH2.
Qed.

(** The bytes of the number of an array without leading zeros, without the sign byte *)
Lemma bitLength_between z n : (0 <= n)%Z -> (2 ^ n <= z < 2 ^ (n + 1))%Z -> bitLength z = (n + 1)%Z.
Proof.
  intros Hn H. pose proof (Z.pow_pos_nonneg 2 n ltac:(lia) Hn). unfold bitLength.
  destruct (Z.ltb_spec z 0); [lia|]. destruct (Z.eqb_spec z 0); [lia|]. rewrite (Z.log2_unique z n); lia.
Qed.

Lemma bitLength_range z m n : (0 <= m)%Z -> (2 ^ m <= z < 2 ^ n)%Z -> (m + 1 <= bitLength z <= n)%Z.
Proof.
  intros Hm H. pose proof (Z.pow_pos_nonneg 2 m ltac:(lia) Hm). unfold bitLength.
  destruct (Z.ltb_spec z 0); [lia|]. destruct (Z.eqb_spec z 0); [lia|].
  assert (m <= Z.log2 z)%Z by (apply Z.log2_le_pow2; lia).
  assert (Z.log2 z < n)%Z; [|lia]. destruct (Z.lt_ge_cases n 0); [rewrite (Z.pow_neg_r 2 n) in H by lia; lia|]. apply Z.log2_lt_pow2; lia.
Qed.

Lemma b2z_high x : (b2z x <? 0)%Z = (128 <=? ub x)%Z.
Proof. revert x. intros x. apply eqb_prop. revert x. apply byte_forall. vm_compute. reflexivity. Qed.

Definition strip (bs : bytes) : bytes :=
  drop match bs with b0 :: b1 :: _ => if (ub b0 =? 0)%Z && (b2z b1 <? 0)%Z then 1 else 0 | _ => 0 end bs.

Lemma strip_bytes x b : ub x <> 0%Z -> strip (toByteArray (be_decode (x :: b))) = x :: b.
Proof.
  intros Hx. set (n := Z.of_nat (length b)). pose proof (ub_range x) as Hr.
  assert (Hlo : (ub x * 256 ^ n <= be_decode (x :: b) < (ub x + 1) * 256 ^ n)%Z).
  { cbn [be_decode]. pose proof (be_decode_range b) as H. unfold zlen in *. fold n in H |- *. lia. }
  unfold n in Hlo. rewrite pow_256 in Hlo. fold n in Hlo. set (p := (8 * n)%Z) in *. assert (0 <= p)%Z by (unfold p, n; lia).
  pose proof (Z.pow_pos_nonneg 2 p ltac:(lia) ltac:(lia)) as Hp. unfold toByteArray.
  destruct (Z.lt_ge_cases (ub x) 128) as [Hs|Hb].
  - assert (p + 1 <= bitLength (be_decode (x :: b)) <= p + 7)%Z as Hbl.
    { apply bitLength_range; [done|]. rewrite Z.pow_add_r by lia. change (2 ^ 7)%Z with 128%Z. nia. }
    replace (bitLength (be_decode (x :: b)) / 8)%Z with n.
    2:{ apply (Z.div_unique_pos _ 8 n (bitLength (be_decode (x :: b)) - p)); unfold p in *; lia. }
    replace (Z.to_nat (n + 1)) with (length (x :: b)) by (unfold n; cbn [length]; lia).
    rewrite be_encode_decode. unfold strip. destruct b as [|y b]; [done|]. destruct (Z.eqb_spec (ub x) 0); [done|]. done.
  - assert (bitLength (be_decode (x :: b)) = p + 7 + 1)%Z as Hbl.
    { apply bitLength_between; [lia|]. replace (p + 7 + 1)%Z with (p + 8)%Z by lia. rewrite !Z.pow_add_r by lia.
      change (2 ^ 7)%Z with 128%Z. change (2 ^ 8)%Z with 256%Z. nia. }
    rewrite Hbl. replace ((p + 7 + 1) / 8)%Z with (n + 1)%Z.
    2:{ apply (Z.div_unique_pos _ 8 (n + 1) 0); unfold p; lia. }
    replace (Z.to_nat (n + 1 + 1)) with (S (length (x :: b))) by (unfold n; cbn [length]; lia).
    cbn [be_encode]. rewrite be_encode_decode. unfold strip. rewrite Z.div_small.
    2:{ pose proof (be_decode_range (x :: b)). unfold zlen in *. lia. }
    change (ub (z2b 0) =? 0)%Z with true. cbn [andb]. rewrite b2z_high. destruct (Z.leb_spec 128 (ub x)); [done|lia].
Qed.

Lemma zeros_split b : exists b', b = replicate (leading_zeros b) (z2b 0) ++ b' /\ be_decode b = be_decode b' /\
  match b' with x :: _ => ub x <> 0%Z | [] => True end.
Proof.
  induction b as [|x b (b' & E1 & E2 & E3)]; [by exists []|]. cbn [leading_zeros]. destruct (Z.eqb_spec (ub x) 0) as [H|H].
  - exists b'. cbn [replicate app be_decode]. rewrite <- E1, H. split_and!; [|lia|done].
    f_equal. by rewrite <- (z2b_ub x), H.
  - exists (x :: b). by split_and!.
Qed.

(** Encoding ends, and what it makes is decoded to the bytes encoded, leading zeros included. *)
Theorem base58_roundtrip input : exists s, base58_encode input = Success s /\ base58_decode s = Success input.
Proof.
  destruct (zeros_split input) as (b & Eb & Ed & Hb). unfold base58_encode. rewrite Ed.
  assert (exists s k, (if (0 <? be_decode b)%Z then digits_loop (S (Z.to_nat (Z.log2 (be_decode b)))) (be_decode b) EmptyString
                      else Success EmptyString) = Success s /\ decode_digits s = Success (be_decode b, k) /\ leading_ones s = 0)
    as (s & k & E & Es & El).
  { destruct (Z.ltb_spec 0 (be_decode b)) as [Hpos|Hz].
    - pose proof (Z.log2_nonneg (be_decode b)).
      destruct (digits_read (S (Z.to_nat (Z.log2 (be_decode b)))) (be_decode b) EmptyString 0 1 Hpos ltac:(lia) eq_refl)
        as (s & k & H1 & H2 & H3). exists s, k. split_and!; [done| |done]. rewrite H2. do 2 f_equal. lia.
    - exists EmptyString, 1%Z. pose proof (be_decode_range b). split_and!; [done| |done]. cbn. do 2 f_equal. lia. }
  rewrite E. cbn [try_bind]. eexists. split; [reflexivity|].
  destruct (leading_ones_iter (leading_zeros input) s _ _ Es) as [[k' E1] E2].
  unfold base58_decode. rewrite E1, E2, El, Nat.add_0_r. cbn [try_bind]. rewrite Eb at 2. do 2 f_equal.
  destruct b as [|x b]; [done|]. destruct (Z.eqb_spec (be_decode (x :: b)) 0) as [Hz|_]; [|by apply (strip_bytes x b)].
  exfalso. cbn [be_decode] in Hz. pose proof (be_decode_range b). pose proof (ub_range x).
  pose proof (Z.pow_pos_nonneg 256 (zlen b) ltac:(lia) ltac:(unfold zlen; lia)). nia.
Qed.

Example base58_leading : base58_encode [z2b 0; z2b 0; z2b 255; z2b 1] = Success "11LQY"%string /\ base58_decode "11LQY" = Success [z2b 0; z2b 0; z2b 255; z2b 1].
Proof. split; vm_compute; reflexivity. Qed.

End Base58.
