(* ===== verification/Network.v ===== *)
(** * Network: what the network components share

    core/network/ConnectedPeer.scala, ConnectionId.scala and
    core/app/Version.scala.  Socket addresses are numbers: the components
    compare them and pass them on. *)

From S2P Require Import Prelude.

(** ConnectedPeer.scala: equality and hash are those of the remote address. *)
Record ConnectedPeer := Peer {
  remoteAddress : N;
  localAddress : N;
  outgoing : bool
}.

#[export] Instance peer_eq_dec : EqDecision ConnectedPeer.
Proof. solve_decision. Defined.

(** ConnectionId equality compares all three. *)
Definition sameConnectionId (p q : ConnectedPeer) : bool := bool_decide (p = q).

(** Version.scala: three signed bytes, compared digit by digit *)
Record Version := Ver { firstDigit : Z; secondDigit : Z; thirdDigit : Z }.

#[export] Instance version_eq_dec : EqDecision Version.
Proof. solve_decision. Defined.

Definition version_compare (v w : Version) : Z :=
  if negb (firstDigit v =? firstDigit w)%Z then (firstDigit v - firstDigit w)%Z
  else if negb (secondDigit v =? secondDigit w)%Z then (secondDigit v - secondDigit w)%Z
  else (thirdDigit v - thirdDigit w)%Z.

Definition Version_initial : Version := Ver 0 0 1.

(** PenaltyType.scala; [DisconnectPenalty] keeps what it reads of the settings. *)
Inductive PenaltyType :=
| NonDeliveryPenalty
| MisbehaviorPenalty
| SpamPenalty
| PermanentPenalty
| DisconnectPenalty (penaltyScoreThreshold : Z)
| CustomPenaltyDuration (penaltyDurationInMinutes : Z).

#[export] Instance penalty_eq_dec : EqDecision PenaltyType.
Proof. solve_decision. Defined.

Definition penaltyScore (p : PenaltyType) : Z :=
  match p with
  | NonDeliveryPenalty => 2
  | MisbehaviorPenalty => 10
  | SpamPenalty => 25
  | PermanentPenalty => 1000000000
  | DisconnectPenalty threshold => toInt (threshold + 1)
  | CustomPenaltyDuration _ => 0
  end.

Definition isPermanent (p : PenaltyType) : bool :=
  match p with PermanentPenalty => true | _ => false end.
