(* ===== verification/Messages.v ===== *)
(** * Messages: the framing of network messages

    core/network/message/Message.scala, MessageSpec.scala and
    MessageSerializer.scala.  Akka's big-endian integer codec is a parameter
    with its laws; Blake2b256 is the [CryptographicHash] of the section. *)

From S2P Require Import Prelude External Network.

(** ** ByteString integers *)

Class ByteStringInts := {
  putInt : Z -> bytes;
  getInt : bytes -> Z
}.

(** putInt writes four bytes, big-endian, and getInt inverts it. *)
Class ByteStringLaws (B : ByteStringInts) : Prop := {
  putInt_length z : length (putInt z) = 4;
  getInt_putInt z : isInt z = true -> getInt (putInt z) = z;
  putInt_getInt b : length b = 4 -> putInt (getInt b) = b /\ isInt (getInt b) = true
}.

#[export] Instance bytestring_be : ByteStringInts := {|
  putInt := be_encode 4;
  getInt b := wrap 32 (be_decode b)
|}.

#[export] Instance bytestring_be_laws : ByteStringLaws bytestring_be.
Proof.
  split.
  - intros z. apply be_encode_length.
  - intros z Hz. cbn [getInt putInt bytestring_be]. rewrite be_decode_encode. change (256 ^ Z.of_nat 4)%Z with (2 ^ 32)%Z.
    apply wrap_mod; [lia|]. unfold isInt, MinInt, MaxInt in Hz. lia.
  - intros b Hb. split.
    + cbn [putInt getInt bytestring_be]. rewrite <- (be_encode_mod 4). change (256 ^ Z.of_nat 4)%Z with (2 ^ 32)%Z.
      unfold wrap. rewrite Zminus_mod_idemp_l. replace (_ + _ - _)%Z with (be_decode b) by lia.
      change (2 ^ 32)%Z with (256 ^ Z.of_nat 4)%Z. rewrite be_encode_mod, <- Hb. apply be_encode_decode.
    + cbn [getInt bytestring_be]. pose proof (wrap_range 32 (be_decode b) ltac:(lia)) as H.
      unfold isInt, MinInt, MaxInt. change (32 - 1)%Z with 31%Z in H. lia.
Qed.

(** ** Messages *)

(** MessageSpec, with the SparkzSerializer methods the framing uses *)
Record MessageSpec := {
  Content : Type;
  messageCode : Z;
  protocolVersion : Version;
  toBytes : Content -> Try bytes;
  parseBytesTry : bytes -> Try Content
}.

Definition MagicLength : Z := 4.
Definition ChecksumLength : Z := 4.
Definition HeaderLength : Z := MagicLength + 5.

Section Messages.
Context `{HF : CryptographicHash} `{B : ByteStringInts}.

Record Message := Msg {
  spec : MessageSpec;
  input : bytes + Content spec;
  source : option ConnectedPeer
}.

Definition dataBytes (m : Message) : Try bytes :=
  match input m with
  | inl db => Success db
  | inr d => toBytes (spec m) d
  end.

Definition data (m : Message) : Try (Content (spec m)) :=
  match input m with
  | inl db => parseBytesTry (spec m) db
  | inr d => Success d
  end.

Definition dataLength (m : Message) : Try Z := try_map zlen (dataBytes m).

Definition messageLength (m : Message) : Try Z :=
  let? n := dataLength m in
  Success (if (0 <? n)%Z then HeaderLength + ChecksumLength + n else HeaderLength)%Z.

(** ** MessageSerializer *)

Record MessageSerializer := {
  specsMap : gmap Z MessageSpec;
  magicBytes : bytes;
  messageLengthBytesLimit : Z
}.

(** The constructor: the specs' codes must be distinct. *)
Definition mk_specsMap (specs : list MessageSpec) : Try (gmap Z MessageSpec) :=
  let m := foldl (fun m s => <[messageCode s := s]> m) ∅ specs in
  if Nat.eqb (size m) (length specs) then Success m else Failure AssertionError.

Definition mk_serializer (specs : list MessageSpec) (magic : bytes) (limit : Z) : Try MessageSerializer :=
  let? m := mk_specsMap specs in Success (Build_MessageSerializer m magic limit).

Definition checksum (db : bytes) : bytes := take (Z.to_nat ChecksumLength) (hash db).

Definition serialize (s : MessageSerializer) (obj : Message) : Try bytes :=
  let? db := dataBytes obj in
  let header := magicBytes s ++ [z2b (messageCode (spec obj))] ++ putInt (zlen db) in
  Success (if (0 <? zlen db)%Z then header ++ checksum db ++ db else header).

(** getBytes(n) of the iterator *)
Definition it_getBytes (n : Z) (it : bytes) : Try (bytes * bytes) :=
  if (zlen it <? n)%Z then Failure NoSuchElement else Success (take (Z.to_nat n) it, drop (Z.to_nat n) it).

Definition MaliciousBehaviorException : exn := Raised "MaliciousBehaviorException".

Definition deserialize (s : MessageSerializer) (byteString : bytes) (sourceOpt : option ConnectedPeer)
    : Try (option Message) :=
  if (zlen byteString <? HeaderLength)%Z then Success None else
  let? (magic, it) := it_getBytes MagicLength byteString in
  if negb (bool_decide (magic = magicBytes s)) then Failure MaliciousBehaviorException else
  let? (code, it) := it_getBytes 1 it in
  let msgCode := b2z (hd (z2b 0) code) in
  match specsMap s !! msgCode with
  | None => Failure MaliciousBehaviorException
  | Some sp =>
      let? (lengthBytes, it) := it_getBytes 4 it in
      let length := getInt lengthBytes in
      if (length <? 0)%Z || (messageLengthBytesLimit s <? length)%Z then Failure MaliciousBehaviorException else
      if negb (length =? 0)%Z && (zlen byteString <? toInt (length + HeaderLength + ChecksumLength))%Z
      then Success None
      else if (0 <? length)%Z then
        let? (sum, it) := it_getBytes ChecksumLength it in
        let? (db, it) := it_getBytes length it in
        if negb (bool_decide (sum = checksum db)) then Failure MaliciousBehaviorException
        else Success (Some (Msg sp (inl db) sourceOpt))
      else Success (Some (Msg sp (inl []) sourceOpt))
  end.
End Messages.
