(* ===== verification/MessagesThms.v ===== *)
(** * MessagesThms: the framing accepts exactly the serialized messages *)

From S2P Require Import Prelude External Network Messages.

Section Framing.
Context `{HF : CryptographicHash} `{BL : ByteStringLaws}.

(** A serializer as MessageSerializer's constructor and the settings make it:
    specs under their byte codes, four magic bytes, a limit within an Int. *)
Record serializer_ok (s : MessageSerializer) : Prop := {
  ok_specs c sp : specsMap s !! c = Some sp -> messageCode sp = c /\ (-128 <= c <= 127)%Z;
  ok_magic : length (magicBytes s) = 4;
  ok_limit : (0 <= messageLengthBytesLimit s <= MaxInt - HeaderLength - ChecksumLength)%Z;
  ok_digest : 4 <= DigestSize
}.

Definition body (db : bytes) : bytes := if (0 <? zlen db)%Z then checksum db ++ db else [].

(** The bytes of a message *)
Definition frame (s : MessageSerializer) (sp : MessageSpec) (db : bytes) : bytes :=
  magicBytes s ++ [z2b (messageCode sp)] ++ putInt (zlen db) ++ body db.

Lemma serialize_frame s m db : dataBytes m = Success db -> serialize s m = Success (frame s (spec m) db).
Proof.
  intros E. unfold serialize, frame, body. rewrite E. cbn [try_bind]. destruct (0 <? zlen db)%Z.
  - by rewrite <- !app_assoc.
  - by rewrite app_nil_r.
Qed.

Lemma checksum_length db : 4 <= DigestSize -> length (checksum db) = 4.
Proof. intros H. unfold checksum. rewrite length_take, hash_size. change (Z.to_nat ChecksumLength) with 4. lia. Qed.

Lemma it_getBytes_app (a b : bytes) : it_getBytes (zlen a) (a ++ b) = Success (a, b).
Proof.
  unfold it_getBytes. rewrite zlen_app. pose proof (zlen_nonneg b).
  rewrite (proj2 (Z.ltb_ge _ _)) by lia. unfold zlen. by rewrite Nat2Z.id, take_app_length, drop_app_length.
Qed.

(** What follows the header, once the code and the length are read. *)
Definition parse_body (s : MessageSerializer) (sp : MessageSpec) (length : Z) (it : bytes) (src : option ConnectedPeer)
    : Try (option Message) :=
  if (length <? 0)%Z || (messageLengthBytesLimit s <? length)%Z then Failure MaliciousBehaviorException else
  if negb (length =? 0)%Z && (zlen it <? length + ChecksumLength)%Z then Success None
  else if (0 <? length)%Z then
    let? (sum, it) := it_getBytes ChecksumLength it in
    let? (db, it) := it_getBytes length it in
    if negb (bool_decide (sum = checksum db)) then Failure MaliciousBehaviorException
    else Success (Some (Msg sp (inl db) src))
  else Success (Some (Msg sp (inl []) src)).

Lemma deserialize_header s mg c lb it src : serializer_ok s -> length mg = 4 -> length lb = 4 ->
  deserialize s (mg ++ [c] ++ lb ++ it) src =
    if negb (bool_decide (mg = magicBytes s)) then Failure MaliciousBehaviorException else
    match specsMap s !! b2z c with
    | None => Failure MaliciousBehaviorException
    | Some sp => parse_body s sp (getInt lb) it src
    end.
Proof.
  intros [_ _ Hlim _] Lm Ll. unfold deserialize. rewrite !zlen_app.
  assert (zlen mg = 4 /\ zlen [c] = 1 /\ zlen lb = 4)%Z as (E1 & E2 & E3) by (unfold zlen; simpl; lia).
  pose proof (zlen_nonneg it). unfold HeaderLength, MagicLength, ChecksumLength in *.
  rewrite (proj2 (Z.ltb_ge _ _)) by lia.
  rewrite <- E1 at 1. rewrite it_getBytes_app. cbn [try_bind]. destruct (negb _); [done|].
  rewrite <- E2 at 1. rewrite it_getBytes_app. cbn [try_bind hd]. destruct (specsMap s !! b2z c); [|done].
  rewrite <- E3 at 1. rewrite it_getBytes_app. cbn [try_bind]. unfold parse_body.
  destruct (putInt_getInt lb Ll) as [_ Hi]. unfold isInt in Hi.
  destruct (Z.ltb_spec (getInt lb) 0); [done|]. destruct (Z.ltb_spec (messageLengthBytesLimit s) (getInt lb)); [done|].
  cbn [orb]. rewrite toInt_small by (unfold MinInt, MaxInt in *; lia).
  rewrite E1, E2, E3.
  replace (4 + (1 + (4 + zlen it)) <? getInt lb + (4 + 5) + 4)%Z with (zlen it <? getInt lb + ChecksumLength)%Z.
  2:{ unfold ChecksumLength. destruct (Z.ltb_spec (zlen it) (getInt lb + 4)), (Z.ltb_spec (4 + (1 + (4 + zlen it))) (getInt lb + (4 + 5) + 4)); lia. }
  done.
Qed.

(** Every input of at least a header's length is a header and the rest. *)
Lemma header_split (bs : bytes) : (HeaderLength <= zlen bs)%Z -> exists mg c lb it,
  bs = mg ++ [c] ++ lb ++ it /\ length mg = 4 /\ length lb = 4.
Proof.
  unfold HeaderLength, MagicLength, zlen. intros H.
  assert (exists c lb, drop 4 bs = c :: lb) as (c & lb & E).
  { destruct (drop 4 bs) as [|c lb] eqn:E; [|by exists c, lb]. apply (f_equal length) in E.
    rewrite length_drop in E. simpl in E. lia. }
  exists (take 4 bs), c, (take 4 lb), (drop 4 lb). apply (f_equal length) in E as L. rewrite length_drop in L.
  simpl in L. split_and!.
  - simpl. by rewrite (take_drop 4 lb), <- E, take_drop.
  - rewrite length_take. lia.
  - rewrite length_take. lia.
Qed.

Lemma deserialize_short s bs src : (zlen bs < HeaderLength)%Z -> deserialize s bs src = Success None.
Proof. intros H. unfold deserialize. by rewrite (proj2 (Z.ltb_lt _ _)). Qed.

Lemma b2z_z2b_code c : (-128 <= c <= 127)%Z -> b2z (z2b c) = c.
Proof. intros H. by rewrite b2z_z2b, toByte_small. Qed.

Lemma z2b_eq (c : byte) z : z = b2z c -> z2b z = c.
Proof. intros ->. apply z2b_b2z. Qed.

Lemma parse_body_frame s sp db rest src : serializer_ok s -> (zlen db <= messageLengthBytesLimit s)%Z ->
  parse_body s sp (zlen db) (body db ++ rest) src = Success (Some (Msg sp (inl db) src)).
Proof.
  intros Hok Hl. pose proof (zlen_nonneg db). pose proof (zlen_nonneg rest). unfold parse_body, body.
  rewrite (proj2 (Z.ltb_ge _ _)), (proj2 (Z.ltb_ge _ _)) by lia. cbn [orb].
  destruct (Z.ltb_spec 0 (zlen db)) as [Hp|Hz].
  - assert (zlen (checksum db) = ChecksumLength) as Lc by (unfold zlen; by rewrite checksum_length by apply Hok).
    rewrite (proj2 (Z.eqb_neq _ _)) by lia. rewrite !zlen_app, Lc.
    rewrite (proj2 (Z.ltb_ge _ _)) by lia. cbn [negb andb]. rewrite <- app_assoc, <- Lc, it_getBytes_app. cbn [try_bind].
    rewrite it_getBytes_app. cbn [try_bind]. by rewrite bool_decide_true.
  - assert (db = []) as -> by (destruct db; [done|unfold zlen in Hz; simpl in Hz; lia]). done.
Qed.

Lemma deserialize_frame s sp db rest src :
  serializer_ok s -> specsMap s !! messageCode sp = Some sp -> (zlen db <= messageLengthBytesLimit s)%Z ->
  deserialize s (frame s sp db ++ rest) src = Success (Some (Msg sp (inl db) src)).
Proof.
  intros Hok Hs Hl. unfold frame. rewrite <- !app_assoc.
  rewrite deserialize_header; [|done|apply Hok|apply putInt_length].
  rewrite bool_decide_true by done. cbn [negb]. rewrite b2z_z2b_code by by eapply ok_specs. rewrite Hs.
  rewrite getInt_putInt; [by apply parse_body_frame|]. destruct Hok as [_ _ Hlim _].
  pose proof (zlen_nonneg db). unfold isInt, MinInt, MaxInt, HeaderLength, MagicLength, ChecksumLength in *. lia.
Qed.

Lemma parse_body_inv s sp n it src m : serializer_ok s -> parse_body s sp n it src = Success (Some m) ->
  exists db rest, m = Msg sp (inl db) src /\ n = zlen db /\ (n <= messageLengthBytesLimit s)%Z /\ it = body db ++ rest.
Proof.
  intros Hok. unfold parse_body. destruct (Z.ltb_spec n 0); [done|].
  destruct (Z.ltb_spec (messageLengthBytesLimit s) n) as [|Hl]; [done|]. cbn [orb].
  destruct (Z.eqb_spec n 0) as [->|Hn]; cbn [negb andb].
  - intros [= <-]. exists [], it. done.
  - destruct (Z.ltb_spec (zlen it) (n + ChecksumLength)) as [|Hit]; [done|].
    rewrite (proj2 (Z.ltb_lt _ _)) by lia. unfold ChecksumLength, it_getBytes in *.
    rewrite (proj2 (Z.ltb_ge _ _)) by lia. cbn [try_bind].
    destruct (Z.ltb_spec (zlen (drop (Z.to_nat 4) it)) n) as [|Hd]; [done|]. cbn [try_bind].
    case_bool_decide as Hc; [|done]. intros [= <-].
    set (db := take (Z.to_nat n) (drop (Z.to_nat 4) it)) in *.
    assert (zlen db = n) as Ldb by (unfold db, zlen in *; rewrite length_take; lia).
    exists db, (drop (Z.to_nat n) (drop (Z.to_nat 4) it)). split_and!; [done|done|done|].
    unfold body. rewrite (proj2 (Z.ltb_lt _ _)) by lia. rewrite <- Hc, <- app_assoc. unfold db.
    by rewrite take_drop, take_drop.
Qed.

Lemma deserialize_inv s bs src m : serializer_ok s -> deserialize s bs src = Success (Some m) ->
  exists sp db rest, m = Msg sp (inl db) src /\ specsMap s !! messageCode sp = Some sp /\
    (zlen db <= messageLengthBytesLimit s)%Z /\ bs = frame s sp db ++ rest.
Proof.
  intros Hok H. destruct (Z.lt_ge_cases (zlen bs) HeaderLength) as [Hs|Hb]; [by rewrite deserialize_short in H|].
  destruct (header_split bs Hb) as (mg & c & lb & it & -> & Lm & Ll). rewrite deserialize_header in H by done.
  case_bool_decide as Hm; [|done]. cbn [negb] in H. destruct (specsMap s !! b2z c) as [sp|] eqn:Es; [|done].
  apply parse_body_inv in H as (db & rest & -> & Hn & Hl & ->); [|done].
  destruct (ok_specs s Hok _ _ Es) as [Hc Hr]. exists sp, db, rest. split_and!; [done|by rewrite Hc|lia|].
  unfold frame. rewrite <- !app_assoc, Hm, (z2b_eq c (messageCode sp) Hc), <- Hn.
  by rewrite (proj1 (putInt_getInt lb Ll)).
Qed.

Lemma frame_length s sp db : serializer_ok s ->
  zlen (frame s sp db) = (HeaderLength + zlen (body db))%Z.
Proof.
  intros Hok. unfold frame. rewrite !zlen_app.
  assert (zlen (magicBytes s) = 4 /\ zlen (putInt (zlen db)) = 4)%Z as [-> ->].
  { split; [unfold zlen; by rewrite (ok_magic s Hok)|unfold zlen at 1; by rewrite putInt_length]. }
  change (zlen [z2b (messageCode sp)]) with 1%Z. unfold HeaderLength, MagicLength. lia.
Qed.

Lemma body_length db : 4 <= DigestSize ->
  zlen (body db) = (if (0 <? zlen db)%Z then ChecksumLength + zlen db else 0)%Z.
Proof.
  intros H. unfold body. destruct (0 <? zlen db)%Z; [|done]. rewrite zlen_app. unfold zlen at 1.
  by rewrite checksum_length.
Qed.

(** A strict prefix of a message is kept until more arrives. *)
Lemma deserialize_prefix s sp db p src :
  serializer_ok s -> specsMap s !! messageCode sp = Some sp -> (zlen db <= messageLengthBytesLimit s)%Z ->
  p `prefix_of` frame s sp db -> p <> frame s sp db -> deserialize s p src = Success None.
Proof.
  intros Hok Hs Hl [k Hk] Hne. destruct (Z.lt_ge_cases (zlen p) HeaderLength) as [|Hb]; [by apply deserialize_short|].
  destruct (header_split p Hb) as (mg & c & lb & it & -> & Lm & Ll). unfold frame in Hk. rewrite <- !app_assoc in Hk.
  apply app_inv_length in Hk as [<- Hk]; [|by rewrite (ok_magic s Hok)].
  apply app_inv_length in Hk as [[= <-] Hk]; [|done].
  apply app_inv_length in Hk as [<- Hk]; [|by rewrite putInt_length].
  rewrite deserialize_header by done. rewrite bool_decide_true by done. cbn [negb].
  rewrite b2z_z2b_code by by eapply ok_specs. rewrite Hs.
  pose proof (zlen_nonneg db). rewrite getInt_putInt.
  2:{ destruct Hok as [_ _ Hlim _]. unfold isInt, MinInt, MaxInt, HeaderLength, MagicLength, ChecksumLength in *. lia. }
  unfold parse_body. rewrite (proj2 (Z.ltb_ge _ _)), (proj2 (Z.ltb_ge _ _)) by lia. cbn [orb].
  pose proof (body_length db (ok_digest s Hok)) as Lb. apply (f_equal zlen) in Hk as Lk. rewrite zlen_app in Lk.
  assert (k <> []) as Hk0 by (intros ->; apply Hne; unfold frame; by rewrite Hk, app_nil_r).
  assert (0 < zlen k)%Z by (destruct k; [done|unfold zlen; simpl; lia]). pose proof (zlen_nonneg it).
  destruct (Z.ltb_spec 0 (zlen db)) as [Hp|Hz].
  - rewrite (proj2 (Z.eqb_neq _ _)) by lia. by rewrite (proj2 (Z.ltb_lt _ _)) by lia.
  - lia.
Qed.

(** C39: the framing accepts exactly the serialized messages: deserializing an
    input gives a message precisely when the input starts with the bytes
    [serialize] makes of that message, for a known code and a length within
    the limit; the buffer is then to be advanced by [messageLength]. *)
Theorem framing_exact s bs src m : serializer_ok s ->
  deserialize s bs src = Success (Some m) <->
  exists sp db e rest, m = Msg sp (inl db) src /\ specsMap s !! messageCode sp = Some sp /\
    (zlen db <= messageLengthBytesLimit s)%Z /\
    serialize s m = Success e /\ messageLength m = Success (zlen e) /\ bs = e ++ rest.
Proof.
  intros Hok. split.
  - intros (sp & db & rest & -> & Hs & Hl & ->)%deserialize_inv; [|done].
    exists sp, db, (frame s sp db), rest. split_and!; [done..| | |done].
    + by apply serialize_frame.
    + unfold messageLength, dataLength. cbn. rewrite frame_length, body_length by (done || apply Hok).
      destruct (0 <? zlen db)%Z; f_equal; lia.
  - intros (sp & db & e & rest & -> & Hs & Hl & He & _ & ->).
    rewrite (serialize_frame s (Msg sp (inl db) src) db) in He by done. injection He as <-.
    by apply deserialize_frame.
Qed.
End Framing.

(** ** Witness *)

(** A serializer with one spec, whose content is its bytes. *)
Definition sample_spec : MessageSpec :=
  {| Content := bytes; messageCode := 33; protocolVersion := Version_initial;
     toBytes := Success; parseBytesTry := Success |}.
Definition sample_serializer : MessageSerializer :=
  {| specsMap := {[33%Z := sample_spec]}; magicBytes := z2b <$> [1; 2; 3; 4]%Z; messageLengthBytesLimit := 1000 |}.

Lemma sample_serializer_ok : @serializer_ok toy_hash32 sample_serializer.
Proof.
  split; [|done|by vm_compute|simpl; lia]. intros c sp H.
  change (({[33%Z := sample_spec]} : gmap Z MessageSpec) !! c = Some sp) in H.
  apply lookup_singleton_Some in H as [<- <-]. split; [done|]. lia.
Qed.

Lemma framing_exact_witness :
  let m := Msg sample_spec (inr [z2b 7; z2b 8]) None in
  exists e, serialize (HF := toy_hash32) sample_serializer m = Success e /\ length e = 15 /\
    deserialize (HF := toy_hash32) sample_serializer (e ++ [z2b 1]) None =
      Success (Some (Msg sample_spec (inl [z2b 7; z2b 8]) None)).
Proof.
  intros m. eexists. split; [vm_compute; reflexivity|]. split; [done|].
  apply (framing_exact (HF := toy_hash32) sample_serializer _ _ _ sample_serializer_ok).
  eexists sample_spec, [z2b 7; z2b 8], _, [z2b 1].
  split; [reflexivity|]. split; [exact (lookup_singleton_eq 33%Z sample_spec)|]. split; [by vm_compute|].
  split; [vm_compute; reflexivity|]. split; [vm_compute; reflexivity|]. reflexivity.
Defined.
