(* ===== verification/MessageSpecs.v ===== *)
(** * MessageSpecs: the contents of the network messages

    core/network/message/BasicMessagesRepo.scala, core/network/PeerSpec.scala,
    core/app/Version.scala, the peer features under core/network/peer/ and the
    exact conversions of sparkz-util's Extensions.scala, as writers and readers
    of Vlq.  Strings other than identifiers are their UTF-8 bytes. *)

From S2P Require Import Prelude Base16 Vlq Network.

(** SparkzSerializer.toBytes and parseBytesTry *)
Definition run_writer (w : Writer unit) : Try bytes :=
  match w [] with (out, Success _) => Success out | (_, Failure e) => Failure e end.
Definition run_reader {A} (r : Reader A) (bs : bytes) : Try A := snd (r bs).

(** Extensions.scala *)
Definition toByteExact (x : Z) : Try Z :=
  if (x <? -128)%Z || (127 <? x)%Z then Failure ArithmeticExn else Success x.
Definition toShortExact (x : Z) : Try Z :=
  if (x <? -32768)%Z || (32767 <? x)%Z then Failure ArithmeticExn else Success x.
Definition toIntExact (x : Z) : Try Z :=
  if (x <? MinInt)%Z || (MaxInt <? x)%Z then Failure ArithmeticExn else Success x.

(** foreach, and a range mapped in order *)
Fixpoint foreach {A} (f : A -> Writer unit) (l : list A) : Writer unit :=
  match l with [] => ret tt | x :: l' => f x ;! foreach f l' end.
Fixpoint times {A} (n : nat) (r : Reader A) : Reader (list A) :=
  match n with
  | O => ret []
  | S n' => let! x := r in let! xs := times n' r in ret (x :: xs)
  end.

(** ** Inventories and modifiers *)

Record ModifiersData := MData { md_typeId : Z; md_modifiers : list (string * bytes) }.
Record InvData := IData { inv_typeId : Z; inv_ids : list string }.

Section Inventories.
Context (ModifierIdSize : Z).   (* a setting, 32 by default *)

(** The body of InvSpec's loops *)
Definition put_id (id : string) : Writer unit :=
  let! bs := lift_try (idToBytes id) in
  guard AssertionError (zlen bs =? ModifierIdSize)%Z ;!
  putBytes bs.
Definition get_id : Reader string := let! bs := getBytes ModifierIdSize in ret (bytesToId bs).

Definition InvSpec_serialize (maxInvObjects : Z) (d : InvData) : Writer unit :=
  guard IllegalArgument (negb (bool_decide (inv_ids d = []))) ;!
  guard IllegalArgument (zlen (inv_ids d) <=? maxInvObjects)%Z ;!
  putByte (inv_typeId d) ;!
  putUInt (zlen (inv_ids d)) ;!
  foreach put_id (inv_ids d).

Definition InvSpec_parse (maxInvObjects : Z) : Reader InvData :=
  let! typeId := getByte in
  let! n := getUInt in
  let! count := lift_try (toIntExact n) in
  guard IllegalArgument (0 <? count)%Z ;!
  guard IllegalArgument (count <=? maxInvObjects)%Z ;!
  let! elems := times (Z.to_nat count) get_id in
  ret (IData typeId elems).

(** RequestModifierSpec *)
Definition RequestModifierSpec_serialize := InvSpec_serialize.
Definition RequestModifierSpec_parse := InvSpec_parse.

Definition ModifiersSpec_HeaderLength : Z := 5.

(** The number of modifiers that fit, and the size of all of them, in Ints *)
Definition msg_count (maxMessageSize : Z) (modifiers : list (string * bytes)) : Z * Z :=
  foldl (fun cs m =>
    let size := toInt (cs.2 + ModifierIdSize + 4 + zlen m.2) in
    (if (size <=? maxMessageSize)%Z then (cs.1 + 1)%Z else cs.1, size))
    (0%Z, ModifiersSpec_HeaderLength) modifiers.

Definition put_modifier (m : string * bytes) : Writer unit :=
  let! bs := lift_try (idToBytes m.1) in
  putBytes bs ;! putUInt (zlen m.2) ;! putBytes m.2.

Definition ModifiersSpec_serialize (maxMessageSize : Z) (d : ModifiersData) : Writer unit :=
  guard IllegalArgument (negb (bool_decide (md_modifiers d = []))) ;!
  let msgCount := (msg_count maxMessageSize (md_modifiers d)).1 in
  putByte (md_typeId d) ;!
  putUInt msgCount ;!
  foreach put_modifier (take (Z.to_nat msgCount) (md_modifiers d)).

(** The fold over the range, with the running size *)
Fixpoint parse_modifiers (n : nat) (maxMessageSize msgSize : Z) : Reader (list (string * bytes)) :=
  match n with
  | O => ret []
  | S n' =>
      let! bs := getBytes ModifierIdSize in
      let! k := getUInt in
      let! objBytesCnt := lift_try (toIntExact k) in
      let newMsgSize := toInt (msgSize + ModifierIdSize + objBytesCnt) in
      guard (Raised "Too big message with modifiers") (newMsgSize <=? maxMessageSize)%Z ;!
      let! obj := getBytes objBytesCnt in
      let! rest := parse_modifiers n' maxMessageSize newMsgSize in
      ret ((bytesToId bs, obj) :: rest)
  end.

Definition ModifiersSpec_parse (maxMessageSize : Z) : Reader ModifiersData :=
  let! typeId := getByte in
  let! n := getUInt in
  let! count := lift_try (toIntExact n) in
  let! res := parse_modifiers (Z.to_nat count) maxMessageSize ModifiersSpec_HeaderLength in
  ret (MData typeId res).
End Inventories.

(** GetPeersSpec *)
Definition GetPeersSpec_serialize (_ : unit) : Writer unit := ret tt.
Definition GetPeersSpec_parse : Reader unit :=
  let! n := remaining in guard IllegalArgument (n =? 0)%Z.

(** ** Socket addresses: java.net *)

Record InetSocketAddress := Inet { getAddress : bytes; getPort : Z }.

#[export] Instance inet_eq_dec : EqDecision InetSocketAddress.
Proof. solve_decision. Defined.

(** InetAddress.getByAddress: an IPv4-mapped IPv6 address is its IPv4 address *)
Definition getByAddress (fa : bytes) : Try bytes :=
  if Nat.eqb (length fa) 4 then Success fa
  else if Nat.eqb (length fa) 16 then
    if bool_decide (take 12 fa = replicate 10 (z2b 0) ++ [z2b 255; z2b 255]) then Success (drop 12 fa)
    else Success fa
  else Failure (Raised "UnknownHostException").

Definition new_InetSocketAddress (addr : bytes) (port : Z) : Try InetSocketAddress :=
  if (port <? 0)%Z || (65535 <? port)%Z then Failure IllegalArgument else Success (Inet addr port).

(** ** Versions and peer features *)

Definition ApplicationVersionSerializer_serialize (v : Version) : Writer unit :=
  putByte (firstDigit v) ;! putByte (secondDigit v) ;! putByte (thirdDigit v).
Definition ApplicationVersionSerializer_parse : Reader Version :=
  let! a := getByte in let! b := getByte in let! c := getByte in ret (Ver a b c).

(** The features of the repository *)
Inductive PeerFeature :=
| LocalAddressPeerFeature (address : InetSocketAddress)
| SessionIdPeerFeature (networkMagic : bytes) (sessionId : Z)
| TransactionsDisabledPeerFeature
| ForgerNodePeerFeature.

Definition featureId (f : PeerFeature) : Z :=
  match f with
  | LocalAddressPeerFeature _ => 2
  | SessionIdPeerFeature _ _ => 3
  | TransactionsDisabledPeerFeature => 4
  | ForgerNodePeerFeature => 5
  end.

Definition feature_serialize (f : PeerFeature) : Writer unit :=
  match f with
  | LocalAddressPeerFeature a => putBytes (getAddress a) ;! putUInt (getPort a)
  | SessionIdPeerFeature magic id => putBytes magic ;! putLong id
  | _ => ret tt
  end.

Definition LocalAddressPeerFeature_parse : Reader PeerFeature :=
  let! fa := getBytes 4 in
  let! p := getUInt in
  let! port := lift_try (toIntExact p) in
  let! a := lift_try (getByAddress fa) in
  let! sa := lift_try (new_InetSocketAddress a port) in
  ret (LocalAddressPeerFeature sa).

Definition SessionIdPeerFeature_parse : Reader PeerFeature :=
  let! magic := getBytes 4 in
  let! id := getLong in
  ret (SessionIdPeerFeature magic id).

(** The serializer registered under an identifier *)
Definition feature_parse (id : Z) : option (Reader PeerFeature) :=
  match id with
  | 2%Z => Some LocalAddressPeerFeature_parse
  | 3%Z => Some SessionIdPeerFeature_parse
  | 4%Z => Some (ret TransactionsDisabledPeerFeature)
  | 5%Z => Some (ret ForgerNodePeerFeature)
  | _ => None
  end.

(** ** PeerSpec *)

Record PeerSpec := Spec {
  agentName : bytes;
  protocolVersion : Version;
  nodeName : bytes;
  declaredAddress : option InetSocketAddress;
  features : list PeerFeature
}.

Definition localAddressOpt (p : PeerSpec) : option InetSocketAddress :=
  foldr (fun f rest => match f with LocalAddressPeerFeature a => Some a | _ => rest end) None (features p).

Definition address (p : PeerSpec) : option InetSocketAddress :=
  match declaredAddress p with Some a => Some a | None => localAddressOpt p end.

Definition reachablePeer (p : PeerSpec) : bool := bool_decide (is_Some (address p)).

Definition put_address (isa : InetSocketAddress) : Writer unit :=
  let addr := getAddress isa in
  let! n := lift_try (toByteExact (zlen addr + 4)) in
  putByte n ;! putBytes addr ;! putUInt (getPort isa).

Definition get_address : Reader InetSocketAddress :=
  let! fas := getUByte in
  let! fa := getBytes (fas - 4) in
  let! p := getUInt in
  let! port := lift_try (toIntExact p) in
  let! a := lift_try (getByAddress fa) in
  lift_try (new_InetSocketAddress a port).

Definition put_feature (f : PeerFeature) : Writer unit :=
  putByte (featureId f) ;!
  let! fBytes := lift_try (run_writer (feature_serialize f)) in
  let! n := lift_try (toShortExact (zlen fBytes)) in
  putUShort n ;!
  putBytes fBytes.

(** A feature that is unknown or does not parse is skipped; [serializers] are
    the identifiers the node registers a serializer for. *)
Definition get_feature (serializers : list Z) : Reader (list PeerFeature) :=
  let! featId := getByte in
  let! k := getUShort in
  let! featBytesCount := lift_try (toShortExact k) in
  let! featChunk := getBytes featBytesCount in
  ret (match (if bool_decide (featId ∈ serializers) then feature_parse featId else None) with
       | Some r => match run_reader r featChunk with Success f => [f] | Failure _ => [] end
       | None => []
       end).

Definition PeerSpec_serialize (p : PeerSpec) : Writer unit :=
  putShortString (agentName p) ;!
  ApplicationVersionSerializer_serialize (protocolVersion p) ;!
  putShortString (nodeName p) ;!
  putOption (declaredAddress p) put_address ;!
  let! n := lift_try (toByteExact (zlen (features p))) in
  putByte n ;!
  foreach put_feature (features p).

Definition PeerSpec_parse (serializers : list Z) : Reader PeerSpec :=
  let! appName := getShortString in
  guard IllegalArgument (negb (bool_decide (appName = []))) ;!
  let! version := ApplicationVersionSerializer_parse in
  let! name := getShortString in
  let! declared := getOption get_address in
  let! featuresCount := getByte in
  let! feats := times (Z.to_nat featuresCount) (get_feature serializers) in
  ret (Spec appName version name declared (concat feats)).

(** PeersSpec *)
Definition PeersSpec_serialize (peers : list PeerSpec) : Writer unit :=
  putUInt (zlen peers) ;! foreach PeerSpec_serialize peers.

Definition PeersSpec_parse (serializers : list Z) (peersLimit : Z) : Reader (list PeerSpec) :=
  let! n := getUInt in
  let! length := lift_try (toIntExact n) in
  guard IllegalArgument (length <=? peersLimit)%Z ;!
  times (Z.to_nat length) (PeerSpec_parse serializers).

(** ** Handshake *)

Record Handshake := Hs { hs_peerSpec : PeerSpec; hs_time : Z }.

Definition HandshakeSpec_serialize (hs : Handshake) : Writer unit :=
  putULong (hs_time hs) ;! PeerSpec_serialize (hs_peerSpec hs).

Definition HandshakeSpec_parse (serializers : list Z) (sizeLimit : Z) : Reader Handshake :=
  let! n := remaining in
  guard IllegalArgument (n <=? sizeLimit)%Z ;!
  let! t := getULong in
  let! p := PeerSpec_parse serializers in
  ret (Hs p t).
