(* ===== verification/MessageSpecsThms.v ===== *)
(** * MessageSpecsThms: the contents of messages round-trip within their limits *)

From S2P Require Import Prelude External Base16 AvlBits Vlq VlqThms Network MessageSpecs.

(** ** Combinators *)

Lemma writes_lift {A} (t : Try A) a (k : A -> Writer unit) e :
  t = Success a -> writes (k a) e -> writes (let! x := lift_try t in k x) e.
Proof. by intros -> H. Qed.

Lemma reads_lift {A B} (t : Try A) a (k : A -> Reader B) e b :
  t = Success a -> reads (k a) e b -> reads (let! x := lift_try t in k x) e b.
Proof. by intros -> H. Qed.

Lemma reads_lift_end {A} (t : Try A) a : t = Success a -> reads (lift_try t) [] a.
Proof. by intros ->. Qed.

(** Writing a list element by element and reading as many. *)
Lemma foreach_times {A} (f : A -> Writer unit) (r : Reader A) l :
  (forall x, x ∈ l -> roundtrip f r x) -> roundtrip (foreach f) (times (length l) r) l.
Proof.
  induction l as [|x l IH]; intros H; [exists []; split; [apply writes_ret|apply reads_ret]|].
  destruct (H x (list_elem_of_here _ _)) as (e1 & W1 & R1).
  destruct IH as (e2 & W2 & R2); [intros y Hy; apply H; by right|]. exists (e1 ++ e2). split.
  - by apply writes_bind.
  - apply (reads_bind _ _ e1 e2 x); [done|]. rewrite <- (app_nil_r e2). by apply (reads_bind _ _ e2 [] l).
Qed.

(** The same when an element is read as several. *)
Lemma foreach_times_map {A B} (f : A -> Writer unit) (r : Reader B) (g : A -> B) l :
  (forall x, x ∈ l -> exists e, writes (f x) e /\ reads r e (g x)) ->
  exists e, writes (foreach f l) e /\ reads (times (length l) r) e (g <$> l).
Proof.
  induction l as [|x l IH]; intros H; [exists []; split; [apply writes_ret|apply reads_ret]|].
  destruct (H x (list_elem_of_here _ _)) as (e1 & W1 & R1).
  destruct IH as (e2 & W2 & R2); [intros y Hy; apply H; by right|]. exists (e1 ++ e2). split.
  - by apply writes_bind.
  - apply (reads_bind _ _ e1 e2 (g x)); [done|]. rewrite <- (app_nil_r e2). by apply (reads_bind _ _ e2 [] (g <$> l)).
Qed.

Lemma putByte_roundtrip x : (-128 <= x <= 127)%Z -> roundtrip putByte getByte x.
Proof.
  intros H. exists [z2b x]. split; [apply writes_bytes|]. pose proof (reads_byte (z2b x)) as R.
  by rewrite b2z_z2b, toByte_small in R.
Qed.

Lemma toIntExact_ok x : isInt x = true -> toIntExact x = Success x.
Proof. unfold isInt, toIntExact. intros H. by replace (_ || _) with false by lia. Qed.

Lemma toShortExact_ok x : (-32768 <= x <= 32767)%Z -> toShortExact x = Success x.
Proof. unfold toShortExact. intros H. by replace (_ || _) with false by lia. Qed.

Lemma toByteExact_ok x : (-128 <= x <= 127)%Z -> toByteExact x = Success x.
Proof. unfold toByteExact. intros H. by replace (_ || _) with false by lia. Qed.

(** putUInt of a number below 2^28 takes at most four bytes. *)
Lemma putUInt_small x : (0 <= x < 2 ^ 28)%Z -> exists e, writes (putUInt x) e /\ reads getUInt e x /\ (1 <= zlen e <= 4)%Z.
Proof.
  intros Hx. destruct (putUInt_roundtrip x) as (e & W & R); [lia|]. exists e. split; [done|]. split; [done|].
  assert (e = venc 11 x) as ->.
  { specialize (W []). unfold putUInt, bind at 1, guard in W.
    replace ((0 <=? x)%Z && (x <=? 4294967295)%Z) with true in W by lia. cbn [ret] in W.
    unfold putULong, bind, lift_try in W. rewrite putULong_loop_venc in W; [|lia|lia|lia|].
    - injection W as W. rewrite Z.mod_small in W by lia. done.
    - rewrite Z.mod_small by lia. change (2 ^ (7 * (Z.of_nat 11 - 1)))%Z with 1180591620717411303424%Z. lia. }
  destruct (venc_length 11 x ltac:(lia) ltac:(lia)) as (H1 & _ & H3). unfold zlen. split; [lia|].
  destruct H3 as [->|H3]; [by vm_compute|]. destruct (Nat.le_gt_cases (length (venc 11 x)) 4) as [|Hgt]; [lia|].
  assert (128 ^ 4 <= 128 ^ (Z.of_nat (length (venc 11 x)) - 1))%Z by (apply Z.pow_le_mono_r; lia).
  change (128 ^ 4)%Z with (2 ^ 28)%Z in *. lia.
Qed.

(** A Long takes at most ten bytes. *)
Lemma putLong_length id e : isLong id = true -> writes (putLong id) e -> (zlen e <= 10)%Z.
Proof.
  intros Hid W. specialize (W []). unfold putLong, putULong, bind, lift_try in W.
  destruct (putULong_loop 11 0 (encodeZigZagLong id)) as [bs|] eqn:E; [|done]. cbn in W. injection W as <-.
  assert (forall fuel pos v bs, putULong_loop fuel pos v = Success bs -> pos <= 10 -> pos + length bs <= 10) as H.
  { clear. induction fuel as [|fuel IH]; intros pos v bs E Hp; [done|]. cbn [putULong_loop] in E.
    destruct (Nat.ltb_spec pos 10); [|done]. destruct (_ =? 0)%Z; [injection E as <-; simpl; lia|].
    destruct (putULong_loop fuel (S pos) _) as [r|] eqn:Er; [|done]. injection E as <-. apply IH in Er; simpl; lia. }
  apply H in E; [|lia]. unfold zlen. lia.
Qed.

Section Inventories.
Context (ModifierIdSize : Z).

(** ** Inv *)

(** The identifiers of an inventory: the encodings of byte strings of the
    configured size. *)
Definition ids_of (bss : list bytes) : list string := bytesToId <$> bss.

Definition sized (bs : bytes) : Prop := zlen bs = ModifierIdSize.

Lemma id_roundtrip bs : sized bs ->
  roundtrip (put_id ModifierIdSize) (get_id ModifierIdSize) (bytesToId bs).
Proof.
  intros Hs. exists bs. split.
  - apply (writes_lift _ bs); [apply decode_encode|]. apply writes_guard; [by apply Z.eqb_eq|apply writes_bytes].
  - apply (reads_map (getBytes ModifierIdSize) bytesToId). rewrite <- Hs. apply reads_bytes.
Qed.

Lemma InvSpec_roundtrip maxInv typeId bss :
  (-128 <= typeId <= 127)%Z -> bss <> [] -> (zlen bss <= maxInv <= MaxInt)%Z -> (forall bs, bs ∈ bss -> sized bs) ->
  roundtrip (InvSpec_serialize ModifierIdSize maxInv) (InvSpec_parse ModifierIdSize maxInv) (IData typeId (ids_of bss)).
Proof.
  intros Ht Hne Hmax Hs. unfold ids_of.
  assert (zlen (bytesToId <$> bss) = zlen bss) as El by (unfold zlen; by rewrite length_fmap).
  assert (0 < zlen bss)%Z as H0 by (destruct bss; [done|unfold zlen; simpl; lia]).
  destruct (putByte_roundtrip typeId Ht) as (e1 & W1 & R1).
  destruct (putUInt_roundtrip (zlen bss)) as (e2 & W2 & R2); [unfold MaxInt in *; lia|].
  destruct (foreach_times (put_id ModifierIdSize) (get_id ModifierIdSize) (bytesToId <$> bss)) as (e3 & W3 & R3);
    [intros id (bs & -> & Hb)%list_elem_of_fmap; by apply id_roundtrip, Hs|].
  rewrite length_fmap in R3. exists (e1 ++ e2 ++ e3). unfold InvSpec_serialize, InvSpec_parse. simpl. rewrite El. split.
  - apply writes_guard; [by rewrite bool_decide_false by by destruct bss|]. apply writes_guard; [by apply Z.leb_le; lia|].
    apply writes_bind; [done|]. by apply writes_bind.
  - apply (reads_bind _ _ e1 _ typeId); [done|]. apply (reads_bind _ _ e2 _ (zlen bss)); [done|].
    apply (reads_lift _ (zlen bss)); [apply toIntExact_ok; unfold isInt, MinInt, MaxInt in *; lia|].
    apply reads_guard; [by apply Z.ltb_lt|]. apply reads_guard; [apply Z.leb_le; lia|].
    unfold zlen. rewrite Nat2Z.id. rewrite <- (app_nil_r e3). by eapply reads_bind.
Qed.

Lemma times_length {A} n (r : Reader A) s s' l : times n r s = (s', Success l) -> length l = n.
Proof.
  revert s l. induction n as [|n IH]; intros s l H; cbn [times] in H; [by injection H as _ <-|].
  eff_inv. simpl. f_equal. by eapply IH.
Qed.

(** An inventory of at most [maxInvObjects] identifiers, at least one,
    round-trips; an empty or larger one is refused before anything is written,
    and no input parses to one. *)
Theorem inv_spec_exact maxInv typeId bss :
  (-128 <= typeId <= 127)%Z -> (maxInv <= MaxInt)%Z -> (forall bs, bs ∈ bss -> sized bs) ->
  let d := IData typeId (ids_of bss) in
  (0 < zlen bss <= maxInv ->
   roundtrip (InvSpec_serialize ModifierIdSize maxInv) (InvSpec_parse ModifierIdSize maxInv) d)%Z /\
  (~ (0 < zlen bss <= maxInv) ->
   forall out, InvSpec_serialize ModifierIdSize maxInv d out = (out, Failure IllegalArgument))%Z /\
  (forall s s' d', InvSpec_parse ModifierIdSize maxInv s = (s', Success d') -> (0 < zlen (inv_ids d') <= maxInv)%Z).
Proof.
  intros Ht Hmax Hs d. split; [|split].
  - intros H0. apply InvSpec_roundtrip; [done| |lia|done]. intros ->. unfold zlen in H0. simpl in H0. lia.
  - intros H0 out. unfold InvSpec_serialize, d, ids_of. simpl.
    assert (zlen (bytesToId <$> bss) = zlen bss) as El by (unfold zlen; by rewrite length_fmap). rewrite El.
    destruct bss as [|bs bss]; [done|]. rewrite bool_decide_false by done.
    rewrite (proj2 (Z.leb_gt _ _)); [done|]. unfold zlen in *. simpl length in *. lia.
  - intros s s' d' H. unfold InvSpec_parse in H. eff_inv.
    unfold guard in *. destruct (Z.ltb_spec 0 a1) as [Hp|]; [|eff_inv]. destruct (Z.leb_spec a1 maxInv); [|eff_inv].
    eff_inv. simpl. match goal with H : times _ _ _ = _ |- _ => apply times_length in H end. unfold zlen. lia.
Qed.
(** ** Modifiers *)

Definition mods_of (l : list (bytes * bytes)) : list (string * bytes) := (fun m => (bytesToId m.1, m.2)) <$> l.

(** The size ModifiersSpec counts for a list of modifiers *)
Fixpoint mods_size (l : list (bytes * bytes)) : Z :=
  match l with [] => 0 | m :: l' => ModifierIdSize + 4 + zlen m.2 + mods_size l' end%Z.

Lemma mods_size_nonneg l : (0 <= ModifierIdSize)%Z -> (0 <= mods_size l)%Z.
Proof. intros H. induction l as [|m l IH]; simpl; [lia|]. pose proof (zlen_nonneg m.2). lia. Qed.

Lemma mods_size_take n l : (0 <= ModifierIdSize)%Z -> (mods_size (take n l) <= mods_size l)%Z.
Proof.
  intros H. revert n. induction l as [|m l IH]; intros [|n]; simpl; [done|done| |].
  - pose proof (zlen_nonneg m.2). pose proof (mods_size_nonneg l H). lia.
  - specialize (IH n). lia.
Qed.

(** The number of modifiers the fold counts: as long as they fit. *)
Fixpoint fitting (maxSize size : Z) (l : list (bytes * bytes)) : nat :=
  match l with
  | [] => 0
  | m :: l' =>
      let size' := (size + ModifierIdSize + 4 + zlen m.2)%Z in
      if (size' <=? maxSize)%Z then S (fitting maxSize size' l') else 0
  end.

Lemma fitting_le maxSize size l : fitting maxSize size l <= length l.
Proof. revert size. induction l as [|m l IH]; intros size; simpl; [done|]. destruct (_ <=? _)%Z; [|lia]. specialize (IH (size + ModifierIdSize + 4 + zlen m.2)%Z). lia. Qed.

Lemma msg_count_fitting maxSize l : (0 <= ModifierIdSize)%Z ->
  forall c size, (0 <= size)%Z -> (size + mods_size l <= MaxInt)%Z ->
  (foldl (fun cs m =>
    let size := toInt (cs.2 + ModifierIdSize + 4 + zlen m.2) in
    (if (size <=? maxSize)%Z then (cs.1 + 1)%Z else cs.1, size)) (c, size) (mods_of l)).1 =
  (c + Z.of_nat (fitting maxSize size l))%Z.
Proof.
  intros Hm. induction l as [|m l IH]; intros c size Hs Hb; simpl in Hb |- *; [lia|].
  pose proof (zlen_nonneg m.2). pose proof (mods_size_nonneg l Hm).
  rewrite toInt_small by (unfold MinInt, MaxInt in *; lia). fold (mods_of l).
  set (size' := (size + ModifierIdSize + 4 + zlen m.2)%Z).
  destruct (Z.leb_spec size' maxSize) as [Hle|Hgt].
  - rewrite IH by (unfold size'; lia). lia.
  - rewrite IH by (unfold size'; lia).
    assert (fitting maxSize size' l = 0) as ->; [|lia]. destruct l as [|m' l']; [done|]. simpl.
    pose proof (zlen_nonneg m'.2). rewrite (proj2 (Z.leb_gt _ _)); [done|]. unfold size' in *. lia.
Qed.

(** [fitting] is the longest prefix within the limit. *)
Lemma fitting_spec maxSize size l : (0 <= ModifierIdSize)%Z ->
  ((0 < fitting maxSize size l)%nat -> (size + mods_size (take (fitting maxSize size l) l) <= maxSize)%Z) /\
  (forall n, (fitting maxSize size l < n <= length l)%nat -> (maxSize < size + mods_size (take n l))%Z).
Proof.
  intros Hm. revert size. induction l as [|m l IH]; intros size; simpl; [split; lia|].
  set (size' := (size + ModifierIdSize + 4 + zlen m.2)%Z). destruct (IH size') as [H1 H2].
  destruct (Z.leb_spec size' maxSize) as [Hle|Hgt].
  - split.
    + intros _. simpl. destruct (fitting maxSize size' l) eqn:E; [simpl; unfold size' in *; lia|].
      specialize (H1 ltac:(lia)). unfold size' in *. lia.
    + intros [|n] Hn; [lia|]. specialize (H2 n ltac:(lia)). simpl. unfold size' in *. lia.
  - split; [lia|]. intros [|n] Hn; [lia|]. simpl. pose proof (mods_size_nonneg (take n l) Hm). unfold size' in *. lia.
Qed.

(** The entries, each within the limit, are read back; their length is at most
    the size counted for them. *)
Lemma mods_roundtrip maxSize l : (0 <= ModifierIdSize)%Z -> (maxSize <= MaxInt)%Z ->
  (forall m, m ∈ l -> sized m.1 /\ (zlen m.2 < 2 ^ 28)%Z) ->
  forall size, (0 <= size)%Z -> (size + mods_size l <= maxSize)%Z ->
  exists e, writes (foreach put_modifier (mods_of l)) e /\
    reads (parse_modifiers ModifierIdSize (length l) maxSize size) e (mods_of l) /\ (zlen e <= mods_size l)%Z.
Proof.
  intros Hm Hmax. induction l as [|[b obj] l IH]; intros Hl size Hs Hfit.
  { exists []. split; [apply writes_ret|]. by split; [apply reads_ret|]. }
  destruct (Hl (b, obj) (list_elem_of_here _ _)) as [Hb Ho]. simpl in Hb, Ho, Hfit.
  pose proof (zlen_nonneg obj). pose proof (mods_size_nonneg l Hm).
  destruct (IH (fun m Hin => Hl m (list_elem_of_further _ _ _ Hin)) (size + ModifierIdSize + zlen obj)%Z ltac:(lia) ltac:(lia))
    as (e & W & R & Le).
  destruct (putUInt_small (zlen obj)) as (n & Wn & Rn & Ln); [lia|].
  exists ((b ++ n ++ obj) ++ e). split; [|split].
  - cbn [mods_of fmap list_fmap foreach]. apply writes_bind; [|done].
    apply (writes_lift _ b); [apply decode_encode|]. apply writes_bind; [apply writes_bytes|].
    apply writes_bind; [done|apply writes_bytes].
  - cbn [length parse_modifiers]. rewrite <- !app_assoc. unfold sized in Hb. rewrite <- Hb at 1.
    apply (reads_bind _ _ b _ b); [apply reads_bytes|]. apply (reads_bind _ _ n _ (zlen obj)); [done|].
    apply (reads_lift _ (zlen obj)); [apply toIntExact_ok; unfold isInt, MinInt, MaxInt in *; lia|].
    rewrite toInt_small by (unfold MinInt, MaxInt in *; lia). apply reads_guard; [apply Z.leb_le; lia|].
    apply (reads_bind _ _ obj _ obj); [apply reads_bytes|]. rewrite <- (app_nil_r e).
    by apply (reads_bind _ _ e [] (mods_of l)).
  - rewrite !zlen_app. simpl. unfold sized in Hb. lia.
Qed.

(** ModifiersSpec sends the longest prefix of the modifiers whose counted
    size is within the limit; what it writes parses to exactly that prefix and
    takes at most the limit's number of bytes, when anything is sent. *)
Theorem modifiers_spec_truncates maxSize typeId l :
  (0 <= ModifierIdSize)%Z -> (-128 <= typeId <= 127)%Z -> (maxSize <= MaxInt)%Z -> l <> [] ->
  (forall m, m ∈ l -> sized m.1 /\ (zlen m.2 < 2 ^ 28)%Z) -> (5 + mods_size l <= MaxInt)%Z -> (zlen l < 2 ^ 28)%Z ->
  exists k e, k <= length l /\
    writes (ModifiersSpec_serialize ModifierIdSize maxSize (MData typeId (mods_of l))) e /\
    reads (ModifiersSpec_parse ModifierIdSize maxSize) e (MData typeId (mods_of (take k l))) /\
    (forall n, (k < n <= length l)%nat -> maxSize < 5 + mods_size (take n l))%Z /\
    ((0 < k)%nat -> (zlen e <= 5 + mods_size (take k l) <= maxSize)%Z).
Proof.
  intros Hm Ht Hmax Hne Hl Hov Hlen. set (k := fitting maxSize 5 l). exists k.
  destruct (fitting_spec maxSize 5 l Hm) as [Hfit Hlong]. fold k in Hfit, Hlong.
  pose proof (fitting_le maxSize 5 l) as Hk. fold k in Hk.
  assert (forall m, m ∈ take k l -> sized m.1 /\ (zlen m.2 < 2 ^ 28)%Z) as Htk.
  { intros m Hin. apply Hl. rewrite <- (take_drop k l). apply elem_of_app. by left. }
  assert (exists e, writes (foreach put_modifier (mods_of (take k l))) e /\
    reads (parse_modifiers ModifierIdSize k maxSize 5) e (mods_of (take k l)) /\ (zlen e <= mods_size (take k l))%Z)
    as (e3 & W3 & R3 & L3).
  { destruct (decide (k = 0)) as [->|Hk0].
    - exists []. split; [apply writes_ret|]. by split; [apply reads_ret|].
    - assert (length (take k l) = k) as Lk by (rewrite length_take; lia).
      pose proof (mods_roundtrip maxSize (take k l) Hm Hmax Htk 5 ltac:(lia) (Hfit ltac:(lia))) as Hr.
      by rewrite Lk in Hr. }
  destruct (putByte_roundtrip typeId Ht) as (e1 & W1 & R1).
  destruct (putUInt_small (Z.of_nat k)) as (e2 & W2 & R2 & L2); [unfold zlen in Hlen; lia|].
  exists (e1 ++ e2 ++ e3). split; [done|]. split; [|split; [|split]].
  - unfold ModifiersSpec_serialize. simpl. apply writes_guard; [by rewrite bool_decide_false by by destruct l|].
    assert ((msg_count ModifierIdSize maxSize (mods_of l)).1 = Z.of_nat k) as ->.
    { unfold msg_count. rewrite msg_count_fitting by (done || (unfold ModifiersSpec_HeaderLength; lia)).
      unfold ModifiersSpec_HeaderLength. fold k. lia. }
    apply writes_bind; [done|]. apply writes_bind; [done|]. rewrite Nat2Z.id.
    unfold mods_of at 1. rewrite <- fmap_take. exact W3.
  - unfold ModifiersSpec_parse. apply (reads_bind _ _ e1 _ typeId); [done|].
    apply (reads_bind _ _ e2 _ (Z.of_nat k)); [done|].
    apply (reads_lift _ (Z.of_nat k)); [apply toIntExact_ok; unfold isInt, MinInt, MaxInt, zlen in *; lia|].
    rewrite Nat2Z.id, <- (app_nil_r e3). by apply (reads_bind _ _ e3 [] (mods_of (take k l))).
  - done.
  - intros Hk0. specialize (Hfit ltac:(lia)). rewrite !zlen_app.
    assert (zlen e1 = 1)%Z as ->; [|lia]. specialize (W1 []). unfold putByte, putBytes, modify in W1. by injection W1 as <-.
Qed.
End Inventories.

(** ** Peer specifications and handshakes *)

Definition port_ok (a : InetSocketAddress) : Prop := (0 <= getPort a <= 65535)%Z.

(** Addresses java.net represents as themselves *)
Definition address_ok (a : InetSocketAddress) : Prop :=
  port_ok a /\ getByAddress (getAddress a) = Success (getAddress a).

Definition feature_ok (f : PeerFeature) : Prop :=
  match f with
  | LocalAddressPeerFeature a => port_ok a /\ length (getAddress a) = 4
  | SessionIdPeerFeature magic id => length magic = 4 /\ isLong id = true
  | _ => True
  end.

Definition digit_ok (x : Z) : Prop := (-128 <= x <= 127)%Z.

Record spec_ok (p : PeerSpec) : Prop := {
  sp_agent : agentName p <> [] /\ length (agentName p) < 128;
  sp_node : length (nodeName p) < 128;
  sp_version : digit_ok (firstDigit (protocolVersion p)) /\ digit_ok (secondDigit (protocolVersion p)) /\
               digit_ok (thirdDigit (protocolVersion p));
  sp_address a : declaredAddress p = Some a -> address_ok a;
  sp_features : length (features p) <= 127 /\ forall f, f ∈ features p -> feature_ok f
}.

(** What a node that knows the serializers [sers] sees of a specification *)
Definition known (sers : list Z) (p : PeerSpec) : PeerSpec :=
  Spec (agentName p) (protocolVersion p) (nodeName p) (declaredAddress p)
    (filter (fun f => featureId f ∈ sers) (features p)).

Lemma getByAddress_length a b : getByAddress a = Success b -> length a = 4 \/ length a = 16.
Proof.
  unfold getByAddress. destruct (Nat.eqb_spec (length a) 4); [by left|].
  destruct (Nat.eqb_spec (length a) 16); [by right|done].
Qed.

Lemma port_roundtrip a : port_ok a -> exists e, writes (putUInt (getPort a)) e /\
  forall B (k : Z -> Reader B) e' b, reads (k (getPort a)) e' b ->
    reads (let! p := getUInt in let! port := lift_try (toIntExact p) in k port) (e ++ e') b.
Proof.
  unfold port_ok. intros Hp. destruct (putUInt_roundtrip (getPort a)) as (e & W & R); [lia|].
  exists e. split; [done|]. intros B k e' b Hk. apply (reads_bind _ _ e _ (getPort a)); [done|].
  apply (reads_lift _ (getPort a)); [apply toIntExact_ok; unfold isInt, MinInt, MaxInt; lia|done].
Qed.

Lemma new_InetSocketAddress_ok a : port_ok a -> new_InetSocketAddress (getAddress a) (getPort a) = Success a.
Proof.
  unfold port_ok, new_InetSocketAddress. intros H. replace (_ || _) with false by lia. by destruct a.
Qed.

Lemma address_roundtrip a : address_ok a -> roundtrip put_address get_address a.
Proof.
  intros [Hp Ha]. destruct (port_roundtrip a Hp) as (e & W & R). pose proof (getByAddress_length _ _ Ha) as L.
  destruct (putUByte_reads (zlen (getAddress a) + 4)) as (e1 & W1 & R1); [unfold zlen; lia|].
  assert (e1 = [z2b (zlen (getAddress a) + 4)]) as ->.
  { specialize (W1 []). unfold putUByte, bind, guard in W1.
    replace ((0 <=? zlen (getAddress a) + 4)%Z && (zlen (getAddress a) + 4 <=? 255)%Z) with true in W1 by (unfold zlen; lia).
    cbn in W1. rewrite toByte_small in W1 by (unfold zlen; lia). by injection W1 as <-. }
  exists ([z2b (zlen (getAddress a) + 4)] ++ getAddress a ++ e). split.
  - unfold put_address. apply (writes_lift _ (zlen (getAddress a) + 4)%Z).
    + apply toByteExact_ok. unfold zlen. lia.
    + apply writes_bind; [apply writes_bytes|]. apply writes_bind; [apply writes_bytes|done].
  - unfold get_address. apply (reads_bind _ _ _ _ (zlen (getAddress a) + 4)%Z); [done|].
    replace (zlen (getAddress a) + 4 - 4)%Z with (zlen (getAddress a)) by lia.
    apply (reads_bind _ _ _ _ (getAddress a)); [apply reads_bytes|]. rewrite <- (app_nil_r e). apply R.
    apply (reads_lift _ (getAddress a)); [done|]. apply reads_lift_end. by apply new_InetSocketAddress_ok.
Qed.

(** The bytes of a feature, and what its own serializer reads from them *)
Lemma feature_bytes f : feature_ok f -> exists e r,
  run_writer (feature_serialize f) = Success e /\ (zlen e <= 20)%Z /\
  feature_parse (featureId f) = Some r /\ run_reader r e = Success f.
Proof.
  intros Hf. destruct f as [a|magic id| |]; simpl in Hf.
  - destruct Hf as [Hp La]. destruct (putUInt_small (getPort a)) as (e & W & R & L); [unfold port_ok in Hp; lia|].
    exists (getAddress a ++ e), LocalAddressPeerFeature_parse. split; [|split; [|split; [done|]]].
    + unfold run_writer, feature_serialize, bind. cbn -[putLong putUInt]. by rewrite W.
    + rewrite zlen_app. unfold zlen at 1. lia.
    + destruct (port_roundtrip a Hp) as (e' & W' & R'). assert (e' = e) as ->.
      { specialize (W []). specialize (W' []). rewrite W in W'. by injection W'. }
      assert (reads LocalAddressPeerFeature_parse (getAddress a ++ e) (LocalAddressPeerFeature a)) as H.
      { unfold LocalAddressPeerFeature_parse. replace 4%Z with (zlen (getAddress a)) by (unfold zlen; lia).
        apply (reads_bind _ _ _ _ (getAddress a)); [apply reads_bytes|]. rewrite <- (app_nil_r e). apply R'.
        apply (reads_lift _ (getAddress a)); [by unfold getByAddress; rewrite La|].
        apply (reads_lift _ a); [by apply new_InetSocketAddress_ok|]. apply reads_ret. }
      specialize (H []). rewrite app_nil_r in H. unfold run_reader. by rewrite H.
  - destruct Hf as [Lm Hid]. destruct (putLong_roundtrip id Hid) as (e & W & R).
    exists (magic ++ e), SessionIdPeerFeature_parse. split; [|split; [|split; [done|]]].
    + unfold run_writer, feature_serialize, bind. cbn -[putLong putUInt]. by rewrite W.
    + pose proof (putLong_length id e Hid W). rewrite zlen_app. unfold zlen at 1. lia.
    + assert (reads SessionIdPeerFeature_parse (magic ++ e) (SessionIdPeerFeature magic id)) as H.
      { unfold SessionIdPeerFeature_parse. replace 4%Z with (zlen magic) by (unfold zlen; lia).
        apply (reads_bind _ _ _ _ magic); [apply reads_bytes|]. by apply (reads_map getLong (SessionIdPeerFeature magic)). }
      specialize (H []). rewrite app_nil_r in H. unfold run_reader. by rewrite H.
  - by exists [], (ret TransactionsDisabledPeerFeature).
  - by exists [], (ret ForgerNodePeerFeature).
Qed.

Lemma feature_roundtrip (sers : list Z) f : feature_ok f -> exists e, writes (put_feature f) e /\
  reads (get_feature sers) e (filter (fun f => featureId f ∈ sers) [f]).
Proof.
  intros Hf. destruct (feature_bytes f Hf) as (e & r & Ew & Le & Ep & Er). pose proof (zlen_nonneg e).
  destruct (putByte_roundtrip (featureId f)) as (e1 & W1 & R1); [by destruct f|].
  destruct (putUShort_roundtrip (zlen e)) as (e2 & W2 & R2); [lia|].
  exists (e1 ++ e2 ++ e). split.
  - unfold put_feature. apply writes_bind; [done|]. apply (writes_lift _ e); [done|].
    apply (writes_lift _ (zlen e)); [apply toShortExact_ok; lia|]. by apply writes_bind.
  - unfold get_feature. apply (reads_bind _ _ e1 _ (featureId f)); [done|].
    apply (reads_bind _ _ e2 _ (zlen e)); [done|]. apply (reads_lift _ (zlen e)); [apply toShortExact_ok; lia|].
    intros rest. unfold bind. rewrite reads_bytes. unfold ret. do 2 f_equal.
    case_bool_decide as Hin; [rewrite Ep, Er|]; [by rewrite filter_cons_True|by rewrite filter_cons_False].
Qed.

Lemma version_roundtrip v : digit_ok (firstDigit v) -> digit_ok (secondDigit v) -> digit_ok (thirdDigit v) ->
  roundtrip ApplicationVersionSerializer_serialize ApplicationVersionSerializer_parse v.
Proof.
  intros H1 H2 H3. destruct v as [a b c]. simpl in *.
  destruct (putByte_roundtrip a H1) as (e1 & W1 & R1). destruct (putByte_roundtrip b H2) as (e2 & W2 & R2).
  destruct (putByte_roundtrip c H3) as (e3 & W3 & R3). exists (e1 ++ e2 ++ e3). split.
  - by repeat apply writes_bind.
  - eapply reads_bind; [done|]. eapply reads_bind; [done|]. by apply (reads_map getByte (Ver a b)).
Qed.

Lemma concat_filter_singletons (sers : list Z) (fs : list PeerFeature) :
  concat ((fun f => filter (fun f => featureId f ∈ sers) [f]) <$> fs) = filter (fun f => featureId f ∈ sers) fs.
Proof.
  induction fs as [|f fs IH]; [done|]. rewrite fmap_cons. cbn [concat]. rewrite IH.
  destruct (decide (featureId f ∈ sers)).
  - by rewrite !filter_cons_True.
  - by rewrite !filter_cons_False.
Qed.

(** A well-formed specification is read back, less the features without serializer. *)
Lemma PeerSpec_roundtrip sers p : spec_ok p -> exists e, writes (PeerSpec_serialize p) e /\
  reads (PeerSpec_parse sers) e (known sers p).
Proof.
  intros [[Ha La] Ln (V1 & V2 & V3) Hd [Lf Hf]].
  destruct (putShortString_roundtrip (agentName p) La) as (e1 & W1 & R1).
  destruct (version_roundtrip _ V1 V2 V3) as (e2 & W2 & R2).
  destruct (putShortString_roundtrip (nodeName p) Ln) as (e3 & W3 & R3).
  destruct (putOption_roundtrip put_address get_address (declaredAddress p)) as (e4 & W4 & R4);
    [intros a E; by apply address_roundtrip, Hd|].
  destruct (putByte_roundtrip (zlen (features p))) as (e5 & W5 & R5); [unfold zlen; lia|].
  destruct (foreach_times_map put_feature (get_feature sers) (fun f => filter (fun f => featureId f ∈ sers) [f])
    (features p)) as (e6 & W6 & R6); [intros f Hin; by apply feature_roundtrip, Hf|].
  exists (e1 ++ e2 ++ e3 ++ e4 ++ e5 ++ e6). split.
  - unfold PeerSpec_serialize. apply writes_bind; [done|]. apply writes_bind; [done|]. apply writes_bind; [done|].
    apply writes_bind; [done|]. apply (writes_lift _ (zlen (features p))); [apply toByteExact_ok; unfold zlen; lia|].
    by apply writes_bind.
  - unfold PeerSpec_parse. eapply reads_bind; [exact R1|]. apply reads_guard; [by rewrite bool_decide_false|].
    eapply reads_bind; [exact R2|]. eapply reads_bind; [exact R3|]. eapply reads_bind; [exact R4|].
    eapply reads_bind; [exact R5|]. unfold zlen. rewrite Nat2Z.id, <- (app_nil_r e6).
    eapply reads_bind; [exact R6|]. unfold known. rewrite concat_filter_singletons. apply reads_ret.
Qed.

(** The bytes of a handshake are read back whatever follows them. *)
Lemma handshake_bytes sers h : spec_ok (hs_peerSpec h) -> isLong (hs_time h) = true ->
  exists e, run_writer (HandshakeSpec_serialize h) = Success e /\ forall rest sizeLimit,
    run_reader (HandshakeSpec_parse sers sizeLimit) (e ++ rest) =
      if (zlen (e ++ rest) <=? sizeLimit)%Z then Success (Hs (known sers (hs_peerSpec h)) (hs_time h))
      else Failure IllegalArgument.
Proof.
  intros Hp Ht.
  destruct (putULong_roundtrip _ Ht) as (e1 & W1 & R1). destruct (PeerSpec_roundtrip sers _ Hp) as (e2 & W2 & R2).
  exists (e1 ++ e2). split.
  - unfold run_writer, HandshakeSpec_serialize, bind. rewrite W1, W2. done.
  - intros rest sizeLimit. assert (reads (let! t := getULong in let! p := PeerSpec_parse sers in ret (Hs p t)) (e1 ++ e2)
      (Hs (known sers (hs_peerSpec h)) (hs_time h))) as H.
    { eapply reads_bind; [exact R1|]. by apply (reads_map (PeerSpec_parse sers) (fun p => Hs p (hs_time h))). }
    specialize (H rest). set (data := (e1 ++ e2) ++ rest) in *.
    transitivity (if (zlen data <=? sizeLimit)%Z
      then snd ((let! t := getULong in let! p := PeerSpec_parse sers in ret (Hs p t)) data)
      else Failure IllegalArgument); [|by rewrite H].
    unfold run_reader, HandshakeSpec_parse, guard, remaining. by destruct (zlen data <=? sizeLimit)%Z eqn:E;
      (unfold bind at 1, gets; rewrite E).
Qed.

(** The handshake a node sends is the handshake its peer reads, less the
    features the peer has no serializer for, exactly when its size is within
    the peer's limit; and a list of peers within the limit is read back. *)
Theorem handshake_roundtrip sers h ps sizeLimit peersLimit :
  spec_ok (hs_peerSpec h) -> isLong (hs_time h) = true ->
  (forall p, p ∈ ps -> spec_ok p) -> (zlen ps <= peersLimit <= MaxInt)%Z ->
  (exists e, run_writer (HandshakeSpec_serialize h) = Success e /\
     run_reader (HandshakeSpec_parse sers sizeLimit) e =
       if (zlen e <=? sizeLimit)%Z then Success (Hs (known sers (hs_peerSpec h)) (hs_time h))
       else Failure IllegalArgument) /\
  (exists e, writes (PeersSpec_serialize ps) e /\ reads (PeersSpec_parse sers peersLimit) e (known sers <$> ps)).
Proof.
  intros Hp Ht Hps Hl. split.
  - destruct (handshake_bytes sers h Hp Ht) as (e & W & R). exists e. split; [done|].
    specialize (R [] sizeLimit). by rewrite app_nil_r in R.
  - pose proof (zlen_nonneg ps). destruct (putUInt_roundtrip (zlen ps)) as (e1 & W1 & R1); [unfold MaxInt in *; lia|].
    destruct (foreach_times_map PeerSpec_serialize (PeerSpec_parse sers) (known sers) ps) as (e2 & W2 & R2);
      [intros p Hin; by apply PeerSpec_roundtrip, Hps|].
    exists (e1 ++ e2). split; [by apply writes_bind|]. unfold PeersSpec_parse.
    eapply reads_bind; [exact R1|]. apply (reads_lift _ (zlen ps)); [apply toIntExact_ok; unfold isInt, MinInt; lia|].
    apply reads_guard; [apply Z.leb_le; lia|]. unfold zlen. by rewrite Nat2Z.id.
Qed.

(** The local address feature reads four address bytes whatever was written:
    an IPv6 address comes back as another address and port. *)
Definition ipv6_local : PeerFeature :=
  LocalAddressPeerFeature (Inet (z2b <$> [32; 1; 13; 184; 0; 0; 0; 0; 0; 0; 0; 0; 0; 0; 0; 1]%Z) 9084).

Lemma ipv6_local_address_lost :
  snd (get_feature [2%Z] (fst (put_feature ipv6_local []))) =
    Success [LocalAddressPeerFeature (Inet (z2b <$> [32; 1; 13; 184]%Z) 0)].
Proof. vm_compute. reflexivity. Qed.

(** ** Witnesses *)

Definition sample_mods : list (bytes * bytes) := [([z2b 1; z2b 2], [z2b 3]); ([z2b 4; z2b 5], replicate 40 (z2b 6))].
Definition sample_peer : PeerSpec :=
  Spec [z2b 97] (Ver 0 0 1) [z2b 98] (Some (Inet (z2b <$> [10; 0; 0; 1]%Z) 9084))
    [SessionIdPeerFeature (z2b <$> [1; 2; 3; 4]%Z) (-5); ForgerNodePeerFeature].

Lemma inv_spec_exact_witness :
  roundtrip (InvSpec_serialize 2 10) (InvSpec_parse 2 10) (IData 1 (ids_of [[z2b 1; z2b 2]; [z2b 3; z2b 4]])).
Proof.
  apply (inv_spec_exact 2 10 1 [[z2b 1; z2b 2]; [z2b 3; z2b 4]]); [lia|by vm_compute| |by vm_compute].
  intros bs [->|Hb]%elem_of_cons; [|apply list_elem_of_singleton in Hb as ->]; done.
Defined.

Lemma modifiers_spec_truncates_witness : exists k e,
  writes (ModifiersSpec_serialize 2 30 (MData 1 (mods_of sample_mods))) e /\
  reads (ModifiersSpec_parse 2 30) e (MData 1 (mods_of (take k sample_mods))) /\
  ((0 < k)%nat -> (zlen e <= 30)%Z).
Proof.
  destruct (modifiers_spec_truncates 2 30 1 sample_mods) as (k & e & H1 & H2 & H3 & H4 & H5).
  1-4: by vm_compute.
  - intros m [->|Hm]%elem_of_cons; [|apply list_elem_of_singleton in Hm as ->]; by vm_compute.
  - by vm_compute.
  - by vm_compute.
  - exists k, e. split; [done|]. split; [done|]. intros Hk. specialize (H5 ltac:(lia)). lia.
Defined.

Lemma sample_peer_ok : spec_ok sample_peer.
Proof.
  split; simpl.
  - split; [done|lia].
  - lia.
  - unfold digit_ok. lia.
  - intros a [= <-]. split; [unfold port_ok; simpl; lia|done].
  - split; [lia|]. intros f [->|Hf]%elem_of_cons; [|apply list_elem_of_singleton in Hf as ->]; done.
Qed.

Lemma handshake_roundtrip_witness : exists e,
  run_writer (HandshakeSpec_serialize (Hs sample_peer 1000)) = Success e /\
  run_reader (HandshakeSpec_parse [3; 5]%Z 100) e = Success (Hs (known [3; 5]%Z sample_peer) 1000).
Proof.
  destruct (handshake_roundtrip [3; 5]%Z (Hs sample_peer 1000) [sample_peer] 100 10) as [(e & H1 & H2) _].
  - apply sample_peer_ok.
  - done.
  - intros p ->%list_elem_of_singleton. apply sample_peer_ok.
  - by vm_compute.
  - exists e. split; [done|]. rewrite H2. clear H2. vm_compute in H1. injection H1 as <-. by vm_compute.
Defined.
