(* ===== verification/ConnectionHandler.v ===== *)
(** * ConnectionHandler: the actor of one peer connection

    core/network/PeerConnectionHandler.scala: the behaviours of the actor as
    [behaviour], its fields as [Connection], one event of its mailbox as an
    [In], and what it sends as a list of [Out].  Akka's TCP actor is the
    environment: it takes the commands and produces the events. *)

From S2P Require Import Prelude External Network Messages MessageSpecs.

Section Handler.
Context `{HF : CryptographicHash} `{B : ByteStringInts}.

Inductive Behaviour := Handshaking | WorkingWriting | WorkingBuffering.

Record Connection := Conn {
  behaviour : Behaviour;
  selfPeer : option ConnectedPeer;
  chunksBuffer : bytes;
  outMessagesBuffer : list (Z * bytes);     (* TreeMap: by increasing identifier *)
  outMessagesCounter : Z
}.

(** What the handler reads of its settings and its connection *)
Record HandlerConfig := {
  connectionId : ConnectedPeer;
  messageSerializer : MessageSerializer;
  featureSerializers : list Z;
  maxHandshakeSize : Z;
  ownHandshake : Handshake                  (* createHandshakeMessage *)
}.

Inductive In :=
| InMessage (m : Message)
| CommandFailedWrite (msg : bytes) (id : Z)
| CommandFailedResumeWriting
| Ack (id : Z)
| WritingResumed
| Received (data : bytes)
| HandshakeTimeout
| CloseConnection
| ConnectionClosed
| Other.

Inductive Out :=
| Register
| ResumeReading
| ResumeWriting
| Write (msg : bytes) (ack : option Z)
| Abort
| ScheduleHandshakeTimeout
| CancelHandshakeTimeout
| ToController (m : Message)
| Handshaked (peerSpec : PeerSpec)
| PenalizePeer (address : N)
| SelfCloseConnection
| StopSelf
| Throws (e : exn).

Definition set_behaviour b c := Conn b (selfPeer c) (chunksBuffer c) (outMessagesBuffer c) (outMessagesCounter c).
Definition set_chunks x c := Conn (behaviour c) (selfPeer c) x (outMessagesBuffer c) (outMessagesCounter c).
Definition set_out x n c := Conn (behaviour c) (selfPeer c) (chunksBuffer c) x n.

(** TreeMap's [+] and [-] *)
Fixpoint tree_insert (id : Z) (msg : bytes) (l : list (Z * bytes)) : list (Z * bytes) :=
  match l with
  | [] => [(id, msg)]
  | (id', msg') :: l' =>
      if (id <? id')%Z then (id, msg) :: l
      else if (id =? id')%Z then (id, msg) :: l'
      else (id', msg') :: tree_insert id msg l'
  end.
Definition tree_delete (id : Z) (l : list (Z * bytes)) : list (Z * bytes) :=
  filter (fun p => p.1 <> id) l.

Definition buffer (id : Z) (msg : bytes) (c : Connection) : Connection :=
  set_out (tree_insert id msg (outMessagesBuffer c)) (outMessagesCounter c) c.

Definition writeFirst (c : Connection) : list Out :=
  match outMessagesBuffer c with
  | (id, msg) :: _ => [Write msg (Some id)]
  | [] => []
  end.

Definition pushAllWithNoAck (c : Connection) : list Out :=
  (fun p => Write p.2 None) <$> outMessagesBuffer c.

Section Handle.
Context (cfg : HandlerConfig).

(** preStart, and the evaluation of [handshaking] *)
Definition preStart : Connection * list Out :=
  (Conn Handshaking None [] [] 0,
   [Register; ResumeReading; ScheduleHandshakeTimeout] ++
   match run_writer (HandshakeSpec_serialize (ownHandshake cfg)) with
   | Success hb => [Write hb None]
   | Failure e => [Throws e]
   end).

(** receiveAndHandleHandshake with the handler of [handshaking] *)
Definition handle_handshake (data : bytes) (c : Connection) : Connection * list Out :=
  match run_reader (HandshakeSpec_parse (featureSerializers cfg) (maxHandshakeSize cfg)) data with
  | Success hs =>
      (Conn WorkingWriting (Some (connectionId cfg)) (chunksBuffer c) (outMessagesBuffer c) (outMessagesCounter c),
       [Handshaked (hs_peerSpec hs); CancelHandshakeTimeout; ResumeReading])
  | Failure _ =>
      (c, match selfPeer c with Some p => [PenalizePeer (remoteAddress p)] | None => [] end)
  end.

(** process: deserialize messages off the buffer while it holds a whole one *)
Fixpoint process (fuel : nat) (c : Connection) : Connection * list Out :=
  match fuel with
  | O => (c, [Throws NoFuel])
  | S fuel' =>
      match deserialize (messageSerializer cfg) (chunksBuffer c) (selfPeer c) with
      | Success (Some m) =>
          match messageLength m with
          | Success n =>
              let '(c', outs) := process fuel' (set_chunks (drop (Z.to_nat n) (chunksBuffer c)) c) in
              (c', ToController m :: outs)
          | Failure e => (c, [ToController m; Throws e])
          end
      | Success None => (c, [])
      | Failure e =>
          (c, if decide (e = MaliciousBehaviorException) then [PenalizePeer (remoteAddress (connectionId cfg))] else [])
      end
  end.

Definition remoteInterface (data : bytes) (c : Connection) : Connection * list Out :=
  let c1 := set_chunks (chunksBuffer c ++ data) c in
  let '(c2, outs) := process (S (length (chunksBuffer c1))) c1 in
  (c2, outs ++ [ResumeReading]).

(** closeCommands *)
Definition close (ev : In) (c : Connection) : Connection * list Out :=
  match ev with
  | CloseConnection => (c, pushAllWithNoAck c ++ [Abort])
  | ConnectionClosed => (c, [StopSelf])
  | _ => (c, [])
  end.

(** A message sent from here is serialized, when it can be. *)
Definition serialized (m : Message) (c : Connection) (k : bytes -> Connection * list Out) : Connection * list Out :=
  match serialize (messageSerializer cfg) m with
  | Success bs => k bs
  | Failure e => (c, [Throws e])
  end.

Definition localInterfaceWriting (ev : In) (c : Connection) : option (Connection * list Out) :=
  match ev with
  | InMessage m =>
      let id := (outMessagesCounter c + 1)%Z in
      let c' := set_out (outMessagesBuffer c) id c in
      Some (serialized m c' (fun bs => (c', [Write bs (Some id)])))
  | CommandFailedWrite msg id =>
      Some (set_behaviour WorkingBuffering (buffer id msg c), [ResumeWriting])
  | Ack _ => Some (c, [])
  | WritingResumed => Some (c, [])
  | _ => None
  end.

Definition localInterfaceBuffering (ev : In) (c : Connection) : option (Connection * list Out) :=
  match ev with
  | InMessage m =>
      let id := (outMessagesCounter c + 1)%Z in
      let c' := set_out (outMessagesBuffer c) id c in
      Some (serialized m c' (fun bs => (buffer id bs c', [])))
  | CommandFailedWrite msg id => Some (buffer id msg c, [ResumeWriting])
  | CommandFailedResumeWriting => Some (c, [])
  | WritingResumed => Some (c, writeFirst c)
  | Ack id =>
      let c' := set_out (tree_delete id (outMessagesBuffer c)) (outMessagesCounter c) c in
      Some (if bool_decide (outMessagesBuffer c' = [])
            then (set_behaviour WorkingWriting c', []) else (c', writeFirst c'))
  | _ => None
  end.

(** One event, in the behaviour the handler is in *)
Definition handle (ev : In) (c : Connection) : Connection * list Out :=
  match behaviour c with
  | Handshaking =>
      match ev with
      | Received data => handle_handshake data c
      | HandshakeTimeout => (c, [SelfCloseConnection])
      | _ => close ev c
      end
  | b =>
      match (match b with WorkingWriting => localInterfaceWriting ev c | _ => localInterfaceBuffering ev c end) with
      | Some r => r
      | None => match ev with Received data => remoteInterface data c | _ => close ev c end
      end
  end.

Fixpoint handle_all (evs : list In) (c : Connection) : Connection * list Out :=
  match evs with
  | [] => (c, [])
  | ev :: evs' =>
      let '(c1, o1) := handle ev c in
      let '(c2, o2) := handle_all evs' c1 in
      (c2, o1 ++ o2)
  end.
End Handle.
End Handler.
