(* ===== verification/ConnectionHandlerThms.v ===== *)
(** * ConnectionHandlerThms: the connection as a pair of message streams

    Inward, the handler gives the controller the messages of the byte stream
    however TCP cuts it.  Outward, no message it accepted is lost while the
    kernel accepts, refuses and acknowledges its writes in any order. *)

From Stdlib Require Import Sorted.
From S2P Require Import Prelude External Network VlqThms Messages MessagesThms MessageSpecs MessageSpecsThms ConnectionHandler.

(** ** The incoming stream *)

Section Incoming.
Context `{HF : CryptographicHash} `{B : ByteStringLaws}.
Context (cfg : HandlerConfig).
Abbreviation s := (messageSerializer cfg).

(** A message as its spec and its bytes *)
Definition item : Type := MessageSpec * bytes.
Definition item_ok (i : item) : Prop :=
  specsMap s !! messageCode i.1 = Some i.1 /\ (zlen i.2 <= messageLengthBytesLimit s)%Z.
Definition item_frame (i : item) : bytes := frame s i.1 i.2.
Definition stream (its : list item) : bytes := mjoin (item_frame <$> its).
Definition deliver (src : option ConnectedPeer) (i : item) : Out := ToController (Msg i.1 (inl i.2) src).

(** A buffer that holds no whole message *)
Definition partial (p : bytes) : Prop := forall src, deserialize s p src = Success None.

Lemma partial_nil : partial [].
Proof. intros src. by apply deserialize_short. Qed.

Lemma partial_prefix i p k : serializer_ok s -> item_ok i -> item_frame i = p ++ k -> k <> [] -> partial p.
Proof.
  intros Hs [H1 H2] E Hk src. eapply deserialize_prefix; [done..|by exists k|].
  intros ->. apply Hk. unfold item_frame in E. apply (f_equal length) in E.
  rewrite length_app in E. destruct k; [done|simpl in E; lia].
Qed.

Lemma item_frame_length i : serializer_ok s -> (HeaderLength <= zlen (item_frame i))%Z.
Proof. intros Hs. unfold item_frame. rewrite frame_length by done. pose proof (zlen_nonneg (body i.2)). lia. Qed.

Lemma item_messageLength i src : serializer_ok s ->
  messageLength (Msg i.1 (inl i.2) src) = Success (zlen (item_frame i)).
Proof.
  intros Hs. unfold messageLength, dataLength, item_frame. cbn. rewrite frame_length, body_length by (done || apply Hs).
  destruct (0 <? zlen i.2)%Z; f_equal; lia.
Qed.

(** A prefix of a stream is some of its messages and a partial one. *)
Lemma stream_prefix its q r : serializer_ok s -> Forall item_ok its -> stream its = q ++ r ->
  exists its1 its2 p, its = its1 ++ its2 /\ q = stream its1 ++ p /\ partial p /\ stream its2 = p ++ r.
Proof.
  intros Hs Hall. revert q r. induction Hall as [|i its Hi Hall IH]; intros q r E.
  - symmetry in E. apply app_eq_nil in E as [-> ->]. exists [], [], []. split_and!; auto using partial_nil.
  - change (item_frame i ++ stream its = q ++ r) in E.
    apply app_eq_inv in E as [(k & Ei & ->)|(k & -> & E)]; swap 1 2.
    + destruct (IH k r E) as (its1 & its2 & p & -> & -> & Hp & E2).
      exists (i :: its1), its2, p. split_and!; [done|by rewrite app_assoc|done|done].
    + destruct (decide (k = [])) as [->|Hk].
      * rewrite app_nil_r in Ei. subst q. exists [i], its, [].
        split_and!; [done|by unfold stream; simpl; rewrite !app_nil_r|apply partial_nil|done].
      * exists [], (i :: its), q. split_and!; [done|done|by eapply partial_prefix|].
        change (item_frame i ++ stream its = q ++ k ++ stream its). by rewrite Ei, <- app_assoc.
Qed.

Lemma process_stream its p fuel c : serializer_ok s -> Forall item_ok its -> partial p ->
  chunksBuffer c = stream its ++ p -> length (chunksBuffer c) < fuel ->
  process cfg fuel c = (set_chunks p c, deliver (selfPeer c) <$> its).
Proof.
  intros Hs Hall Hp. revert fuel c. induction Hall as [|i its [Hi1 Hi2] Hall IH]; intros fuel c E Hf;
    (destruct fuel as [|fuel]; [lia|]); cbn [process]; rewrite E.
  - cbn. rewrite Hp. f_equal. destruct c; cbn in *. by subst.
  - change (stream (i :: its)) with (item_frame i ++ stream its) in *. rewrite <- app_assoc in *.
    unfold item_frame at 1. rewrite deserialize_frame by done. rewrite item_messageLength by done.
    unfold zlen. rewrite Nat2Z.id, drop_app_length.
    rewrite IH; [destruct c; done|done|].
    pose proof (item_frame_length i Hs) as Hl. unfold HeaderLength, MagicLength, zlen in Hl.
    cbn. rewrite E in Hf. rewrite length_app in Hf. lia.
Qed.

Definition is_working (b : Behaviour) : Prop := b <> Handshaking.

Lemma handle_received data c : is_working (behaviour c) ->
  handle cfg (Received data) c = remoteInterface cfg data c.
Proof. unfold handle, is_working. by destruct (behaviour c). Qed.

Lemma remoteInterface_stream its p c data : serializer_ok s -> Forall item_ok its -> partial p ->
  chunksBuffer c ++ data = stream its ++ p ->
  remoteInterface cfg data c = (set_chunks p c, (deliver (selfPeer c) <$> its) ++ [ResumeReading]).
Proof.
  intros Hs Hall Hp E. unfold remoteInterface. erewrite process_stream; [|done..| |lia]; [|exact E].
  by destruct c.
Qed.

(** What the controller gets, in order *)
Definition to_controller (o : Out) : option Message := match o with ToController m => Some m | _ => None end.
Definition is_regular (o : Out) : Prop := match o with ToController _ | ResumeReading => True | _ => False end.

Lemma deliver_all src its :
  omap to_controller (deliver src <$> its) = (fun i => Msg i.1 (inl i.2) src) <$> its /\
  Forall is_regular (deliver src <$> its).
Proof.
  split.
  - induction its as [|i its IH]; [done|]. cbn. by rewrite IH.
  - induction its; constructor; done.
Qed.

Lemma chunked_stream cs its c : serializer_ok s -> Forall item_ok its -> is_working (behaviour c) ->
  partial (chunksBuffer c) -> chunksBuffer c ++ mjoin cs = stream its ->
  exists outs, handle_all cfg (Received <$> cs) c = (set_chunks [] c, outs) /\
    omap to_controller outs = (fun i => Msg i.1 (inl i.2) (selfPeer c)) <$> its /\ Forall is_regular outs.
Proof.
  intros Hs. revert its c. induction cs as [|d cs IH]; intros its c Hall Hw Hp E.
  - cbn in *. rewrite app_nil_r in E. exists []. destruct its as [|i its].
    + destruct c; cbn in *; subst; done.
    + exfalso. inversion Hall as [|?? [H1 H2] H3]; subst. specialize (Hp None).
      rewrite E in Hp. change (stream (i :: its)) with (item_frame i ++ stream its) in Hp.
      unfold item_frame at 1 in Hp. by rewrite deserialize_frame in Hp.
  - cbn in E. rewrite app_assoc in E. symmetry in E.
    destruct (stream_prefix its _ _ Hs Hall E) as (its1 & its2 & p & -> & Eq & Hp' & E2).
    apply Forall_app in Hall as [Ha1 Ha2].
    change (Received <$> d :: cs) with (Received d :: (Received <$> cs)). cbn [handle_all].
    rewrite handle_received, (remoteInterface_stream its1 p) by done.
    destruct (IH its2 (set_chunks p c) Ha2 Hw Hp' (eq_sym E2)) as (outs & -> & Ho & Hr).
    destruct (deliver_all (selfPeer c) its1) as [Hd Hdr].
    eexists. split; [by destruct c|]. rewrite !omap_app, fmap_app, Hd, Ho. cbn.
    split; [by rewrite app_nil_r|]. rewrite !Forall_app. split_and!; [done|by repeat constructor|done].
Qed.

(** C24: however the network cuts the bytes of a sequence of messages into
    chunks, a working connection whose buffer is empty hands exactly these
    messages to the controller, in order and tagged with its peer; it
    penalizes nobody, fails nowhere, asks for more after each chunk, and ends
    with an empty buffer. *)
Theorem stream_reassembly its cs c : serializer_ok s -> Forall item_ok its -> is_working (behaviour c) ->
  chunksBuffer c = [] -> mjoin cs = stream its ->
  exists outs, handle_all cfg (Received <$> cs) c = (set_chunks [] c, outs) /\
    omap to_controller outs = (fun i => Msg i.1 (inl i.2) (selfPeer c)) <$> its /\ Forall is_regular outs.
Proof.
  intros Hs Hall Hw Hc E. apply chunked_stream; [done..| |by rewrite Hc].
  rewrite Hc. apply partial_nil.
Qed.
End Incoming.

(** ** The outgoing messages *)

Section Outgoing.
Context `{HF : CryptographicHash} `{B : ByteStringInts}.
Context (cfg : HandlerConfig).

(** The handler with its surroundings: the messages it accepted, serialized;
    the writes the kernel holds; the identifiers it acknowledged *)
Record World := {
  conn : Connection;
  accepted : list bytes;
  inflight : list (Z * bytes);
  acked : gset Z
}.

Definition tagged (o : Out) : option (Z * bytes) :=
  match o with Write bs (Some id) => Some (id, bs) | _ => None end.

(** The events that are neither a message to send nor an answer to a write *)
Definition other_event (ev : In) : Prop :=
  match ev with InMessage _ | Ack _ | CommandFailedWrite _ _ => False | _ => True end.

Inductive wstep : World -> World -> Prop :=
| w_send m bs c outs acc fl ak c' :
    serialize (messageSerializer cfg) m = Success bs ->
    handle cfg (InMessage m) c = (c', outs) ->
    wstep (Build_World c acc fl ak) (Build_World c' (acc ++ [bs]) (fl ++ omap tagged outs) ak)
| w_ack id bs c outs acc fl1 fl2 ak c' :
    handle cfg (Ack id) c = (c', outs) ->
    wstep (Build_World c acc (fl1 ++ (id, bs) :: fl2) ak)
          (Build_World c' acc (fl1 ++ fl2 ++ omap tagged outs) ({[id]} ∪ ak))
| w_fail id bs c outs acc fl1 fl2 ak c' :
    handle cfg (CommandFailedWrite bs id) c = (c', outs) ->
    wstep (Build_World c acc (fl1 ++ (id, bs) :: fl2) ak)
          (Build_World c' acc (fl1 ++ fl2 ++ omap tagged outs) ak)
| w_other ev c outs acc fl ak c' :
    other_event ev -> handle cfg ev c = (c', outs) ->
    wstep (Build_World c acc fl ak) (Build_World c' acc (fl ++ omap tagged outs) ak).

(** A connection just after its handshake *)
Definition w_init (peer : option ConnectedPeer) (chunks : bytes) : World :=
  Build_World (Conn WorkingWriting peer chunks [] 0) [] [] ∅.

Definition reachable (w : World) : Prop := exists p b, rtc wstep (w_init p b) w.

(** The message of an identifier *)
Definition names (acc : list bytes) (p : Z * bytes) : Prop :=
  (1 <= p.1)%Z /\ acc !! Z.to_nat (p.1 - 1) = Some p.2.

Record world_ok (w : World) : Prop := {
  w_mode : (behaviour (conn w) = WorkingWriting /\ outMessagesBuffer (conn w) = []) \/
           (behaviour (conn w) = WorkingBuffering /\ outMessagesBuffer (conn w) <> []);
  w_sorted : StronglySorted Z.lt (outMessagesBuffer (conn w)).*1;
  w_counter : outMessagesCounter (conn w) = zlen (accepted w);
  w_buffered : Forall (names (accepted w)) (outMessagesBuffer (conn w));
  w_inflight : Forall (names (accepted w)) (inflight w);
  w_covered p : names (accepted w) p ->
    p.1 ∈ acked w \/ p ∈ inflight w \/ p ∈ outMessagesBuffer (conn w)
}.

Lemma names_functional acc p q : names acc p -> names acc q -> p.1 = q.1 -> p = q.
Proof. intros [_ H1] [_ H2] E. rewrite E, H2 in H1. destruct p, q; cbn in *. congruence. Qed.

Lemma tree_insert_elem id msg l p :
  p ∈ tree_insert id msg l -> p = (id, msg) \/ p ∈ l.
Proof.
  induction l as [|[i m] l IH]; cbn; [set_solver|].
  destruct (id <? i)%Z; [set_solver|]. destruct (id =? i)%Z; set_solver.
Qed.

Lemma tree_insert_new id msg l : (id, msg) ∈ tree_insert id msg l.
Proof.
  induction l as [|[i m] l IH]; cbn; [set_solver|].
  destruct (id <? i)%Z; [set_solver|]. destruct (id =? i)%Z; set_solver.
Qed.

Lemma tree_insert_old id msg l p : p ∈ l -> p.1 <> id -> p ∈ tree_insert id msg l.
Proof.
  intros Hp Hne. induction l as [|[i m] l IH]; cbn; [set_solver|].
  destruct (id <? i)%Z; [set_solver|]. destruct (Z.eqb_spec id i) as [->|]; [|set_solver].
  apply elem_of_cons in Hp as [->|]; [done|set_solver].
Qed.

Lemma tree_insert_nonempty id msg l : tree_insert id msg l <> [].
Proof. destruct l as [|[i m] l]; cbn; [done|]. destruct (id <? i)%Z, (id =? i)%Z; done. Qed.

Lemma elem_of_tree_delete id l p : p ∈ tree_delete id l <-> p.1 <> id /\ p ∈ l.
Proof. unfold tree_delete. by rewrite list_elem_of_filter. Qed.

(** Inserting the message of an identifier keeps every message of the buffer. *)
Lemma tree_insert_names acc id msg l : Forall (names acc) l -> names acc (id, msg) ->
  Forall (names acc) (tree_insert id msg l) /\ forall p, p ∈ (id, msg) :: l -> p ∈ tree_insert id msg l.
Proof.
  intros Hl Hn. rewrite !Forall_forall in *. split.
  - intros p [->|Hp]%tree_insert_elem; auto.
  - intros p [->|Hp]%elem_of_cons; [apply tree_insert_new|].
    destruct (decide (p.1 = id)) as [E|]; [|by apply tree_insert_old].
    rewrite (names_functional acc p (id, msg)) by (auto; done). apply tree_insert_new.
Qed.

Lemma tree_insert_sorted id msg l : StronglySorted Z.lt l.*1 -> StronglySorted Z.lt (tree_insert id msg l).*1.
Proof.
  induction l as [|[i m] l IH]; cbn; [by repeat constructor|]. intros Hs. pose proof Hs as [Hl Hi]%StronglySorted_inv.
  destruct (Z.ltb_spec id i); [|destruct (Z.eqb_spec id i) as [->|]; [done|]].
  - constructor; [done|]. cbn. constructor; [done|]. eapply Forall_impl; [done|]. cbn. lia.
  - cbn. constructor; [auto|]. rewrite Forall_fmap, Forall_forall in *. cbn.
    intros p [->|Hp]%tree_insert_elem; [cbn; lia|exact (Hi p Hp)].
Qed.

Lemma tree_delete_sorted id l : StronglySorted Z.lt l.*1 -> StronglySorted Z.lt (tree_delete id l).*1.
Proof.
  induction l as [|[i m] l IH]; [done|]. rewrite fmap_cons. intros [Hl Hi]%StronglySorted_inv. unfold tree_delete in *.
  destruct (decide ((i, m).1 <> id)); [rewrite filter_cons_True by done|rewrite filter_cons_False by done].
  - cbn. constructor; [auto|]. rewrite Forall_fmap, Forall_forall in *.
    intros p [_ Hp]%list_elem_of_filter. exact (Hi p Hp).
  - auto.
Qed.

Lemma names_app acc bs p : names acc p -> names (acc ++ [bs]) p.
Proof. intros [H1 H2]. split; [done|]. by apply lookup_app_l_Some. Qed.

Lemma names_last acc bs : names (acc ++ [bs]) (zlen acc + 1, bs)%Z.
Proof.
  unfold names, zlen. cbn. split; [lia|]. apply list_lookup_middle. lia.
Qed.

Lemma names_snoc acc bs p : names (acc ++ [bs]) p -> names acc p \/ p = (zlen acc + 1, bs)%Z.
Proof.
  intros [H1 H2]. apply lookup_app_Some in H2 as [H|[Hl H]]; [by left; split|right].
  destruct (Z.to_nat (p.1 - 1) - length acc) eqn:E; [|done]. cbn in H. destruct p as [i m]; cbn in *.
  unfold zlen. assert (i = Z.of_nat (length acc) + 1)%Z by lia. congruence.
Qed.

Lemma process_keeps fuel c c' outs : process cfg fuel c = (c', outs) ->
  behaviour c' = behaviour c /\ outMessagesBuffer c' = outMessagesBuffer c /\
  outMessagesCounter c' = outMessagesCounter c /\ omap tagged outs = [].
Proof.
  revert c c' outs. induction fuel as [|fuel IH]; intros c c' outs; cbn [process]; [by intros [= <- <-]|].
  destruct (deserialize _ _ _) as [[m|]|e]; [|by intros [= <- <-]|].
  - destruct (messageLength m) as [n|e]; [|by intros [= <- <-]].
    destruct (process _ _ _) as [c2 o2] eqn:E. intros [= <- <-]. cbn. apply IH in E as (-> & -> & -> & ->). by destruct c.
  - intros [= <- <-]. split_and!; [done..|]. by destruct (decide _).
Qed.

(** Outside Handshaking, the events that are not about a message leave the
    outgoing side alone, but may write some of the buffer again. *)
Lemma other_keeps ev c c' outs : other_event ev -> behaviour c <> Handshaking -> handle cfg ev c = (c', outs) ->
  behaviour c' = behaviour c /\ outMessagesBuffer c' = outMessagesBuffer c /\
  outMessagesCounter c' = outMessagesCounter c /\ Forall (fun p => p ∈ outMessagesBuffer c) (omap tagged outs).
Proof.
  assert (forall l, omap tagged ((fun p : Z * bytes => Write p.2 None) <$> l) = []) as Hpush.
  { intros l. by induction l. }
  assert (omap tagged (writeFirst c) = take 1 (outMessagesBuffer c)) as Hfirst.
  { unfold writeFirst. by destruct (outMessagesBuffer c) as [|[i m] l]. }
  intros Hev Hb H. unfold handle in H. destruct (behaviour c) eqn:E, ev; try done; cbn in H;
    try (injection H as <- <-; split_and!; [done..|];
         unfold pushAllWithNoAck; rewrite ?Hfirst, ?omap_app, ?Hpush; constructor; fail).
  all: try (unfold remoteInterface in H; destruct (process _ _ _) as [c2 o2] eqn:Ep; injection H as <- <-;
    apply process_keeps in Ep as (-> & -> & -> & Ho); rewrite omap_app, Ho; cbn; by split_and!).
  injection H as <- <-. split_and!; [done..|]. rewrite Hfirst.
  apply Forall_forall. intros p (i & Hp & _)%elem_of_take. by eapply list_elem_of_lookup_2.
Qed.

Lemma wstep_ok w w' : wstep w w' -> world_ok w -> world_ok w'.
Proof.
  intros Hstep [Hm Hs Hc Hb Hf Hcov]. destruct Hstep as [m bs c outs acc fl ak c' Hser H|id bs c outs acc fl1 fl2 ak c' H
    |id bs c outs acc fl1 fl2 ak c' H|ev c outs acc fl ak c' Hev H]; cbn in *.
  - assert (Forall (names (acc ++ [bs])) (outMessagesBuffer c)) as Hb' by (eapply Forall_impl; [done|apply names_app]).
    assert (Forall (names (acc ++ [bs])) fl) as Hf' by (eapply Forall_impl; [done|apply names_app]).
    pose proof (names_last acc bs) as Hn.
    destruct Hm as [[E E0]|[E E0]]; unfold handle in H; rewrite E in H; cbn in H; unfold serialized in H;
      rewrite Hser in H; injection H as <- <-; split; cbn; rewrite ?Hc, ?zlen_app; try done;
      try by apply tree_insert_sorted.
    + by left.
    + apply Forall_app. split; [done|]. repeat constructor; apply Hn.
    + intros p [Hp| ->]%names_snoc; [|set_solver]. apply Hcov in Hp. set_solver.
    + right. split; [done|apply tree_insert_nonempty].
    + by apply tree_insert_names.
    + rewrite app_nil_r. done.
    + destruct (tree_insert_names (acc ++ [bs]) (zlen acc + 1) bs (outMessagesBuffer c) Hb' Hn) as [_ Hin].
      rewrite app_nil_r. intros p [Hp| ->]%names_snoc; [|right; right; apply Hin; set_solver].
      apply Hcov in Hp as [?|[?|?]]; [by left|by right; left|right; right; apply Hin; set_solver].
  - apply Forall_app in Hf as [Hf1 [Hn Hf2]%Forall_cons].
    assert (forall p, names acc p -> p.1 ∈ ({[id]} ∪ ak : gset Z) \/ p ∈ fl1 ++ fl2 \/ (p ∈ outMessagesBuffer c /\ p.1 <> id)) as Hcov'.
    { intros p Hp. destruct (decide (p.1 = id)); [set_solver|]. apply Hcov in Hp as [?|[Hin|?]]; [set_solver| |set_solver].
      right; left. apply elem_of_app in Hin as [?|[->|?]%elem_of_cons]; set_solver. }
    destruct Hm as [[E E0]|[E E0]]; unfold handle in H; rewrite E in H; cbn in H.
    + injection H as <- <-. split; cbn; [by left|done|done|done|by rewrite app_nil_r; apply Forall_app|].
      intros p Hp. rewrite app_nil_r. destruct (Hcov' p Hp) as [?|[?|[Hin _]]]; [auto..|rewrite E0 in Hin; set_solver].
    + set (b' := tree_delete id (outMessagesBuffer c)) in *.
      assert (Forall (names acc) b') as Hb'.
      { apply Forall_forall. intros p [_ Hp]%elem_of_tree_delete. rewrite Forall_forall in Hb. auto. }
      assert (forall p, p.1 ∈ ({[id]} ∪ ak : gset Z) \/ p ∈ fl1 ++ fl2 \/ (p ∈ outMessagesBuffer c /\ p.1 <> id) ->
                p.1 ∈ ({[id]} ∪ ak : gset Z) \/ p ∈ fl1 ++ fl2 \/ p ∈ b') as Hd.
      { intros p [?|[?|[? ?]]]; auto. right; right. apply elem_of_tree_delete. auto. }
      destruct (bool_decide_reflect (b' = [])) as [Eb|Eb]; injection H as <- <-; split; cbn; try done; try (by left); try (by right);
        try by apply tree_delete_sorted.
      * by rewrite app_nil_r; apply Forall_app.
      * rewrite app_nil_r. auto.
      * rewrite app_assoc. apply Forall_app. split; [by apply Forall_app|].
        unfold writeFirst; cbn. destruct b' as [|[i m] l]; [done|]. cbn. apply Forall_cons in Hb' as [? _]. constructor; [done|constructor].
      * intros p Hp. destruct (Hd p (Hcov' p Hp)) as [?|[?|?]]; set_solver.
  - apply Forall_app in Hf as [Hf1 [Hn Hf2]%Forall_cons].
    assert (Forall (names acc) (tree_insert id bs (outMessagesBuffer c)) /\
      forall p, p ∈ (id, bs) :: outMessagesBuffer c -> p ∈ tree_insert id bs (outMessagesBuffer c)) as [Hb' Hin]
      by (by apply tree_insert_names).
    destruct Hm as [[E E0]|[E E0]]; unfold handle in H; rewrite E in H; cbn in H; injection H as <- <-;
      (split; cbn; [right; split; [done|apply tree_insert_nonempty]|by apply tree_insert_sorted|done|done|by rewrite app_nil_r; apply Forall_app|]);
      rewrite app_nil_r; intros p Hp; (apply Hcov in Hp as [?|[Hi|?]]; [by left| |right; right; apply Hin; set_solver]);
      (apply elem_of_app in Hi as [?|[->|?]%elem_of_cons]; [set_solver|right; right; apply Hin; set_solver|set_solver]).
  - assert (behaviour c <> Handshaking) as Hw by (destruct Hm as [[-> _]|[-> _]]; done).
    destruct (other_keeps ev c c' outs Hev Hw H) as (E1 & E2 & E3 & E4).
    split; cbn; rewrite ?E1, ?E2, ?E3; try done.
    + apply Forall_app. split; [done|]. rewrite Forall_forall in *. auto.
    + intros p Hp. apply Hcov in Hp. set_solver.
Qed.

Lemma reachable_ok w : reachable w -> world_ok w.
Proof.
  intros (p & b & H). assert (world_ok (w_init p b)) as H0.
  { split; cbn; [by left|constructor|done|constructor|constructor|]. intros q [_ Hq]. by rewrite lookup_nil in Hq. }
  induction H; eauto using wstep_ok.
Qed.

(** C25: in whatever order messages are sent, the kernel accepts, refuses and
    acknowledges writes, bytes come in and the connection is asked to close,
    every message the handler accepted is acknowledged, held by the kernel or
    in the buffer under its own identifier with its own bytes; the handler
    buffers exactly while something is in the buffer. *)
Theorem outgoing_not_lost w i bs : reachable w -> accepted w !! i = Some bs ->
  ((Z.of_nat i + 1)%Z ∈ acked w \/ (Z.of_nat i + 1, bs)%Z ∈ inflight w \/
   (Z.of_nat i + 1, bs)%Z ∈ outMessagesBuffer (conn w)) /\
  (behaviour (conn w) = WorkingBuffering <-> outMessagesBuffer (conn w) <> []) /\
  Forall (names (accepted w)) (inflight w ++ outMessagesBuffer (conn w)).
Proof.
  intros [Hm Hs Hc Hb Hf Hcov]%reachable_ok Hi. split; [|split].
  - apply (Hcov (Z.of_nat i + 1, bs)%Z). split; cbn; [lia|]. by replace (Z.to_nat (Z.of_nat i + 1 - 1)) with i by lia.
  - destruct Hm as [[-> E]|[-> E]]; split; done.
  - by apply Forall_app.
Qed.

Lemma acks_drain l : StronglySorted Z.lt l.*1 -> forall c, behaviour c = WorkingBuffering -> outMessagesBuffer c = l ->
  l <> [] -> handle_all cfg (Ack <$> l.*1) c =
    (set_behaviour WorkingWriting (set_out [] (outMessagesCounter c) c), (fun p => Write p.2 (Some p.1)) <$> tail l).
Proof.
  induction l as [|[i m] l IH]; intros Hs d Eb El Hne; [done|].
  cbn in Hs. apply StronglySorted_inv in Hs as [Hs Hi].
  assert (tree_delete i ((i, m) :: l) = l) as Ed.
  { unfold tree_delete. rewrite filter_cons_False by (cbn; tauto). clear -Hi.
    induction l as [|[j k] l IH]; [done|]. rewrite fmap_cons in Hi. apply Forall_cons in Hi as [Hj Hi]. cbn in Hj.
    rewrite filter_cons_True by (cbn; lia). by rewrite IH. }
  cbn [fmap list_fmap handle_all fst tail]. unfold handle. rewrite Eb. cbn [localInterfaceBuffering]. rewrite El, Ed.
  destruct l as [|[i2 m2] l].
  - by destruct d.
  - cbn [set_out outMessagesBuffer]. rewrite bool_decide_false by done.
    pose proof (IH Hs (set_out ((i2, m2) :: l) (outMessagesCounter d) d) Eb eq_refl ltac:(done)) as IH'.
    cbn [fmap list_fmap fst tail] in IH' |- *. rewrite IH'. by destruct d.
Qed.

(** A buffering handler always has something to write; once the kernel
    takes writes again and acknowledges what it is given, it writes its whole
    buffer, in the order the messages were accepted, each once, and goes back
    to writing directly. *)
Theorem buffer_drains w : reachable w -> behaviour (conn w) = WorkingBuffering ->
  outMessagesBuffer (conn w) <> [] /\ StronglySorted Z.lt (outMessagesBuffer (conn w)).*1 /\
  handle_all cfg (WritingResumed :: (Ack <$> (outMessagesBuffer (conn w)).*1)) (conn w) =
    (set_behaviour WorkingWriting (set_out [] (outMessagesCounter (conn w)) (conn w)),
     (fun p => Write p.2 (Some p.1)) <$> outMessagesBuffer (conn w)).
Proof.
  intros [[[E _]|[_ Hne]] Hs _ _ _ _]%reachable_ok Eb; [congruence|]. split; [done|]. split; [done|].
  set (c := conn w) in *. cbn [handle_all]. unfold handle at 1. rewrite Eb. cbn [localInterfaceBuffering].
  rewrite (acks_drain _ Hs c Eb eq_refl Hne). unfold writeFirst. by destruct (outMessagesBuffer c) as [|[i m] l].
Qed.
End Outgoing.

(** ** The handshake *)

Section Handshake.
Context `{HF : CryptographicHash} `{B : ByteStringLaws}.
Context (cfg : HandlerConfig).

(** On a new connection, a chunk that starts with a handshake completes
    it, and the bytes that come after it in the same chunk are dropped instead
    of starting the message stream; a chunk that is no handshake (a part of
    one is such a chunk) has no effect at all: no penalty, as no peer is set
    before the handshake, and no request for more bytes, so that only the
    timeout remains, which closes the connection. *)
Theorem handshake_chunk c h : behaviour c = Handshaking -> selfPeer c = None -> chunksBuffer c = [] ->
  spec_ok (hs_peerSpec h) -> isLong (hs_time h) = true ->
  (exists e, run_writer (HandshakeSpec_serialize h) = Success e /\ forall rest,
    (zlen (e ++ rest) <= maxHandshakeSize cfg)%Z ->
    handle cfg (Received (e ++ rest)) c =
      (Conn WorkingWriting (Some (connectionId cfg)) [] (outMessagesBuffer c) (outMessagesCounter c),
       [Handshaked (known (featureSerializers cfg) (hs_peerSpec h)); CancelHandshakeTimeout; ResumeReading])) /\
  (forall data e, run_reader (HandshakeSpec_parse (featureSerializers cfg) (maxHandshakeSize cfg)) data = Failure e ->
    handle cfg (Received data) c = (c, [])) /\
  handle cfg HandshakeTimeout c = (c, [SelfCloseConnection]) /\
  (outMessagesBuffer c = [] -> handle cfg CloseConnection c = (c, [Abort])).
Proof.
  intros Hb Hp Hc Hs Ht. unfold handle. rewrite Hb. split; [|split; [|split]].
  - destruct (handshake_bytes (featureSerializers cfg) h Hs Ht) as (e & W & R). exists e. split; [done|].
    intros rest Hl. unfold handle_handshake. rewrite R, (proj2 (Z.leb_le _ _)), Hc by done. done.
  - intros data e E. unfold handle_handshake. by rewrite E, Hp.
  - done.
  - intros E. cbn. unfold pushAllWithNoAck. by rewrite E.
Qed.
End Handshake.

(** ** Witnesses *)

Definition sample_config : HandlerConfig :=
  {| connectionId := Peer 7 1 true; messageSerializer := sample_serializer; featureSerializers := [3; 5]%Z;
     maxHandshakeSize := 100; ownHandshake := Hs sample_peer 1000 |}.

Definition sample_connection : Connection := Conn WorkingWriting (Some (Peer 7 1 true)) [] [] 0.

(** Two messages cut into three chunks, in the middle of a header and of a body *)
Lemma stream_reassembly_witness :
  let b := stream (HF := toy_hash32) sample_config [(sample_spec, [z2b 7; z2b 8]); (sample_spec, [z2b 9])] in
  exists outs,
  handle_all (HF := toy_hash32) sample_config (Received <$> [take 6 b; take 15 (drop 6 b); drop 21 b]) sample_connection =
    (sample_connection, outs) /\
  omap to_controller outs = [Msg sample_spec (inl [z2b 7; z2b 8]) (Some (Peer 7 1 true));
                             Msg sample_spec (inl [z2b 9]) (Some (Peer 7 1 true))].
Proof.
  intros b.
  destruct (stream_reassembly (HF := toy_hash32) sample_config [(sample_spec, [z2b 7; z2b 8]); (sample_spec, [z2b 9])]
    [take 6 b; take 15 (drop 6 b); drop 21 b] sample_connection) as (outs & H1 & H2 & _).
  - exact sample_serializer_ok.
  - repeat apply Forall_cons_2; try apply Forall_nil_2; (split; [exact (lookup_singleton_eq 33%Z sample_spec)|by vm_compute]).
  - done.
  - done.
  - by vm_compute.
  - exists outs. split; [exact H1|exact H2].
Defined.

(** A message is sent, refused by the kernel, and a second one is buffered. *)
Definition sample_message (n : Z) : Message := Msg sample_spec (inr [z2b n]) None.
Definition sample_bytes (n : Z) : bytes :=
  match serialize (HF := toy_hash32) sample_serializer (sample_message n) with Success bs => bs | Failure _ => [] end.
Definition sample_world : World :=
  {| conn := Conn WorkingBuffering None [] [(1%Z, sample_bytes 7); (2%Z, sample_bytes 8)] 2;
     accepted := [sample_bytes 7; sample_bytes 8]; inflight := []; acked := ∅ |}.

Lemma sample_world_reachable : reachable (HF := toy_hash32) sample_config sample_world.
Proof.
  exists None, []. eapply rtc_l; [|eapply rtc_l; [|eapply rtc_once]].
  - apply (w_send _ (sample_message 7) (sample_bytes 7)); [by vm_compute|reflexivity].
  - apply (w_fail _ 1 (sample_bytes 7) _ [ResumeWriting] _ [] []). reflexivity.
  - apply (w_send _ (sample_message 8) (sample_bytes 8) _ []); [by vm_compute|reflexivity].
Qed.

Lemma outgoing_not_lost_witness :
  (2%Z ∈ acked sample_world \/ (2%Z, sample_bytes 8) ∈ inflight sample_world \/
   (2%Z, sample_bytes 8) ∈ outMessagesBuffer (conn sample_world)).
Proof.
  destruct (outgoing_not_lost (HF := toy_hash32) sample_config sample_world 1 (sample_bytes 8)) as [H _].
  - apply sample_world_reachable.
  - reflexivity.
  - exact H.
Defined.

Lemma buffer_drains_witness :
  handle_all (HF := toy_hash32) sample_config [WritingResumed; Ack 1; Ack 2] (conn sample_world) =
    (Conn WorkingWriting None [] [] 2, [Write (sample_bytes 7) (Some 1%Z); Write (sample_bytes 8) (Some 2%Z)]).
Proof.
  destruct (buffer_drains (HF := toy_hash32) sample_config sample_world sample_world_reachable eq_refl) as (_ & _ & H).
  exact H.
Defined.

Lemma handshake_chunk_witness : exists e,
  handle (HF := toy_hash32) sample_config (Received (e ++ sample_bytes 7)) (preStart sample_config).1 =
    (sample_connection, [Handshaked (known [3; 5]%Z sample_peer); CancelHandshakeTimeout; ResumeReading]).
Proof.
  destruct (handshake_chunk (HF := toy_hash32) sample_config (preStart sample_config).1 (Hs sample_peer 1000))
    as [(e & H1 & H2) _].
  1-3: done.
  - apply sample_peer_ok.
  - done.
  - exists e. apply (H2 (sample_bytes 7)). vm_compute in H1. injection H1 as <-. by vm_compute.
Defined.
