(* ===== verification/NetAddress.v ===== *)
(** * NetAddress: socket addresses and the networks they belong to

    core/utils/NetworkAddressWrapper.scala and NetworkUtils.scala.  An address is
    resolved and has no host name, so its host string is the literal address:
    four decimal numbers, or eight hexadecimal ones without leading zeros, as
    java.net writes them.  The addresses of the machine's network interfaces are
    an argument. *)

From Stdlib Require Import Ascii String btauto.Btauto.
From stdpp Require Import strings pretty.
From S2P Require Import Prelude MessageSpecs.

#[export] Instance inet_countable : Countable InetSocketAddress.
Proof.
  refine (inj_countable' (fun a => (getAddress a, getPort a)) (fun p => Inet p.1 p.2) _). by intros [].
Defined.

(** An InetAddress is its bytes: 4 of an Inet4Address, 16 of an Inet6Address. *)
Abbreviation InetAddress := bytes.

(** ** java.net *)

Definition byte_at (i : nat) (a : InetAddress) : Z := match a !! i with Some b => ub b | None => 0 end.

(** isSiteLocalAddress, isLoopbackAddress, isAnyLocalAddress *)
Definition isSiteLocalAddress (a : InetAddress) : bool :=
  let b0 := byte_at 0 a in let b1 := byte_at 1 a in
  if (length a =? 4)%nat
  then ((b0 =? 10) || ((b0 =? 172) && (Z.land b1 240 =? 16)) || ((b0 =? 192) && (b1 =? 168)))%Z
  else ((b0 =? 254) && (Z.land b1 192 =? 192))%Z.
Definition isLoopbackAddress (a : InetAddress) : bool :=
  if (length a =? 4)%nat then (byte_at 0 a =? 127)%Z
  else bool_decide (a = replicate 15 (z2b 0) ++ [z2b 1]).
Definition isAnyLocalAddress (a : InetAddress) : bool := forallb (fun b => ub b =? 0)%Z a.

(** The numbers between the separators of a literal address *)
Definition hex_digit (x : Z) : ascii := ascii_of_N (Z.to_N (if x <? 10 then 48 + x else 87 + x)%Z).
Definition toHexString (x : Z) : string :=      (* Integer.toHexString, of 16 bits *)
  let d k := hex_digit (Z.land (Z.shiftr x k) 15) in
  if (x <? 16)%Z then String (d 0%Z) EmptyString
  else if (x <? 256)%Z then String (d 4%Z) (String (d 0%Z) EmptyString)
  else if (x <? 4096)%Z then String (d 8%Z) (String (d 4%Z) (String (d 0%Z) EmptyString))
  else String (d 12%Z) (String (d 8%Z) (String (d 4%Z) (String (d 0%Z) EmptyString))).
Fixpoint hex_groups (a : bytes) : list string :=
  match a with hi :: lo :: a' => toHexString (256 * ub hi + ub lo) :: hex_groups a' | _ => [] end.
Definition decimal (b : byte) : string := pretty (Byte.to_N b).

Fixpoint join (sep : ascii) (l : list string) : string :=
  match l with
  | [] => EmptyString
  | [s] => s
  | s :: l' => String.append s (String sep (join sep l'))
  end.
(** getHostAddress; getHostString of an address without a name *)
Definition getHostAddress (a : InetAddress) : string :=
  if (length a =? 4)%nat then join "." (decimal <$> a) else join ":" (hex_groups a).

(** String.split on a character *)
Fixpoint split_on (sep : ascii) (s : string) : list string :=
  match s with
  | EmptyString => [EmptyString]
  | String c s' =>
      if bool_decide (c = sep) then EmptyString :: split_on sep s'
      else match split_on sep s' with p :: l => String c p :: l | [] => [String c EmptyString] end
  end.

(** String.toInt, of decimal digits *)
Fixpoint toInt_digits (s : string) (acc : Z) : Z :=
  match s with EmptyString => acc | String c s' => toInt_digits s' (10 * acc + (Z.of_N (N_of_ascii c) - 48)) end.

(** ** NetworkUtils *)

Definition isLocalAddress (a : InetAddress) : bool := isSiteLocalAddress a || isLoopbackAddress a || isAnyLocalAddress a.

(** getListenAddresses: [interfaces] are the addresses of the network interfaces *)
Definition getListenAddresses (interfaces : list InetAddress) (bindAddress : InetSocketAddress) : list InetSocketAddress :=
  if isLocalAddress (getAddress bindAddress)
  then (fun a => Inet a (getPort bindAddress)) <$> filter (fun a => length a = 4) interfaces
  else [bindAddress].

Definition isSelf (interfaces : list InetAddress) (bindAddress : InetSocketAddress) (externalNodeAddress : option InetSocketAddress)
    (peerAddress : InetSocketAddress) : bool :=
  bool_decide (peerAddress ∈ getListenAddresses interfaces bindAddress) || bool_decide (externalNodeAddress = Some peerAddress).

(** ** NetworkAddressWrapper *)

Definition isIPv4 (a : InetAddress) : bool := (length a =? 4)%nat.
Definition isIPv6 (a : InetAddress) : bool := (length a =? 16)%nat.
Definition stringAddr (a : InetAddress) : list string :=
  if isIPv4 a then split_on "." (getHostAddress a) else split_on ":" (getHostAddress a).
(** stringAddr(i); the addresses have that many parts *)
Definition sub (i : nat) (a : InetAddress) : string := default EmptyString (stringAddr a !! i).
Definition part_is (i : nat) (s : string) (a : InetAddress) : bool := bool_decide (sub i a = s).

Definition isLocal (a : InetAddress) : bool := isLocalAddress a.
Definition isBetween (str : string) (lower higher : Z) : bool :=
  let num := toInt_digits str 0 in (lower <=? num)%Z && (num <=? higher)%Z.

Definition isRFC1918 (a : InetAddress) : bool :=
  isIPv4 a && (part_is 0 "10" a || (part_is 0 "192" a && part_is 1 "168" a) || (part_is 0 "172" a && isBetween (sub 1 a) 16 31)).
Definition isRFC2544 (a : InetAddress) : bool := isIPv4 a && (part_is 0 "198" a && isBetween (sub 1 a) 18 19).
Definition isRFC6598 (a : InetAddress) : bool := isIPv4 a && (part_is 0 "100" a && isBetween (sub 1 a) 64 127).
Definition isRFC5737 (a : InetAddress) : bool :=
  isIPv4 a && ((part_is 0 "192" a && part_is 1 "0" a && part_is 2 "2" a) ||
               (part_is 0 "198" a && part_is 1 "51" a && part_is 2 "100" a) ||
               (part_is 0 "203" a && part_is 1 "0" a && part_is 2 "113" a)).
Definition isRFC3927 (a : InetAddress) : bool := isIPv4 a && (part_is 0 "169" a && part_is 1 "254" a).
Definition isRFC3849 (a : InetAddress) : bool := isIPv6 a && part_is 0 "2001" a && part_is 1 "0db8" a.
Definition isRFC3964 (a : InetAddress) : bool := isIPv6 a && part_is 0 "2002" a.
Definition isRFC4193 (a : InetAddress) : bool := isIPv6 a && part_is 0 "fc00" a.
Definition isRFC4380 (a : InetAddress) : bool := isIPv6 a && part_is 0 "2001" a && part_is 1 "0" a.
Definition isRFC4843 (a : InetAddress) : bool := isIPv6 a && part_is 0 "2001" a && part_is 1 "10" a.
Definition isRFC4862 (a : InetAddress) : bool := isIPv6 a && part_is 0 "fe80" a.
Definition isRFC6052 (a : InetAddress) : bool := isIPv6 a && part_is 0 "64" a && part_is 1 "ff9b" a.
Definition isRFC6145 (a : InetAddress) : bool := isIPv6 a && part_is 3 "ffff" a.

Definition isRoutable (a : InetAddress) : bool :=
  negb (isRFC1918 a || isRFC2544 a || isRFC3927 a || isRFC6598 a || isRFC5737 a || isLocal a).
Definition hasLinkedIPv4 (a : InetAddress) : bool :=
  isRoutable a && (isIPv4 a || isRFC6145 a || isRFC6052 a || isRFC3964 a || isRFC4380 a).

(** getSubNum: the characters are ASCII *)
Definition string_bytes (s : string) : bytes := String.list_byte_of_string s.
Definition getSubNum (i : nat) (a : InetAddress) : bytes := string_bytes (sub i a).

Definition NET_UNROUTABLE : Z := 0.
Definition NET_IPV4 : Z := 1.
Definition NET_IPV6 : Z := 2.

Example host_v4 : stringAddr [z2b 192; z2b 0; z2b 2; z2b 17] = ["192"; "0"; "2"; "17"].
Proof. by vm_compute. Qed.
Example host_v6 : getHostAddress (z2b <$> [32; 1; 13; 184; 0; 0; 0; 0; 0; 0; 0; 0; 0; 0; 18; 52]%Z) = "2001:db8:0:0:0:0:0:1234".
Proof. by vm_compute. Qed.

(** ** What the wrapper decides *)

Fixpoint no_sep (sep : ascii) (s : string) : bool :=
  match s with EmptyString => true | String c s' => negb (bool_decide (c = sep)) && no_sep sep s' end.

Lemma split_one sep s : no_sep sep s = true -> split_on sep s = [s].
Proof.
  induction s as [|c s IH]; [done|]. cbn [split_on no_sep]. intros [Hc Hs]%andb_true_iff. apply negb_true_iff in Hc. rewrite Hc, IH by done. done.
Qed.
Lemma split_cut sep s r : no_sep sep s = true -> split_on sep (String.append s (String sep r)) = s :: split_on sep r.
Proof.
  induction s as [|c s IH]; intros Hs.
  - change (split_on sep (String sep r) = EmptyString :: split_on sep r). cbn [split_on]. by rewrite bool_decide_true.
  - change (split_on sep (String c (String.append s (String sep r))) = String c s :: split_on sep r). cbn [split_on no_sep] in *.
    apply andb_true_iff in Hs as [Hc Hs]. apply negb_true_iff in Hc. rewrite Hc, IH by done. done.
Qed.
Lemma split_join sep l : l <> [] -> forallb (no_sep sep) l = true -> split_on sep (join sep l) = l.
Proof.
  induction l as [|s l IH]; [done|]. intros _ [Hs Hl]%andb_true_iff. destruct l as [|s' l]; [by apply split_one|].
  change (join sep (s :: s' :: l)) with (String.append s (String sep (join sep (s' :: l)))). by rewrite split_cut, IH.
Qed.

Lemma decimal_no_dot b : no_sep "." (decimal b) = true.
Proof. revert b. apply byte_forall. by vm_compute. Qed.
Lemma stringAddr_v4 a b c d : stringAddr [a; b; c; d] = [decimal a; decimal b; decimal c; decimal d].
Proof.
  unfold stringAddr, getHostAddress. cbn [isIPv4 length Nat.eqb fmap list_fmap]. apply split_join; [done|]. cbn [forallb]. by rewrite !decimal_no_dot.
Qed.

Lemma decimal_is n b : (0 <= n < 256)%Z -> bool_decide (decimal b = decimal (z2b n)) = (ub b =? n)%Z.
Proof.
  intros Hn. assert (ub (z2b n) = n) as E by (rewrite ub_z2b; apply Z.mod_small; lia). destruct (Z.eqb_spec (ub b) n) as [H|H].
  - apply bool_decide_eq_true. f_equal. apply ub_inj. congruence.
  - apply bool_decide_eq_false. intros Hd. apply H. unfold decimal in Hd. apply (inj pretty) in Hd. unfold ub in *. congruence.
Qed.
Lemma between_is lo hi b : isBetween (decimal b) lo hi = ((lo <=? ub b) && (ub b <=? hi))%Z.
Proof.
  unfold isBetween. assert (toInt_digits (decimal b) 0 = ub b) as ->; [|done].
  apply Z.eqb_eq. revert b. apply (byte_forall (fun b => toInt_digits (decimal b) 0 =? ub b)%Z). by vm_compute.
Qed.

(** A network: its address and the number of bits that are the same in all of it *)
Definition number_v4 (a b c d : byte) : Z := (((ub a * 256 + ub b) * 256 + ub c) * 256 + ub d)%Z.
Definition network (a b c d bits : Z) : Z * Z := ((((a * 256 + b) * 256 + c) * 256 + d), 2 ^ (32 - bits))%Z.
Definition in_network (x : Z) (n : Z * Z) : bool := (x / n.2 =? n.1 / n.2)%Z.

Definition unroutable_networks : list (Z * Z) :=
  [network 10 0 0 0 8; network 172 16 0 0 12; network 192 168 0 0 16; network 198 18 0 0 15; network 169 254 0 0 16;
   network 100 64 0 0 10; network 192 0 2 0 24; network 198 51 100 0 24; network 203 0 113 0 24; network 127 0 0 0 8; network 0 0 0 0 32]%Z.

#[local] Ltac Zify.zify_post_hook ::= Z.to_euclidean_division_equations.

Section V4.
Context (a b c d : byte).
Let x := number_v4 a b c d.

Lemma sub_v4 : sub 0 [a; b; c; d] = decimal a /\ sub 1 [a; b; c; d] = decimal b /\ sub 2 [a; b; c; d] = decimal c.
Proof. unfold sub. by rewrite stringAddr_v4. Qed.
Lemma part_v4 (n : Z) s : (0 <= n < 256)%Z -> s = decimal (z2b n) ->
  part_is 0 s [a; b; c; d] = (ub a =? n)%Z /\ part_is 1 s [a; b; c; d] = (ub b =? n)%Z /\ part_is 2 s [a; b; c; d] = (ub c =? n)%Z.
Proof. intros Hn ->. unfold part_is. destruct sub_v4 as (-> & -> & ->). by rewrite !decimal_is. Qed.

(** Whole numbers of bytes *)
Lemma net8 n : in_network x (network n 0 0 0 8) = (ub a =? n)%Z.
Proof.
  unfold in_network, network, x, number_v4. cbn [fst snd]. change (2 ^ (32 - 8))%Z with 16777216%Z.
  pose proof (ub_range b). pose proof (ub_range c). pose proof (ub_range d). apply eq_bool_prop_intro. rewrite !Is_true_true, !Z.eqb_eq. lia.
Qed.
Lemma net16 n k : (0 <= k < 256)%Z -> in_network x (network n k 0 0 16) = ((ub a =? n) && (ub b =? k))%Z.
Proof.
  intros Hk. unfold in_network, network, x, number_v4. cbn [fst snd]. change (2 ^ (32 - 16))%Z with 65536%Z.
  pose proof (ub_range b). pose proof (ub_range c). pose proof (ub_range d). apply eq_bool_prop_intro. rewrite !Is_true_true, andb_true_iff, !Z.eqb_eq. lia.
Qed.
Lemma net24 n k j : (0 <= k < 256)%Z -> (0 <= j < 256)%Z -> in_network x (network n k j 0 24) = ((ub a =? n) && (ub b =? k) && (ub c =? j))%Z.
Proof.
  intros Hk Hj. unfold in_network, network, x, number_v4. cbn [fst snd]. change (2 ^ (32 - 24))%Z with 256%Z.
  pose proof (ub_range b). pose proof (ub_range c). pose proof (ub_range d). apply eq_bool_prop_intro. rewrite !Is_true_true, !andb_true_iff, !Z.eqb_eq. lia.
Qed.
(** A part of the second byte *)
Lemma net_part n lo hi bits : (bits, lo, hi) ∈ [(12, 16, 31); (15, 18, 19); (10, 64, 127)]%Z ->
  in_network x (network n lo 0 0 bits) = ((ub a =? n) && ((lo <=? ub b) && (ub b <=? hi)))%Z.
Proof.
  intros H. unfold in_network, network, x, number_v4. cbn [fst snd]. pose proof (ub_range b). pose proof (ub_range c). pose proof (ub_range d).
  apply eq_bool_prop_intro. rewrite !Is_true_true, !andb_true_iff, !Z.eqb_eq, !Z.leb_le.
  rewrite !elem_of_cons in H. destruct H as [[= -> -> ->]|[[= -> -> ->]|[[= -> -> ->]|[]%elem_of_nil]]].
  - change (2 ^ (32 - 12))%Z with 1048576%Z. lia.
  - change (2 ^ (32 - 15))%Z with 131072%Z. lia.
  - change (2 ^ (32 - 10))%Z with 4194304%Z. lia.
Qed.
Lemma net32 : in_network x (network 0 0 0 0 32) = forallb (fun b => ub b =? 0)%Z [a; b; c; d].
Proof.
  unfold in_network, network, x, number_v4. cbn [fst snd forallb]. change (2 ^ (32 - 32))%Z with 1%Z. rewrite !Z.div_1_r.
  pose proof (ub_range a). pose proof (ub_range b). pose proof (ub_range c). pose proof (ub_range d).
  apply eq_bool_prop_intro. rewrite !Is_true_true, !andb_true_iff, !Z.eqb_eq. lia.
Qed.
End V4.

(** An IPv4 address is routable exactly when it is in none of the private,
    benchmarking, link-local, carrier, documentation, loopback and unspecified
    networks, as numbers; then, and only then, it stands for an IPv4 network. *)
Theorem routable_v4 a b c d :
  isRoutable [a; b; c; d] = negb (existsb (in_network (number_v4 a b c d)) unroutable_networks) /\
  hasLinkedIPv4 [a; b; c; d] = isRoutable [a; b; c; d].
Proof.
  assert (forall b, (Z.land (ub b) 240 =? 16) = ((16 <=? ub b) && (ub b <=? 31)))%Z as Hland.
  { intros b'. apply eqb_prop. revert b'. apply (byte_forall (fun b => eqb (Z.land (ub b) 240 =? 16)%Z ((16 <=? ub b) && (ub b <=? 31))%Z)). by vm_compute. }
  destruct (sub_v4 a b c d) as (_ & Esub & _). split; [|unfold hasLinkedIPv4; cbn [isIPv4 length Nat.eqb orb]; apply andb_true_r].
  unfold isRoutable, isRFC1918, isRFC2544, isRFC3927, isRFC6598, isRFC5737. cbn [isIPv4 length Nat.eqb andb]. rewrite Esub, !between_is.
  repeat match goal with
  | |- context [part_is ?i ?s [a; b; c; d]] =>
      let n := eval vm_compute in (toInt_digits s 0) in
      let H := fresh in
      pose proof (part_v4 a b c d n s ltac:(lia) ltac:(by vm_compute)) as H; destruct H as (H0 & H1 & H2); rewrite ?H0, ?H1, ?H2; clear H0 H1 H2
  end.
  unfold isLocal, isLocalAddress, isSiteLocalAddress, isLoopbackAddress, isAnyLocalAddress, byte_at. cbn [length Nat.eqb lookup list_lookup]. rewrite Hland.
  unfold unroutable_networks. cbn [existsb]. rewrite !net8, !net16, !net24, !net32 by lia.
  rewrite (net_part _ _ _ _ _ 16 31 12), (net_part _ _ _ _ _ 18 19 15), (net_part _ _ _ _ _ 64 127 10) by (rewrite !elem_of_cons; tauto). cbn [forallb]. f_equal. rewrite !andb_true_r.
  repeat match goal with |- context [(?x =? ?n)%Z] => generalize (x =? n)%Z; intros ? end.
  repeat match goal with |- context [(?x <=? ?n)%Z] => generalize (x <=? n)%Z; intros ? end. btauto.
Qed.

(** The tests of IPv6 networks compare the parts of an address with texts it does
    not have: 2001:db8::1 is not in the documentation network, fd00::1 not unique
    local, ::ffff:0:1.2.3.4 not translated; link-local fe80::1 is routable. *)
Lemma v6_tests_miss :
  let v6 (l : list Z) := z2b <$> l in
  isRFC3849 (v6 [32; 1; 13; 184; 0; 0; 0; 0; 0; 0; 0; 0; 0; 0; 0; 1]%Z) = false /\
  isRFC4193 (v6 [253; 0; 0; 0; 0; 0; 0; 0; 0; 0; 0; 0; 0; 0; 0; 1]%Z) = false /\
  isRFC6145 (v6 [0; 0; 0; 0; 0; 0; 0; 0; 255; 255; 0; 0; 1; 2; 3; 4]%Z) = false /\
  isRoutable (v6 [254; 128; 0; 0; 0; 0; 0; 0; 0; 0; 0; 0; 0; 0; 0; 1]%Z) = true.
Proof. by vm_compute. Qed.
