(* ===== verification/PeerBuckets.v ===== *)
(** * PeerBuckets: the bounded tables of known peers

    core/network/peer/PeerBucketStorage.scala, BucketManager.scala, PeerInfo.scala
    and the value types of PeerDatabase.scala.  A storage is a table of slots,
    a bucket and a position in it, and a reverse table from addresses to slots.
    The slot of an address is a hash of it, so two addresses may have one.  The
    clock reading is an argument.  Whether two arrays are one object, which is
    what the equality of session features asks, is the argument same_array. *)

From stdpp Require Import strings pretty.
From S2P Require Import Prelude External Network MessageSpecs NetAddress.

(** ** Peers *)

(** ConnectionDirection.scala *)
Inductive ConnectionDirection := Incoming | Outgoing.
Record PeerInfo := Info { peerSpec : PeerSpec; lastHandshake : Z; connectionType : option ConnectionDirection }.

Inductive PeerConfidence := Unknown | Low | Medium | High | Forger.
Record PeerDatabaseValue := DbValue { db_address : InetSocketAddress; peerInfo : PeerInfo; confidence : PeerConfidence }.

#[export] Instance direction_eq_dec : EqDecision ConnectionDirection.
Proof. solve_decision. Defined.
#[export] Instance confidence_eq_dec : EqDecision PeerConfidence.
Proof. solve_decision. Defined.
#[export] Instance feature_eq_dec : EqDecision PeerFeature.
Proof. solve_decision. Defined.
#[export] Instance spec_eq_dec : EqDecision PeerSpec.
Proof. solve_decision. Defined.
#[export] Instance info_eq_dec : EqDecision PeerInfo.
Proof. solve_decision. Defined.
#[export] Instance value_eq_dec : EqDecision PeerDatabaseValue.
Proof. solve_decision. Defined.

(** PeerInfo.fromAddress; the agent name and the beginning of the node name *)
Definition unknown_name : bytes := string_bytes "unknown".
Definition fromAddress (a : InetSocketAddress) : PeerInfo :=
  Info (Spec unknown_name Version_initial
          (string_bytes "unknown-/" ++ string_bytes (getHostAddress (getAddress a)) ++ string_bytes ":" ++ string_bytes (pretty (getPort a)))
          (Some a) []) 0 None.

Section Equality.
Context (same_array : bytes -> bytes -> bool).

(** Equality of features, PeerSpec.equals, PeerInfo.equals *)
Definition feature_equals (f g : PeerFeature) : bool :=
  match f, g with
  | SessionIdPeerFeature m i, SessionIdPeerFeature m' i' => same_array m m' && (i =? i')%Z
  | _, _ => bool_decide (f = g)
  end.
Definition subset (l l' : list PeerFeature) : bool := forallb (fun f => existsb (feature_equals f) l') l.
Definition spec_equals (p q : PeerSpec) : bool :=
  bool_decide (agentName p = agentName q) && bool_decide (protocolVersion p = protocolVersion q) && bool_decide (nodeName p = nodeName q) &&
  bool_decide (declaredAddress p = declaredAddress q) && subset (features p) (features q) && subset (features q) (features p).
Definition info_equals (p q : PeerInfo) : bool :=
  spec_equals (peerSpec p) (peerSpec q) && (lastHandshake p =? lastHandshake q)%Z && bool_decide (connectionType p = connectionType q).

Definition hasBeenUpdated (v other : PeerDatabaseValue) : bool :=
  let isSameAddress := bool_decide (db_address v = db_address other) in
  let confidenceChanged := negb (bool_decide (confidence v = confidence other)) in
  let peerInfoChanged := negb (info_equals (peerInfo v) (peerInfo other)) in
  isSameAddress && (confidenceChanged || peerInfoChanged).
End Equality.

Inductive PeerBucketValue := NewPeerBucketValue (v : PeerDatabaseValue) | TriedPeerBucketValue (v : PeerDatabaseValue).
Definition peerDatabaseValue (p : PeerBucketValue) : PeerDatabaseValue :=
  match p with NewPeerBucketValue v | TriedPeerBucketValue v => v end.
Definition isNew (p : PeerBucketValue) : bool := match p with NewPeerBucketValue _ => true | TriedPeerBucketValue _ => false end.
Definition bucket_address (p : PeerBucketValue) : InetSocketAddress := db_address (peerDatabaseValue p).

(** ** PeerBucketStorage *)

Record BucketConfig := Config { cfg_buckets : Z; bucketPositions : Z; bucketSubgroups : Z }.

Record PeerBucketStorage := Storage {
  table : gmap (Z * Z) (PeerBucketValue * Z);
  reverseTable : gmap InetSocketAddress (Z * Z)
}.
Definition empty_storage : PeerBucketStorage := Storage ∅ ∅.
Definition NOT_FOUND_PEER_INDEXES : Z * Z := (-1, -1)%Z.

(** getAddressGroup: the class of the address, and up to two parts of it *)
Definition getAddressGroup (a : InetAddress) : bytes :=
  let '(nClass, addressSubGroupToInclude) :=
    if isLocal a then (255%Z, 0) else
    if negb (isRoutable a) then (NET_UNROUTABLE, 0) else
    if hasLinkedIPv4 a then (NET_IPV4, 1) else (NET_IPV6, 2) in
  z2b nClass :: flat_map (fun i => getSubNum i a) (seq 0 addressSubGroupToInclude).

(** ByteBuffer.wrap(h).getInt *)
Definition getInt (h : bytes) : Z := wrap 32 (be_decode (take 4 h)).

Section Slots.
Context `{HF : CryptographicHash} (cfg : BucketConfig) (nKey : Z) (isNewPeer : bool).

(** PeerBucketHashContentImpl *)
Definition getHashAsBytes (a : InetSocketAddress) : bytes :=
  string_bytes (getHostAddress (getAddress a)) ++ Ints_toByteArray (getPort a).

Definition getBucket (a : InetSocketAddress) : Z :=
  let hInt := getInt (hash (Ints_toByteArray nKey ++ getHashAsBytes a)) in
  let hash2 := hash (Ints_toByteArray nKey ++ getAddressGroup (getAddress a) ++ Ints_toByteArray (Z.rem hInt (bucketSubgroups cfg))) in
  Z.rem (getInt hash2) (cfg_buckets cfg).

(** getHostString is the address itself when it has no host name. *)
Definition getBucketPosition (nBucket : Z) (a : InetSocketAddress) : Z :=
  let hashContent :=
    Ints_toByteArray nKey ++ Ints_toByteArray (if isNewPeer then 1 else 0)%Z ++ Ints_toByteArray nBucket ++
    string_bytes (getHostAddress (getAddress a)) ++ Ints_toByteArray (getPort a) in
  Z.rem (getInt (hash hashContent)) (bucketPositions cfg).

(** getPeerIndexes *)
Definition getPeerIndexes (a : InetSocketAddress) : Z * Z :=
  let bucket := getBucket a in (bucket, getBucketPosition bucket a).

Definition add (now : Z) (p : PeerBucketValue) (s : PeerBucketStorage) : PeerBucketStorage :=
  let i := getPeerIndexes (bucket_address p) in
  Storage (<[i := (p, now)]> (table s)) (<[bucket_address p := i]> (reverseTable s)).

Definition bucketPositionIsAlreadyTaken (p : PeerBucketValue) (s : PeerBucketStorage) : bool :=
  bool_decide (is_Some (table s !! getPeerIndexes (bucket_address p))).
End Slots.

(** reverseTable(address) throws where there is none *)
Definition updateExistingPeer (now : Z) (p : PeerBucketValue) (s : PeerBucketStorage) : Try PeerBucketStorage :=
  match reverseTable s !! bucket_address p with
  | Some i => Success (Storage (<[i := (p, now)]> (table s)) (reverseTable s))
  | None => Failure NoSuchElement
  end.

Definition tryGetIndexesFromPeerAddress (a : InetSocketAddress) (s : PeerBucketStorage) : Z * Z :=
  default NOT_FOUND_PEER_INDEXES (reverseTable s !! a).

Definition remove (a : InetSocketAddress) (s : PeerBucketStorage) : PeerBucketStorage :=
  let peerIndexes := tryGetIndexesFromPeerAddress a s in
  if bool_decide (peerIndexes = NOT_FOUND_PEER_INDEXES) then s
  else Storage (delete peerIndexes (table s)) (delete a (reverseTable s)).

Definition contains (a : InetSocketAddress) (s : PeerBucketStorage) : bool :=
  negb (bool_decide (tryGetIndexesFromPeerAddress a s = NOT_FOUND_PEER_INDEXES)).

(** table(indexes) throws where the slot is empty. *)
Definition getStoredPeerByAddress (a : InetSocketAddress) (s : PeerBucketStorage) : Try (option PeerBucketValue) :=
  let indexes := tryGetIndexesFromPeerAddress a s in
  if bool_decide (indexes = NOT_FOUND_PEER_INDEXES) then Success None
  else match table s !! indexes with Some (p, _) => Success (Some p) | None => Failure NoSuchElement end.

Definition getStoredPeerByIndexes (i : Z * Z) (s : PeerBucketStorage) : option PeerBucketValue := fst <$> table s !! i.

Definition storage_isEmpty (s : PeerBucketStorage) : bool := bool_decide (table s = ∅).

(** getPeersAsBucketValue, getPeers: the values of the table, and the map of them by address *)
Definition getPeersAsBucketValue (s : PeerBucketStorage) : list PeerBucketValue := (fun e => e.2.1) <$> map_to_list (table s).
Definition getPeers (s : PeerBucketStorage) : gmap InetSocketAddress PeerDatabaseValue :=
  list_to_map ((fun p => (bucket_address p, peerDatabaseValue p)) <$> getPeersAsBucketValue s).
Definition clear (_ : PeerBucketStorage) : PeerBucketStorage := empty_storage.

(** ** BucketManager *)

Record Buckets := Bk { newBucket : PeerBucketStorage; triedBucket : PeerBucketStorage }.
Abbreviation BM := (Eff Buckets).
Definition on_new (f : PeerBucketStorage -> PeerBucketStorage) : BM unit := modify (fun b => Bk (f (newBucket b)) (triedBucket b)).
Definition on_tried (f : PeerBucketStorage -> PeerBucketStorage) : BM unit := modify (fun b => Bk (newBucket b) (f (triedBucket b))).

Section Manager.
Context `{HF : CryptographicHash} (newCfg triedCfg : BucketConfig) (nKey : Z) (same_array : bytes -> bytes -> bool) (now : Z).

(** PeerBucketStorageImpl, which passes true for isNewPeer *)
Definition new_add (p : PeerBucketValue) : BM unit := on_new (add newCfg nKey true now p).
Definition tried_add (p : PeerBucketValue) : BM unit := on_tried (add triedCfg nKey true now p).

(** updatePeerIfDifferent, of the new and of the tried bucket *)
Definition updatePeerIfDifferent (get : Buckets -> PeerBucketStorage) (put : PeerBucketStorage -> Buckets -> Buckets) (p : PeerBucketValue) : BM unit :=
  let! s := gets get in
  let! oldPeer := lift_try (getStoredPeerByAddress (bucket_address p) s) in
  match oldPeer with
  | Some old =>
      if hasBeenUpdated same_array (peerDatabaseValue old) (peerDatabaseValue p)
      then let! s' := lift_try (updateExistingPeer now p s) in modify (put s')
      else ret tt
  | None => ret tt
  end.
Definition put_new (s : PeerBucketStorage) (b : Buckets) : Buckets := Bk s (triedBucket b).
Definition put_tried (s : PeerBucketStorage) (b : Buckets) : Buckets := Bk (newBucket b) s.

Definition addOrUpdatePeerIntoBucket (v : PeerDatabaseValue) : BM unit :=
  let! b := gets id in
  if contains (db_address v) (newBucket b) then updatePeerIfDifferent newBucket put_new (NewPeerBucketValue v)
  else if contains (db_address v) (triedBucket b) then updatePeerIfDifferent triedBucket put_tried (TriedPeerBucketValue v)
  else new_add (NewPeerBucketValue v).

Definition addNewPeer (v : PeerDatabaseValue) : BM unit := new_add (NewPeerBucketValue v).

Definition makeTried (v : PeerDatabaseValue) : BM unit :=
  let a := db_address v in
  let! b := gets id in
  let! peerToBeRemovedFromNew := lift_try (getStoredPeerByAddress a (newBucket b)) in
  match peerToBeRemovedFromNew with Some p => on_new (remove (bucket_address p)) | None => ret tt end ;!
  let! b := gets id in
  (if bucketPositionIsAlreadyTaken triedCfg nKey true (TriedPeerBucketValue v) (triedBucket b) then
     let! peerToBeRemoved :=
       match getStoredPeerByIndexes (getPeerIndexes triedCfg nKey true a) (triedBucket b) with
       | Some p => ret p
       | None => throw IllegalArgument
       end in
     let! addressToBeRemoved :=
       match MessageSpecs.address (peerSpec (peerInfo (peerDatabaseValue peerToBeRemoved))) with
       | Some a' => ret a'
       | None => throw IllegalArgument
       end in
     on_tried (remove addressToBeRemoved) ;!
     addNewPeer (peerDatabaseValue peerToBeRemoved)
   else ret tt) ;!
  tried_add (TriedPeerBucketValue v).

Definition removePeer (a : InetSocketAddress) : BM unit := on_new (remove a) ;! on_tried (remove a).
End Manager.

Definition buckets_isEmpty (b : Buckets) : bool := storage_isEmpty (triedBucket b) && storage_isEmpty (newBucket b).
Definition getNewPeers (b : Buckets) : gmap InetSocketAddress PeerDatabaseValue := getPeers (newBucket b).
Definition getTriedPeers (b : Buckets) : gmap InetSocketAddress PeerDatabaseValue := getPeers (triedBucket b).

(** getRandomPeers: the random choice is an argument *)
Definition getRandomPeers (pickFromNewBucket : bool) (b : Buckets) : gmap InetSocketAddress PeerDatabaseValue :=
  if (pickFromNewBucket && negb (storage_isEmpty (newBucket b))) || storage_isEmpty (triedBucket b)
  then getPeers (newBucket b) else getPeers (triedBucket b).

Definition getPeer (a : InetSocketAddress) (b : Buckets) : Try (option PeerBucketValue) :=
  let? tried := getStoredPeerByAddress a (triedBucket b) in
  match tried with
  | Some p => Success (Some p)
  | None => getStoredPeerByAddress a (newBucket b)
  end.
