(* ===== verification/PeerBucketsThms.v ===== *)
(** * PeerBucketsThms: what the tables of peers hold

    A storage whose addresses have slots of their own is a map from addresses to
    peers.  Where two share a slot the later one displaces the earlier one from
    the table, but not from the reverse table. *)

From S2P Require Import Prelude External Network MessageSpecs NetAddress PeerBuckets.

(** ** The contents of a storage *)

Definition peers_of (s : PeerBucketStorage) : gmap InetSocketAddress PeerBucketValue :=
  list_to_map ((fun p => (bucket_address p, p)) <$> getPeersAsBucketValue s).

Lemma getPeers_contents s : getPeers s = peerDatabaseValue <$> peers_of s.
Proof. unfold getPeers, peers_of. rewrite <- list_to_map_fmap, <- list_fmap_compose. done. Qed.

Section Slots.
Context (slot : InetSocketAddress -> Z * Z).

(** Every peer is in the slot of its address, and the reverse table knows it;
    the reverse table has nothing but such slots. *)
Record coherent (s : PeerBucketStorage) : Prop := {
  co_slot i p t : table s !! i = Some (p, t) -> i = slot (bucket_address p) /\ reverseTable s !! bucket_address p = Some i;
  co_reverse a i : reverseTable s !! a = Some i -> i = slot a
}.

Lemma coherent_empty : coherent empty_storage.
Proof. split; [intros i p t E|intros a i E]; cbn in E; by rewrite lookup_empty in E. Qed.

Lemma contents_nodup s : coherent s -> NoDup ((fun p => (bucket_address p, p)) <$> getPeersAsBucketValue s).*1.
Proof.
  intros [Hs _]. unfold getPeersAsBucketValue. rewrite <- !list_fmap_compose. apply NoDup_fmap_2_strong; [|apply NoDup_map_to_list].
  intros [i [p1 t1]] [j [p2 t2]] H1 H2 E. apply elem_of_map_to_list in H1, H2. cbn in E.
  destruct (Hs _ _ _ H1) as [-> _], (Hs _ _ _ H2) as [-> _]. rewrite E in *. congruence.
Qed.

Lemma contents_lookup s a p : coherent s -> peers_of s !! a = Some p <-> exists t, table s !! slot a = Some (p, t) /\ bucket_address p = a.
Proof.
  intros H. pose proof H as [Hs _]. unfold peers_of, getPeersAsBucketValue. rewrite <- list_fmap_compose. rewrite <- elem_of_list_to_map.
  - rewrite list_elem_of_fmap. split.
    + intros ([i [q t]] & E & Hin). apply elem_of_map_to_list in Hin. cbn in E. injection E as -> ->. exists t. split; [|done].
      by destruct (Hs i q t Hin) as [<- _].
    + intros (t & E & Ha). exists (slot a, (p, t)). split; [by cbn; rewrite Ha|by apply elem_of_map_to_list].
  - rewrite list_fmap_compose. by apply contents_nodup.
Qed.

Lemma contents_none s a : coherent s -> peers_of s !! a = None <-> forall p t, table s !! slot a = Some (p, t) -> bucket_address p <> a.
Proof.
  intros Hs. split.
  - intros E p t Et Ha. assert (peers_of s !! a = Some p) by (apply contents_lookup; eauto). congruence.
  - intros H. destruct (peers_of s !! a) as [p|] eqn:E; [|done]. apply contents_lookup in E as (t & Et & Ha); [|done]. by destruct (H p t Et).
Qed.

(** What displaces what: only the slot of an address counts. *)
Definition off_slot (a : InetSocketAddress) (m : gmap InetSocketAddress PeerBucketValue) : gmap InetSocketAddress PeerBucketValue :=
  filter (fun e => slot e.1 <> slot a) m.

Lemma off_slot_lookup a m b p : off_slot a m !! b = Some p <-> m !! b = Some p /\ slot b <> slot a.
Proof. unfold off_slot. by rewrite map_lookup_filter_Some. Qed.

(** Writing a peer to its slot *)
Lemma coherent_write s r p now : coherent s -> (forall b, r !! b = if decide (b = bucket_address p) then Some (slot b) else reverseTable s !! b) ->
  let s' := Storage (<[slot (bucket_address p) := (p, now)]> (table s)) r in
  coherent s' /\ peers_of s' = <[bucket_address p := p]> (off_slot (bucket_address p) (peers_of s)).
Proof.
  intros Hs Hr s'. assert (coherent s') as Hs'.
  { split; cbn [table reverseTable s'].
    - intros i q t E. destruct (decide (i = slot (bucket_address p))) as [->|Hi].
      + rewrite lookup_insert_eq in E. injection E as <- <-. split; [done|]. rewrite Hr. by rewrite decide_True.
      + rewrite lookup_insert_ne in E by done. destruct (co_slot s Hs i q t E) as [-> Eq]. split; [done|]. rewrite Hr. by case_decide.
    - intros a i. rewrite Hr. case_decide; [by intros [= <-]|apply (co_reverse s Hs)]. }
  split; [done|]. apply map_eq. intros b. apply option_eq. intros q. rewrite contents_lookup by done. cbn [table s'].
  destruct (decide (b = bucket_address p)) as [->|Hb].
  - rewrite !lookup_insert_eq. split; [by intros (t & [= <- _] & _)|intros [= <-]; eauto].
  - rewrite (lookup_insert_ne _ _ b) by done. rewrite off_slot_lookup, contents_lookup by done.
    destruct (decide (slot b = slot (bucket_address p))) as [Eb|Eb].
    + rewrite Eb, lookup_insert_eq. split; [by intros (t & [= <- _] & Ha)|by intros [_ []]].
    + rewrite lookup_insert_ne by done. naive_solver.
Qed.

Lemma coherent_remove s a : coherent s ->
  coherent (remove a s) /\
  peers_of (remove a s) = if contains a s then off_slot a (peers_of s) else peers_of s.
Proof.
  intros Hs. unfold remove, contains. destruct (bool_decide _) eqn:E; [done|]. apply bool_decide_eq_false in E.
  unfold tryGetIndexesFromPeerAddress in *. destruct (reverseTable s !! a) as [i|] eqn:Er; [|done]. cbn [default from_option id negb] in *.
  pose proof (co_reverse s Hs a i Er) as ->. set (s' := Storage _ _). assert (coherent s') as Hs'.
  { split; cbn [table reverseTable s'].
    - intros i q t Et. apply lookup_delete_Some in Et as [Hi Et]. destruct (co_slot s Hs i q t Et) as [-> Eq]. split; [done|].
      rewrite lookup_delete_ne; [done|]. intros Ha. apply Hi. by rewrite Ha.
    - intros b i Eb. apply lookup_delete_Some in Eb as [_ Eb]. by apply (co_reverse s Hs). }
  split; [done|]. apply map_eq. intros b. apply option_eq. intros q. rewrite contents_lookup, off_slot_lookup, contents_lookup by done. cbn [table s'].
  setoid_rewrite lookup_delete_Some. naive_solver.
Qed.
End Slots.

(** ** A storage that is a map *)

Section Holds.
Context `{HF : CryptographicHash} (cfg : BucketConfig) (nKey : Z) (isNewPeer : bool).
Let slot := getPeerIndexes cfg nKey isNewPeer.

(** The storage holds the peers of a map, and its reverse table no others. *)
Record holds (s : PeerBucketStorage) (m : gmap InetSocketAddress PeerBucketValue) : Prop := {
  holds_coherent : coherent slot s;
  holds_contents : peers_of s = m;
  holds_reverse a i : reverseTable s !! a = Some i -> is_Some (m !! a);
  holds_found a p : m !! a = Some p -> slot a <> NOT_FOUND_PEER_INDEXES
}.

Lemma holds_empty : holds empty_storage ∅.
Proof.
  split; [apply coherent_empty|done|intros a i E; cbn in E; by rewrite lookup_empty in E|intros a p E; by rewrite lookup_empty in E].
Qed.

Lemma off_slot_free m a : (forall b p, m !! b = Some p -> slot b = slot a -> b = a) -> off_slot slot a m = delete a m.
Proof.
  intros Hfree. apply map_eq. intros b. apply option_eq. intros p. rewrite off_slot_lookup, lookup_delete_Some. split.
  - intros [Hb Hs]. split; [congruence|done].
  - intros [Ha Hb]. split; [done|]. intros Hs. apply Ha. symmetry. by eapply Hfree.
Qed.

Section Storage.
Context (s : PeerBucketStorage) (m : gmap InetSocketAddress PeerBucketValue) (H : holds s m).

Lemma holds_lookup a p : m !! a = Some p <-> exists t, table s !! slot a = Some (p, t) /\ bucket_address p = a.
Proof using H. rewrite <- (holds_contents _ _ H). apply contents_lookup, H. Qed.
Lemma holds_at_home a p : m !! a = Some p -> bucket_address p = a.
Proof using H. by intros (_ & _ & ?)%holds_lookup. Qed.
Lemma holds_reverse_lookup a : reverseTable s !! a = if decide (is_Some (m !! a)) then Some (slot a) else None.
Proof using H.
  destruct (reverseTable s !! a) as [i|] eqn:E.
  - rewrite decide_True by (by eapply holds_reverse). f_equal. by apply (co_reverse _ _ (holds_coherent _ _ H)).
  - case_decide as Hm; [|done]. destruct Hm as [p (t & Et & Ha)%holds_lookup].
    destruct (co_slot _ _ (holds_coherent _ _ H) _ _ _ Et) as [_ Er]. rewrite Ha in Er. congruence.
Qed.
Lemma holds_indexes a : tryGetIndexesFromPeerAddress a s = if decide (is_Some (m !! a)) then slot a else NOT_FOUND_PEER_INDEXES.
Proof using H. unfold tryGetIndexesFromPeerAddress. rewrite holds_reverse_lookup. by case_decide. Qed.
Lemma holds_contains a : contains a s = bool_decide (is_Some (m !! a)).
Proof using H.
  unfold contains. rewrite holds_indexes. case_decide as Hm.
  - destruct Hm as [p Hp]. rewrite bool_decide_false by (by eapply holds_found). by rewrite bool_decide_true.
  - by rewrite bool_decide_true, bool_decide_false.
Qed.
Lemma holds_get a : getStoredPeerByAddress a s = Success (m !! a).
Proof using H.
  unfold getStoredPeerByAddress. rewrite holds_indexes. case_decide as Hm.
  - destruct Hm as [p Hp]. rewrite bool_decide_false by (by eapply holds_found).
    pose proof Hp as (t & -> & _)%holds_lookup. by rewrite Hp.
  - rewrite bool_decide_true by done. destruct (m !! a) eqn:E; [|done]. destruct Hm. by eexists.
Qed.
Lemma holds_taken p : bucketPositionIsAlreadyTaken cfg nKey isNewPeer p s = true <-> exists b q, m !! b = Some q /\ slot b = slot (bucket_address p).
Proof using H.
  unfold bucketPositionIsAlreadyTaken. fold slot. rewrite bool_decide_eq_true. split.
  - intros [[q t] E]. destruct (co_slot _ _ (holds_coherent _ _ H) _ _ _ E) as [Eq _]. exists (bucket_address q), q. split; [|by rewrite Eq].
    apply holds_lookup. rewrite <- Eq. by exists t.
  - intros (b & q & (t & E & _)%holds_lookup & Eb). rewrite Eb in E. by eexists.
Qed.
Lemma holds_by_indexes b q : m !! b = Some q -> getStoredPeerByIndexes (slot b) s = Some q.
Proof using H. intros (t & E & _)%holds_lookup. unfold getStoredPeerByIndexes. by rewrite E. Qed.
Lemma holds_getPeers : getPeers s = peerDatabaseValue <$> m.
Proof using H. by rewrite getPeers_contents, (holds_contents _ _ H). Qed.
Lemma holds_isEmpty : storage_isEmpty s = bool_decide (m = ∅).
Proof using H.
  unfold storage_isEmpty. apply bool_decide_ext. split; intros E.
  - apply map_empty. intros a. destruct (m !! a) eqn:Ea; [|done]. apply holds_lookup in Ea as (t & Et & _). by rewrite E, lookup_empty in Et.
  - apply map_empty. intros i. destruct (table s !! i) as [[p t]|] eqn:Ei; [|done].
    destruct (co_slot _ _ (holds_coherent _ _ H) _ _ _ Ei) as [-> _]. assert (m !! bucket_address p = Some p) as Hp by (apply holds_lookup; eauto).
    by rewrite E, lookup_empty in Hp.
Qed.

Lemma holds_add now p : let a := bucket_address p in slot a <> NOT_FOUND_PEER_INDEXES ->
  (forall b q, m !! b = Some q -> slot b = slot a -> b = a) -> holds (add cfg nKey isNewPeer now p s) (<[a := p]> m).
Proof using H.
  intros a Hnf Hfree. destruct (coherent_write slot s (<[a := slot a]> (reverseTable s)) p now (holds_coherent _ _ H)) as [Hc Ec].
  { intros b. fold a. case_decide as Hb; [by rewrite Hb, lookup_insert_eq|by rewrite lookup_insert_ne]. }
  fold a in Ec. rewrite (holds_contents _ _ H), off_slot_free, insert_delete_eq in Ec by done. split; [done|done|..].
  - intros b i. cbn [reverseTable add]. fold a slot. intros [[-> _]|[Hb E]]%lookup_insert_Some; [by rewrite lookup_insert_eq|].
    rewrite lookup_insert_ne by done. by eapply holds_reverse.
  - intros b q [[-> _]|[_ E]]%lookup_insert_Some; [done|by eapply holds_found].
Qed.
Lemma holds_remove a : holds (remove a s) (delete a m).
Proof using H.
  destruct (coherent_remove slot s a (holds_coherent _ _ H)) as [Hc Ec]. rewrite (holds_contents _ _ H), holds_contains in Ec.
  assert (peers_of (remove a s) = delete a m) as E.
  { rewrite Ec. case_bool_decide as Hm; [|symmetry; apply delete_id; by apply eq_None_not_Some]. apply off_slot_free.
    intros b p Hb Es. destruct Hm as [q Hq]. apply holds_lookup in Hb as (t & Et & <-), Hq as (t' & Et' & <-). rewrite Es in Et. congruence. }
  split; [done|done|..].
  - intros b i Eb. rewrite <- E. unfold remove in *. rewrite holds_indexes in *. case_decide as Hm.
    + destruct Hm as [q Hq]. rewrite bool_decide_false in * by (by eapply holds_found). cbn [reverseTable] in Eb.
      apply lookup_delete_Some in Eb as [Hb Eb]. rewrite E, lookup_delete_ne by done. by eapply holds_reverse.
    + rewrite bool_decide_true in * by done. rewrite (holds_contents _ _ H). by eapply holds_reverse.
  - intros b p [_ Hb]%lookup_delete_Some. by eapply holds_found.
Qed.
Lemma holds_update now p q : m !! bucket_address p = Some q ->
  exists s', updateExistingPeer now p s = Success s' /\ holds s' (<[bucket_address p := p]> m).
Proof using H.
  intros Hq. unfold updateExistingPeer. rewrite holds_reverse_lookup, decide_True by (by eexists). eexists. split; [done|].
  destruct (coherent_write slot s (reverseTable s) p now (holds_coherent _ _ H)) as [Hc Ec].
  { intros b. case_decide as Hb; [|done]. rewrite Hb, holds_reverse_lookup. by rewrite decide_True by (by eexists). }
  rewrite (holds_contents _ _ H), off_slot_free, insert_delete_eq in Ec.
  - split; [done|done|..].
    + intros b i Eb. cbn in Eb. destruct (decide (b = bucket_address p)) as [->|Hb]; [by rewrite lookup_insert_eq|].
      rewrite lookup_insert_ne by done. by eapply holds_reverse.
    + intros b r [[<- _]|[_ E]]%lookup_insert_Some; [by eapply holds_found|by eapply holds_found].
  - intros b r Hb Es. apply holds_lookup in Hb as (t & Et & <-), Hq as (t' & Et' & <-). rewrite Es in Et. congruence.
Qed.
End Storage.
End Holds.

(** ** Sequences of operations *)

Inductive StorageOp := OpAdd (now : Z) (p : PeerBucketValue) | OpUpdate (now : Z) (p : PeerBucketValue) | OpRemove (a : InetSocketAddress) | OpClear.
Definition op_address (op : StorageOp) : option InetSocketAddress :=
  match op with OpAdd _ p | OpUpdate _ p => Some (bucket_address p) | OpRemove a => Some a | OpClear => None end.

(** What an operation promises of a map *)
Definition map_step (m : gmap InetSocketAddress PeerBucketValue) (op : StorageOp) : gmap InetSocketAddress PeerBucketValue :=
  match op with
  | OpAdd _ p => <[bucket_address p := p]> m
  | OpUpdate _ p => if decide (is_Some (m !! bucket_address p)) then <[bucket_address p := p]> m else m
  | OpRemove a => delete a m
  | OpClear => ∅
  end.

Section Operations.
Context `{HF : CryptographicHash} (cfg : BucketConfig) (nKey : Z) (isNewPeer : bool).
Let slot := getPeerIndexes cfg nKey isNewPeer.

(** An operation of the storage; an update that throws leaves it. *)
Definition storage_step (s : PeerBucketStorage) (op : StorageOp) : PeerBucketStorage :=
  match op with
  | OpAdd now p => add cfg nKey isNewPeer now p s
  | OpUpdate now p => match updateExistingPeer now p s with Success s' => s' | Failure _ => s end
  | OpRemove a => remove a s
  | OpClear => clear s
  end.

(** Addresses that have slots of their own, none the one read as not found *)
Definition apart (addresses : list InetSocketAddress) : Prop :=
  (forall a b, a ∈ addresses -> b ∈ addresses -> slot a = slot b -> a = b) /\
  (forall a, a ∈ addresses -> slot a <> NOT_FOUND_PEER_INDEXES).

Lemma storage_step_holds addresses s m op : apart addresses -> (forall a, op_address op = Some a -> a ∈ addresses) ->
  (forall a p, m !! a = Some p -> a ∈ addresses) -> holds cfg nKey isNewPeer s m ->
  holds cfg nKey isNewPeer (storage_step s op) (map_step m op) /\ forall a p, map_step m op !! a = Some p -> a ∈ addresses.
Proof.
  intros [Hinj Hnf] Hop Hm H. destruct op as [now p|now p|a|]; cbn [storage_step map_step op_address] in *.
  - split; [|intros a q [[<- _]|[_ E]]%lookup_insert_Some; eauto]. apply holds_add; [done|by apply Hnf, Hop|].
    intros b q Hb Es. apply Hinj; eauto.
  - case_decide as Hp.
    + destruct Hp as [q Hq]. destruct (holds_update _ _ _ s m H now p q Hq) as (s' & -> & H').
      split; [done|intros a r [[<- _]|[_ E]]%lookup_insert_Some; eauto].
    + split; [|done]. unfold updateExistingPeer. rewrite (holds_reverse_lookup _ _ _ s m H), decide_False by done. done.
  - split; [by apply holds_remove|]. intros b q [_ E]%lookup_delete_Some. eauto.
  - split; [apply holds_empty|]. intros b q E. by rewrite lookup_empty in E.
Qed.

Lemma storage_run_holds addresses ops : apart addresses -> (forall op a, op ∈ ops -> op_address op = Some a -> a ∈ addresses) ->
  holds cfg nKey isNewPeer (foldl storage_step empty_storage ops) (foldl map_step ∅ ops).
Proof.
  intros Hap. enough (forall s m, holds cfg nKey isNewPeer s m -> (forall a p, m !! a = Some p -> a ∈ addresses) ->
    (forall op a, op ∈ ops -> op_address op = Some a -> a ∈ addresses) -> holds cfg nKey isNewPeer (foldl storage_step s ops) (foldl map_step m ops)) as Hrun.
  { intros Hops. apply Hrun; [apply holds_empty|intros a p E; by rewrite lookup_empty in E|done]. }
  induction ops as [|op ops IH]; intros s m H Hm Hops; [done|]. cbn [foldl].
  destruct (storage_step_holds addresses s m op Hap) as [H' Hm']; [by intros a Ha; apply (Hops op); [left|]|done..|].
  apply IH; [done|done|]. intros op' a Hin. apply Hops. by right.
Qed.

(** C17: after any additions, updates and removals of peers whose addresses have
    slots of their own, none of them the slot (-1, -1) that the code reads as not
    found, a storage is the map from addresses to peers that these
    operations make: it contains, finds and lists just the peers of the map,
    finding one never throws, and it is empty when the map is. *)
Theorem storage_refines_map addresses ops : apart addresses ->
  (forall op a, op ∈ ops -> op_address op = Some a -> a ∈ addresses) ->
  let s := foldl storage_step empty_storage ops in let m := foldl map_step ∅ ops in
  (forall a, contains a s = bool_decide (is_Some (m !! a)) /\ getStoredPeerByAddress a s = Success (m !! a)) /\
  getPeers s = peerDatabaseValue <$> m /\ storage_isEmpty s = bool_decide (m = ∅).
Proof.
  intros Hap Hops s m. pose proof (storage_run_holds addresses ops Hap Hops) as H. fold s m in H. split_and!.
  - intros a. split; [by eapply holds_contains|by eapply holds_get].
  - by eapply holds_getPeers.
  - by eapply holds_isEmpty.
Qed.

(** ** Without that condition *)

(** Any operations keep the peers in the slots of their addresses. *)
Lemma storage_step_coherent s op : coherent slot s -> coherent slot (storage_step s op).
Proof.
  intros H. destruct op as [now p|now p|a|]; cbn [storage_step].
  - apply (coherent_write slot s (<[bucket_address p := slot (bucket_address p)]> (reverseTable s)) p now H).
    intros b. case_decide as Hb; [by rewrite Hb, lookup_insert_eq|by rewrite lookup_insert_ne].
  - unfold updateExistingPeer. destruct (reverseTable s !! bucket_address p) as [i|] eqn:E; [|done].
    pose proof (co_reverse _ _ H _ _ E) as ->. apply (coherent_write slot s (reverseTable s) p now H).
    intros b. case_decide as Hb; [by rewrite Hb|done].
  - by apply coherent_remove.
  - apply coherent_empty.
Qed.

Lemma run_coherent ops : coherent slot (foldl storage_step empty_storage ops).
Proof.
  enough (forall s, coherent slot s -> coherent slot (foldl storage_step s ops)) as H by apply H, coherent_empty.
  induction ops as [|op ops IH]; intros s H; [done|]. cbn. by apply IH, storage_step_coherent.
Qed.

Lemma slot_range a : (0 < cfg_buckets cfg)%Z -> (0 < bucketPositions cfg)%Z ->
  (Z.abs (slot a).1 < cfg_buckets cfg)%Z /\ (Z.abs (slot a).2 < bucketPositions cfg)%Z.
Proof.
  intros Hb Hp. unfold slot, getPeerIndexes, getBucket, getBucketPosition. cbn [fst snd].
  split; (eapply Z.lt_le_trans; [apply Z.rem_bound_abs; lia|lia]).
Qed.

Definition all_slots : list (Z * Z) :=
  list_prod (seqZ (1 - cfg_buckets cfg) (2 * cfg_buckets cfg - 1)) (seqZ (1 - bucketPositions cfg) (2 * bucketPositions cfg - 1)).

Lemma all_slots_length : (0 < cfg_buckets cfg)%Z -> (0 < bucketPositions cfg)%Z ->
  Z.of_nat (length all_slots) = ((2 * cfg_buckets cfg - 1) * (2 * bucketPositions cfg - 1))%Z.
Proof. intros Hb Hp. unfold all_slots. rewrite length_prod, !length_seqZ. lia. Qed.

(** The table holds at most one peer in a slot, whatever is added: buckets and
    positions are remainders, negative ones too, so there are fewer than
    (2 buckets) x (2 positions) slots, and never more peers. *)
Theorem slots_bounded ops : (0 < cfg_buckets cfg)%Z -> (0 < bucketPositions cfg)%Z ->
  let s := foldl storage_step empty_storage ops in
  (forall i p t, table s !! i = Some (p, t) -> i = slot (bucket_address p) /\ (Z.abs i.1 < cfg_buckets cfg)%Z /\ (Z.abs i.2 < bucketPositions cfg)%Z) /\
  (Z.of_nat (size (getPeers s)) <= (2 * cfg_buckets cfg - 1) * (2 * bucketPositions cfg - 1))%Z.
Proof.
  intros Hb Hp s. pose proof (run_coherent ops) as H. fold s in H. split.
  - intros i p t E. destruct (co_slot _ _ H _ _ _ E) as [-> _]. split; [done|by apply slot_range].
  - assert (size (getPeers s) <= length all_slots) as Hle; [|rewrite <- all_slots_length by done; lia].
    rewrite getPeers_contents, map_size_fmap. unfold peers_of. rewrite map_size_list_to_map by (by apply (contents_nodup slot)).
    unfold getPeersAsBucketValue. rewrite !length_fmap. rewrite <- (length_fmap fst). apply submseteq_length, NoDup_submseteq; [apply NoDup_fst_map_to_list|].
    intros i Hi. apply list_elem_of_fmap in Hi as ([i' [p t]] & -> & Hin). apply elem_of_map_to_list in Hin. cbn [fst].
    destruct (co_slot _ _ H _ _ _ Hin) as [-> _]. destruct (slot_range (bucket_address p) Hb Hp) as [H1 H2]. destruct (slot (bucket_address p)) as [x y].
    cbn [fst snd] in *. apply list_elem_of_In, in_prod; apply list_elem_of_In, elem_of_seqZ; lia.
Qed.

(** When two addresses have the same slot, adding the second displaces the
    first from the table and leaves it in the reverse table: the storage still
    contains the first address and answers for it with the second peer; and once
    the first is removed, asking for the second throws. *)
Theorem collision_breaks s p q now now' : let a := bucket_address p in let b := bucket_address q in
  a <> b -> slot a = slot b -> slot a <> NOT_FOUND_PEER_INDEXES ->
  let s2 := add cfg nKey isNewPeer now' q (add cfg nKey isNewPeer now p s) in
  contains a s2 = true /\ getStoredPeerByAddress a s2 = Success (Some q) /\
  let s3 := remove a s2 in
  contains b s3 = true /\ getStoredPeerByAddress b s3 = Failure NoSuchElement /\ bucketPositionIsAlreadyTaken cfg nKey isNewPeer q s3 = false.
Proof.
  intros a b Hab Hs Hnf s2.
  assert (reverseTable s2 !! a = Some (slot a) /\ reverseTable s2 !! b = Some (slot a) /\ table s2 !! slot a = Some (q, now')) as (Ra & Rb & T).
  { cbn [s2 add table reverseTable]. fold a b slot. rewrite Hs. split_and!; [|by rewrite lookup_insert_eq..].
    by rewrite lookup_insert_ne, lookup_insert_eq by done. }
  unfold contains, getStoredPeerByAddress, tryGetIndexesFromPeerAddress. rewrite Ra. cbn [default from_option id]. rewrite bool_decide_false by done. rewrite T.
  split; [done|]. split; [done|]. assert (remove a s2 = Storage (delete (slot a) (table s2)) (delete a (reverseTable s2))) as ->.
  { unfold remove, tryGetIndexesFromPeerAddress. rewrite Ra. cbn [default from_option id]. by rewrite bool_decide_false. }
  cbn [table reverseTable]. rewrite lookup_delete_ne, Rb by done. cbn [default from_option id]. rewrite bool_decide_false, lookup_delete_eq by done.
  split_and!; [done|done|]. unfold bucketPositionIsAlreadyTaken. fold b slot. rewrite <- Hs. cbn [table]. by rewrite lookup_delete_eq.
Qed.

(** A peer whose slot is (-1, -1) is stored, and never found or removed. *)
Theorem slot_not_found s p now : slot (bucket_address p) = NOT_FOUND_PEER_INDEXES ->
  let s' := add cfg nKey isNewPeer now p s in
  contains (bucket_address p) s' = false /\ getStoredPeerByAddress (bucket_address p) s' = Success None /\
  remove (bucket_address p) s' = s' /\ storage_isEmpty s' = false.
Proof.
  intros Hs s'. assert (tryGetIndexesFromPeerAddress (bucket_address p) s' = NOT_FOUND_PEER_INDEXES) as E.
  { unfold tryGetIndexesFromPeerAddress, s', add. cbn [reverseTable]. by rewrite lookup_insert_eq. }
  unfold contains, getStoredPeerByAddress, remove. rewrite E, bool_decide_true by done. split_and!; [done..|].
  apply bool_decide_eq_false. intros Et. assert (table s' !! getPeerIndexes cfg nKey isNewPeer (bucket_address p) = None) as En by (by rewrite Et, lookup_empty).
  unfold s', add in En. cbn [table] in En. by rewrite lookup_insert_eq in En.
Qed.
End Operations.

(** ** Witnesses *)

Definition peer_at (last port : Z) : PeerBucketValue :=
  let a := Inet (z2b <$> [8; 8; 4; last]%Z) port in NewPeerBucketValue (DbValue a (fromAddress a) Unknown).
Definition small_config : BucketConfig := Config 64 61 8.

Lemma storage_refines_map_witness :
  let p := peer_at 1 9084 in let q := peer_at 2 9084 in
  let s := foldl (storage_step small_config 7 true) empty_storage [OpAdd 0 p; OpAdd 1 q; OpRemove (bucket_address p)] in
  apart small_config 7 true [bucket_address p; bucket_address q] /\ getStoredPeerByAddress (bucket_address q) s = Success (Some q) /\ contains (bucket_address p) s = false.
Proof.
  intros p q s. assert (apart small_config 7 true [bucket_address p; bucket_address q]) as Hap.
  { split.
    - intros a b. rewrite !elem_of_cons. intros [->|[->|[]%elem_of_nil]] [->|[->|[]%elem_of_nil]] E; first [reflexivity|exfalso; vm_compute in E; discriminate E].
    - intros a. rewrite !elem_of_cons. intros [->|[->|[]%elem_of_nil]]; by vm_compute. }
  split; [exact Hap|]. destruct (storage_refines_map small_config 7 true _ [OpAdd 0 p; OpAdd 1 q; OpRemove (bucket_address p)] Hap) as [H _].
  { intros op a Hop E. rewrite !elem_of_cons in Hop. destruct Hop as [->|[->|[->|[]%elem_of_nil]]]; injection E as <-; [left|right; left|left]. }
  split; [rewrite (proj2 (H _)); by vm_compute|rewrite (proj1 (H _)); by vm_compute].
Defined.

Lemma slots_bounded_witness :
  (0 < 4)%Z /\ (Z.of_nat (size (getPeers (foldl (storage_step small_config 7 true) empty_storage [OpAdd 0 (peer_at 1 9084)]))) <= 15367)%Z.
Proof. split; [done|]. apply (slots_bounded small_config 7 true [OpAdd 0 (peer_at 1 9084)]); done. Defined.

(** The first of many addresses whose slot is that of another *)
Lemma collision_breaks_witness :
  let c := Config 1 1 1 in let p := peer_at 1 9084 in let q := peer_at 2 9084 in
  let s2 := add c 7 true 1 q (add c 7 true 0 p empty_storage) in
  bucket_address p <> bucket_address q /\ getStoredPeerByAddress (bucket_address q) (remove (bucket_address p) s2) = Failure NoSuchElement.
Proof.
  intros c p q s2. split; [done|]. destruct (collision_breaks c 7 true empty_storage p q 0 1) as (_ & _ & _ & H & _); [done|by vm_compute|by vm_compute|exact H].
Defined.

Section Ones.
(** A digest of ones reads as -1. *)
#[local] Program Instance ones_hash : CryptographicHash := {| hash _ := replicate 4 (z2b 255); DigestSize := 4 |}.
Next Obligation. done. Qed.

Lemma slot_not_found_witness :
  let p := peer_at 1 9084 in
  getPeerIndexes (HF := ones_hash) small_config 7 true (bucket_address p) = NOT_FOUND_PEER_INDEXES /\
  contains (bucket_address p) (add (HF := ones_hash) small_config 7 true 0 p empty_storage) = false.
Proof.
  intros p. assert (getPeerIndexes (HF := ones_hash) small_config 7 true (bucket_address p) = NOT_FOUND_PEER_INDEXES) as H by (by vm_compute).
  split; [exact H|]. by destruct (slot_not_found (HF := ones_hash) small_config 7 true empty_storage p 0 H).
Defined.
End Ones.

(** ** What moves between the new and the tried peers *)


Section Manager.
Context `{HF : CryptographicHash} (newCfg triedCfg : BucketConfig) (nKey : Z) (same_array : bytes -> bytes -> bool).
Abbreviation PeerMap := (gmap InetSocketAddress PeerBucketValue).
Let slotN := getPeerIndexes newCfg nKey true.
Let slotT := getPeerIndexes triedCfg nKey true.

(** The two storages hold the peers of two maps. *)
Record has (b : Buckets) (new tried : PeerMap) : Prop := {
  has_new : holds newCfg nKey true (newBucket b) new;
  has_tried : holds triedCfg nKey true (triedBucket b) tried
}.

(** The slot of an address is a real one, and no other peer of a map has it. *)
Definition free (slot : InetSocketAddress -> Z * Z) (m : PeerMap) (a : InetSocketAddress) : Prop :=
  slot a <> NOT_FOUND_PEER_INDEXES /\ forall b q, m !! b = Some q -> slot b = slot a -> b = a.

Lemma free_delete slot m a b : free slot m a -> free slot (delete b m) a.
Proof. intros [Hn Hf]. split; [done|]. intros c q [_ E]%lookup_delete_Some. by eapply Hf. Qed.

Lemma getPeer_spec b new tried a : has b new tried -> getPeer a b = Success (match tried !! a with Some p => Some p | None => new !! a end).
Proof.
  intros [Hn Ht]. unfold getPeer. rewrite (holds_get _ _ _ _ _ Ht). cbn [try_bind]. destruct (tried !! a); [done|]. by rewrite (holds_get _ _ _ _ _ Hn).
Qed.

Lemma removePeer_spec b new tried a : has b new tried -> exists b', removePeer a b = (b', Success tt) /\ has b' (delete a new) (delete a tried).
Proof. intros [Hn Ht]. eexists. split; [done|]. split; by apply holds_remove. Qed.

(** A peer that is known is updated where it is, if it has changed; one that is
    not is added to the new ones. *)
Definition updated (old : option PeerBucketValue) (p : PeerBucketValue) (m : PeerMap) : PeerMap :=
  match old with
  | Some o => if hasBeenUpdated same_array (peerDatabaseValue o) (peerDatabaseValue p) then <[bucket_address p := p]> m else m
  | None => m
  end.

Lemma updatePeerIfDifferent_new now b new tried v : has b new tried ->
  exists b', updatePeerIfDifferent same_array now newBucket put_new (NewPeerBucketValue v) b = (b', Success tt) /\
    has b' (updated (new !! db_address v) (NewPeerBucketValue v) new) tried.
Proof.
  intros [Hn Ht]. unfold updatePeerIfDifferent, bind, gets, lift_try. rewrite (holds_get _ _ _ _ _ Hn).
  change (bucket_address (NewPeerBucketValue v)) with (db_address v). destruct (new !! db_address v) as [o|] eqn:E; cbn [updated]; [|by eexists].
  destruct (hasBeenUpdated _ _ _); [|by eexists].
  destruct (holds_update _ _ _ _ _ Hn now (NewPeerBucketValue v) o E) as (s' & -> & H'). eexists. split; [done|]. by split.
Qed.
Lemma updatePeerIfDifferent_tried now b new tried v : has b new tried ->
  exists b', updatePeerIfDifferent same_array now triedBucket put_tried (TriedPeerBucketValue v) b = (b', Success tt) /\
    has b' new (updated (tried !! db_address v) (TriedPeerBucketValue v) tried).
Proof.
  intros [Hn Ht]. unfold updatePeerIfDifferent, bind, gets, lift_try. rewrite (holds_get _ _ _ _ _ Ht).
  change (bucket_address (TriedPeerBucketValue v)) with (db_address v). destruct (tried !! db_address v) as [o|] eqn:E; cbn [updated]; [|by eexists].
  destruct (hasBeenUpdated _ _ _); [|by eexists].
  destruct (holds_update _ _ _ _ _ Ht now (TriedPeerBucketValue v) o E) as (s' & -> & H'). eexists. split; [done|]. by split.
Qed.

Lemma addOrUpdate_spec now b new tried v : let a := db_address v in has b new tried -> free slotN new a ->
  exists b', addOrUpdatePeerIntoBucket newCfg nKey same_array now v b = (b', Success tt) /\
    match new !! a, tried !! a with
    | Some o, _ => has b' (updated (Some o) (NewPeerBucketValue v) new) tried
    | None, Some o => has b' new (updated (Some o) (TriedPeerBucketValue v) tried)
    | None, None => has b' (<[a := NewPeerBucketValue v]> new) tried
    end.
Proof.
  intros a H [Hnf Hf]. pose proof H as [Hn Ht]. unfold addOrUpdatePeerIntoBucket, bind at 1, gets. cbn [id].
  rewrite (holds_contains _ _ _ _ _ Hn), (holds_contains _ _ _ _ _ Ht). fold a.
  destruct (new !! a) as [o|] eqn:En; [|destruct (tried !! a) as [o|] eqn:Et].
  - rewrite bool_decide_true by (by eexists). destruct (updatePeerIfDifferent_new now b new tried v H) as (b' & -> & H'). fold a in H'. rewrite En in H'. by exists b'.
  - rewrite bool_decide_false by (by intros []). rewrite bool_decide_true by (by eexists).
    destruct (updatePeerIfDifferent_tried now b new tried v H) as (b' & -> & H'). fold a in H'. rewrite Et in H'. by exists b'.
  - rewrite !bool_decide_false by (by intros []). eexists. split; [done|]. split; [|done]. by apply holds_add.
Qed.

(** ** makeTried *)

Lemma makeTried_unfold now v b new tried : has b new tried ->
  let b1 := Bk (if bool_decide (is_Some (new !! db_address v)) then remove (db_address v) (newBucket b) else newBucket b) (triedBucket b) in
  has b1 (delete (db_address v) new) tried /\
  makeTried newCfg triedCfg nKey now v b =
    bind (if bucketPositionIsAlreadyTaken triedCfg nKey true (TriedPeerBucketValue v) (triedBucket b) then
       let! peerToBeRemoved := match getStoredPeerByIndexes (slotT (db_address v)) (triedBucket b) with Some p => ret p | None => throw IllegalArgument end in
       let! addressToBeRemoved :=
         match MessageSpecs.address (peerSpec (peerInfo (peerDatabaseValue peerToBeRemoved))) with Some a' => ret a' | None => throw IllegalArgument end in
       on_tried (remove addressToBeRemoved) ;! addNewPeer newCfg nKey now (peerDatabaseValue peerToBeRemoved)
     else ret tt) (fun _ => tried_add triedCfg nKey now (TriedPeerBucketValue v)) b1.
Proof.
  intros [Hn Ht]. split.
  - split; [|done]. cbn [newBucket]. case_bool_decide as Hin; [by apply holds_remove|]. by rewrite delete_id by (by apply eq_None_not_Some).
  - unfold makeTried. unfold bind at 1, gets. cbn [id]. unfold bind at 1, lift_try. rewrite (holds_get _ _ _ _ _ Hn).
    destruct (new !! db_address v) as [p|] eqn:E.
    + rewrite bool_decide_true by (by eexists). rewrite (holds_at_home _ _ _ _ _ Hn _ _ E). done.
    + rewrite bool_decide_false by (by intros []). by destruct b.
Qed.

(** A peer that is made tried leaves the new peers and is in the tried ones.  A
    tried peer that has its slot goes back to the new ones, also when it is the
    same peer: one that is made tried again is both new, as it was, and tried. *)
Theorem makeTried_moves now b new tried v : let a := db_address v in has b new tried -> slotT a <> NOT_FOUND_PEER_INDEXES ->
  ((forall c q, tried !! c = Some q -> slotT c <> slotT a) ->
     exists b', makeTried newCfg triedCfg nKey now v b = (b', Success tt) /\ has b' (delete a new) (<[a := TriedPeerBucketValue v]> tried)) /\
  (forall c q, tried !! c = Some q -> slotT c = slotT a -> MessageSpecs.address (peerSpec (peerInfo (peerDatabaseValue q))) = Some c ->
     free slotN (delete a new) c ->
     exists b', makeTried newCfg triedCfg nKey now v b = (b', Success tt) /\
       has b' (<[c := NewPeerBucketValue (peerDatabaseValue q)]> (delete a new)) (<[a := TriedPeerBucketValue v]> (delete c tried))).
Proof.
  intros a H Hnf. destruct (makeTried_unfold now v b new tried H) as [H1 ->]. fold a in H1 |- *. set (b1 := Bk _ _) in *. pose proof (has_tried _ _ _ H) as Ht. split.
  - intros Hfree. destruct (bucketPositionIsAlreadyTaken _ _ _ _ _) eqn:E.
    { apply (holds_taken _ _ _ _ _ Ht) in E as (c & q & Hq & Ec). by destruct (Hfree c q Hq). }
    eexists. split; [done|]. split; [apply H1|]. apply holds_add; [apply H1|done|]. intros c q Hq Ec. by destruct (Hfree c q Hq).
  - intros c q Hq Ec Haddr [Hnfc Hfree].
    rewrite (proj2 (holds_taken _ _ _ _ _ Ht (TriedPeerBucketValue v))) by (by exists c, q).
    pose proof (holds_by_indexes _ _ _ _ _ Ht c q Hq) as Hi. fold slotT in Hi. rewrite <- Ec, Hi. unfold bind at 1 2 3. cbn [ret]. rewrite Haddr. cbn [ret]. eexists. split; [done|].
    assert (bucket_address q = c) as Ehome by (by eapply (holds_at_home _ _ _ _ _ Ht)).
    split; cbn [newBucket triedBucket].
    + assert (bucket_address (NewPeerBucketValue (peerDatabaseValue q)) = c) as Ehome' by exact Ehome.
      pose proof (holds_add _ _ _ _ _ (has_new _ _ _ H1) now (NewPeerBucketValue (peerDatabaseValue q))) as Hadd. cbn zeta in Hadd.
      rewrite Ehome' in Hadd. by apply Hadd.
    + apply holds_add; [by apply holds_remove|done|]. intros d r [Hd Hr]%lookup_delete_Some Es.
      destruct Hd. apply (holds_lookup _ _ _ _ _ Ht) in Hr as (t & Er & <-), Hq as (t' & Eq & _). fold slotT in Er, Eq.
      change (slotT (bucket_address r) = slotT a) in Es. rewrite Es, <- Ec in Er. rewrite Er in Eq. injection Eq as <- _. done.
Qed.
End Manager.

(** A peer made tried twice *)
Lemma makeTried_moves_witness :
  let v := peerDatabaseValue (peer_at 1 9084) in let a := db_address v in let v' := DbValue a (peerInfo v) Low in
  exists b', (makeTried small_config small_config 7 0 v ;! makeTried small_config small_config 7 1 v') (Bk empty_storage empty_storage) = (b', Success tt) /\
    getPeers (newBucket b') !! a = Some v /\ getPeers (triedBucket b') !! a = Some v'.
Proof.
  intros v a v'. assert (has small_config small_config 7 (Bk empty_storage empty_storage) ∅ ∅) as H0 by (split; apply holds_empty).
  assert (getPeerIndexes small_config 7 true a <> NOT_FOUND_PEER_INDEXES) as Hnf by (by vm_compute).
  destruct (makeTried_moves small_config small_config 7 0 _ _ _ v H0 Hnf) as [H1 _]. destruct H1 as (b1 & E1 & H1); [intros c q E; destruct (lookup_empty_Some _ _ E)|].
  destruct (makeTried_moves small_config small_config 7 1 _ _ _ v' H1 Hnf) as [_ H2].
  destruct (H2 a (TriedPeerBucketValue v)) as (b2 & E2 & H3); [apply lookup_insert_eq|reflexivity|reflexivity|split; [exact Hnf|intros c q E; rewrite delete_empty in E; destruct (lookup_empty_Some _ _ E)]|].
  exists b2. split; [unfold bind; rewrite E1; exact E2|]. rewrite (holds_getPeers _ _ _ _ _ (has_new _ _ _ _ _ _ H3)), (holds_getPeers _ _ _ _ _ (has_tried _ _ _ _ _ _ H3)).
  split; by vm_compute.
Defined.
