(* ===== verification/PeerDatabase.v ===== *)
(** * PeerDatabase: the known peers, the blacklist and the penalties

    core/network/peer/InMemoryPeerDatabase.scala.  The clock reading, in
    milliseconds, is an argument of an operation; where the code reads the clock
    twice in one call it gets the one reading.  Addresses are resolved.  The key
    of the buckets' hash is chosen at the start. *)

From S2P Require Import Prelude External Network MessageSpecs NetAddress PeerBuckets PeerBucketsThms.

Record PeerSettings := {
  penaltySafeInterval : Z;                (* milliseconds *)
  penaltyScoreThreshold : Z;
  temporalBanDuration : Z;                (* milliseconds *)
  bindAddress : InetSocketAddress;
  externalNodeAddress : option InetSocketAddress;     (* of the context *)
  interfaces : list InetAddress;                      (* of the machine *)
  configuredPeers : list InetSocketAddress            (* knownPeers *)
}.

Record Database := Db {
  buckets : Buckets;
  knownPeers : gmap InetSocketAddress PeerDatabaseValue;
  blacklist : gmap InetAddress Z;
  penaltyBook : gmap InetAddress (Z * Z)
}.
Abbreviation DB := (Eff Database).

Definition set_buckets (b : Buckets) (d : Database) : Database := Db b (knownPeers d) (blacklist d) (penaltyBook d).
Definition set_blacklist (l : gmap InetAddress Z) (d : Database) : Database := Db (buckets d) (knownPeers d) l (penaltyBook d).
Definition set_penaltyBook (l : gmap InetAddress (Z * Z)) (d : Database) : Database := Db (buckets d) (knownPeers d) (blacklist d) l.

(** A call of the bucket manager *)
Definition on_buckets {A} (m : BM A) : DB A := fun d => let '(b, r) := m (buckets d) in (set_buckets b d, r).

Definition newBucketConfig : BucketConfig := Config 1024 64 64.
Definition triedBucketConfig : BucketConfig := Config 256 64 8.

Section Database.
Context `{HF : CryptographicHash} (nKey : Z) (same_array : bytes -> bytes -> bool) (settings : PeerSettings).

Definition isSelfAddress (a : InetSocketAddress) : bool :=
  isSelf (interfaces settings) (bindAddress settings) (externalNodeAddress settings) a.

(** The database at the start: the peers of the settings are known *)
Definition initial_database : Database :=
  Db (Bk empty_storage empty_storage)
     (foldl (fun m a => if isSelfAddress a then m else <[a := DbValue a (fromAddress a) High]> m) ∅ (configuredPeers settings)) ∅ ∅.

Definition get (a : InetSocketAddress) (d : Database) : Try (option PeerDatabaseValue) :=
  match knownPeers d !! a with
  | Some v => Success (Some v)
  | None => let? p := getPeer a (buckets d) in Success (peerDatabaseValue <$> p)
  end.

(** removeFromBlacklist, checkBanned: a ban that is over is removed *)
Definition removeFromBlacklist (a : InetAddress) (d : Database) : Database := set_blacklist (delete a (blacklist d)) d.
Definition checkBanned (now : Z) (a : InetAddress) (bannedTill : Z) : DB bool :=
  let stillBanned := (now <? bannedTill)%Z in
  (if stillBanned then ret tt else modify (removeFromBlacklist a)) ;! ret stillBanned.
Definition isBlacklisted (now : Z) (a : InetAddress) : DB bool :=
  let! d := gets id in
  match blacklist d !! a with Some till => checkBanned now a till | None => ret false end.

(** peerIsNotBlacklistedAndNotKnownPeer *)
Definition peerIsNotBlacklistedAndNotKnownPeer (now : Z) (v : PeerDatabaseValue) : DB bool :=
  let! banned := isBlacklisted now (getAddress (db_address v)) in
  if banned then ret false else gets (fun d => negb (bool_decide (is_Some (knownPeers d !! db_address v)))).

Definition addOrUpdateKnownPeer (now : Z) (v : PeerDatabaseValue) : DB unit :=
  let! ok := peerIsNotBlacklistedAndNotKnownPeer now v in
  if ok then on_buckets (addOrUpdatePeerIntoBucket newBucketConfig nKey same_array now v) else ret tt.

(** addOrUpdateKnownPeers: the filter first, then the peers that passed *)
Fixpoint filterNotBlacklisted (now : Z) (l : list PeerDatabaseValue) : DB (list PeerDatabaseValue) :=
  match l with
  | [] => ret []
  | v :: l' =>
      let! banned := isBlacklisted now (getAddress (db_address v)) in
      let! rest := filterNotBlacklisted now l' in
      ret (if banned then rest else v :: rest)
  end.
Fixpoint foreach_peer (f : PeerDatabaseValue -> DB unit) (l : list PeerDatabaseValue) : DB unit :=
  match l with [] => ret tt | v :: l' => f v ;! foreach_peer f l' end.
Definition addOrUpdateKnownPeers (now : Z) (l : list PeerDatabaseValue) : DB unit :=
  let! validPeers := filterNotBlacklisted now l in
  foreach_peer (addOrUpdateKnownPeer now) validPeers.

Definition updatePeer (now : Z) (v : PeerDatabaseValue) : DB unit :=
  let! ok := peerIsNotBlacklistedAndNotKnownPeer now v in
  if ok then on_buckets (makeTried newBucketConfig triedBucketConfig nKey now v) else ret tt.

Definition remove (a : InetSocketAddress) : DB unit := on_buckets (removePeer a).

(** penaltyDuration, in milliseconds *)
Definition penaltyDuration (p : PenaltyType) : Z :=
  match p with
  | NonDeliveryPenalty | MisbehaviorPenalty | SpamPenalty | DisconnectPenalty _ => temporalBanDuration settings
  | CustomPenaltyDuration minutes => (minutes * 60000)%Z
  | PermanentPenalty => (360 * 10 * 86400000)%Z
  end.

Definition addToBlacklist (now : Z) (a : InetSocketAddress) (p : PenaltyType) : DB unit :=
  remove a ;!
  let ip := getAddress a in
  modify (fun d => set_penaltyBook (delete ip (penaltyBook d)) d) ;!
  modify (fun d => if bool_decide (is_Some (blacklist d !! ip)) then d
                   else set_blacklist (<[ip := (now + penaltyDuration p)%Z]> (blacklist d)) d).

(** blacklistedPeers: the bans that are over are removed on the way *)
Definition blacklistedPeers (now : Z) : DB (list InetAddress) :=
  let! d := gets id in
  let entries := map_to_list (blacklist d) in
  modify (set_blacklist (filter (fun e => now < e.2)%Z (blacklist d))) ;!
  ret (fst <$> filter (fun e => now < e.2)%Z entries).

(** peerPenaltyScoreOverThreshold; the score of a ban is not written *)
Definition peerPenaltyScoreOverThreshold (now : Z) (a : InetSocketAddress) (p : PenaltyType) : DB bool :=
  let ip := getAddress a in
  let! d := gets id in
  let '(newPenaltyScore, penaltyTs) :=
    match penaltyBook d !! ip with
    | Some (acc, last) =>
        if (0 <? now - last - penaltySafeInterval settings)%Z || isPermanent p
        then (toInt (acc + Network.penaltyScore p), now) else (acc, last)
    | None => (Network.penaltyScore p, now)
    end in
  if (penaltyScoreThreshold settings <? newPenaltyScore)%Z then ret true
  else modify (fun d => set_penaltyBook (<[ip := (newPenaltyScore, penaltyTs)]> (penaltyBook d)) d) ;! ret false.

Definition penaltyScore (ip : InetAddress) (d : Database) : Z := (default (0, 0)%Z (penaltyBook d !! ip)).1.
End Database.

Definition allPeers (d : Database) : gmap InetSocketAddress PeerDatabaseValue :=
  getNewPeers (buckets d) ∪ (getTriedPeers (buckets d) ∪ knownPeers d).
Definition randomPeersSubset (pickFromNewBucket : bool) (d : Database) : gmap InetSocketAddress PeerDatabaseValue :=
  getRandomPeers pickFromNewBucket (buckets d) ∪ knownPeers d.
Definition database_isEmpty (d : Database) : bool := buckets_isEmpty (buckets d).

(** ** What the buckets may hold

    What every operation on the buckets keeps, whichever addresses share slots:
    each peer is in the slot of its address, and no operation stores an address
    but the one it is given. *)


(** ** Buckets *)

Definition stored_in (a : InetSocketAddress) (s : PeerBucketStorage) : Prop := exists i p t, table s !! i = Some (p, t) /\ bucket_address p = a.
Definition stored (a : InetSocketAddress) (b : Buckets) : Prop := stored_in a (newBucket b) \/ stored_in a (triedBucket b).

Lemma stored_write s i p now r a : stored_in a (Storage (<[i := (p, now)]> (table s)) r) -> stored_in a s \/ a = bucket_address p.
Proof.
  intros (j & q & t & E & Ha). cbn [table] in E. apply lookup_insert_Some in E as [[_ [= <- _]]|[_ E]]; [by right|]. left. by exists j, q, t.
Qed.
Lemma stored_remove s a b : stored_in a (PeerBuckets.remove b s) -> stored_in a s.
Proof.
  unfold PeerBuckets.remove. destruct (bool_decide _); [done|]. intros (j & q & t & E & Ha). cbn in E. apply lookup_delete_Some in E as [_ E]. by exists j, q, t.
Qed.
Lemma stored_update s p now s' a : updateExistingPeer now p s = Success s' -> stored_in a s' -> stored_in a s \/ a = bucket_address p.
Proof. unfold updateExistingPeer. destruct (reverseTable s !! _); [|done]. intros [= <-]. apply stored_write. Qed.

Section Buckets.
Context `{HF : CryptographicHash} (nKey : Z) (same_array : bytes -> bytes -> bool).
Let slotN := getPeerIndexes newBucketConfig nKey true.
Let slotT := getPeerIndexes triedBucketConfig nKey true.

Record coherent_buckets (b : Buckets) : Prop := {
  coherent_new : coherent slotN (newBucket b);
  coherent_tried : coherent slotT (triedBucket b)
}.

(** The buckets before and after an operation that may store addresses of a set *)
Record grows (adds : InetSocketAddress -> Prop) (b b' : Buckets) : Prop := {
  buckets_grow_coherent : coherent_buckets b -> coherent_buckets b';
  buckets_grow_stored a : stored a b' -> stored a b \/ adds a
}.

Lemma buckets_grow_refl adds b : grows adds b b.
Proof. split; auto. Qed.
Lemma buckets_grow_trans adds b1 b2 b3 : grows adds b1 b2 -> grows adds b2 b3 -> grows adds b1 b3.
Proof. intros [C1 S1] [C2 S2]. split; [auto|]. intros a Ha. destruct (S2 a Ha) as [H|H]; [by apply S1|by right]. Qed.
Lemma buckets_grow_weaken (adds adds' : InetSocketAddress -> Prop) b b' : (forall a, adds a -> adds' a) -> grows adds b b' -> grows adds' b b'.
Proof. intros H [C S]. split; [done|]. intros a Ha. destruct (S a Ha); auto. Qed.

Lemma buckets_grow_new_add now p b : grows (eq (bucket_address p)) b (fst (new_add newBucketConfig nKey now p b)).
Proof.
  split; cbn.
  - intros [Cn Ct]. split; [|done]. by apply (storage_step_coherent newBucketConfig nKey true (newBucket b) (OpAdd now p)).
  - intros a [H|H]; [|by left; right]. apply stored_write in H as [H| ->]; [by left; left|by right].
Qed.
Lemma buckets_grow_tried_add now p b : grows (eq (bucket_address p)) b (fst (tried_add triedBucketConfig nKey now p b)).
Proof.
  split; cbn.
  - intros [Cn Ct]. split; [done|]. by apply (storage_step_coherent triedBucketConfig nKey true (triedBucket b) (OpAdd now p)).
  - intros a [H|H]; [by left; left|]. apply stored_write in H as [H| ->]; [by left; right|by right].
Qed.
Lemma buckets_grow_new_remove adds a b : grows adds b (fst (on_new (PeerBuckets.remove a) b)).
Proof.
  split; cbn.
  - intros [Cn Ct]. split; [|done]. by apply coherent_remove.
  - intros c [H|H]; [left; left; by eapply stored_remove|by left; right].
Qed.
Lemma buckets_grow_tried_remove adds a b : grows adds b (fst (on_tried (PeerBuckets.remove a) b)).
Proof.
  split; cbn.
  - intros [Cn Ct]. split; [done|]. by apply coherent_remove.
  - intros c [H|H]; [by left; left|left; right; by eapply stored_remove].
Qed.
Lemma buckets_grow_update_new now p b : grows (eq (bucket_address p)) b (fst (updatePeerIfDifferent same_array now newBucket put_new p b)).
Proof.
  unfold updatePeerIfDifferent, bind, gets, lift_try. destruct (getStoredPeerByAddress _ _) as [[o|]|]; [|apply buckets_grow_refl..].
  destruct (hasBeenUpdated _ _ _); [|apply buckets_grow_refl]. destruct (updateExistingPeer now p (newBucket b)) as [s'|] eqn:E; [|apply buckets_grow_refl]. split; cbn.
  - intros [Cn Ct]. split; [|done]. cbn. pose proof (storage_step_coherent newBucketConfig nKey true (newBucket b) (OpUpdate now p) Cn) as H. cbn in H. by rewrite E in H.
  - intros a [H|H]; [|by left; right]. cbn in H. destruct (stored_update _ _ _ _ _ E H) as [H'| ->]; [by left; left|by right].
Qed.
Lemma buckets_grow_update_tried now p b : grows (eq (bucket_address p)) b (fst (updatePeerIfDifferent same_array now triedBucket put_tried p b)).
Proof.
  unfold updatePeerIfDifferent, bind, gets, lift_try. destruct (getStoredPeerByAddress _ _) as [[o|]|]; [|apply buckets_grow_refl..].
  destruct (hasBeenUpdated _ _ _); [|apply buckets_grow_refl]. destruct (updateExistingPeer now p (triedBucket b)) as [s'|] eqn:E; [|apply buckets_grow_refl]. split; cbn.
  - intros [Cn Ct]. split; [done|]. cbn. pose proof (storage_step_coherent triedBucketConfig nKey true (triedBucket b) (OpUpdate now p) Ct) as H. cbn in H. by rewrite E in H.
  - intros a [H|H]; [by left; left|]. cbn in H. destruct (stored_update _ _ _ _ _ E H) as [H'| ->]; [by left; right|by right].
Qed.

Lemma addOrUpdate_grows now v b : grows (eq (db_address v)) b (fst (addOrUpdatePeerIntoBucket newBucketConfig nKey same_array now v b)).
Proof.
  unfold addOrUpdatePeerIntoBucket, bind at 1, gets. cbn [id].
  destruct (contains _ (newBucket b)); [apply (buckets_grow_update_new now (NewPeerBucketValue v))|].
  destruct (contains _ (triedBucket b)); [apply (buckets_grow_update_tried now (TriedPeerBucketValue v))|apply (buckets_grow_new_add now (NewPeerBucketValue v))].
Qed.

Lemma removePeer_grows adds a b : grows adds b (fst (removePeer a b)).
Proof. unfold removePeer. eapply buckets_grow_trans; [apply (buckets_grow_new_remove adds a b)|apply (buckets_grow_tried_remove adds a)]. Qed.

(** The peer a tried one displaces was stored; so only one address is new. *)
Lemma makeTried_grows now v b : grows (eq (db_address v)) b (fst (makeTried newBucketConfig triedBucketConfig nKey now v b)).
Proof.
  unfold makeTried. unfold bind at 1, gets at 1. cbn [id]. unfold bind at 1, lift_try.
  destruct (getStoredPeerByAddress (db_address v) (newBucket b)) as [o|]; [|apply buckets_grow_refl].
  set (first := match o with Some p => on_new (PeerBuckets.remove (bucket_address p)) | None => ret tt end).
  assert (grows (eq (db_address v)) b (fst (first b)) /\ snd (first b) = Success tt) as [G1 E1].
  { destruct o as [p|]; (split; [|done]); [apply buckets_grow_new_remove|apply buckets_grow_refl]. }
  unfold bind at 1. destruct (first b) as [b1 r1]. cbn [fst snd] in *. subst r1. eapply buckets_grow_trans; [exact G1|].
  unfold bind at 1, gets. cbn [id]. unfold bind at 1. destruct (bucketPositionIsAlreadyTaken _ _ _ _ (triedBucket b1)).
  2: { cbn [ret]. apply (buckets_grow_tried_add now (TriedPeerBucketValue v)). }
  unfold bind at 1. destruct (getStoredPeerByIndexes _ (triedBucket b1)) as [q|] eqn:Eq; [|apply buckets_grow_refl]. cbn [ret].
  unfold bind at 1. destruct (MessageSpecs.address _) as [c|]; [|apply buckets_grow_refl]. cbn [ret].
  unfold bind at 1. cbn [on_tried modify]. set (b2 := Bk _ _).
  assert (grows (eq (db_address v)) b1 (fst (addNewPeer newBucketConfig nKey now (peerDatabaseValue q) b2))) as G2.
  { pose proof (buckets_grow_tried_remove (eq (db_address v)) c b1 : grows _ b1 b2) as G. pose proof (buckets_grow_new_add now (NewPeerBucketValue (peerDatabaseValue q)) b2) as [Cn Sn].
    split; [intros Hc; by apply Cn, (buckets_grow_coherent _ _ _ G)|]. intros a Ha. destruct (Sn a Ha) as [H|<-]; [by apply (buckets_grow_stored _ _ _ G)|]. left. right.
    unfold getStoredPeerByIndexes in Eq. apply fmap_Some in Eq as ([q' t] & Et & ->). by exists (getPeerIndexes triedBucketConfig nKey true (db_address v)), q', t. }
  eapply buckets_grow_trans; [exact G2|]. apply (buckets_grow_tried_add now (TriedPeerBucketValue v)).
Qed.
End Buckets.
