(* ===== verification/PeerManager.v ===== *)
(** * PeerManager: the actor that keeps the known peers

    core/network/peer/PeerManager.scala: every message it receives, with what it
    answers to the sender.  A handler that throws changes the database as far as
    it came; the actor is restarted with the same database.  What is random,
    and the order in which a map is gone through, are arguments. *)

From S2P Require Import Prelude External Network MessageSpecs NetAddress PeerBuckets PeerDatabase.

(** The choices of one handler: a boolean, a number below n, a permutation, and
    the order of the values of a map and of the groups of a list *)
Record Choices := {
  nextBoolean : bool;
  nextInt : Z -> Z;
  shuffle : list PeerDatabaseValue -> list PeerDatabaseValue;
  values_of : gmap InetSocketAddress PeerDatabaseValue -> list PeerDatabaseValue;
  group_order : list PeerConfidence -> list PeerConfidence
}.
Record choices_ok (r : Choices) : Prop := {
  nextInt_ok n : (0 < n)%Z -> (0 <= nextInt r n < n)%Z;
  shuffle_ok l : shuffle r l ≡ₚ l;
  values_ok m : values_of r m ≡ₚ snd <$> map_to_list m;
  group_ok l : group_order r l ≡ₚ l
}.

Inductive GetPeers :=
| SeenPeers (howMany : Z)
| GetAllPeers
| RandomPeerForConnectionExcluding (excludedPeers : list (option InetSocketAddress)) (onlyKnownPeers : bool)
| GetPeer (peerAddress : InetSocketAddress)
| GetBlacklistedPeers.

Inductive Message :=
| ConfirmConnection (remoteAddress : InetSocketAddress)
| AddOrUpdatePeer (data : PeerInfo)
| UpdatePeer (data : PeerInfo)
| Penalize (remote : InetSocketAddress) (penaltyType : PenaltyType)
| AddPeersIfEmpty (data : list PeerSpec)
| AddToBlacklist (remote : InetSocketAddress) (penalty : option PenaltyType)
| RemoveFromBlacklist (remote : InetAddress)
| RemovePeer (address : InetSocketAddress)
| Get (get : GetPeers).

Inductive Answer :=
| ConnectionConfirmed (remoteAddress : InetSocketAddress)
| ConnectionDenied (remoteAddress : InetSocketAddress)
| DisconnectFromAddress (remote : InetSocketAddress)
| SeenAnswer (l : list PeerInfo)
| AllAnswer (m : gmap InetSocketAddress PeerInfo)
| RandomAnswer (p : option PeerInfo)
| PeerAnswer (p : option PeerDatabaseValue)
| BlacklistedAnswer (l : list InetAddress).

(** ** choose *)

(** goodCandidateFilter, which holds of those that are no candidates *)
Definition goodCandidateFilter (excludedPeers : list (option InetSocketAddress)) (blacklistedPeers : list InetAddress) (p : PeerDatabaseValue) : bool :=
  bool_decide (MessageSpecs.address (peerSpec (peerInfo p)) ∈ excludedPeers) || bool_decide (getAddress (db_address p) ∈ blacklistedPeers).

Definition seen (p : PeerDatabaseValue) : bool :=
  bool_decide (is_Some (connectionType (peerInfo p))) || (0 <? lastHandshake (peerInfo p))%Z || bool_decide (confidence p = High).

Section Choose.
Context (r : Choices).

Definition choose_seen (howMany : Z) (peers : gmap InetSocketAddress PeerDatabaseValue) (blacklisted : list InetAddress) : list PeerInfo :=
  let recentlySeenNonBlacklisted :=
    filter (fun p => seen p = true) (filter (fun p => getAddress (db_address p) ∉ blacklisted) (values_of r peers)) in
  peerInfo <$> take (Z.to_nat howMany) (shuffle r recentlySeenNonBlacklisted).

(** groupBy confidence, and a peer of a group at random *)
Definition group (c : PeerConfidence) (l : list PeerDatabaseValue) : list PeerDatabaseValue := filter (fun p => confidence p = c) l.
Definition groups (l : list PeerDatabaseValue) : list PeerConfidence := group_order r (remove_dups (confidence <$> l)).
Definition pick (l : list PeerDatabaseValue) (n : Z) : Try (option PeerInfo) :=
  match l !! Z.to_nat (nextInt r n) with
  | Some p => Success (Some (peerInfo p))
  | None => Failure IndexOutOfBounds
  end.

Definition choose_random (excludedPeers : list (option InetSocketAddress)) (onlyKnownPeers : bool)
    (peers : gmap InetSocketAddress PeerDatabaseValue) (blacklisted : list InetAddress) : Try (option PeerInfo) :=
  let candidates := filter (fun p => goodCandidateFilter excludedPeers blacklisted p = false) (values_of r peers) in
  let knownPeersCandidates := group High candidates in
  let forgerCandidates := group Forger candidates in
  if onlyKnownPeers then
    match knownPeersCandidates with [] => Success None | l => pick l (zlen l) end
  else
    match forgerCandidates, knownPeersCandidates, candidates with
    | (_ :: _) as l, _, _ => pick l (zlen l)
    | [], (_ :: _) as l, _ => pick l (zlen l)
    | [], [], _ :: _ => pick (flat_map (fun c => group c candidates) (groups candidates)) (zlen (groups candidates))
    | [], [], [] => Success None
    end.
End Choose.

(** ** receive *)

Section Actor.
Context `{HF : CryptographicHash} (nKey : Z) (same_array : bytes -> bytes -> bool) (settings : PeerSettings).

Definition isSelf (p : PeerSpec) : bool :=
  match declaredAddress p with Some a => isSelfAddress settings a | None => false end ||
  match localAddressOpt p with Some a => isSelfAddress settings a | None => false end.

Definition extractAddressFromPeerInfo (i : PeerInfo) : DB InetSocketAddress :=
  match MessageSpecs.address (peerSpec i) with Some a => ret a | None => throw IllegalArgument end.

Definition confidence_of (p : PeerSpec) : PeerConfidence :=
  if bool_decide (ForgerNodePeerFeature ∈ features p) then Forger else Unknown.

Definition shouldAddPeer (p : PeerSpec) : DB bool :=
  match MessageSpecs.address p with
  | None => ret false
  | Some a =>
      let! d := gets id in
      let! known := lift_try (get a d) in
      ret (bool_decide (known = None) && negb (isSelf p))
  end.

(** The collect of AddPeersIfEmpty *)
Fixpoint collect_peers (l : list PeerSpec) : DB (list PeerDatabaseValue) :=
  match l with
  | [] => ret []
  | p :: l' =>
      let! ok := shouldAddPeer p in
      let! rest := collect_peers l' in
      match MessageSpecs.address p with
      | Some a => ret (if ok then DbValue a (Info p 0 None) (confidence_of p) :: rest else rest)
      | None => ret rest
      end
  end.

Definition receive (now : Z) (r : Choices) (msg : Message) : DB (list Answer) :=
  match msg with
  | ConfirmConnection remote =>
      let! banned := isBlacklisted now (getAddress remote) in
      ret [if banned then ConnectionDenied remote else ConnectionConfirmed remote]
  | AddOrUpdatePeer i =>
      (if isSelf (peerSpec i) then ret tt else
       let! a := extractAddressFromPeerInfo i in
       addOrUpdateKnownPeer nKey same_array now (DbValue a i (confidence_of (peerSpec i)))) ;! ret []
  | UpdatePeer i =>
      (if isSelf (peerSpec i) then ret tt else
       let! a := extractAddressFromPeerInfo i in
       updatePeer nKey now (DbValue a i Unknown)) ;! ret []
  | Penalize peer p =>
      let! over := peerPenaltyScoreOverThreshold settings now peer p in
      if over then addToBlacklist settings now peer p ;! ret [DisconnectFromAddress peer] else ret []
  | AddPeersIfEmpty peersSpec =>
      let! filteredPeers := collect_peers peersSpec in
      addOrUpdateKnownPeers nKey same_array now filteredPeers ;! ret []
  | AddToBlacklist a penalty => addToBlacklist settings now a (default MisbehaviorPenalty penalty) ;! ret []
  | RemoveFromBlacklist ip => modify (removeFromBlacklist ip) ;! ret []
  | RemovePeer a => remove a ;! ret []
  | Get (RandomPeerForConnectionExcluding excluded onlyKnown) =>
      let! d := gets id in
      let! banned := blacklistedPeers now in
      let! p := lift_try (choose_random r excluded onlyKnown (randomPeersSubset (nextBoolean r) d) banned) in
      ret [RandomAnswer p]
  | Get g =>
      let! d := gets id in
      let! banned := blacklistedPeers now in
      ret [match g with
           | SeenPeers n => SeenAnswer (choose_seen r n (allPeers d) banned)
           | GetAllPeers => AllAnswer (peerInfo <$> allPeers d)
           | GetPeer a => PeerAnswer (allPeers d !! a)
           | _ => BlacklistedAnswer banned
           end]
  end.
End Actor.
