(* ===== verification/PeerManagerThms.v ===== *)
(** * PeerManagerThms: what the peer manager promises of bans and penalties *)

From S2P Require Import Prelude External Network MessageSpecs NetAddress PeerBuckets PeerBucketsThms PeerDatabase PeerManager.

(** ** Runs of the actor *)

Section Runs.
Context `{HF : CryptographicHash} (nKey : Z) (same_array : bytes -> bytes -> bool) (settings : PeerSettings).

(** Messages with the clock and the choices of their handlers; a handler that
    throws leaves what it has done. *)
Definition Event : Type := Z * Choices * Message.
Definition handle_event (d : Database) (e : Event) : Database := let '(now, r, msg) := e in fst (receive nKey same_array settings now r msg d).
Definition run (d : Database) (es : list Event) : Database := foldl handle_event d es.

(** What holds throughout: peers are in their slots, and the configured peers are
    as they were; while an address is banned also that the ban is on the list,
    and that no address of the host is stored but some. *)
Record run_state (ban : bool) (ip : InetAddress) (till : Z) (S : InetSocketAddress -> Prop) (K : gmap InetSocketAddress PeerDatabaseValue) (d : Database) : Prop := {
  rs_coherent : coherent_buckets nKey (buckets d);
  rs_banned : ban = true -> blacklist d !! ip = Some till;
  rs_stored a : ban = true -> getAddress a = ip -> stored a (buckets d) -> S a;
  rs_known : knownPeers d = K
}.

Section Keeps.
Context (ban : bool) (ip : InetAddress) (till : Z) (S : InetSocketAddress -> Prop) (K : gmap InetSocketAddress PeerDatabaseValue).
Abbreviation I := (run_state ban ip till S K).

Definition keeps {A} (m : DB A) : Prop := forall d, I d -> I (fst (m d)).

Lemma mgr_keeps_ret {A} (x : A) : keeps (ret x).
Proof. by intros d H. Qed.
Lemma mgr_keeps_throw {A} e : keeps (throw e : DB A).
Proof. by intros d H. Qed.
Lemma mgr_keeps_gets {A} (f : Database -> A) : keeps (gets f).
Proof. by intros d H. Qed.
Lemma mgr_keeps_lift {A} (t : Try A) : keeps (lift_try t).
Proof. by intros d H. Qed.
Lemma mgr_keeps_bind {A B} (m : DB A) (f : A -> DB B) : keeps m -> (forall x, keeps (f x)) -> keeps (bind m f).
Proof. intros H1 H2 d Hd. unfold bind. specialize (H1 d Hd). destruct (m d) as [d1 [x|e]]; [by apply H2|done]. Qed.
Lemma mgr_keeps_buckets {A} (m : BM A) adds : (forall b, grows nKey adds b (fst (m b))) -> (forall a, ban = true -> adds a -> getAddress a <> ip) -> keeps (on_buckets m).
Proof.
  intros Hm Ha d [C B St Kn]. unfold on_buckets. specialize (Hm (buckets d)). destruct (m (buckets d)) as [b r]. cbn [fst] in *.
  split; cbn; [by apply Hm|done| |done]. intros a Hb Hip Hs. apply (buckets_grow_stored _ _ _ _ Hm) in Hs as [Hs|Hs]; [by apply St|by destruct (Ha a Hb Hs)].
Qed.
Lemma mgr_keeps_penaltyBook (f : gmap InetAddress (Z * Z) -> gmap InetAddress (Z * Z)) : keeps (modify (fun d => set_penaltyBook (f (penaltyBook d)) d)).
Proof. by intros d [C B St Kn]. Qed.

Context (now : Z) (Hnow : ban = true -> (now < till)%Z).

(** Asking whether an address is banned *)
Lemma isBlacklisted_banned d : I d -> ban = true -> isBlacklisted now ip d = (d, Success true).
Proof using Hnow. intros H Hb. unfold isBlacklisted, bind, gets. cbn [id]. rewrite (rs_banned _ _ _ _ _ _ H Hb). unfold checkBanned. by rewrite (proj2 (Z.ltb_lt _ _) (Hnow Hb)). Qed.
Lemma mgr_keeps_isBlacklisted a : keeps (isBlacklisted now a).
Proof using Hnow.
  intros d H. destruct (decide (a = ip /\ ban = true)) as [[-> Hb]|Hne]; [by rewrite isBlacklisted_banned|].
  unfold isBlacklisted, bind, gets. cbn [id]. destruct (blacklist d !! a) as [t|]; [|done]. unfold checkBanned. destruct (now <? t)%Z; [done|].
  destruct H as [C B St Kn]. split; [done| |done|done]. cbn. intros Hb. rewrite lookup_delete_ne; [by apply B|]. intros ->. by apply Hne.
Qed.
Lemma mgr_keeps_guarded v (m : BM unit) : (forall b, grows nKey (eq (db_address v)) b (fst (m b))) ->
  keeps (let! ok := peerIsNotBlacklistedAndNotKnownPeer now v in if ok then on_buckets m else ret tt).
Proof using Hnow.
  intros Hm. destruct (decide (getAddress (db_address v) = ip /\ ban = true)) as [[Hip Hb]|Hip].
  - intros d H. unfold peerIsNotBlacklistedAndNotKnownPeer. rewrite Hip. unfold bind. by rewrite isBlacklisted_banned.
  - apply mgr_keeps_bind; [|intros []; [apply (mgr_keeps_buckets m _ Hm); intros a Hb <- E; by apply Hip|apply mgr_keeps_ret]].
    unfold peerIsNotBlacklistedAndNotKnownPeer. apply mgr_keeps_bind; [apply mgr_keeps_isBlacklisted|intros []; [apply mgr_keeps_ret|apply mgr_keeps_gets]].
Qed.
Lemma mgr_keeps_addOrUpdate v : keeps (addOrUpdateKnownPeer nKey same_array now v).
Proof using Hnow. apply mgr_keeps_guarded. intros b. apply addOrUpdate_grows. Qed.
Lemma mgr_keeps_updatePeer v : keeps (updatePeer nKey now v).
Proof using Hnow. apply mgr_keeps_guarded. intros b. apply makeTried_grows. Qed.
Lemma mgr_keeps_addAll l : keeps (addOrUpdateKnownPeers nKey same_array now l).
Proof using Hnow.
  unfold addOrUpdateKnownPeers. apply mgr_keeps_bind.
  - induction l as [|v l IH]; cbn [filterNotBlacklisted]; [apply mgr_keeps_ret|].
    apply mgr_keeps_bind; [apply mgr_keeps_isBlacklisted|]. intros banned. apply mgr_keeps_bind; [apply IH|]. intros rest. apply mgr_keeps_ret.
  - intros l'. induction l' as [|v l' IH]; cbn [foreach_peer]; [apply mgr_keeps_ret|]. apply mgr_keeps_bind; [apply mgr_keeps_addOrUpdate|by intros _].
Qed.
Lemma mgr_keeps_remove a : keeps (remove a).
Proof using. apply (mgr_keeps_buckets _ (fun _ => False)); [intros b; apply removePeer_grows|done]. Qed.
Lemma mgr_keeps_addToBlacklist a p : keeps (addToBlacklist settings now a p).
Proof using.
  unfold addToBlacklist. apply mgr_keeps_bind; [apply mgr_keeps_remove|]. intros _. apply mgr_keeps_bind; [apply mgr_keeps_penaltyBook|]. intros _ d H.
  cbn. case_bool_decide as Hb; [done|]. destruct H as [C B St Kn]. split; [done| |done|done]. cbn. intros Hban.
  rewrite lookup_insert_ne; [by apply B|]. intros E. apply Hb. rewrite E. eexists. by apply B.
Qed.
Lemma mgr_keeps_blacklistedPeers : keeps (blacklistedPeers now).
Proof using Hnow.
  intros d [C B St Kn]. cbn. split; [done| |done|done]. cbn. intros Hb. apply map_lookup_filter_Some. auto.
Qed.

Lemma mgr_keeps_receive r msg : (ban = true -> msg <> RemoveFromBlacklist ip) -> keeps (receive nKey same_array settings now r msg).
Proof using Hnow.
  assert (forall A (m : DB A), keeps m -> keeps (m ;! ret ([] : list Answer))) as Hdone by (intros A m Hm; apply mgr_keeps_bind; [done|intros; apply mgr_keeps_ret]).
  assert (forall (p : PeerSpec) (m : InetSocketAddress -> DB unit), (forall a, keeps (m a)) -> forall i,
    keeps (if isSelf settings p then ret tt else let! a := extractAddressFromPeerInfo i in m a)) as Hself.
  { intros p m Hm i. destruct (isSelf settings p); [apply mgr_keeps_ret|]. apply mgr_keeps_bind; [|done]. unfold extractAddressFromPeerInfo.
    destruct (MessageSpecs.address _); [apply mgr_keeps_ret|apply mgr_keeps_throw]. }
  intros Hmsg. destruct msg as [remote|i|i|a p|l|a p|ip'|a|g]; cbn [receive].
  - apply mgr_keeps_bind; [apply mgr_keeps_isBlacklisted|intros; apply mgr_keeps_ret].
  - apply Hdone, Hself. intros a. apply mgr_keeps_addOrUpdate.
  - apply Hdone, Hself. intros a. apply mgr_keeps_updatePeer.
  - apply mgr_keeps_bind; [|intros []; [apply mgr_keeps_bind; [apply mgr_keeps_addToBlacklist|intros; apply mgr_keeps_ret]|apply mgr_keeps_ret]].
    unfold peerPenaltyScoreOverThreshold. apply mgr_keeps_bind; [apply mgr_keeps_gets|]. intros d. destruct (match penaltyBook d !! _ with Some _ => _ | None => _ end) as [n t].
    destruct (_ <? n)%Z; [apply mgr_keeps_ret|]. apply mgr_keeps_bind; [apply mgr_keeps_penaltyBook|intros; apply mgr_keeps_ret].
  - apply mgr_keeps_bind; [|intros l'; apply Hdone, mgr_keeps_addAll]. induction l as [|p l IH]; cbn [collect_peers]; [apply mgr_keeps_ret|].
    apply mgr_keeps_bind.
    { unfold shouldAddPeer. destruct (MessageSpecs.address p); [|apply mgr_keeps_ret]. apply mgr_keeps_bind; [apply mgr_keeps_gets|]. intros d.
      apply mgr_keeps_bind; [apply mgr_keeps_lift|intros; apply mgr_keeps_ret]. }
    intros ok. apply mgr_keeps_bind; [by apply IH|]. intros rest. destruct (MessageSpecs.address p); apply mgr_keeps_ret.
  - apply Hdone, mgr_keeps_addToBlacklist.
  - apply Hdone. intros d [C B St Kn]. split; [done| |done|done]. cbn. intros Hb. rewrite lookup_delete_ne; [by apply B|]. intros ->. by apply Hmsg.
  - apply Hdone, mgr_keeps_remove.
  - destruct g; (apply mgr_keeps_bind; [apply mgr_keeps_gets|]; intros d; apply mgr_keeps_bind; [apply mgr_keeps_blacklistedPeers|]; intros banned; try apply mgr_keeps_ret).
    apply mgr_keeps_bind; [apply mgr_keeps_lift|intros; apply mgr_keeps_ret].
Qed.
End Keeps.

Lemma run_keeps ban ip till S K es d : run_state ban ip till S K d ->
  (forall now r msg, (now, r, msg) ∈ es -> ban = true -> (now < till)%Z /\ msg <> RemoveFromBlacklist ip) -> run_state ban ip till S K (run d es).
Proof.
  revert d. induction es as [|[[now r] msg] es IH]; intros d H Hes; [done|]. cbn [run foldl].
  assert (forall Hb : ban = true, (now < till)%Z /\ msg <> RemoveFromBlacklist ip) as Hm by (intros Hb; apply (Hes now r msg); [left|done]).
  apply IH; [apply (mgr_keeps_receive ban ip till S K now (fun Hb => proj1 (Hm Hb)) r msg (fun Hb => proj2 (Hm Hb)) d H)|].
  intros now' r' msg' Hin. apply (Hes now' r' msg'). by right.
Qed.

(** At any time peers are in the slots of their addresses, and the configured
    peers are those of the start. *)
Lemma run_invariant es : let d := run (initial_database settings) es in
  coherent_buckets nKey (buckets d) /\ knownPeers d = knownPeers (initial_database settings).
Proof.
  intros d. assert (run_state false [] 0 (fun _ => True) (knownPeers (initial_database settings)) d) as H; [|by destruct H].
  apply run_keeps; [|done]. split; [split; apply coherent_empty|done|done|done].
Qed.
End Runs.

(** ** Bans *)

Lemma removed_not_stored slot a s : coherent slot s -> slot a <> NOT_FOUND_PEER_INDEXES -> ~ stored_in a (PeerBuckets.remove a s).
Proof.
  intros H Hnf Hst. pose proof (stored_remove _ _ _ Hst) as (i & p & t & E & Ha). destruct (co_slot _ _ H _ _ _ E) as [-> Er]. rewrite Ha in E, Er.
  destruct Hst as (j & q & u & Ej & Hq). unfold PeerBuckets.remove, tryGetIndexesFromPeerAddress in Ej. rewrite Er in Ej. cbn [default from_option id] in Ej.
  rewrite bool_decide_false in Ej by done. cbn in Ej. apply lookup_delete_Some in Ej as [Hj Ej].
  destruct (co_slot _ _ H _ _ _ Ej) as [-> _]. apply Hj. by rewrite Hq.
Qed.

Lemma not_stored_getPeers slot a s : coherent slot s -> ~ stored_in a s -> getPeers s !! a = None.
Proof.
  intros H Hst. rewrite getPeers_contents, lookup_fmap. destruct (peers_of s !! a) as [p|] eqn:E; [|done].
  apply (contents_lookup slot) in E as (t & Et & Ha); [|done]. destruct Hst. by exists (slot a), p, t.
Qed.

Section Manager.
Context `{HF : CryptographicHash} (nKey : Z) (same_array : bytes -> bytes -> bool) (settings : PeerSettings).
Abbreviation run := (run nKey same_array settings).
Abbreviation receive := (receive nKey same_array settings).

(** Penalize answers only to say that the peer is now on the blacklist. *)
Lemma penalize_disconnects now r a p d d1 x : receive now r (Penalize a p) d = (d1, Success [x]) ->
  x = DisconnectFromAddress a /\ d1 = fst (addToBlacklist settings now a p d).
Proof.
  cbn [PeerManager.receive]. unfold peerPenaltyScoreOverThreshold. unfold bind at 1 2, gets at 1. cbn [id].
  destruct (match penaltyBook d !! _ with Some _ => _ | None => _ end) as [n t]. destruct (_ <? n)%Z; cbn [ret]; [|by intros [= <- ]].
  by intros [= <- <-].
Qed.

(** C16: once the manager has answered a penalty of an address whose two slots are not
    (-1, -1), which the storages read as not found, with a disconnection, then
    whatever messages follow, until the host's entry of the ban list is over or
    lifted, connections with the host are denied, the penalized address is known
    no more unless it is configured, and no address of the host is stored that was
    not before; when the time is over the ban is lifted.  The entry lasts from now
    for the penalty's duration when the host had none; one that it had stays as
    it is, also when it is over ([stale_ban_shields]: then the host is not banned
    at all, and no message may follow for which this says anything). *)
Theorem ban_keeps_out es now r a p d1 x es2 : let d := run (initial_database settings) es in
  let ip := getAddress a in let till := default (now + penaltyDuration settings p)%Z (blacklist d !! ip) in
  receive now r (Penalize a p) d = (d1, Success [x]) ->
  getPeerIndexes newBucketConfig nKey true a <> NOT_FOUND_PEER_INDEXES -> getPeerIndexes triedBucketConfig nKey true a <> NOT_FOUND_PEER_INDEXES ->
  (forall t r msg, (t, r, msg) ∈ es2 -> (t < till)%Z /\ msg <> RemoveFromBlacklist ip) ->
  let d2 := run d1 es2 in
  (forall t r remote, getAddress remote = ip ->
     receive t r (ConfirmConnection remote) d2 =
       if (t <? till)%Z then (d2, Success [ConnectionDenied remote]) else (removeFromBlacklist ip d2, Success [ConnectionConfirmed remote])) /\
  allPeers d2 !! a = knownPeers (initial_database settings) !! a /\
  (forall b, getAddress b = ip -> stored b (buckets d2) -> stored b (buckets d) /\ b <> a).
Proof.
  intros d ip till E HnN HnT Hes d2. destruct (run_invariant nKey same_array settings es) as [Hc Hk]. fold d in Hc, Hk.
  apply penalize_disconnects in E as [_ E].
  assert (run_state nKey true ip till (fun b => stored b (buckets d) /\ b <> a) (knownPeers (initial_database settings)) d2) as [C B St Kn].
  { apply run_keeps; [|by intros t r' msg Hin _; apply (Hes t r' msg)]. rewrite E. unfold addToBlacklist, remove, on_buckets, removePeer. cbn.
    fold ip. split; [case_bool_decide; split; cbn; apply coherent_remove, Hc| | |by case_bool_decide].
    { intros _. unfold till. case_bool_decide as Hb; cbn; [by destruct Hb as [t ->]|].
      by rewrite lookup_insert_eq, (proj2 (eq_None_not_Some _) Hb). }
    case_bool_decide; intros b _ Hip [Hs|Hs]; cbn in Hs; (split; [first [left; by eapply stored_remove|right; by eapply stored_remove]|intros ->];
      first [by apply (removed_not_stored _ _ _ (coherent_new _ _ Hc) HnN) in Hs|by apply (removed_not_stored _ _ _ (coherent_tried _ _ Hc) HnT) in Hs]). }
  split_and!.
  - intros t r' remote Hip. cbn [PeerManager.receive]. unfold bind at 1, isBlacklisted, bind at 1, gets. cbn [id]. rewrite Hip, (B eq_refl).
    unfold checkBanned. by destruct (t <? till)%Z.
  - unfold allPeers, getNewPeers, getTriedPeers. assert (~ stored a (buckets d2)) as Hns by (intros Hs; by destruct (St a eq_refl eq_refl Hs)).
    rewrite !lookup_union, (not_stored_getPeers _ _ _ (coherent_new _ _ C)), (not_stored_getPeers _ _ _ (coherent_tried _ _ C)) by (intros H; apply Hns; first [by left|by right]).
    rewrite Kn. by destruct (_ !! a).
  - intros b Hip. by apply St.
Qed.

(** A ban that is over and was not asked about since is still on the list, and
    keeps a new one off it: the penalized peer is not banned. *)
Theorem stale_ban_shields d a p now t : let ip := getAddress a in
  blacklist d !! ip = Some t -> (t <= now)%Z ->
  let d' := fst (addToBlacklist settings now a p d) in blacklist d' = blacklist d /\ snd (isBlacklisted now ip d') = Success false.
Proof.
  intros ip Hb Ht d'. assert (blacklist d' = blacklist d) as E.
  { unfold d', addToBlacklist, remove, on_buckets, removePeer. cbn. fold ip. rewrite bool_decide_true by (rewrite Hb; by eexists). done. }
  split; [done|]. unfold isBlacklisted, bind, gets. cbn [id]. rewrite E. fold ip. rewrite Hb. unfold checkBanned. by rewrite (proj2 (Z.ltb_ge _ _)).
Qed.
End Manager.

(** ** Concrete runs *)

(** The choices that take the first of everything *)
Definition first_choices : Choices := {|
  nextBoolean := true; nextInt _ := 0%Z; shuffle l := l; values_of m := snd <$> map_to_list m; group_order l := l
|}.
Lemma first_choices_ok : choices_ok first_choices.
Proof. split; [cbn; lia|done..]. Qed.

Definition host (last : Z) : InetSocketAddress := Inet (z2b <$> [8; 8; 4; last]%Z) 9084.
Definition sample_settings : PeerSettings := {|
  penaltySafeInterval := 1000; penaltyScoreThreshold := 500; temporalBanDuration := 60000; bindAddress := host 9;
  externalNodeAddress := None; interfaces := []; configuredPeers := [host 1]
|}.

(** A peer that gets known, is banned, asks to connect and makes itself known again *)
Lemma ban_keeps_out_witness :
  let r := first_choices in let a := host 2 in let same (x y : bytes) := bool_decide (x = y) in
  let d := run 7 same sample_settings (initial_database sample_settings) [(0%Z, r, AddOrUpdatePeer (fromAddress a))] in
  let d1 := fst (receive 7 same sample_settings 10 r (Penalize a PermanentPenalty) d) in
  let d2 := run 7 same sample_settings d1 [(20%Z, r, AddOrUpdatePeer (fromAddress a))] in
  is_Some (allPeers d !! a) /\ snd (receive 7 same sample_settings 30 r (ConfirmConnection a) d2) = Success [ConnectionDenied a] /\ allPeers d2 !! a = None.
Proof.
  intros r a same d d1 d2.
  assert (receive 7 same sample_settings 10 r (Penalize a PermanentPenalty) d = (d1, Success [DisconnectFromAddress a])) as E by (vm_compute; reflexivity).
  split; [vm_compute; eexists; reflexivity|].
  destruct (ban_keeps_out 7 same sample_settings [(0%Z, r, AddOrUpdatePeer (fromAddress a))] 10 r a PermanentPenalty d1 _ [(20%Z, r, AddOrUpdatePeer (fromAddress a))] E) as (H1 & H2 & _).
  - by vm_compute.
  - by vm_compute.
  - intros t r' msg Hin. apply list_elem_of_singleton in Hin. injection Hin as -> _ ->. split; [by vm_compute|done].
  - split; [|etransitivity; [exact H2|by vm_compute]].
    etransitivity; [apply f_equal; exact (H1 30%Z r a eq_refl)|vm_compute; reflexivity].
Defined.

Lemma stale_ban_shields_witness :
  let a := host 2 in let d := set_blacklist {[ getAddress a := 5%Z ]} (initial_database sample_settings) in
  snd (isBlacklisted 10 (getAddress a) (fst (addToBlacklist sample_settings 10 a PermanentPenalty d))) = Success false.
Proof. intros a d. apply (stale_ban_shields sample_settings d a PermanentPenalty 10 5); [by vm_compute|lia]. Defined.

(** ** How penalties add up to a ban *)


Section Penalties.
Context `{HF : CryptographicHash} (nKey : Z) (same_array : bytes -> bytes -> bool) (settings : PeerSettings) (r : Choices) (ip : InetAddress).
Abbreviation receive := (receive nKey same_array settings).
Abbreviation threshold := (penaltyScoreThreshold settings).

(** A penalty for some address of the host, which does not overflow a score
    that is not over the threshold *)
Definition Penalized : Type := Z * InetSocketAddress * PenaltyType.
Definition event (e : Penalized) : Event := let '(t, a, p) := e in (t, r, Penalize a p).
Definition score_of (e : Penalized) : Z := let '(_, _, p) := e in Network.penaltyScore p.
Definition of_host (e : Penalized) : Prop := getAddress (e.1.2) = ip /\ (0 <= score_of e < 2 ^ 31 - threshold)%Z.
Definition total (es : list Penalized) : Z := foldr Z.add 0%Z (score_of <$> es).

(** Each is later than the one before by more than the safe interval. *)
Fixpoint spaced (last : option Z) (es : list Penalized) : Prop :=
  match es with
  | [] => True
  | (t, _, _) :: es' => match last with Some l => (l + penaltySafeInterval settings < t)%Z | None => True end /\ spaced (Some t) es'
  end.
Definition last_time (last : option Z) (es : list Penalized) : option Z := foldl (fun _ e => Some (e.1.1)) last es.

(** What the book says of the host: nothing, or a score and when it changed *)
Definition booked (d : Database) (score : Z) (last : option Z) : Prop :=
  penaltyBook d !! ip = match last with Some l => Some (score, l) | None => None end /\ (last = None -> score = 0%Z) /\ (0 <= score <= threshold)%Z.

Definition counts (t : Z) (p : PenaltyType) (last : option Z) : bool :=
  isPermanent p || match last with Some l => (l + penaltySafeInterval settings <? t)%Z | None => true end.

Lemma penalize_step d score last t a p : booked d score last -> of_host (t, a, p) ->
  exists d', receive t r (Penalize a p) d =
    (d', Success (if counts t p last && (threshold <? score + Network.penaltyScore p)%Z then [DisconnectFromAddress a] else [])) /\
    ((if counts t p last then (score + Network.penaltyScore p)%Z else score) <= threshold ->
     booked d' (if counts t p last then (score + Network.penaltyScore p)%Z else score) (if counts t p last then Some t else last) /\
     buckets d' = buckets d /\ blacklist d' = blacklist d)%Z.
Proof.
  intros (Hb & Hn & Hs) [Ha Hp]. cbn in Ha, Hp. cbn [PeerManager.receive]. unfold peerPenaltyScoreOverThreshold. unfold bind at 1 2, gets. cbn [id]. rewrite Ha, Hb.
  assert (forall n, (0 <= n < 2 ^ 31)%Z -> toInt n = n) as Hint by (intros n Hr; apply toInt_small; unfold MinInt, MaxInt; lia).
  unfold counts. destruct last as [l|].
  - rewrite (orb_comm (isPermanent p)). replace (0 <? t - l - penaltySafeInterval settings)%Z with (l + penaltySafeInterval settings <? t)%Z by lia.
    destruct (_ || _); cbn [andb].
    + rewrite Hint by lia. destruct (threshold <? _)%Z eqn:E; (eexists; split; [reflexivity|]); intros Hle; [lia|].
      unfold booked. split_and!; [cbn; by rewrite lookup_insert_eq|done|lia..|done|done].
    + rewrite (proj2 (Z.ltb_ge _ _)) by lia. eexists. split; [reflexivity|]. intros _. unfold booked. split_and!; [cbn; by rewrite lookup_insert_eq|done|lia..|done|done].
  - rewrite (Hn eq_refl), orb_true_r. cbn [andb]. rewrite Z.add_0_l. destruct (threshold <? _)%Z eqn:E; (eexists; split; [reflexivity|]); intros Hle; [lia|].
    unfold booked. split_and!; [cbn; by rewrite lookup_insert_eq|done|lia..|done|done].
Qed.

Lemma total_nonneg es : Forall of_host es -> (0 <= total es)%Z.
Proof. induction 1 as [|e es [_ He] _ IH]; cbn; [done|]. change (foldr Z.add 0%Z (score_of <$> es)) with (total es). lia. Qed.

Lemma penalize_run es : forall d score last, booked d score last -> Forall of_host es -> spaced last es -> (score + total es <= threshold)%Z ->
  let d' := run nKey same_array settings d (event <$> es) in
  booked d' (score + total es) (last_time last es) /\ buckets d' = buckets d /\ blacklist d' = blacklist d.
Proof.
  induction es as [|[[t a] p] es IH]; intros d score last Hd Hes Hsp Hle; [unfold total; cbn; by rewrite Z.add_0_r|].
  apply Forall_cons in Hes as [He Hes]. destruct Hsp as [Ht Hsp]. pose proof (total_nonneg es Hes) as Hpos.
  unfold total in Hle. cbn in Hle. change (foldr Z.add 0%Z (score_of <$> es)) with (total es) in Hle.
  destruct (penalize_step d score last t a p Hd He) as (d1 & E1 & H1).
  assert (counts t p last = true) as Hc by (unfold counts; destruct last; [rewrite (proj2 (Z.ltb_lt _ _)) by done|]; apply orb_true_r). rewrite Hc in H1.
  destruct H1 as (Hb1 & Hk1 & Hl1); [lia|]. cbn [fmap list_fmap run foldl event handle_event]. rewrite E1. cbn [fst].
  destruct (IH d1 _ _ Hb1 Hes Hsp) as (H2 & K2 & L2); [lia|]. unfold run in K2, L2, H2. rewrite K2, L2. split_and!; [|done..].
  unfold total. cbn [fmap list_fmap foldr score_of]. change (foldr Z.add 0%Z (score_of <$> es)) with (total es). by rewrite Z.add_assoc.
Qed.

(** Penalties of a host that is in no book yet, each more than the safe interval
    after the one before and together not over the threshold, are added up and
    have no other effect; and the next one disconnects the peer exactly when it
    is permanent or again more than the interval later, and takes the sum over
    the threshold. *)
Theorem penalties_add_up es d : penaltyBook d !! ip = None -> Forall of_host es -> spaced None es -> (total es <= threshold)%Z ->
  let d' := run nKey same_array settings d (event <$> es) in
  penaltyScore ip d' = total es /\ buckets d' = buckets d /\ blacklist d' = blacklist d /\
  forall t a p, of_host (t, a, p) ->
    snd (receive t r (Penalize a p) d') =
      Success (if counts t p (last_time None es) && (threshold <? total es + Network.penaltyScore p)%Z then [DisconnectFromAddress a] else []).
Proof.
  intros Hn Hes Hsp Hle d'. pose proof (total_nonneg es Hes) as Hpos.
  destruct (penalize_run es d 0 None) as (Hb & Hk & Hl); [by unfold booked; split_and!; [..|lia|lia]|done..|]. fold d' in Hb, Hk, Hl. rewrite Z.add_0_l in Hb.
  split_and!; [|done..|].
  - unfold penaltyScore. destruct Hb as (-> & H0 & _). destruct (last_time None es); [done|]. cbn. by rewrite H0.
  - intros t a p He. by destruct (penalize_step d' _ _ t a p Hb He) as (d1 & -> & _).
Qed.
End Penalties.

(** Spam and misbehaviour a minute apart *)
Lemma penalties_add_up_witness :
  let same (x y : bytes) := bool_decide (x = y) in let a := host 2 in let d := initial_database sample_settings in
  let es : list Penalized := [(0%Z, a, SpamPenalty); (60000%Z, a, MisbehaviorPenalty)] in
  let d' := run 7 same sample_settings d (event first_choices <$> es) in
  penaltyScore (getAddress a) d' = 35%Z /\ snd (receive 7 same sample_settings 60001 first_choices (Penalize a PermanentPenalty) d') = Success [DisconnectFromAddress a].
Proof.
  intros same a d es d'. destruct (penalties_add_up 7 same sample_settings first_choices (getAddress a) es d) as (H1 & _ & _ & H2).
  - done.
  - repeat constructor; cbn; lia.
  - cbn. lia.
  - cbn. lia.
  - split; [exact H1|]. apply (H2 60001%Z a PermanentPenalty). split; [done|cbn; lia].
Defined.
