(* ===== verification/PeerChoice.v ===== *)
(** * PeerChoice: which peer the manager gives to be connected to, and what it
    makes of peers that others tell of *)

From S2P Require Import Prelude External Network MessageSpecs NetAddress PeerBuckets PeerBucketsThms PeerDatabase PeerManager PeerManagerThms.

Section Choice.
Context (r : Choices) (Hr : choices_ok r).

Lemma nth_ok {A} (l : list A) (n : Z) : (0 <= n < zlen l)%Z -> is_Some (l !! Z.to_nat n).
Proof. intros H. apply lookup_lt_is_Some. unfold zlen in H. lia. Qed.

Lemma pick_ok l n : (0 < n <= zlen l)%Z -> exists p, pick r l n = Success (Some (peerInfo p)) /\ p ∈ take (Z.to_nat n) l.
Proof using Hr.
  intros Hn. pose proof (nextInt_ok r Hr n ltac:(lia)) as Hi. unfold pick.
  destruct (nth_ok l (nextInt r n)) as [p Hp]; [lia|]. rewrite Hp. exists p. split; [done|].
  apply list_elem_of_lookup. exists (Z.to_nat (nextInt r n)). rewrite lookup_take_lt by lia. done.
Qed.

Lemma elem_of_group c l p : p ∈ group c l <-> confidence p = c /\ p ∈ l.
Proof. unfold group. by rewrite list_elem_of_filter. Qed.
Lemma elem_of_groups c l : c ∈ groups r l <-> exists p, p ∈ l /\ confidence p = c.
Proof using Hr.
  unfold groups. rewrite (group_ok r Hr), elem_of_remove_dups, list_elem_of_fmap. split; intros (p & ? & ?); exists p; naive_solver.
Qed.
Lemma elem_of_flat l p : p ∈ flat_map (fun c => group c l) (groups r l) <-> p ∈ l.
Proof using Hr.
  rewrite list_elem_of_In, in_flat_map. split.
  - intros (c & _ & Hp). by apply list_elem_of_In, elem_of_group in Hp as [_ ?].
  - intros Hp. exists (confidence p). rewrite <- !list_elem_of_In. split; [apply elem_of_groups; by exists p|by apply elem_of_group].
Qed.
(** No group is empty, so there are no more groups than peers. *)
Lemma groups_length l ks : (forall c, c ∈ ks -> group c l <> []) -> (zlen ks <= zlen (flat_map (fun c => group c l) ks))%Z.
Proof.
  unfold zlen. induction ks as [|c ks IH]; intros H; [done|]. cbn [flat_map length]. rewrite length_app.
  specialize (IH (fun c' Hc => H c' ltac:(by right))). destruct (group c l) eqn:E; [by destruct (H c ltac:(left))|]. cbn [length]. lia.
Qed.

Definition candidate (excluded : list (option InetSocketAddress)) (banned : list InetAddress) (peers : gmap InetSocketAddress PeerDatabaseValue) (p : PeerDatabaseValue) : Prop :=
  (exists a, peers !! a = Some p) /\ MessageSpecs.address (peerSpec (peerInfo p)) ∉ excluded /\ getAddress (db_address p) ∉ banned.

Lemma candidates_spec excluded banned peers p :
  p ∈ filter (fun p => goodCandidateFilter excluded banned p = false) (values_of r peers) <-> candidate excluded banned peers p.
Proof using Hr.
  rewrite list_elem_of_filter, (values_ok r Hr), list_elem_of_fmap. unfold goodCandidateFilter, candidate.
  rewrite orb_false_iff, !bool_decide_eq_false. split.
  - intros [[H1 H2] ([a q] & -> & Hq)]. apply elem_of_map_to_list in Hq. split_and!; [by exists a|done|done].
  - intros ([a Ha] & H1 & H2). split; [done|]. exists (a, p). split; [done|by apply elem_of_map_to_list].
Qed.

(** Who is chosen: a forger before a configured peer before others *)
Definition preferred (onlyKnown : bool) (cand : PeerDatabaseValue -> Prop) (p : PeerDatabaseValue) : Prop :=
  cand p /\
  if onlyKnown then confidence p = High
  else confidence p = Forger \/ (forall q, cand q -> confidence q <> Forger) /\ (confidence p = High \/ forall q, cand q -> confidence q <> High).

Lemma preferred_iff (onlyKnown : bool) (P Q : PeerDatabaseValue -> Prop) p : (forall q, P q <-> Q q) -> preferred onlyKnown P p -> preferred onlyKnown Q p.
Proof using. intros H [Hp Hk]. split; [by apply H|]. destruct onlyKnown; [done|]. destruct Hk as [?|[Hf [?|Hh]]]; [by left|right; split; [|by left]..|right; split; [|right]]; intros q Hq; first [by apply Hf, H|by apply Hh, H]. Qed.

Lemma choose_random_spec excluded onlyKnown peers banned : exists o, choose_random r excluded onlyKnown peers banned = Success o /\
  match o with
  | Some i => exists p, peerInfo p = i /\ preferred onlyKnown (candidate excluded banned peers) p
  | None => forall p, candidate excluded banned peers p -> onlyKnown = true /\ confidence p <> High
  end.
Proof using Hr.
  unfold choose_random. pose proof (candidates_spec excluded banned peers) as Hc. set (cs := filter _ _) in *.
  assert (forall c, group c cs = [] -> forall q, candidate excluded banned peers q -> confidence q <> c) as Hnone.
  { intros c E q Hq Ec. assert (q ∈ group c cs) as Hin by (apply elem_of_group; split; [done|by apply Hc]). rewrite E in Hin. by apply elem_of_nil in Hin. }
  assert (forall c x l, group c cs = x :: l -> exists p, pick r (x :: l) (zlen (x :: l)) = Success (Some (peerInfo p)) /\ confidence p = c /\ candidate excluded banned peers p) as Hpick.
  { intros c x l E. destruct (pick_ok (x :: l) (zlen (x :: l))) as (p & Ep & Hin); [unfold zlen; cbn [length]; lia|]. exists p. split; [done|].
    unfold zlen in Hin. rewrite Nat2Z.id, firstn_all in Hin. rewrite <- E in Hin. apply elem_of_group in Hin as [? ?]. split; [done|by apply Hc]. }
  destruct onlyKnown.
  - destruct (group High cs) as [|x l] eqn:E.
    + exists None. split; [done|]. intros p Hp. split; [done|by apply (Hnone High)].
    + destruct (Hpick High x l E) as (p & Ep & Hp & Hcand). exists (Some (peerInfo p)). split; [done|]. by exists p.
  - destruct (group Forger cs) as [|x l] eqn:E.
    2: { destruct (Hpick Forger x l E) as (p & Ep & Hp & Hcand). exists (Some (peerInfo p)). split; [done|]. exists p. split; [done|]. split; [done|by left]. }
    destruct (group High cs) as [|x l] eqn:E'.
    2: { destruct (Hpick High x l E') as (p & Ep & Hp & Hcand). exists (Some (peerInfo p)). split; [done|]. exists p. split; [done|]. split; [done|right].
         split; [by apply (Hnone Forger)|by left]. }
    destruct cs as [|x l] eqn:Ecs.
    + exists None. split; [done|]. intros p Hp%Hc. by apply elem_of_nil in Hp.
    + rewrite <- Ecs in *. destruct (pick_ok (flat_map (fun c => group c cs) (groups r cs)) (zlen (groups r cs))) as (p & Ep & Hin).
      * split; [|apply groups_length; intros c (q & Hq & Hqc)%elem_of_groups E0; by apply (Hnone c E0 q); [apply Hc|]].
        assert (confidence x ∈ groups r cs) as Hx by (apply elem_of_groups; exists x; split; [rewrite Ecs; left|done]).
        destruct (groups r cs); [by apply elem_of_nil in Hx|unfold zlen; cbn [length]; lia].
      * exists (Some (peerInfo p)). split; [done|]. exists p. split; [done|]. apply elem_of_take in Hin as (i & Hi & _).
        assert (p ∈ cs) as Hp by (apply elem_of_flat; by eapply list_elem_of_lookup_2). split; [by apply Hc|].
        right. split; [by apply (Hnone Forger)|right; by apply (Hnone High)].
Qed.

(** Peers of one confidence are one group. *)
Lemma same_group c l : Forall (fun p => confidence p = c) l -> group c l = l.
Proof using. unfold group. induction 1 as [|p l Hp Hl IH]; [done|]. by rewrite filter_cons_True, IH. Qed.
Lemma other_group c c' l : c <> c' -> Forall (fun p => confidence p = c) l -> group c' l = [].
Proof using. intros Hc. unfold group. induction 1 as [|p l Hp Hl IH]; [done|]. rewrite filter_cons_False; [done|congruence]. Qed.
Lemma one_group c l : Forall (fun p => confidence p = c) l -> l <> [] -> groups r l = [c].
Proof using Hr.
  intros Hl Hne. pose proof (group_ok r Hr (remove_dups (confidence <$> l))) as H. fold (groups r l) in H.
  assert (remove_dups (confidence <$> l) = [c]) as E; [|rewrite E in H; by apply Permutation_singleton_r in H].
  clear H. destruct l as [|p l]; [done|]. clear Hne. revert p Hl. induction l as [|q l IH]; intros p Hl; apply Forall_cons in Hl as [Hp Hl].
  - cbn. by rewrite Hp.
  - specialize (IH q Hl). apply Forall_cons in Hl as [Hq _]. rewrite fmap_cons. change (remove_dups (confidence p :: ?x)) with (if decide_rel elem_of (confidence p) x then remove_dups x else confidence p :: remove_dups x).
    destruct (decide_rel _ _ _) as [_|Hn]; [done|]. destruct Hn. rewrite Hp. cbn. rewrite Hq. left.
Qed.
End Choice.

(** ** What is answered *)

Section Answers.
Context `{HF : CryptographicHash} (nKey : Z) (same_array : bytes -> bytes -> bool) (settings : PeerSettings).
Abbreviation receive := (receive nKey same_array settings).

(** A peer to connect to: a stored or configured one, whose address is not
    excluded, and whose host is not banned *)
Definition connectable (now : Z) (r : Choices) (excluded : list (option InetSocketAddress)) (d : Database) (p : PeerDatabaseValue) : Prop :=
  (exists a, randomPeersSubset (nextBoolean r) d !! a = Some p) /\ MessageSpecs.address (peerSpec (peerInfo p)) ∉ excluded /\
  forall till, blacklist d !! getAddress (db_address p) = Some till -> (till <= now)%Z.

Definition banned_now (now : Z) (d : Database) : list InetAddress := fst <$> filter (fun e => now < e.2)%Z (map_to_list (blacklist d)).

Lemma banned_now_spec now d ip : ip ∉ banned_now now d <-> forall till, blacklist d !! ip = Some till -> (till <= now)%Z.
Proof.
  unfold banned_now. rewrite list_elem_of_fmap. setoid_rewrite list_elem_of_filter. split.
  - intros H till E. destruct (decide (till <= now)%Z); [done|]. destruct H. exists (ip, till). split; [done|]. split; [cbn; lia|by apply elem_of_map_to_list].
  - intros H ([ip' till] & -> & Hlt & E%elem_of_map_to_list). specialize (H till E). cbn in Hlt. lia.
Qed.

Lemma candidate_connectable now r excluded d p :
  candidate excluded (banned_now now d) (randomPeersSubset (nextBoolean r) d) p <-> connectable now r excluded d p.
Proof. unfold candidate, connectable. by rewrite banned_now_spec. Qed.

Lemma receive_random now r excluded only d :
  receive now r (Get (RandomPeerForConnectionExcluding excluded only)) d =
    (set_blacklist (filter (fun e => now < e.2)%Z (blacklist d)) d,
     try_bind (choose_random r excluded only (randomPeersSubset (nextBoolean r) d) (banned_now now d)) (fun o => Success [RandomAnswer o])).
Proof. cbn [PeerManager.receive]. unfold bind, gets, blacklistedPeers, bind, gets, modify, lift_try. cbn [id ret]. fold (banned_now now d). by destruct (choose_random _ _ _ _ _). Qed.

(** Asked for a peer to connect to, the manager always answers, whatever the
    random numbers: with a peer it knows, that is not excluded and not banned,
    a forger if there is one, else a configured peer if there is one; with none
    only if there is none, or none of the wanted kind; and nothing changes but
    that the bans that are over are taken off the list. *)
Theorem chosen_peer now r excluded onlyKnown d : choices_ok r ->
  exists o, receive now r (Get (RandomPeerForConnectionExcluding excluded onlyKnown)) d =
    (set_blacklist (filter (fun e => now < e.2)%Z (blacklist d)) d, Success [RandomAnswer o]) /\
  match o with
  | Some i => exists p, peerInfo p = i /\ preferred onlyKnown (connectable now r excluded d) p
  | None => forall p, connectable now r excluded d p -> onlyKnown = true /\ confidence p <> High
  end.
Proof.
  intros Hr. destruct (choose_random_spec r Hr excluded onlyKnown (randomPeersSubset (nextBoolean r) d) (banned_now now d)) as (o & E & H).
  exists o. rewrite receive_random, E. split; [done|]. destruct o as [i|].
  - destruct H as (p & Ep & Hp). exists p. split; [done|]. eapply preferred_iff; [apply candidate_connectable|done].
  - intros p Hp. by apply H, candidate_connectable.
Qed.

(** When the peers that could be connected to are all of one confidence, other
    than a forger's or a configured peer's, the answer is always the first in the
    order of the map: the index is drawn below the number of groups, which is
    one, not below the number of peers. *)
Theorem later_peers_never_chosen now r excluded d c : choices_ok r -> c <> High -> c <> Forger ->
  let cs := filter (fun p => goodCandidateFilter excluded (banned_now now d) p = false) (values_of r (randomPeersSubset (nextBoolean r) d)) in
  Forall (fun p => confidence p = c) cs ->
  snd (receive now r (Get (RandomPeerForConnectionExcluding excluded false)) d) = Success [RandomAnswer (peerInfo <$> head cs)].
Proof.
  intros Hr HcH HcF cs Hcs. rewrite receive_random. cbn [snd]. unfold choose_random. fold cs.
  rewrite !(other_group c) by done. destruct cs as [|p l] eqn:E; [done|]. rewrite <- E in *.
  rewrite (one_group r Hr c) by (done || by rewrite E). unfold pick. change (zlen [c]) with 1%Z. pose proof (nextInt_ok r Hr 1 eq_refl) as H1.
  cbn [flat_map]. rewrite app_nil_r, same_group by done. assert (nextInt r 1 = 0)%Z as -> by lia. rewrite E. done.
Qed.
End Answers.

Lemma chosen_peer_witness :
  let d := initial_database sample_settings in let same (x y : bytes) := bool_decide (x = y) in
  exists p, snd (receive 7 same sample_settings 0 first_choices (Get (RandomPeerForConnectionExcluding [] false)) d) = Success [RandomAnswer (Some (peerInfo p))] /\
    confidence p = High.
Proof.
  intros d same. destruct (chosen_peer 7 same sample_settings 0 first_choices [] false d first_choices_ok) as (o & E & H).
  set (c := DbValue (host 1) (fromAddress (host 1)) High).
  assert (connectable 0 first_choices [] d c) as Hc.
  { split_and!; [exists (host 1); vm_compute; reflexivity|apply not_elem_of_nil|intros t Ht; destruct (lookup_empty_Some _ _ Ht)]. }
  destruct o as [i|]; [|by destruct (H c Hc)]. destruct H as (p & <- & Hp & Hk). exists p. split; [by rewrite E|].
  destruct Hk as [Hf|[_ [Hh|Hh]]]; [|done|by destruct (Hh c Hc)].
  destruct Hp as ([a Ha] & _). exfalso. change (randomPeersSubset _ d) with ({[ host 1 := c ]} : gmap InetSocketAddress PeerDatabaseValue) in Ha.
  apply lookup_singleton_Some in Ha as [_ <-]. discriminate Hf.
Defined.

(** Two new peers: the one that comes second is never answered *)
Lemma later_peers_never_chosen_witness :
  let p := peerDatabaseValue (peer_at 1 9084) in let q := peerDatabaseValue (peer_at 2 9084) in let same (x y : bytes) := bool_decide (x = y) in
  let d := fst (addOrUpdateKnownPeers 7 same 0 [p; q] (Db (Bk empty_storage empty_storage) ∅ ∅ ∅)) in
  length (values_of first_choices (randomPeersSubset true d)) = 2 /\
  exists i, snd (receive 7 same sample_settings 0 first_choices (Get (RandomPeerForConnectionExcluding [] false)) d) = Success [RandomAnswer (Some i)].
Proof.
  intros p q same d. split; [vm_compute; reflexivity|]. eexists.
  etransitivity; [apply (later_peers_never_chosen 7 same sample_settings 0 first_choices [] d Unknown first_choices_ok); [done|done|]|vm_compute; reflexivity].
  assert (filter (fun p => goodCandidateFilter [] (banned_now 0 d) p = false) (values_of first_choices (randomPeersSubset (nextBoolean first_choices) d)) = [p; q] \/
          filter (fun p => goodCandidateFilter [] (banned_now 0 d) p = false) (values_of first_choices (randomPeersSubset (nextBoolean first_choices) d)) = [q; p]) as [-> | ->]
    by (vm_compute; first [left; reflexivity|right; reflexivity]); by repeat constructor.
Defined.

(** ** Peers that others tell of

    AddPeersIfEmpty of the peer manager, against the maps of new and tried
    peers the buckets hold. *)


Section Discovery.
Context `{HF : CryptographicHash} (nKey : Z) (same_array : bytes -> bytes -> bool) (settings : PeerSettings) (now : Z).
Let slotN := getPeerIndexes newBucketConfig nKey true.
Let holding (d : Database) (new tried : gmap InetSocketAddress PeerBucketValue) := has newBucketConfig triedBucketConfig nKey (buckets d) new tried.

(** ** Who is banned, and what asking changes *)

Definition banned (ip : InetAddress) (d : Database) : bool :=
  match blacklist d !! ip with Some till => (now <? till)%Z | None => false end.

(** The databases differ in bans that are over. *)
Record same_bans (d d' : Database) : Prop := {
  same_buckets : buckets d' = buckets d;
  same_known : knownPeers d' = knownPeers d;
  same_banned ip : banned ip d' = banned ip d
}.

#[export] Instance same_bans_preorder : PreOrder same_bans.
Proof using. split; [by split|]. intros d1 d2 d3 [B1 K1 S1] [B2 K2 S2]. split; [congruence..|]. intros ip. by rewrite S2. Qed.

Lemma isBlacklisted_spec a d : exists d', isBlacklisted now a d = (d', Success (banned a d)) /\ same_bans d d'.
Proof using.
  unfold isBlacklisted, banned, bind, gets. cbn [id]. destruct (blacklist d !! a) as [till|] eqn:E; [|by exists d].
  unfold checkBanned. destruct (now <? till)%Z eqn:Et; [by exists d|]. eexists. split; [done|]. split; [done..|]. intros ip. unfold banned. cbn.
  destruct (decide (ip = a)) as [->|Hne]; [by rewrite lookup_delete_eq, E|by rewrite lookup_delete_ne].
Qed.

Lemma filterNotBlacklisted_spec l d : exists d', filterNotBlacklisted now l d = (d', Success (filter (fun v => banned (getAddress (db_address v)) d = false) l)) /\ same_bans d d'.
Proof using.
  revert d. induction l as [|v l IH]; intros d; [by exists d|]. cbn [filterNotBlacklisted].
  destruct (isBlacklisted_spec (getAddress (db_address v)) d) as (d1 & E1 & S1). unfold bind. rewrite E1.
  destruct (IH d1) as (d2 & E2 & S2). rewrite E2. exists d2. split; [|by etransitivity]. cbn [ret]. do 2 f_equal.
  assert (filter (fun w => banned (getAddress (db_address w)) d1 = false) l = filter (fun w => banned (getAddress (db_address w)) d = false) l) as ->.
  { apply list_filter_iff. intros w. by rewrite (same_banned _ _ S1). }
  rewrite filter_cons. destruct (banned _ d) eqn:Eb; by case_decide.
Qed.

(** ** The peers that are not known yet *)

(** What collect makes of a peer the message tells of *)
Definition discovered (d : Database) (new tried : gmap InetSocketAddress PeerBucketValue) (p : PeerSpec) : option PeerDatabaseValue :=
  match MessageSpecs.address p with
  | Some a =>
      if bool_decide (knownPeers d !! a = None /\ new !! a = None /\ tried !! a = None) && negb (isSelf settings p)
      then Some (DbValue a (Info p 0 None) (confidence_of p)) else None
  | None => None
  end.

Lemma get_spec d new tried a : holding d new tried ->
  get a d = Success (match knownPeers d !! a with Some v => Some v | None => peerDatabaseValue <$> match tried !! a with Some p => Some p | None => new !! a end end).
Proof using. intros H. unfold get. destruct (_ !! a); [done|]. rewrite (getPeer_spec _ _ _ _ _ _ _ H). by destruct (tried !! a). Qed.

Lemma collect_spec l d new tried : holding d new tried -> collect_peers settings l d = (d, Success (omap (discovered d new tried) l)).
Proof using.
  intros H. induction l as [|p l IH]; [done|]. cbn [collect_peers omap list_omap]. unfold shouldAddPeer, discovered.
  unfold bind at 1. destruct (MessageSpecs.address p) as [a|]; cbn [ret].
  2: { unfold bind at 1. by rewrite IH. }
  unfold bind at 1, gets. cbn [id]. unfold bind at 1, lift_try. rewrite (get_spec _ _ _ _ H). cbn [ret]. unfold bind at 1. rewrite IH. cbn [ret].
  destruct (knownPeers d !! a) as [v|], (tried !! a) as [q|], (new !! a) as [q'|]; cbn [fmap option_fmap option_map];
    repeat case_bool_decide; try naive_solver; by destruct (isSelf settings p).
Qed.

(** ** Adding them *)

(** Addresses none of which shares its slot with another, and the new peers among them *)
Context (S : list InetSocketAddress) (HS : apart newBucketConfig nKey true S).

(** The new peers before and after some are added: what was there stays, what
    comes is of the list, and all of the list are there. *)
Record extends (l : list PeerDatabaseValue) (new new' : gmap InetSocketAddress PeerBucketValue) : Prop := {
  ext_keeps a q : new !! a = Some q -> new' !! a = Some q;
  ext_from a q : new' !! a = Some q -> new !! a = Some q \/ exists v, v ∈ l /\ q = NewPeerBucketValue v /\ a = db_address v;
  ext_all v : v ∈ l -> is_Some (new' !! db_address v)
}.

(** A peer that can be added: not banned, not configured, not tried *)
Record addable (d : Database) (tried : gmap InetSocketAddress PeerBucketValue) (v : PeerDatabaseValue) : Prop := {
  add_apart : db_address v ∈ S;
  add_unbanned : banned (getAddress (db_address v)) d = false;
  add_unknown : knownPeers d !! db_address v = None;
  add_untried : tried !! db_address v = None
}.

Lemma addable_same d d' tried v : knownPeers d' = knownPeers d -> (forall ip, banned ip d' = banned ip d) -> addable d tried v -> addable d' tried v.
Proof using. intros Hk Hb [A U N T]. split; [done|by rewrite Hb|by rewrite Hk|done]. Qed.

Lemma add_spec v d m tried : holding d m tried -> (forall a q, m !! a = Some q -> a ∈ S) -> addable d tried v ->
  exists d' m', addOrUpdateKnownPeer nKey same_array now v d = (d', Success tt) /\ holding d' m' tried /\
    knownPeers d' = knownPeers d /\ (forall ip, banned ip d' = banned ip d) /\
    (m' = m /\ is_Some (m !! db_address v) \/ m' = <[db_address v := NewPeerBucketValue v]> m).
Proof using HS.
  intros H Hdom [A U N T]. destruct (isBlacklisted_spec (getAddress (db_address v)) d) as (d1 & E1 & [B1 K1 S1]). rewrite U in E1.
  unfold addOrUpdateKnownPeer, peerIsNotBlacklistedAndNotKnownPeer. unfold bind at 1 2. rewrite E1. unfold gets. rewrite K1, N, bool_decide_false by (by intros []). cbn [negb].
  unfold on_buckets. rewrite B1.
  destruct (addOrUpdate_spec newBucketConfig triedBucketConfig nKey same_array now (buckets d) m tried v H) as (b' & -> & Hb).
  { destruct HS as [Hinj Hnf]. split; [by apply Hnf|]. intros b q Hq. apply Hinj; [by eapply Hdom|done]. }
  exists (set_buckets b' d1). rewrite T in Hb. destruct (m !! db_address v) as [o|] eqn:Eo.
  - eexists. split; [done|]. split; [exact Hb|]. split; [done|]. split; [exact S1|]. cbn [updated]. destruct (hasBeenUpdated _ _ _); [by right|left; split; [done|by eexists]].
  - eexists. split; [done|]. split; [exact Hb|]. split; [done|]. split; [exact S1|by right].
Qed.

Lemma extends_step new m m' l v : extends l new m -> new !! db_address v = None ->
  m' = m /\ is_Some (m !! db_address v) \/ m' = <[db_address v := NewPeerBucketValue v]> m -> extends (l ++ [v]) new m'.
Proof using.
  intros [K F A] Hv Hm. split.
  - intros a q E. destruct Hm as [[-> _]| ->]; [by apply K|]. rewrite lookup_insert_ne by congruence. by apply K.
  - setoid_rewrite elem_of_app. intros a q E. assert (m !! a = Some q \/ q = NewPeerBucketValue v /\ a = db_address v) as [Em|[-> ->]].
    { destruct Hm as [[-> _]| ->]; [by left|]. apply lookup_insert_Some in E as [[<- <-]|[_ E]]; auto. }
    + destruct (F a q Em) as [|(w & Hw & Hq)]; [by left|]. right. exists w. auto.
    + right. exists v. split; [right; left|done].
  - intros w Hw. destruct Hm as [[-> Hs]| ->].
    + apply elem_of_app in Hw as [Hw| ->%list_elem_of_singleton]; [by apply A|done].
    + destruct (decide (db_address w = db_address v)) as [->|Hne]; [by rewrite lookup_insert_eq|]. rewrite lookup_insert_ne by done.
      apply elem_of_app in Hw as [Hw| ->%list_elem_of_singleton]; [by apply A|done].
Qed.

Lemma foreach_spec new tried (Hnew : forall a q, new !! a = Some q -> a ∈ S) l : forall d m l0, holding d m tried -> extends l0 new m ->
  (forall v, v ∈ l0 -> db_address v ∈ S) -> Forall (addable d tried) l -> (forall v, v ∈ l -> new !! db_address v = None) ->
  exists d' m', foreach_peer (addOrUpdateKnownPeer nKey same_array now) l d = (d', Success tt) /\ holding d' m' tried /\
    knownPeers d' = knownPeers d /\ (forall ip, banned ip d' = banned ip d) /\ extends (l0 ++ l) new m'.
Proof using HS.
  induction l as [|v l IH]; intros d m l0 H Hext Hl0 Hadd Hfresh.
  { exists d, m. rewrite app_nil_r. by split_and!. }
  apply Forall_cons in Hadd as [Hv Hl]. cbn [foreach_peer]. unfold bind.
  destruct (add_spec v d m tried H) as (d1 & m1 & -> & H1 & K1 & S1 & Hm1); [|done|].
  { intros a q E. destruct (ext_from _ _ _ Hext a q E) as [|(w & Hw & _ & ->)]; [by eapply Hnew|by apply Hl0]. }
  destruct (IH d1 m1 (l0 ++ [v])) as (d2 & m2 & E2 & H2 & K2 & S2 & X2).
  - done.
  - eapply extends_step; [exact Hext| |exact Hm1]. apply Hfresh. left.
  - intros w [Hw| ->%list_elem_of_singleton]%elem_of_app; [by apply Hl0|apply Hv].
  - eapply Forall_impl; [exact Hl|]. intros w. by apply addable_same.
  - intros w Hw. apply Hfresh. by right.
  - exists d2, m2. rewrite E2, <- app_assoc in *. cbn in X2. split_and!; [done|done|congruence|intros ip; by rewrite S2|done].
Qed.

(** When no two of the addresses involved share a slot, peers that others tell
    of leave all known peers as they are; those that are not known, not this node
    and not banned become new peers, of which nothing is known but what was told;
    nothing else is added. *)
Theorem discovered_peers_keep r d new tried specs : has newBucketConfig triedBucketConfig nKey (buckets d) new tried ->
  (forall a q, new !! a = Some q -> a ∈ S) -> (forall p a, p ∈ specs -> MessageSpecs.address p = Some a -> a ∈ S) ->
  let fresh p v := discovered d new tried p = Some v /\ banned (getAddress (db_address v)) d = false in
  exists d' new', receive nKey same_array settings now r (AddPeersIfEmpty specs) d = (d', Success []) /\
    has newBucketConfig triedBucketConfig nKey (buckets d') new' tried /\ knownPeers d' = knownPeers d /\
    (forall a v, get a d = Success (Some v) -> get a d' = Success (Some v)) /\
    (forall a v, get a d = Success None -> get a d' = Success (Some v) -> exists p, p ∈ specs /\ fresh p v /\ db_address v = a) /\
    (forall p v, p ∈ specs -> fresh p v -> exists w, get (db_address v) d' = Success (Some w)).
Proof using HS.
  intros H Hnew Hspecs fresh. cbn [receive]. unfold bind at 1. rewrite (collect_spec specs d new tried H). unfold bind, addOrUpdateKnownPeers, bind.
  set (vs := omap _ specs). destruct (filterNotBlacklisted_spec vs d) as (d1 & -> & [B1 K1 S1]).
  set (ok := filter _ vs).
  assert (forall v, v ∈ ok <-> exists p, p ∈ specs /\ fresh p v) as Hok.
  { intros v. unfold ok, vs, fresh. rewrite list_elem_of_filter, list_elem_of_omap. naive_solver. }
  assert (forall p v, discovered d new tried p = Some v -> MessageSpecs.address p = Some (db_address v) /\
    knownPeers d !! db_address v = None /\ new !! db_address v = None /\ tried !! db_address v = None) as Hdisc.
  { intros p v. unfold discovered. destruct (MessageSpecs.address p); [|done]. case_bool_decide as Hn; [|done]. destruct (negb _); [|done]. by intros [= <-]. }
  destruct (foreach_spec new tried Hnew ok d1 new []) as (d2 & new' & -> & H2 & K2 & S2 & [XK XF XA]).
  - unfold holding; by rewrite B1.
  - split; [done|by left|by intros v ?%elem_of_nil].
  - by intros v ?%elem_of_nil.
  - apply Forall_forall. intros v (p & Hp & Hd & Hb)%Hok. destruct (Hdisc p v Hd) as (Ea & Ek & En & Et).
    split; [by eapply Hspecs|by rewrite S1|by rewrite K1|done].
  - intros v (p & Hp & Hd & Hb)%Hok. by apply (Hdisc p v Hd).
  - exists d2, new'. cbn [app ret] in *. assert (knownPeers d2 = knownPeers d) as Kd by congruence.
    split_and!; [done|done|done|..].
    + intros a v E. rewrite (get_spec d2 new' tried a H2), Kd. rewrite (get_spec d new tried a H) in E. destruct (knownPeers d !! a); [done|].
      destruct (tried !! a); [done|]. destruct (new !! a) as [q|] eqn:En; [|done]. by rewrite (XK a q En).
    + intros a v E. rewrite (get_spec d2 new' tried a H2), Kd. rewrite (get_spec d new tried a H) in E. destruct (knownPeers d !! a); [done|].
      destruct (tried !! a); [done|]. destruct (new' !! a) as [q|] eqn:En; [|done]. intros [= <-].
      destruct (XF a q En) as [E0|(w & (p & Hp & Hf)%Hok & -> & ->)]; [by rewrite E0 in E|]. by exists p.
    + intros p v Hp Hf. rewrite (get_spec d2 new' tried _ H2), Kd. destruct Hf as [Hd Hb]. destruct (Hdisc p v Hd) as (_ & -> & _ & ->).
      destruct (XA v) as [w ->]; [|by eexists]. apply Hok. by exists p.
Qed.
End Discovery.

(** ** When slots are shared *)

Section Eviction.
Context `{HF : CryptographicHash} (nKey : Z) (same_array : bytes -> bytes -> bool) (settings : PeerSettings) (now : Z).
Let slotN := getPeerIndexes newBucketConfig nKey true.

(** A peer that others tell of and whose slot a known one has takes its place,
    though it should not affect what is known: the known peer is no more among
    the peers, and the database gives the data of the other for it. *)
Theorem discovered_peer_evicts r d new tried p v b q : has newBucketConfig triedBucketConfig nKey (buckets d) new tried ->
  new !! b = Some q -> knownPeers d !! b = None -> tried !! b = None ->
  discovered settings d new tried p = Some v -> banned now (getAddress (db_address v)) d = false -> slotN (db_address v) = slotN b ->
  exists d', receive nKey same_array settings now r (AddPeersIfEmpty [p]) d = (d', Success []) /\
    get b d = Success (Some (peerDatabaseValue q)) /\ allPeers d' !! b = None /\ get b d' = Success (Some v) /\ db_address v <> b.
Proof.
  intros H Hb Hk Ht Hd Hban Hslot. assert (new !! db_address v = None /\ tried !! db_address v = None /\ knownPeers d !! db_address v = None) as (Hv & Hvt & Hvk).
  { unfold discovered in Hd. destruct (MessageSpecs.address p); [|done]. case_bool_decide as Hn; [|done]. destruct (negb _); [|done]. naive_solver. }
  assert (db_address v <> b) as Hne by congruence. pose proof H as [Hn Htr]. fold slotN in Hn.
  pose proof (holds_coherent _ _ _ _ _ Hn) as Hc.
  set (s' := add newBucketConfig nKey true now (NewPeerBucketValue v) (newBucket (buckets d))).
  destruct (coherent_write slotN (newBucket (buckets d)) (<[db_address v := slotN (db_address v)]> (reverseTable (newBucket (buckets d)))) (NewPeerBucketValue v) now Hc) as [Hc' Hcon].
  { intros c. case_decide as Ec; [by rewrite Ec, lookup_insert_eq|]. rewrite lookup_insert_ne; [done|]. intros E. apply Ec. by rewrite <- E. }
  change (coherent slotN s') in Hc'. change (peers_of s' = <[db_address v := NewPeerBucketValue v]> (off_slot slotN (db_address v) (peers_of (newBucket (buckets d))))) in Hcon.
  cbn [receive]. unfold bind at 1. rewrite (collect_spec nKey settings [p] d new tried H). cbn [omap list_omap]. rewrite Hd.
  unfold bind at 1, addOrUpdateKnownPeers, bind at 1. destruct (filterNotBlacklisted_spec now [v] d) as (d1 & -> & [B1 K1 S1]).
  rewrite filter_cons_True by done. change (filter _ []) with (@nil PeerDatabaseValue). cbn [foreach_peer]. unfold bind at 1.
  unfold addOrUpdateKnownPeer, peerIsNotBlacklistedAndNotKnownPeer, bind at 1 2. destruct (isBlacklisted_spec now (getAddress (db_address v)) d1) as (d2 & -> & [B2 K2 S2]).
  rewrite S1, Hban. unfold gets. rewrite K2, K1, Hvk, bool_decide_false by (by intros []). cbn [negb]. unfold on_buckets. rewrite B2, B1.
  unfold addOrUpdatePeerIntoBucket, bind at 1, gets. cbn [id]. rewrite (holds_contains _ _ _ _ _ Hn), (holds_contains _ _ _ _ _ Htr), Hv, Hvt, !bool_decide_false by (by intros []).
  eexists. split; [cbn; reflexivity|]. split; [|split; [|split; [|done]]].
  - by rewrite (get_spec _ _ _ _ _ H), Hk, Ht, Hb.
  - unfold allPeers, getNewPeers, getTriedPeers. cbn [buckets set_buckets newBucket triedBucket knownPeers]. fold s'.
    rewrite !lookup_union, K2, K1, Hk, (holds_getPeers _ _ _ _ _ Htr), getPeers_contents, Hcon, !lookup_fmap, Ht, lookup_insert_ne by done.
    assert (off_slot slotN (db_address v) (peers_of (newBucket (buckets d))) !! b = None) as ->; [|done].
    apply eq_None_not_Some. intros [x [_ Hx]%off_slot_lookup]. by apply Hx.
  - unfold get, getPeer. cbn [buckets set_buckets newBucket triedBucket knownPeers]. fold s'. rewrite K2, K1, Hk, (holds_get _ _ _ _ _ Htr), Ht. cbn [try_bind].
    unfold getStoredPeerByAddress, tryGetIndexesFromPeerAddress. change (reverseTable s') with (<[db_address v := slotN (db_address v)]> (reverseTable (newBucket (buckets d)))).
    rewrite lookup_insert_ne, (holds_reverse_lookup _ _ _ _ _ Hn), decide_True by (done || by eexists). fold slotN. cbn [default from_option id].
    rewrite bool_decide_false by (by eapply (holds_found _ _ _ _ _ Hn)). change (table s') with (<[slotN (db_address v) := (NewPeerBucketValue v, now)]> (table (newBucket (buckets d)))).
    by rewrite Hslot, lookup_insert_eq.
Qed.
End Eviction.

(** ** Concrete runs *)

Definition spec_at (last : Z) : PeerSpec := peerSpec (fromAddress (host last)).

(** A known peer, and two that others tell of, the known one among them *)
Lemma discovered_peers_keep_witness :
  let same (x y : bytes) := bool_decide (x = y) in let q := NewPeerBucketValue (DbValue (host 2) (Info (spec_at 2) 33 (Some Outgoing)) Unknown) in
  let d := set_buckets (Bk (add newBucketConfig 7 true 0 q empty_storage) empty_storage) (initial_database sample_settings) in
  let d' := fst (receive 7 same sample_settings 5 first_choices (AddPeersIfEmpty [spec_at 2; spec_at 3]) d) in
  get (host 2) d' = Success (Some (peerDatabaseValue q)) /\ exists w, get (host 3) d' = Success (Some w).
Proof.
  intros same q d d'.
  assert (apart newBucketConfig 7 true [host 2; host 3]) as Hap.
  { split.
    - intros a b. rewrite !elem_of_cons. intros [->|[->|[]%elem_of_nil]] [->|[->|[]%elem_of_nil]] E; first [reflexivity|exfalso; vm_compute in E; discriminate E].
    - intros a. rewrite !elem_of_cons. intros [->|[->|[]%elem_of_nil]]; by vm_compute. }
  assert (has newBucketConfig triedBucketConfig 7 (buckets d) {[ host 2 := q ]} ∅) as H.
  { split; [|apply holds_empty].
    pose proof (storage_run_holds newBucketConfig 7 true [host 2; host 3] [OpAdd 0 q] Hap) as Hh. apply Hh.
    intros op a ->%list_elem_of_singleton [= <-]. left. }
  destruct (discovered_peers_keep 7 same sample_settings 5 [host 2; host 3] Hap first_choices d _ _ [spec_at 2; spec_at 3] H) as (d1 & new' & E & _ & _ & Hk & _ & Ha).
  - intros a x [<- _]%lookup_singleton_Some. left.
  - intros p a. rewrite !elem_of_cons. intros [->|[->|[]%elem_of_nil]] [= <-]; [by left|by right; left].
  - assert (d' = d1) as -> by (unfold d'; rewrite E; reflexivity). split; [apply Hk; vm_compute; reflexivity|].
    apply (Ha (spec_at 3) (DbValue (host 3) (Info (spec_at 3) 0 None) Unknown)); [right; left|split; [|reflexivity]].
    unfold discovered. change (MessageSpecs.address (spec_at 3)) with (Some (host 3)). cbv beta iota. rewrite bool_decide_true; [reflexivity|]. split_and!; [|rewrite lookup_singleton_None; done|done]. vm_compute; reflexivity.
Defined.

(** A digest of zeros gives all addresses one slot. *)
#[local] Program Instance zeros_hash : CryptographicHash := {| hash _ := replicate 4 (z2b 0); DigestSize := 4 |}.
Next Obligation. done. Qed.

Lemma discovered_peer_evicts_witness :
  let same (x y : bytes) := bool_decide (x = y) in let q := NewPeerBucketValue (DbValue (host 2) (Info (spec_at 2) 33 (Some Outgoing)) Unknown) in
  let d := set_buckets (Bk (add (HF := zeros_hash) newBucketConfig 7 true 0 q empty_storage) empty_storage) (initial_database sample_settings) in
  exists d', receive (HF := zeros_hash) 7 same sample_settings 5 first_choices (AddPeersIfEmpty [spec_at 3]) d = (d', Success []) /\ allPeers d' !! host 2 = None.
Proof.
  intros same q d.
  assert (apart (HF := zeros_hash) newBucketConfig 7 true [host 2]) as Hap.
  { split; [by intros a b ->%list_elem_of_singleton ->%list_elem_of_singleton|intros a ->%list_elem_of_singleton; by vm_compute]. }
  assert (has (HF := zeros_hash) newBucketConfig triedBucketConfig 7 (buckets d) {[ host 2 := q ]} ∅) as H.
  { split; [|apply holds_empty]. apply (storage_run_holds (HF := zeros_hash) newBucketConfig 7 true [host 2] [OpAdd 0 q] Hap).
    intros op a ->%list_elem_of_singleton [= <-]. left. }
  destruct (discovered_peer_evicts (HF := zeros_hash) 7 same sample_settings 5 first_choices d _ _ (spec_at 3) (DbValue (host 3) (Info (spec_at 3) 0 None) Unknown) (host 2) q H) as (d' & E & _ & Hp & _).
  - apply lookup_singleton_Some. done.
  - vm_compute; reflexivity.
  - done.
  - unfold discovered. change (MessageSpecs.address (spec_at 3)) with (Some (host 3)). cbv beta iota. rewrite bool_decide_true; [reflexivity|]. split_and!; [|rewrite lookup_singleton_None; done|done]. vm_compute; reflexivity.
  - reflexivity.
  - vm_compute; reflexivity.
  - by exists d'.
Defined.
