(* ===== verification/PeerExchange.v ===== *)
(** * PeerExchange: asking other peers for peers

    core/network/RequestTracker.scala and PeerSynchronizer.scala.  The request
    tracker stands between the synchronizer and the network controller; a future
    that is not completed is an entry of [asks], a scheduled VerifyDelivery one of
    [timers].  The callback of the future is one event: that it runs on another
    thread than the actor, with the same mutable set, is not modelled.  Messages
    other than those the tracker tells apart are opaque. *)

From S2P Require Import Prelude External Network Vlq MessageSpecs NetAddress PeerBuckets PeerDatabase PeerManager PeerManagerThms PeerChoice.

(** ** RequestTracker *)

Section Tracker.
Context {Message Any : Type} (messageCode : Message -> Z).

Record TrackerSettings := { trackedRequestCode : Z; trackedResponseCode : Z; penalizeNonDelivery : bool }.
Context (cfg : TrackerSettings).

Record RequestTracker := Requests {
  handler : bool;                          (* whether one registered *)
  requestTracker : gset N;                 (* the peers asked, by their addresses *)
  asks : list Message;
  timers : list ConnectedPeer
}.
Definition new_tracker : RequestTracker := Requests false ∅ [] [].

Inductive TrackerIn :=
| RegisterMessageSpecs
| SendToNetwork (m : Message)
| PeersFound (i : nat) (peers : list ConnectedPeer)     (* the answer to the i-th question *)
| FromPeer (m : Message) (remote : ConnectedPeer)
| VerifyDelivery (i : nat)                              (* the i-th timer *)
| FromController (a : Any)
| FromElsewhere (a : Any).

Inductive TrackerOut :=
| Registered
| GetFilteredConnectedPeers (m : Message)
| SendToPeer (m : Message) (peer : ConnectedPeer)
| PenalizePeer (peer : ConnectedPeer) (p : PenaltyType)
| ToHandler (m : Message) (remote : ConnectedPeer)
| ForwardedToHandler (a : Any)
| ForwardedMessage (m : Message)
| ForwardedToController (a : Any).

Definition set_requests (r : gset N) (t : RequestTracker) : RequestTracker := Requests (handler t) r (asks t) (timers t).
Definition to_handler (t : RequestTracker) (o : TrackerOut) : list TrackerOut := if handler t then [o] else [].

(** sendTrackedRequest, receiveResponse, verifyDelivery, forward *)
Definition send_to (m : Message) (acc : RequestTracker * list TrackerOut) (peer : ConnectedPeer) : RequestTracker * list TrackerOut :=
  let '(t, os) := acc in
  (Requests (handler t) ({[ remoteAddress peer ]} ∪ requestTracker t) (asks t) (timers t ++ [peer]), os ++ [SendToPeer m peer]).

Definition receive (ev : TrackerIn) (t : RequestTracker) : RequestTracker * list TrackerOut :=
  match ev with
  | RegisterMessageSpecs => (Requests true (requestTracker t) (asks t) (timers t), [Registered])
  | SendToNetwork m =>
      if (messageCode m =? trackedRequestCode cfg)%Z
      then (Requests (handler t) (requestTracker t) (asks t ++ [m]) (timers t), [GetFilteredConnectedPeers m])
      else (t, [ForwardedMessage m])
  | PeersFound i peers =>
      match asks t !! i with
      | Some m => foldl (send_to m) (Requests (handler t) (requestTracker t) (delete i (asks t)) (timers t), []) peers
      | None => (t, [])
      end
  | FromPeer m remote =>
      if (messageCode m =? trackedResponseCode cfg)%Z then
        if bool_decide (remoteAddress remote ∈ requestTracker t)
        then (set_requests (requestTracker t ∖ {[ remoteAddress remote ]}) t, to_handler t (ToHandler m remote))
        else (t, [PenalizePeer remote SpamPenalty])
      else (t, to_handler t (ToHandler m remote))
  | VerifyDelivery i =>
      match timers t !! i with
      | Some remote =>
          let t' := Requests (handler t) (requestTracker t) (asks t) (delete i (timers t)) in
          if bool_decide (remoteAddress remote ∈ requestTracker t)
          then (set_requests (requestTracker t ∖ {[ remoteAddress remote ]}) t', if penalizeNonDelivery cfg then [PenalizePeer remote NonDeliveryPenalty] else [])
          else (t', [])
      | None => (t, [])
      end
  | FromController a => (t, to_handler t (ForwardedToHandler a))
  | FromElsewhere a => (t, [ForwardedToController a])
  end.

Definition tracker_run (evs : list TrackerIn) (t : RequestTracker) : RequestTracker * list TrackerOut :=
  foldl (fun acc ev => let '(t', os) := receive ev acc.1 in (t', acc.2 ++ os)) (t, []) evs.

(** ** What is counted *)

Definition is_request (a : N) (o : TrackerOut) : bool := match o with SendToPeer _ p => (remoteAddress p =? a)%N | _ => false end.
Definition is_answer (a : N) (o : TrackerOut) : bool :=
  match o with ToHandler m p => (messageCode m =? trackedResponseCode cfg)%Z && (remoteAddress p =? a)%N | _ => false end.
Definition is_overdue (a : N) (o : TrackerOut) : bool := match o with PenalizePeer p NonDeliveryPenalty => (remoteAddress p =? a)%N | _ => false end.
Definition count (f : TrackerOut -> bool) (os : list TrackerOut) : nat := length (filter (fun o => f o = true) os).

Lemma count_app f os os' : count f (os ++ os') = count f os + count f os'.
Proof. unfold count. by rewrite filter_app, length_app. Qed.
Lemma count_one f o : count f [o] = if f o then 1 else 0.
Proof. unfold count. rewrite filter_cons. destruct (f o) eqn:E; case_decide; congruence || done. Qed.
Lemma count_nil f : count f [] = 0.
Proof. done. Qed.

Definition outstanding (a : N) (t : RequestTracker) : nat := if bool_decide (a ∈ requestTracker t) then 1 else 0.
Definition settled (a : N) (os : list TrackerOut) : nat := count (is_answer a) os + count (is_overdue a) os.

(** A step hands over or punishes no more than was outstanding or is asked now. *)
Definition balanced (t : RequestTracker) (os : list TrackerOut) (t' : RequestTracker) : Prop :=
  forall a, settled a os + outstanding a t' <= count (is_request a) os + outstanding a t.

Lemma outstanding_le a t : outstanding a t <= 1.
Proof. unfold outstanding. case_bool_decide; lia. Qed.
Lemma balanced_trans t1 t2 t3 os os' : balanced t1 os t2 -> balanced t2 os' t3 -> balanced t1 (os ++ os') t3.
Proof. intros H1 H2 a. specialize (H1 a). specialize (H2 a). unfold settled in *. rewrite !count_app. lia. Qed.
Lemma balanced_quiet t os t' : requestTracker t' = requestTracker t -> (forall a o, o ∈ os -> is_answer a o = false /\ is_overdue a o = false) -> balanced t os t'.
Proof.
  intros Er Ho a. unfold settled, outstanding. rewrite Er. assert (forall f, (forall o, o ∈ os -> f o = false) -> count f os = 0) as H0.
  { intros f Hf. unfold count. destruct (filter (fun o => f o = true) os) as [|o l] eqn:E; [done|].
    assert (o ∈ filter (fun o => f o = true) os) as [Ht Hin]%list_elem_of_filter by (rewrite E; left). rewrite Hf in Ht; done. }
  rewrite (H0 (is_answer a)), (H0 (is_overdue a)) by (intros o Hin; by apply (Ho a o)). lia.
Qed.
(** One peer leaves the set, for one answer or penalty. *)
Lemma balanced_settled t p o t' : remoteAddress p ∈ requestTracker t -> requestTracker t' = requestTracker t ∖ {[ remoteAddress p ]} ->
  (forall a, is_request a o = false /\ (is_answer a o || is_overdue a o = true -> a = remoteAddress p) /\ is_answer a o && is_overdue a o = false) ->
  forall os, os = [o] \/ os = [] -> balanced t os t'.
Proof.
  intros Hin Er Ho os Hos a. destruct (Ho a) as (Hr & Ha & Hd). unfold settled, outstanding. rewrite Er.
  assert (count (is_answer a) os + count (is_overdue a) os <= if decide (a = remoteAddress p) then 1 else 0) as Hle.
  { destruct Hos as [->| ->]; [rewrite !count_one|rewrite !count_nil; case_decide; lia]. destruct (is_answer a o), (is_overdue a o); try done; case_decide; try lia; exfalso; auto. }
  case_decide as E.
  - subst a. rewrite bool_decide_false by set_solver. rewrite bool_decide_true by done. lia.
  - assert (bool_decide (a ∈ requestTracker t ∖ {[remoteAddress p]}) = bool_decide (a ∈ requestTracker t)) as -> by (apply bool_decide_ext; set_solver). lia.
Qed.

Lemma send_all_balanced m peers : forall t0 t os, balanced t0 os t -> let '(t', os') := foldl (send_to m) (t, os) peers in balanced t0 os' t'.
Proof.
  induction peers as [|p peers IH]; intros t0 t os H; [done|]. cbn [foldl send_to]. apply IH. eapply balanced_trans; [exact H|]. intros a.
  unfold settled. rewrite !count_one. cbn [is_answer is_overdue is_request]. unfold outstanding. cbn [requestTracker].
  destruct (N.eqb_spec (remoteAddress p) a) as [<-|Hne]; [repeat case_bool_decide; lia|].
  assert (bool_decide (a ∈ {[remoteAddress p]} ∪ requestTracker t) = bool_decide (a ∈ requestTracker t)) as -> by (apply bool_decide_ext; set_solver). lia.
Qed.

Lemma receive_balanced ev t : balanced t (snd (receive ev t)) (fst (receive ev t)).
Proof.
  assert (forall o, (forall a, is_answer a o = false /\ is_overdue a o = false) -> forall os, os = [o] \/ os = [] -> forall a o', o' ∈ os -> is_answer a o' = false /\ is_overdue a o' = false) as Hq.
  { intros o Ho os [->| ->] a o'; [by intros ->%list_elem_of_singleton|by intros ?%elem_of_nil]. }
  destruct ev as [|m|i peers|m remote|i|a|a]; cbn [receive].
  - apply balanced_quiet; [done|]. apply (Hq Registered); auto.
  - destruct (_ =? _)%Z; (apply balanced_quiet; [done|]); [apply (Hq (GetFilteredConnectedPeers m))|apply (Hq (ForwardedMessage m))]; auto.
  - destruct (asks t !! i) as [m|]; [|apply balanced_quiet; [done|]; intros ? ? ?%elem_of_nil; done].
    pose proof (send_all_balanced m peers t (Requests (handler t) (requestTracker t) (delete i (asks t)) (timers t)) []) as H.
    destruct (foldl _ _ peers) as [t' os']. apply H. by intros a.
  - destruct (messageCode m =? trackedResponseCode cfg)%Z eqn:Ec.
    + case_bool_decide as Hin; [|apply balanced_quiet; [done|]; apply (Hq (PenalizePeer remote SpamPenalty)); auto].
      eapply balanced_settled; [exact Hin|done| |unfold to_handler; destruct (handler t); auto].
      intros a. cbn. rewrite Ec, andb_true_l, orb_false_r, andb_false_r. split_and!; [done|by intros ?%N.eqb_eq|done].
    + apply balanced_quiet; [done|]. apply (Hq (ToHandler m remote)); [intros a; cbn; by rewrite Ec|unfold to_handler; destruct (handler t); auto].
  - destruct (timers t !! i) as [remote|]; [|apply balanced_quiet; [done|]; intros ? ? ?%elem_of_nil; done].
    case_bool_decide as Hin; [|apply balanced_quiet; [done|]; intros ? ? ?%elem_of_nil; done].
    eapply balanced_settled; [exact Hin|done| |destruct (penalizeNonDelivery cfg); auto].
    intros a. cbn. split_and!; [done|by intros ?%N.eqb_eq|done].
  - apply balanced_quiet; [done|]. apply (Hq (ForwardedToHandler a)); [auto|unfold to_handler; destruct (handler t); auto].
  - apply balanced_quiet; [done|]. apply (Hq (ForwardedToController a)); auto.
Qed.

(** C36: whatever happens, of each peer the synchronizer is handed no more answers,
    and the peer gets no more penalties for overdue ones, together and with what
    is outstanding, than requests were sent to it. *)
Theorem answers_asked_for evs : let '(t, os) := tracker_run evs new_tracker in
  forall a, count (is_answer a) os + count (is_overdue a) os + outstanding a t <= count (is_request a) os.
Proof.
  assert (forall evs t0 t os, balanced t0 os t ->
    let '(t', os') := foldl (fun acc ev => let '(t', os') := receive ev acc.1 in (t', acc.2 ++ os')) (t, os) evs in balanced t0 os' t') as Hrun.
  { intros evs'. induction evs' as [|ev evs' IH]; intros t0 t os H; [done|]. cbn [foldl fst snd]. pose proof (receive_balanced ev t) as Hr.
    destruct (receive ev t) as [t' os']. apply IH. by eapply balanced_trans. }
  specialize (Hrun evs new_tracker new_tracker []). unfold tracker_run. destruct (foldl _ _ evs) as [t os].
  intros a. specialize (Hrun ltac:(by intros ?) a). unfold settled in Hrun. assert (outstanding a new_tracker = 0) as E0 by done. lia.
Qed.

(** A peer that is asked again after it answered is punished twice although it
    answers both times: the timer of the first request takes the second for
    overdue, and the second answer then was not asked for. *)
Theorem stale_timer_punishes q ans p : messageCode q = trackedRequestCode cfg -> messageCode ans = trackedResponseCode cfg -> penalizeNonDelivery cfg = true ->
  snd (tracker_run [RegisterMessageSpecs; SendToNetwork q; PeersFound 0 [p]; FromPeer ans p; SendToNetwork q; PeersFound 0 [p]; VerifyDelivery 0; FromPeer ans p] new_tracker) =
  [Registered; GetFilteredConnectedPeers q; SendToPeer q p; ToHandler ans p; GetFilteredConnectedPeers q; SendToPeer q p;
   PenalizePeer p NonDeliveryPenalty; PenalizePeer p SpamPenalty].
Proof.
  intros Hq Ha Hp. unfold tracker_run. set (F := fun acc ev => _).
  assert (forall ev evs t os t' os', receive ev t = (t', os') -> foldl F (t, os) (ev :: evs) = foldl F (t', os ++ os') evs) as Hstep.
  { intros ev evs t os t' os' E. cbn [foldl]. unfold F at 2. cbn [fst snd]. by rewrite E. }
  assert (forall h r a ts, receive (SendToNetwork q) (Requests h r a ts) = (Requests h r (a ++ [q]) ts, [GetFilteredConnectedPeers q])) as Esend.
  { intros. cbn [receive asks]. by rewrite Hq, Z.eqb_refl. }
  assert (forall h r ts, receive (PeersFound 0 [p]) (Requests h r [q] ts) = (Requests h ({[ remoteAddress p ]} ∪ r) [] (ts ++ [p]), [SendToPeer q p])) as Efound by done.
  assert (forall r a ts, remoteAddress p ∈ r -> receive (FromPeer ans p) (Requests true r a ts) = (Requests true (r ∖ {[ remoteAddress p ]}) a ts, [ToHandler ans p])) as Eanswer.
  { intros r a ts Hin. cbn [receive requestTracker]. by rewrite Ha, Z.eqb_refl, bool_decide_true. }
  assert (forall r a ts, remoteAddress p ∉ r -> receive (FromPeer ans p) (Requests true r a ts) = (Requests true r a ts, [PenalizePeer p SpamPenalty])) as Espam.
  { intros r a ts Hin. cbn [receive requestTracker]. by rewrite Ha, Z.eqb_refl, bool_decide_false. }
  assert (forall r a ts, remoteAddress p ∈ r -> receive (VerifyDelivery 0) (Requests true r a (p :: ts)) = (Requests true (r ∖ {[ remoteAddress p ]}) a ts, [PenalizePeer p NonDeliveryPenalty])) as Etimer.
  { intros r a ts Hin. cbn [receive requestTracker timers lookup list_lookup]. by rewrite bool_decide_true, Hp. }
  rewrite (Hstep _ _ _ _ (Requests true ∅ [] []) [Registered]) by done.
  erewrite Hstep by apply Esend. erewrite Hstep by apply Efound. erewrite Hstep by (apply Eanswer; apply elem_of_union_l, elem_of_singleton_2; done).
  erewrite Hstep by apply Esend. erewrite Hstep by apply Efound. erewrite Hstep by (apply Etimer; apply elem_of_union_l, elem_of_singleton_2; done).
  erewrite Hstep by (apply Espam; intros [_ H]%elem_of_difference; by apply H, elem_of_singleton_2). done.
Qed.
End Tracker.

(** ** PeerSynchronizer *)

Section PeerSynchronizer.
Context (featureSerializers : list Z) (maxPeerSpecObjects : Z) (onlyConnectToKnownPeers : bool).

(** The codes of GetPeersSpec and PeersSpec, the two specs it registers *)
Definition GetPeersSpec_messageCode : Z := 1.
Definition PeersSpec_messageCode : Z := 2.

Inductive SyncOut :=
| RegisterSpecs (codes : list Z)
| ScheduleGetPeers                                  (* of SendToRandom, at a fixed delay *)
| ToPeerManager (m : PeerManager.Message)
| AskPeerManager (m : PeerManager.Message) (remote : ConnectedPeer)
| SendPeers (peers : list PeerSpec) (remote : ConnectedPeer)
| PenalizeMalicious (peer : ConnectedPeer) (p : PenaltyType).

Definition peers_preStart : list SyncOut :=
  RegisterSpecs [GetPeersSpec_messageCode; PeersSpec_messageCode] :: if onlyConnectToKnownPeers then [] else [ScheduleGetPeers].

(** addNewPeers, gossipPeers, and what is done with the answer of the manager *)
Definition addNewPeers (peers : list PeerSpec) : list SyncOut := [ToPeerManager (AddPeersIfEmpty peers)].
Definition gossipPeers (remote : ConnectedPeer) : list SyncOut := [AskPeerManager (Get (SeenPeers maxPeerSpecObjects)) remote].
Definition gossip_answer (remote : ConnectedPeer) (a : Answer) : list SyncOut :=
  match a with SeenAnswer infos => [SendPeers (peerSpec <$> infos) remote] | _ => [] end.      (* mapTo *)

(** parseAndHandle with msgHandlers *)
Definition peers_parseAndHandle (code : Z) (msgBytes : bytes) (source : ConnectedPeer) : list SyncOut :=
  if (code =? PeersSpec_messageCode)%Z then
    match run_reader (PeersSpec_parse featureSerializers maxPeerSpecObjects) msgBytes with
    | Success peers => addNewPeers peers
    | Failure _ => [PenalizeMalicious source PermanentPenalty]
    end
  else if (code =? GetPeersSpec_messageCode)%Z then
    match run_reader GetPeersSpec_parse msgBytes with
    | Success _ => gossipPeers source
    | Failure _ => [PenalizeMalicious source PermanentPenalty]
    end
  else [].

(** ** The three actors together *)

Context `{HF : CryptographicHash} (nKey : Z) (same_array : bytes -> bytes -> bool) (settings : PeerSettings) (nonDelivery : bool).
Definition tracker_settings : TrackerSettings := Build_TrackerSettings GetPeersSpec_messageCode PeersSpec_messageCode nonDelivery.

Definition manager_gets (now : Z) (r : Choices) (d : Database) (o : SyncOut) : Database :=
  match o with ToPeerManager m => fst (PeerManager.receive nKey same_array settings now r m d) | _ => d end.
Definition synchronizer_gets (now : Z) (r : Choices) (d : Database) (o : TrackerOut (Message := Z * bytes) (Any := unit)) : Database :=
  match o with ToHandler m remote => foldl (manager_gets now r) d (peers_parseAndHandle m.1 m.2 remote) | _ => d end.

(** A message from a peer goes to the tracker, from it to the synchronizer, and
    what this has for the manager to the manager. *)
Definition message_arrives (now : Z) (r : Choices) (m : Z * bytes) (remote : ConnectedPeer) (s : RequestTracker (Message := Z * bytes) * Database) :
    RequestTracker (Message := Z * bytes) * Database * list (TrackerOut (Message := Z * bytes) (Any := unit)) :=
  let '(t', os) := receive fst tracker_settings (FromPeer m remote) s.1 in (t', foldl (synchronizer_gets now r) s.2 os, os).

Lemma choose_seen_spec r howMany peers banned : choices_ok r ->
  let l := choose_seen r howMany peers banned in
  (length l <= Z.to_nat howMany) /\
  forall i, i ∈ l -> exists a p, peers !! a = Some p /\ peerInfo p = i /\ PeerManager.seen p = true /\ getAddress (db_address p) ∉ banned.
Proof using.
  intros Hr l. split; [unfold l, choose_seen; rewrite length_fmap, length_take; lia|]. intros i (p & -> & Hp)%list_elem_of_fmap.
  apply elem_of_take in Hp as (n & Hn & _). apply list_elem_of_lookup_2 in Hn. rewrite (shuffle_ok r Hr), !list_elem_of_filter, (values_ok r Hr), list_elem_of_fmap in Hn.
  destruct Hn as (Hs & Hb & [a q] & -> & Hq%elem_of_map_to_list). by exists a, q.
Qed.

(** C37: the three actors together.  Peers that come from a peer that was not asked
    reach neither synchronizer nor manager, and cost the sender a penalty; those of
    a peer that was asked are what the manager gets.  To a peer that asks go at most
    the configured number of peers, all of which the manager knows, was
    connected to or has configured, and none banned. *)
Theorem peers_exchanged now r m remote t d : choices_ok r -> m.1 = PeersSpec_messageCode ->
  (remoteAddress remote ∉ requestTracker t -> message_arrives now r m remote (t, d) = (t, d, [PenalizePeer remote SpamPenalty])) /\
  (remoteAddress remote ∈ requestTracker t -> handler t = true -> forall specs, run_reader (PeersSpec_parse featureSerializers maxPeerSpecObjects) m.2 = Success specs ->
     message_arrives now r m remote (t, d) =
       (set_requests (requestTracker t ∖ {[ remoteAddress remote ]}) t, fst (PeerManager.receive nKey same_array settings now r (AddPeersIfEmpty specs) d), [ToHandler m remote])) /\
  (forall q, gossipPeers remote = [AskPeerManager q remote] -> exists d' l, PeerManager.receive nKey same_array settings now r q d = (d', Success [SeenAnswer l]) /\
     gossip_answer remote (SeenAnswer l) = [SendPeers (peerSpec <$> l) remote] /\ (length l <= Z.to_nat maxPeerSpecObjects) /\
     forall i, i ∈ l -> exists a p, allPeers d !! a = Some p /\ peerInfo p = i /\ PeerManager.seen p = true /\
       forall till, blacklist d !! getAddress (db_address p) = Some till -> (till <= now)%Z).
Proof using.
  intros Hr Hm. unfold message_arrives. cbn [receive]. rewrite Hm. cbn [trackedResponseCode tracker_settings]. rewrite Z.eqb_refl. cbn [fst snd]. split_and!.
  - intros Hn. by rewrite bool_decide_false.
  - intros Hin Hh specs Hs. rewrite bool_decide_true by done. unfold to_handler. rewrite Hh. cbn [foldl synchronizer_gets]. unfold peers_parseAndHandle.
    rewrite Hm, Z.eqb_refl, Hs. done.
  - intros q [= <-]. eexists _, _. split; [reflexivity|]. split; [done|].
    destruct (choose_seen_spec r maxPeerSpecObjects (allPeers d) (fst <$> filter (fun e => now < e.2)%Z (map_to_list (blacklist d))) Hr) as [Hlen Hall].
    split; [exact Hlen|]. intros i Hi. destruct (Hall i Hi) as (a & p & Ha & Hp & Hs & Hb). exists a, p. split_and!; [done..|]. by apply banned_now_spec.
Qed.
End PeerSynchronizer.

(** A peer that was not asked, and gossip of the configured peer *)
Lemma peers_exchanged_witness :
  let same (x y : bytes) := bool_decide (x = y) in let d := initial_database sample_settings in
  let remote := Peer 7 1 true in let m := (PeersSpec_messageCode, [] : bytes) in
  message_arrives [] 64 7 same sample_settings true 0 first_choices m remote (new_tracker, d) = (new_tracker, d, [PenalizePeer remote SpamPenalty]) /\
  exists d' l, PeerManager.receive 7 same sample_settings 0 first_choices (Get (SeenPeers 64)) d = (d', Success [SeenAnswer l]) /\ length l <= 64.
Proof.
  intros same d remote m. destruct (peers_exchanged [] 64 7 same sample_settings true 0 first_choices m remote new_tracker d first_choices_ok eq_refl) as (H1 & _ & H3).
  split; [apply H1; apply not_elem_of_empty|]. destruct (H3 (Get (SeenPeers 64)) eq_refl) as (d' & l & E & _ & Hl & _). exists d', l. split; [exact E|exact Hl].
Defined.

Lemma stale_timer_punishes_witness :
  let cfg := tracker_settings true in let p := Peer 7 1 true in
  last (snd (tracker_run (Any := unit) fst cfg [RegisterMessageSpecs; SendToNetwork (1, [])%Z; PeersFound 0 [p]; FromPeer (2, [])%Z p; SendToNetwork (1, [])%Z; PeersFound 0 [p]; VerifyDelivery 0; FromPeer (2, [] : bytes)%Z p] new_tracker)) = Some (PenalizePeer p SpamPenalty).
Proof. intros cfg p. rewrite (stale_timer_punishes fst cfg (1, [])%Z (2, [])%Z p); done. Defined.
