(* ===== verification/Validation.v ===== *)
(** * Validation: the combinators by which modifiers are validated

    core/validation/ModifierValidator.scala, ValidationResult.scala,
    ModifierError.scala and ValidationSettings.scala.  An error is an object, told
    from others by its identity, and the settings, which are the application's,
    may make new ones whenever they are asked.  So what is passed by name is an
    [Outcome], a computation that counts the objects made and may throw, and it
    is evaluated where and as often as the code does.  Of what converts results
    for other libraries, [toTry] is modelled. *)

From S2P Require Import Prelude.

(** ** Errors and results *)

Record ModifierError := Err { object : N; message : string; isFatal : bool }.

#[export] Instance error_eq_dec : EqDecision ModifierError.
Proof. solve_decision. Defined.

(** toThrowable of an error, MultipleErrors, and what other code throws *)
Inductive Throwable :=
| OneError (e : ModifierError)
| MultipleErrors (errors : list ModifierError)
| OtherThrowable (e : exn).

(** A value or what was thrown instead: also a Try, which holds either *)
Inductive Evaluated (A : Type) := Returns (a : A) | ThrowsIt (t : Throwable).
Arguments Returns {A} a.
Arguments ThrowsIt {A} t.

(** A computation, from the number of objects made before it to that after it *)
Definition Outcome (A : Type) : Type := N -> Evaluated A * N.
Definition returns {A} (a : A) : Outcome A := fun n => (Returns a, n).
Definition throws {A} (t : Throwable) : Outcome A := fun n => (ThrowsIt t, n).
Definition outcome_bind {A B} (o : Outcome A) (f : A -> Outcome B) : Outcome B := fun n =>
  match o n with (Returns a, m) => f a m | (ThrowsIt t, m) => (ThrowsIt t, m) end.

Notation "'eval' x ':=' o 'in' k" := (outcome_bind o (fun x => k))
  (at level 10, x pattern, o at level 100, k at level 200) : sparkz_scope.

(** Try(block), of what is not fatal to the machine *)
Definition try_block {A} (block : Outcome A) : Outcome (Evaluated A) := fun n =>
  let '(r, m) := block n in (Returns r, m).

(** flatMap and fold of a Try; both catch what the function of its value throws *)
Definition flatMap {A B} (t : Evaluated A) (f : A -> Outcome (Evaluated B)) : Outcome (Evaluated B) :=
  match t with
  | ThrowsIt e => returns (ThrowsIt e)
  | Returns a => eval r := try_block (f a) in
                 returns match r with Returns t' => t' | ThrowsIt e => ThrowsIt e end
  end.
Definition fold_try {A B} (t : Evaluated A) (fa : Throwable -> Outcome B) (fb : A -> Outcome B) : Outcome B :=
  match t with
  | ThrowsIt e => fa e
  | Returns a => eval r := try_block (fb a) in match r with Returns b => returns b | ThrowsIt e => fa e end
  end.

Inductive ValidationResult (T : Type) := Valid (value : T) | Invalid (errors : list ModifierError).
Arguments Valid {T} value.
Arguments Invalid {T} errors.

Definition isValid {T} (r : ValidationResult T) : bool := match r with Valid _ => true | Invalid _ => false end.
Definition errors {T} (r : ValidationResult T) : list ModifierError := match r with Valid _ => [] | Invalid es => es end.
Definition payload {T} (r : ValidationResult T) : option T := match r with Valid v => Some v | Invalid _ => None end.
Definition fatal_result {T} (r : ValidationResult T) : bool := existsb isFatal (errors r).

(** apply and map *)
Definition replace_payload {T R} (r : ValidationResult T) (p : R) : ValidationResult R :=
  match r with Valid _ => Valid p | Invalid es => Invalid es end.
Definition map_result {T R} (f : T -> R) (r : ValidationResult T) : ValidationResult R :=
  match r with Valid v => Valid (f v) | Invalid es => Invalid es end.

Definition accumulateErrors {T} (es : list ModifierError) (next : ValidationResult T) : ValidationResult T :=
  match next with Valid _ => Invalid es | Invalid e2 => Invalid (es ++ e2) end.

Definition toTry {T} (r : ValidationResult T) : Evaluated T :=
  match r with
  | Valid v => Returns v
  | Invalid [e] => ThrowsIt (OneError e)
  | Invalid es => ThrowsIt (MultipleErrors es)
  end.

(** ** States *)

(** [getError] gives the errors of the Invalid that the settings make for a rule and its details *)
Record ValidationSettings := {
  isFailFast : bool;
  isActive : Z -> bool;
  getError : Z -> string -> Outcome (list ModifierError)
}.

Record ValidationState (T : Type) := State { result : ValidationResult T; settings : ValidationSettings }.
Arguments State {T} result settings.
Arguments result {T} _.
Arguments settings {T} _.

(** ModifierValidator.apply *)
Definition validator (s : ValidationSettings) : ValidationState unit := State (Valid tt) s.

Section Combinators.
Context (getMessage : Throwable -> string).

(** getError, of details passed by name, and of a throwable *)
Definition invalid_of {T R} (st : ValidationState T) (id : Z) (details : Outcome string) : Outcome (ValidationResult R) :=
  eval d := details in eval es := getError (settings st) id d in returns (Invalid es).
Definition error_of {T R} (st : ValidationState T) (id : Z) (t : Throwable) : Outcome (ValidationResult R) :=
  invalid_of st id (returns (getMessage t)).

(** The operation is evaluated to be compared, and again to be appended. *)
Definition pass {T R} (st : ValidationState T) (operation : Outcome (ValidationResult R)) : Outcome (ValidationState R) :=
  match result st with
  | Valid _ => eval r := operation in returns (State r (settings st))
  | Invalid es =>
      if isFailFast (settings st) then returns (State (Invalid es) (settings st))
      else
        eval compared := operation in
        if match compared with Invalid e2 => bool_decide (es = e2) | Valid _ => false end
        then returns (State (Invalid es) (settings st))
        else eval next := operation in returns (State (accumulateErrors es next) (settings st))
  end.

Definition state_payload {T R} (st : ValidationState T) (p : Outcome R) : Outcome (ValidationState R) :=
  pass st (eval v := p in returns (replace_payload (result st) v)).

Definition payloadMap {T R} (st : ValidationState T) (f : T -> R) : ValidationState R :=
  State (map_result f (result st)) (settings st).

Definition validate {T} (st : ValidationState T) (id : Z) (condition : Outcome bool) (details : Outcome string)
    : Outcome (ValidationState T) :=
  pass st (if negb (isActive (settings st) id) then returns (result st)
           else eval c := condition in
                if c : bool then returns (result st) else invalid_of st id details).

Definition validateNot {T} (st : ValidationState T) (id : Z) (condition : Outcome bool) (details : Outcome string) :=
  validate st id (eval c := condition in returns (negb c)) details.

(** An array, which is compared by its elements, or a value *)
Inductive Operand (A : Type) := AnArray (elems : list A) | AValue (v : A).
Arguments AnArray {A} elems.
Arguments AValue {A} v.

(** The message, for which the arguments are evaluated anew *)
Definition given_message {A} (show : A -> string) (actual expected : Outcome A) (sep after : string) : Outcome string :=
  eval a := actual in eval b := expected in
  returns (String.append "Given: " (String.append (show a) (String.append sep (String.append (show b) after)))).

Definition validateEquals {T A} `{EqDecision A} (show : Operand A -> string) (st : ValidationState T) (id : Z)
    (actual expected : Outcome (Operand A)) : Outcome (ValidationState T) :=
  pass st (
    eval a := actual in eval b := expected in
    let arrays := given_message show actual expected ", expected: " ". Use validateEqualIds when comparing Arrays" in
    let values := given_message show actual expected ", expected " EmptyString in
    if negb (isActive (settings st) id) then returns (result st)
    else match a, b with
         | AnArray x, AnArray y => if bool_decide (x = y) then returns (result st) else invalid_of st id arrays
         | AnArray _, AValue _ => invalid_of st id arrays
         | AValue x, AValue y => if bool_decide (x = y) then returns (result st) else invalid_of st id values
         | AValue _, AnArray _ => invalid_of st id values
         end).

(** Identifiers are strings; the code shows them by its encoder. *)
Definition validateEqualIds {T} (encodeId : string -> string) (st : ValidationState T) (id : Z) (actual expected : Outcome string)
    : Outcome (ValidationState T) :=
  pass st (
    if negb (isActive (settings st) id) then returns (result st)
    else eval a := actual in eval b := expected in
         if bool_decide (a = b) then returns (result st)
         else invalid_of st id (given_message encodeId actual expected ", expected " EmptyString)).

Inductive ModifierSemanticValidity := Absent | Unknown | InvalidModifier | ValidModifier.

Definition validateSemantics {T} (st : ValidationState T) (id : Z) (validity : Outcome ModifierSemanticValidity)
    (details : Outcome string) :=
  validateNot st id (eval v := validity in returns (match v with InvalidModifier => true | _ => false end)) details.

(** [condition] is a Try: it may be a Failure, and its evaluation may throw *)
Definition validateNoFailure {T A} (st : ValidationState T) (id : Z) (condition : Outcome (Evaluated A)) : Outcome (ValidationState T) :=
  pass st (if negb (isActive (settings st) id) then returns (result st)
           else eval c := condition in fold_try c (error_of st id) (fun _ => returns (result st))).

Definition validateNoThrow {T A} (st : ValidationState T) (id : Z) (block : Outcome A) : Outcome (ValidationState T) :=
  validateNoFailure st id (try_block block).

Definition validateTry {T A} (st : ValidationState T) (tryValue : Outcome (Evaluated A))
    (error : Throwable -> Outcome (list ModifierError)) (operation : ValidationState T -> A -> Outcome (ValidationResult T))
    : Outcome (ValidationState T) :=
  pass st (eval t := tryValue in
           fold_try t (fun e => eval es := error e in returns (Invalid es)) (fun v => operation st v)).

(** The condition is not protected. *)
Definition validateTryFlatten {T} (st : ValidationState T) (id : Z) (operation : T -> Outcome (Evaluated T))
    (condition : T -> Outcome bool) : Outcome (ValidationState T) :=
  pass st (eval t := flatMap (toTry (result st)) operation in
           match t with
           | ThrowsIt ex => error_of st id ex
           | Returns v =>
               if isActive (settings st) id
               then eval c := condition v in
                    if c : bool then returns (replace_payload (result st) v) else invalid_of st id (returns EmptyString)
               else returns (replace_payload (result st) v)
           end).

Definition validateOrSkip {T A} (st : ValidationState T) (option : Outcome (option A))
    (operation : ValidationState T -> A -> Outcome (ValidationResult T)) : Outcome (ValidationState T) :=
  eval o := option in
  match o with
  | Some value => pass st (operation st value)
  | None => returns st
  end.

Definition validateOrSkipFlatten {T A} (st : ValidationState T) (id : Z) (option : Outcome (option A)) (condition : A -> Outcome bool)
    : Outcome (ValidationState T) :=
  pass st (eval o := option in
           match o with
           | Some v =>
               if isActive (settings st) id
               then eval c := condition v in
                    if c : bool then returns (result st) else invalid_of st id (returns EmptyString)
               else returns (result st)
           | None => returns (result st)
           end).

Fixpoint validateSeq {T A} (seq : list A) (operation : ValidationState T -> A -> Outcome (ValidationResult T))
    (st : ValidationState T) : Outcome (ValidationState T) :=
  match seq with
  | [] => returns st
  | elem :: seq' => eval st' := pass st (operation st elem) in validateSeq seq' operation st'
  end.

(** The nested validate *)
Definition validate_nested {T} (st : ValidationState T) (operation : Outcome (ValidationResult T)) : Outcome (ValidationState T) :=
  pass st operation.
End Combinators.

(** ** What is reported *)

(** A rule: its identifier, whether its condition holds, and the details *)
Definition rule := (Z * bool * string)%type.

Definition broken (s : ValidationSettings) (c : rule) : bool := isActive s c.1.1 && negb c.1.2.

Fixpoint validate_all {T} (cs : list rule) (st : ValidationState T) : Outcome (ValidationState T) :=
  match cs with
  | [] => returns st
  | c :: cs' => eval st' := validate st c.1.1 (returns c.1.2) (returns c.2) in validate_all cs' st'
  end.

(** The broken rules that are reported: the first, or all of them in order *)
Definition reported (s : ValidationSettings) (cs : list rule) : list rule :=
  let bs := filter (fun c => broken s c = true) cs in
  if isFailFast s then take 1 bs else bs.

Definition describe (e : ModifierError) : string * bool := (message e, isFatal e).

(** Errors made before there were [n] objects *)
Definition made_before (n : N) (es : list ModifierError) : Prop := Forall (fun e => (object e < n)%N) es.

Lemma made_before_le n m es : (n <= m)%N -> made_before n es -> made_before m es.
Proof. intros H Hm. eapply Forall_impl; [exact Hm|]. cbn. intros e He. lia. Qed.

Lemma made_before_snoc n es e : made_before n es -> object e = n -> made_before (N.succ n) (es ++ [e]).
Proof. intros H E. apply Forall_app. split; [eapply made_before_le, H; lia|]. constructor; [lia|constructor]. Qed.

(** What is made now is not among what was made before. *)
Lemma not_made_before n es e : made_before n es -> (n <= object e)%N -> es <> [e].
Proof. intros H E ->. apply Forall_cons_1 in H as [H _]. lia. Qed.

Lemma objects_snoc n es e : made_before n es -> object e = n -> NoDup (object <$> es) -> NoDup (object <$> es ++ [e]).
Proof.
  intros H E Hn. rewrite fmap_app. apply NoDup_app. split_and!; [done| |apply NoDup_singleton].
  intros k Hk Hk'. apply list_elem_of_singleton in Hk' as ->. apply list_elem_of_fmap in Hk as (e' & E' & He').
  unfold made_before in H. rewrite Forall_forall in H. specialize (H _ He'). lia.
Qed.

(** The settings make a new error each time: its message and whether it is fatal are of the rule. *)
Section Reports.
Context {T : Type} (s : ValidationSettings) (text : Z -> string -> string * bool).
Definition new_error (id : Z) (details : string) (n : N) : ModifierError := Err n (text id details).1 (text id details).2.
Definition makes_errors : Prop :=
  forall id details n, getError s id details n = (Returns [new_error id details n], N.succ n).
Context (Hget : makes_errors).

Lemma describe_new id details n : describe (new_error id details n) = text id details.
Proof. unfold describe. cbn. by destruct (text id details). Qed.

Lemma validate_holds (st : ValidationState T) c n : settings st = s -> broken s c = false ->
  validate st c.1.1 (returns c.1.2) (returns c.2) n = (Returns st, n).
Proof.
  intros <- H. unfold broken in H. unfold validate, pass. destruct st as [[v|es] s']; cbn [result settings] in *.
  - destruct (isActive s' c.1.1); cbn in *; [|done]. by destruct c.1.2.
  - destruct (isFailFast s'); [done|]. destruct (isActive s' c.1.1); cbn in *; [destruct c.1.2; [|done]; cbn|]; by rewrite bool_decide_true.
Qed.

Lemma validate_breaks (v : T) c n : broken s c = true ->
  validate (State (Valid v) s) c.1.1 (returns c.1.2) (returns c.2) n =
  (Returns (State (Invalid [new_error c.1.1 c.2 n]) s), N.succ n).
Proof.
  intros H. apply andb_true_iff in H as [Ha Hc]. apply negb_true_iff in Hc. unfold validate, pass, invalid_of, outcome_bind, returns.
  cbn [result settings]. rewrite Ha, Hc. cbn. by rewrite Hget.
Qed.

(** The error that is compared is not the one that is reported. *)
Lemma validate_adds es c n : isFailFast s = false -> broken s c = true -> made_before n es ->
  validate (State (Invalid es : ValidationResult T) s) c.1.1 (returns c.1.2) (returns c.2) n =
  (Returns (State (Invalid (es ++ [new_error c.1.1 c.2 (N.succ n)])) s), N.succ (N.succ n)).
Proof.
  intros Hf H Hm. apply andb_true_iff in H as [Ha Hc]. apply negb_true_iff in Hc.
  unfold validate, pass, invalid_of, outcome_bind, returns. cbn [result settings]. rewrite Hf, Ha, Hc. cbn. rewrite Hget.
  rewrite bool_decide_false by (eapply not_made_before; [done|cbn; lia]). by rewrite Hget.
Qed.

Lemma validate_all_invalid cs : forall es n, made_before n es -> NoDup (object <$> es) ->
  exists es' m, validate_all cs (State (Invalid es : ValidationResult T) s) n = (Returns (State (Invalid es') s), m) /\
    NoDup (object <$> es') /\ describe <$> es' = (describe <$> es) ++
      if isFailFast s then [] else (fun c => text c.1.1 c.2) <$> filter (fun c => broken s c = true) cs.
Proof.
  induction cs as [|c cs IH]; intros es n Hm Hn; cbn [validate_all].
  { exists es, n. split_and!; [done|done|]. destruct (isFailFast s); by rewrite app_nil_r. }
  unfold outcome_bind. destruct (broken s c) eqn:E.
  2:{ rewrite validate_holds, filter_cons_False by (done || congruence). by apply IH. }
  destruct (isFailFast s) eqn:Hf.
  - unfold validate, pass. cbn [result settings]. rewrite Hf. unfold returns. by apply IH.
  - rewrite validate_adds, filter_cons_True by done.
    assert (Hm' : made_before (N.succ n) es) by (eapply made_before_le, Hm; lia).
    destruct (IH (es ++ [new_error c.1.1 c.2 (N.succ n)]) (N.succ (N.succ n))) as (es' & m & E1 & E2 & E3).
    + by apply made_before_snoc.
    + by apply (objects_snoc (N.succ n)).
    + exists es', m. split_and!; [done|done|]. rewrite E3, fmap_app, <- app_assoc. f_equal. cbn. by rewrite <- describe_new with (n := N.succ n).
Qed.

(** C33: a chain of rules keeps the payload, and makes no error, when none of the
    active ones is broken; otherwise it reports one error for the first broken
    one when it is to fail fast, or one for each of them in order, all of them
    different objects. *)
Theorem rules_reported (v : T) cs n :
  match reported s cs with
  | [] => validate_all cs (State (Valid v) s) n = (Returns (State (Valid v) s), n)
  | bs => exists es m, validate_all cs (State (Valid v) s) n = (Returns (State (Invalid es) s), m) /\
            NoDup (object <$> es) /\ describe <$> es = (fun c => text c.1.1 c.2) <$> bs
  end.
Proof.
  unfold reported. induction cs as [|c cs IH]; cbn [validate_all]; [by destruct (isFailFast s)|].
  unfold outcome_bind. destruct (broken s c) eqn:E.
  2:{ rewrite validate_holds, filter_cons_False by (done || congruence). exact IH. }
  rewrite validate_breaks, filter_cons_True by done.
  destruct (validate_all_invalid cs [new_error c.1.1 c.2 n] (N.succ n)) as (es & m & E1 & E2 & E3).
  - constructor; [cbn; lia|constructor].
  - apply NoDup_singleton.
  - cbn in E3. destruct (isFailFast s); cbn; exists es, m; (split_and!; [done|done|]);
      rewrite E3; cbn; by rewrite <- describe_new with (n := n).
Qed.

(** ** What is not evaluated *)

(** Once a validation that is to fail fast has failed, nothing passed by name is evaluated. *)
Theorem fail_fast_evaluates_nothing {R} (st : ValidationState T) (operation : Outcome (ValidationResult R)) es n :
  isFailFast (settings st) = true -> result st = Invalid es -> pass st operation n = (Returns (State (Invalid es) (settings st)), n).
Proof. intros Hf Hr. unfold pass. by rewrite Hr, Hf. Qed.

(** ** Sequences, when errors accumulate *)

(** An operation that validates on from the state it is given *)
Definition check_element (st : ValidationState T) (id : Z) : Outcome (ValidationResult T) :=
  eval st' := validate st id (returns false) (returns EmptyString) in returns (result st').

Context (Hacc : isFailFast s = false) (Hact : forall id, isActive s id = true).

Lemma check_element_invalid es id n : made_before n es ->
  check_element (State (Invalid es) s) id n = (Returns (Invalid (es ++ [new_error id EmptyString (N.succ n)])), N.succ (N.succ n)).
Proof.
  intros H. unfold check_element, outcome_bind.
  rewrite (validate_adds es (id, false, EmptyString)); [done|done|unfold broken; by rewrite Hact|done].
Qed.

Lemma validateSeq_invalid ids : forall es n, es <> [] -> made_before n es ->
  exists es' m, validateSeq ids check_element (State (Invalid es) s) n = (Returns (State (Invalid es') s), m) /\
    (length es' + 1 = 2 ^ length ids * (length es + 1)).
Proof.
  induction ids as [|id ids IH]; intros es n Hne Hm; cbn [validateSeq].
  - exists es, n. split; [done|]. cbn. lia.
  - unfold pass, outcome_bind. cbn [result settings]. rewrite Hacc, check_element_invalid by done. rewrite bool_decide_false.
    2:{ intros E. apply (f_equal length) in E. rewrite length_app in E. cbn in E. lia. }
    assert (Hm' : made_before (N.succ (N.succ n)) es) by (eapply made_before_le, Hm; lia).
    rewrite check_element_invalid by done. cbn [returns accumulateErrors]. set (e := new_error id EmptyString _).
    destruct (IH (es ++ es ++ [e]) (N.succ (N.succ (N.succ (N.succ n))))) as (es' & m & E & El).
    + by destruct es.
    + apply Forall_app. split; [eapply made_before_le, Hm; lia|]. apply made_before_snoc; [|done].
      eapply made_before_le, Hm; lia.
    + exists es', m. split; [done|]. rewrite El, !length_app. cbn [length]. rewrite Nat.pow_succ_r'. lia.
Qed.

(** When every element breaks its rule, an operation that validates on from the
    state it is given has the earlier errors reported again with each element:
    n elements give 2^n - 1 errors. *)
Theorem sequence_errors_double (v : T) ids n : 
  exists st m, validateSeq ids check_element (State (Valid v) s) n = (Returns st, m) /\
    length (errors (result st)) = 2 ^ length ids - 1.
Proof.
  destruct ids as [|id ids]; [by eexists _, _|]. cbn [validateSeq].
  destruct (validateSeq_invalid ids [new_error id EmptyString n] (N.succ n)) as (es' & m & E & El); [done| |].
  - constructor; [cbn; lia|constructor].
  - exists (State (Invalid es') s), m. split; [|cbn in El |- *; lia]. unfold pass, check_element, outcome_bind. cbn [result settings].
    rewrite (validate_breaks v (id, false, EmptyString)) by (unfold broken; by rewrite Hact). exact E.
Qed.

(** An earlier failure is reported again as one of a later rule, active or not,
    whose operation is not run. *)
Theorem failure_reported_again (getMessage : Throwable -> string) (es : list ModifierError) id operation condition n :
  made_before n es ->
  validateTryFlatten getMessage (State (Invalid es : ValidationResult T) s) id operation condition n =
  (Returns (State (Invalid (es ++ [new_error id (getMessage (match es with [e] => OneError e | _ => MultipleErrors es end)) (N.succ n)])) s),
   N.succ (N.succ n)).
Proof.
  intros Hm. unfold validateTryFlatten, pass, error_of, invalid_of, outcome_bind. cbn [result settings]. rewrite Hacc.
  assert (E : @flatMap T T (toTry (Invalid es)) operation = returns (ThrowsIt (match es with [e] => OneError e | _ => MultipleErrors es end)))
    by by destruct es as [|x [|y es]].
  rewrite E. cbn. rewrite Hget. cbn. rewrite bool_decide_false by (eapply not_made_before; [done|cbn; lia]). by rewrite Hget.
Qed.
End Reports.

(** ** Witnesses *)

(** Settings that make a new error each time they are asked *)
Definition making_errors (failFast : bool) : ValidationSettings := {|
  isFailFast := failFast; isActive := fun _ => true; getError := fun id details n => (Returns [Err n details true], N.succ n)
|}.

Definition three_rules : list rule := [(1, false, "first"%string); (2, true, "second"%string); (3, false, "third"%string)]%Z.

Lemma rules_reported_witness : exists es m,
  validate_all three_rules (validator (making_errors false)) 7%N = (Returns (State (Invalid es) (making_errors false)), m) /\
  NoDup (object <$> es) /\ describe <$> es = [("first", true); ("third", true)]%string.
Proof. exact (rules_reported (making_errors false) (fun _ d => (d, true)) (fun _ _ _ => eq_refl) tt three_rules 7%N). Defined.

Lemma sequence_errors_double_witness : exists st m,
  validateSeq [1; 2; 3]%Z check_element (State (Valid tt) (making_errors false)) 0%N = (Returns st, m) /\ length (errors (result st)) = 7.
Proof.
  apply (sequence_errors_double (making_errors false) (fun _ d => (d, true)) (fun _ _ _ => eq_refl) eq_refl (fun _ => eq_refl) tt [1; 2; 3]%Z 0%N).
Defined.

(** Of two broken rules the first makes one error, the second two. *)
Example rules_in_order : validate_all three_rules (validator (making_errors false)) 0%N =
  (Returns (State (Invalid [Err 0 "first"%string true; Err 2 "third"%string true]) (making_errors false)), 3%N).
Proof. reflexivity. Qed.

Example rules_fail_fast : validate_all three_rules (validator (making_errors true)) 0%N =
  (Returns (State (Invalid [Err 0 "first"%string true]) (making_errors true)), 1%N).
Proof. reflexivity. Qed.

(** Settings that give the same object for a rule: its error is reported once in a row. *)
Example same_object_once :
  let s := {| isFailFast := false; isActive := fun _ => true; getError := fun id _ => returns [Err (Z.to_N id) "error"%string true] |} in
  validate_all [(1, false, EmptyString); (1, false, EmptyString); (2, false, EmptyString)]%Z (validator s) 5%N =
  (Returns (State (Invalid [Err 1 "error"%string true; Err 2 "error"%string true]) s), 5%N).
Proof. reflexivity. Qed.

(** What an operation throws is caught where the code folds a Try, and not elsewhere. *)
Example thrown_by_operation :
  let st := State (Valid tt) (making_errors false) in
  let throwing := fun _ _ => throws (OtherThrowable NoSuchElement) in
  validateTry st (returns (Returns 1)) (fun _ => returns [Err 0 "caught"%string true]) throwing 3%N =
    (Returns (State (Invalid [Err 0 "caught"%string true]) (making_errors false)), 3%N) /\
  validateOrSkip st (returns (Some 1)) throwing 3%N = (ThrowsIt (OtherThrowable NoSuchElement), 3%N).
Proof. split; reflexivity. Qed.
