(* ===== verification/Controller.v ===== *)
(** * Controller: the actor that keeps the connections of the node

    core/network/NetworkController.scala with SendingStrategy.scala, ConnectedPeer
    .scala, ConnectionId.scala and LRUSimpleCache.scala: the fields of the actor as
    [Controller], a message of its mailbox, a timer or the answer of a future as
    an [In], and what it sends as a list of [Out], in order.  Actor references are
    numbers; [context.actorOf] gives one that was not given before.  The clock
    reading, the order in which the values of a map or set are gone through, and
    random numbers are arguments.  The address resolution that validates the
    declared address only writes to the log. *)

From S2P Require Import Prelude Network MessageSpecs NetAddress PeerBuckets.

Abbreviation ActorRef := N.

Record NetworkSettings := {
  maxIncomingConnections : Z;
  maxOutgoingConnections : Z;
  maxForgerConnections : Z;
  connectionTimeout : Z;                              (* milliseconds *)
  inactiveConnectionDeadline : Z;                     (* milliseconds *)
  isForgerNode : bool;
  handlingTransactionsEnabled : bool;
  onlyConnectToKnownPeers : bool;
  bindAddress : InetSocketAddress;
  knownPeers : list InetSocketAddress;
  magicBytes : bytes
}.

(** SparkzContext, the addresses of the machine, and the random session identifier *)
Record SparkzContext := {
  ownFeatures : list PeerFeature;
  externalNodeAddress : option InetSocketAddress;
  interfaces : list InetAddress;
  ownSessionId : Z
}.

(** ** Peers *)

Record ConnectionId := ConnId {
  remoteAddress : InetSocketAddress;
  localAddress : InetSocketAddress;
  direction : ConnectionDirection
}.

(** [lastMessage] is a var; the objects it is written to are those of the map. *)
Record ConnectedPeer := Connected_ {
  connectionId : ConnectionId;
  handlerRef : ActorRef;
  lastMessage : Z;
  peerInfo : option PeerInfo
}.

Definition cp_address (cp : ConnectedPeer) : InetSocketAddress := remoteAddress (connectionId cp).
Definition set_lastMessage (t : Z) (cp : ConnectedPeer) : ConnectedPeer :=
  Connected_ (connectionId cp) (handlerRef cp) t (peerInfo cp).
Definition set_peerInfo (i : PeerInfo) (cp : ConnectedPeer) : ConnectedPeer :=
  Connected_ (connectionId cp) (handlerRef cp) (lastMessage cp) (Some i).

Definition has_feature (f : PeerFeature) (i : PeerInfo) : bool := bool_decide (f ∈ features (peerSpec i)).
Definition is_forger (cp : ConnectedPeer) : bool :=
  match peerInfo cp with Some i => has_feature ForgerNodePeerFeature i | None => false end.

(** getPeerAddress *)
Definition getPeerAddress (peer : PeerInfo) : option InetSocketAddress :=
  match localAddressOpt (peerSpec peer), declaredAddress (peerSpec peer) with
  | Some localAddr, _ => Some localAddr
  | _, declared => declared
  end.

(** What is sent to be forwarded: its code, the version it asks of a peer, its
    content and where it came from *)
Record NetMessage := Msg {
  messageCode : Z;
  messageVersion : Version;
  content : bytes;
  source : option ConnectedPeer
}.

(** The order of values and elements, and a random number below a bound *)
Record Order := {
  values_of : gmap InetSocketAddress ConnectedPeer -> list ConnectedPeer;
  elements_of : gset InetSocketAddress -> list InetSocketAddress;
  nextInt : Z -> Z
}.
Record order_ok (r : Order) : Prop := {
  values_ok m : values_of r m ≡ₚ snd <$> map_to_list m;
  elements_ok m : elements_of r m ≡ₚ elements m;
  nextInt_ok n : (0 < n)%Z -> (0 <= nextInt r n < n)%Z
}.

(** ** SendingStrategy *)

Inductive SendingStrategy :=
| SendToRandom | Broadcast | BroadcastTransaction | BroadcastBlock
| BroadcastExceptOf (exceptOf : list ConnectedPeer)
| SendToPeer (chosenPeer : ConnectedPeer)
| SendToPeers (chosenPeers : list ConnectedPeer)
| SendToRandomFromChosen (chosenPeers : list ConnectedPeer).

(** peers(secureRandom.nextInt(peers.length)); nextInt throws on 0 *)
Definition random_of {A} (r : Order) (l : list A) : Try A :=
  if (zlen l <=? 0)%Z then Failure IllegalArgument else array_get l (nextInt r (zlen l)).

Definition disables_transactions (cp : ConnectedPeer) : bool :=
  match peerInfo cp with Some i => has_feature TransactionsDisabledPeerFeature i | None => false end.

Definition choose (r : Order) (strategy : SendingStrategy) (peers : list ConnectedPeer) : Try (list ConnectedPeer) :=
  match strategy with
  | SendToRandom =>
      match peers with
      | [] => Success []
      | _ => let? p := random_of r peers in Success [p]
      end
  | Broadcast => Success peers
  | BroadcastTransaction => Success (filter (fun p => disables_transactions p = false) peers)
  | BroadcastBlock =>
      Success (filter (fun p => is_forger p = true) peers ++ filter (fun p => is_forger p = false) peers)
  | BroadcastExceptOf exceptOf =>
      Success (filter (fun p => cp_address p ∉ cp_address <$> exceptOf) peers)
  | SendToPeer chosenPeer => Success [chosenPeer]
  | SendToPeers chosenPeers => Success chosenPeers
  | SendToRandomFromChosen chosenPeers => let? p := random_of r chosenPeers in Success [p]
  end.

(** ** LRUSimpleCache: a LinkedHashMap in order of access, the eldest dropped beyond the threshold *)

Definition lru_put {K V} `{EqDecision K} (threshold : Z) (k : K) (v : V) (l : list (K * V)) : list (K * V) :=
  let l' := filter (fun e => e.1 <> k) l ++ [(k, v)] in
  if (threshold <? zlen l')%Z then drop 1 l' else l'.

(** ** State and messages *)

Record Controller := Ctl {
  messageHandlers : gmap Z ActorRef;
  connections : gmap InetSocketAddress ConnectedPeer;
  unconfirmedConnections : gset InetSocketAddress;
  peersLastConnectionAttempts : list (InetSocketAddress * Z);
  lastIncomingMessageTime : Z;
  children : N
}.

Definition set_connections c s := Ctl (messageHandlers s) c (unconfirmedConnections s) (peersLastConnectionAttempts s) (lastIncomingMessageTime s) (children s).
Definition set_unconfirmed u s := Ctl (messageHandlers s) (connections s) u (peersLastConnectionAttempts s) (lastIncomingMessageTime s) (children s).
Definition set_handlers h s := Ctl h (connections s) (unconfirmedConnections s) (peersLastConnectionAttempts s) (lastIncomingMessageTime s) (children s).
Definition set_attempts l s := Ctl (messageHandlers s) (connections s) (unconfirmedConnections s) l (lastIncomingMessageTime s) (children s).
Definition set_lastIncoming t s := Ctl (messageHandlers s) (connections s) (unconfirmedConnections s) (peersLastConnectionAttempts s) t (children s).

Inductive In :=
| Bound
| BindFailed
| StartConnectingPeers
| ConnectionTask                                     (* the timer of scheduleConnectionToPeer *)
| DroppingTask                                       (* the timer of scheduleDroppingDeadConnections *)
| IncomingMessage (msg : NetMessage)
| SendToNetwork (msg : NetMessage) (strategy : SendingStrategy)
| RegisterMessageSpecs (specs : list Z) (handler : ActorRef)
| ConnectTo (peer : PeerInfo)
| DisconnectFrom (peer : ConnectedPeer)
| PenalizePeer (address : InetSocketAddress) (penalty : PenaltyType)
| DisconnectFromAddress (address : InetSocketAddress)
| DisconnectFromNode (address : InetSocketAddress)
| Connected (remote local : InetSocketAddress) (sender : ActorRef)
| ConnectionConfirmed (id : ConnectionId) (ref : ActorRef)
| ConnectionDenied (id : ConnectionId) (ref : ActorRef)
| Handshaked (info : PeerInfo) (sender : ActorRef)
| ConnectFailed (remote : InetSocketAddress)
| Terminated (ref : ActorRef)
| ConnectionClosed
| ConnectionToPeer (active : gmap InetSocketAddress ConnectedPeer) (unconfirmed : gset InetSocketAddress)
| RandomPeer (found : option PeerInfo)               (* the peer manager's answer *)
| GetPeersStatus
| GetConnectedPeers
| GetFilteredConnectedPeers (strategy : SendingStrategy) (version : Version)
| ShutdownNetwork
| OtherInput.

Record ConnectionDescription := Describe {
  connection : ActorRef;
  description_id : ConnectionId;
  ownSocketAddress : option InetSocketAddress;
  peerFeatures : list PeerFeature
}.

Inductive Out :=
| ExitProcess
| StopSelf
| Forward (handler : ActorRef) (msg : NetMessage)
| Send (handler : ActorRef) (msg : NetMessage)
| CloseConnection (handler : ActorRef)
| Close (ref : ActorRef)
| Connect (remote : InetSocketAddress) (timeout : Z)
| StartHandler (handler : ActorRef) (description : ConnectionDescription)
| ConfirmConnection (id : ConnectionId) (ref : ActorRef)
| RemovePeer (address : InetSocketAddress)
| UpdatePeer (info : PeerInfo)
| Penalize (address : InetSocketAddress) (penalty : PenaltyType)
| RandomPeerForConnectionExcluding (excluded : list (option InetSocketAddress)) (onlyKnown : bool)
| PublishHandshaked (peer : ConnectedPeer)
| PublishDisconnected (remote : InetSocketAddress)
| PeersStatus (lastIncomingMessage currentNetworkTime : Z)
| ConnectedPeers (peers : list ConnectedPeer)
| ScheduleConnectionTask (initial delay : Z)
| ScheduleDroppingTask (initial delay : Z)
| SelfConnectTo (peer : PeerInfo)
| Unbind
| Throws (e : exn).

Section Actor.
Context (settings : NetworkSettings) (context : SparkzContext) (r : Order).

Definition maxConnections : Z :=
  toInt (toInt (maxIncomingConnections settings + maxOutgoingConnections settings) + maxForgerConnections settings).
Definition tryNewConnectionAttemptDelay : Z := 5000.
Definition attempts_threshold : Z := 10000.
Definition mySessionIdFeature : PeerFeature := SessionIdPeerFeature (magicBytes settings) (ownSessionId context).

Definition initial_controller : Controller := Ctl ∅ ∅ ∅ [] 0 0.

(** ** Counting and finding connections *)

Definition count_connections (P : ConnectedPeer -> bool) (s : Controller) : Z :=
  Z.of_nat (size (filter (fun kv => P kv.2 = true) (connections s))).
Definition has_direction (d : ConnectionDirection) (cp : ConnectedPeer) : bool := bool_decide (direction (connectionId cp) = d).

Definition getOutgoingConnectionsSize := count_connections (has_direction Outgoing).
Definition getIncomingConnectionsSize := count_connections (has_direction Incoming).
Definition getForgerConnectionsSize := count_connections is_forger.

Definition canEstablishNewOutgoingConnection s : bool := (getOutgoingConnectionsSize s <? maxOutgoingConnections settings)%Z.
Definition canEstablishNewIncomingConnection s : bool := (getIncomingConnectionsSize s <? maxIncomingConnections settings)%Z.
Definition canEstablishNewForgerConnection s : bool := (getForgerConnectionsSize s <? maxForgerConnections settings)%Z.
Definition shouldDropForgerConnection s : bool := (maxForgerConnections settings <? getForgerConnectionsSize s)%Z.
Definition shouldDropOutgoingConnection s : bool := (maxOutgoingConnections settings <? getOutgoingConnectionsSize s)%Z.
Definition shouldDropIncomingConnection s : bool := (maxIncomingConnections settings <? getIncomingConnectionsSize s)%Z.

Definition isConnectionLimitExhausted (info : PeerInfo) (isForgerConnection : bool) (s : Controller) : bool :=
  (isForgerConnection && shouldDropForgerConnection s) ||
  (negb isForgerConnection && bool_decide (connectionType info = Some Incoming) && shouldDropIncomingConnection s) ||
  (negb isForgerConnection && bool_decide (connectionType info = Some Outgoing) && shouldDropOutgoingConnection s).

Definition connections_values (s : Controller) : list ConnectedPeer := values_of r (connections s).

Definition matches_address (peerAddress : InetSocketAddress) (cp : ConnectedPeer) : bool :=
  bool_decide (cp_address cp = peerAddress) ||
  match peerInfo cp with Some i => bool_decide (getPeerAddress i = Some peerAddress) | None => false end.

(** find, of the values in their order *)
Definition find (P : ConnectedPeer -> bool) (l : list ConnectedPeer) : option ConnectedPeer := List.find P l.
Definition connectionForHandler (handler : ActorRef) (s : Controller) : option ConnectedPeer :=
  find (fun cp => (handlerRef cp =? handler)%N) (connections_values s).
Definition connectionForPeerAddress (peerAddress : InetSocketAddress) (s : Controller) : option ConnectedPeer :=
  find (matches_address peerAddress) (connections_values s).

Definition isNewConnectionAndStillHaveRoom (remoteAddress : InetSocketAddress) (s : Controller) : bool :=
  bool_decide (connectionForPeerAddress remoteAddress s = None) && (Z.of_nat (size (connections s)) <? maxConnections)%Z.

Definition supports (version : Version) (cp : ConnectedPeer) : bool :=
  match peerInfo cp with
  | Some i => (0 <=? version_compare (protocolVersion (peerSpec i)) version)%Z
  | None => false
  end.
Definition filterConnections (strategy : SendingStrategy) (version : Version) (s : Controller) : Try (list ConnectedPeer) :=
  choose r strategy (filter (fun cp => supports version cp = true) (connections_values s)).

(** What follows from a choice that may throw *)
Definition chosen (t : Try (list ConnectedPeer)) (k : list ConnectedPeer -> list Out) : list Out :=
  match t with Success l => k l | Failure e => [Throws e] end.

(** ** Own addresses *)

Definition isSelf (peerAddress : InetSocketAddress) : bool :=
  NetAddress.isSelf (interfaces context) (bindAddress settings) (externalNodeAddress context) peerAddress.

Definition getNodeAddressForPeer (localSocketAddress : InetSocketAddress) : option InetSocketAddress :=
  let localAddr := getAddress localSocketAddress in
  match externalNodeAddress context with
  | Some extAddr => Some extAddr
  | None =>
      if negb (isLocalAddress localAddr) && (getPort localSocketAddress =? getPort (bindAddress settings))%Z
      then Some localSocketAddress
      else
        let listenAddrs := filter (fun addr => isLocalAddress (getAddress addr) = false)
                             (getListenAddresses (interfaces context) (bindAddress settings)) in
        match List.find (fun addr => bool_decide (localAddr = getAddress addr)) listenAddrs with
        | Some addr => Some addr
        | None => head listenAddrs
        end
  end.

(** ** Handlers *)

Definition createPeerConnectionHandler (now : Z) (id : ConnectionId) (connection : ActorRef) (s : Controller)
    : Controller * list Out :=
  let isLocal := isLocalAddress (getAddress (remoteAddress id)) in
  let mandatoryFeatures := ownFeatures context ++ [mySessionIdFeature] in
  let maybeTransactionDisabledFeature :=
    if handlingTransactionsEnabled settings then [] else [TransactionsDisabledPeerFeature] in
  let maybeLocalAddressFeature :=
    if isLocal then [LocalAddressPeerFeature (Inet (getAddress (localAddress id)) (getPort (bindAddress settings)))] else [] in
  let maybeForgerNodeFeature := if isForgerNode settings then [ForgerNodePeerFeature] else [] in
  let feats := mandatoryFeatures ++ maybeTransactionDisabledFeature ++ maybeLocalAddressFeature ++ maybeForgerNodeFeature in
  let selfAddressOpt := getNodeAddressForPeer (localAddress id) in
  let handler := children s in
  let connectedPeer := Connected_ id handler now None in
  (Ctl (messageHandlers s) (<[remoteAddress id := connectedPeer]> (connections s))
     (unconfirmedConnections s ∖ {[ remoteAddress id ]}) (peersLastConnectionAttempts s)
     (lastIncomingMessageTime s) (N.succ (children s)),
   [StartHandler handler (Describe connection id selfAddressOpt feats)]).

Definition handleNewConnectionCreation (now : Z) (remote local : InetSocketAddress) (sender : ActorRef) (s : Controller)
    : Controller * list Out :=
  let connectionDirection := if bool_decide (remote ∈ unconfirmedConnections s) then Outgoing else Incoming in
  let id := ConnId remote local connectionDirection in
  if bool_decide (connectionDirection = Outgoing) && (canEstablishNewOutgoingConnection s || canEstablishNewForgerConnection s)
  then createPeerConnectionHandler now id sender s
  else if bool_decide (connectionDirection = Incoming) && canEstablishNewIncomingConnection s
  then (s, [ConfirmConnection id sender])
  else (s, [Close sender]).

(** The verdict on whom a connection turns out to be with: collectFirst of the
    session feature, and the address if there is none *)
Definition session_verdict (info : PeerInfo) (remote : InetSocketAddress) : bool :=
  match List.find (fun f => match f with SessionIdPeerFeature _ _ => true | _ => false end) (features (peerSpec info)) with
  | Some (SessionIdPeerFeature networkMagic sessionId) =>
      negb (bool_decide (networkMagic = magicBytes settings)) || (sessionId =? ownSessionId context)%Z
  | _ => isSelf remote
  end.

Definition handleHandshake (info : PeerInfo) (peerHandlerRef : ActorRef) (s : Controller) : Controller * list Out :=
  match connectionForHandler peerHandlerRef s with
  | None => (s, [])
  | Some connectedPeer =>
      let remote := cp_address connectedPeer in
      let peerAddress := default remote (address (peerSpec info)) in
      let shouldDrop :=
        match connectionForPeerAddress peerAddress s with
        | Some cp => negb (handlerRef cp =? peerHandlerRef)%N
        | None => false
        end || session_verdict info remote in
      let isForgerConnection := has_feature ForgerNodePeerFeature info && isForgerNode settings in
      let connectionLimitExhausted := isConnectionLimitExhausted info isForgerConnection s in
      if shouldDrop || connectionLimitExhausted
      then (set_connections (delete remote (connections s)) s,
            [CloseConnection (handlerRef connectedPeer); RemovePeer peerAddress])
      else
        let updatedConnectedPeer := set_peerInfo info connectedPeer in
        (set_connections (<[remote := updatedConnectedPeer]> (connections s)) s,
         [UpdatePeer info; PublishHandshaked updatedConnectedPeer])
  end.

Definition connectTo (peer : PeerInfo) (s : Controller) : Controller * list Out :=
  match getPeerAddress peer with
  | Some remote =>
      if bool_decide (connectionForPeerAddress remote s = None) && negb (bool_decide (remote ∈ unconfirmedConnections s))
      then (set_unconfirmed ({[ remote ]} ∪ unconfirmedConnections s) s, [Connect remote (connectionTimeout settings)])
      else (s, [])
  | None => (s, [])
  end.

(** getPeersWeAlreadyTriedToConnectFewTimeAgo *)
Definition recent_attempts (now : Z) (s : Controller) : list (option InetSocketAddress) :=
  let delta := toInt (toInt (zlen (knownPeers settings) + 1) * 5) in
  let thresholdInMillis := (tryNewConnectionAttemptDelay * delta)%Z in
  (fun entry => if (toLong (now - entry.2) <? thresholdInMillis)%Z then Some entry.1 else None)
    <$> peersLastConnectionAttempts s.

Definition connectionToPeer (now : Z) (active : gmap InetSocketAddress ConnectedPeer) (unconfirmed : gset InetSocketAddress)
    (s : Controller) : list Out :=
  let connectionsAddressSeq := omap peerInfo (values_of r active) in
  let peersAddresses := (getPeerAddress <$> connectionsAddressSeq) ++ (Some <$> elements_of r unconfirmed) in
  [RandomPeerForConnectionExcluding (peersAddresses ++ recent_attempts now s) (onlyConnectToKnownPeers settings)].

(** What runs when the peer manager has answered *)
Definition random_peer_found (now : Z) (found : option PeerInfo) (s : Controller) : Controller * list Out :=
  match found with
  | Some info =>
      match address (peerSpec info) with
      | Some a => (set_attempts (lru_put attempts_threshold a now (peersLastConnectionAttempts s)) s, [SelfConnectTo info])
      | None => (s, [])
      end
  | None => (s, [])
  end.

Definition connectionTask (now : Z) (s : Controller) : list Out :=
  if canEstablishNewOutgoingConnection s || canEstablishNewForgerConnection s
  then connectionToPeer now (connections s) (unconfirmedConnections s) s else [].

Definition droppingTask (now : Z) (s : Controller) : list Out :=
  omap (fun cp => if (inactiveConnectionDeadline settings <? toLong (now - lastMessage cp))%Z
                  then Some (CloseConnection (handlerRef cp)) else None) (connections_values s).

Definition closeConnection (peerAddress : InetSocketAddress) (s : Controller) : Controller * list Out :=
  (set_connections (filter (fun kv => cp_address kv.2 <> peerAddress) (connections s)) s,
   flat_map (fun cp => if bool_decide (cp_address cp = peerAddress)
                       then [CloseConnection (handlerRef cp); PublishDisconnected peerAddress] else [])
     (connections_values s)).

Definition closeConnectionFromNode (peerAddress : InetSocketAddress) (s : Controller) : Controller * list Out :=
  match connections s !! peerAddress with
  | Some cp => (set_connections (delete peerAddress (connections s)) s,
                [CloseConnection (handlerRef cp); PublishDisconnected peerAddress])
  | None => (s, [])
  end.

Definition message_from (now : Z) (msg : NetMessage) (remote : ConnectedPeer) (s : Controller) : Controller * list Out :=
  let out := match messageHandlers s !! messageCode msg with Some handler => [Forward handler msg] | None => [] end in
  let remoteAddress := cp_address remote in
  match connections s !! remoteAddress with
  | Some cp => (set_connections (<[remoteAddress := set_lastMessage now cp]> (connections s)) (set_lastIncoming now s), out)
  | None => (s, out)
  end.

(** ** receive *)

Definition handle (now : Z) (ev : In) (s : Controller) : Controller * list Out :=
  match ev with
  | Bound => (s, [])
  | BindFailed => (s, [ExitProcess; StopSelf])
  | StartConnectingPeers =>
      (s, ScheduleConnectionTask 5000 tryNewConnectionAttemptDelay :: connectionTask now s ++ [ScheduleDroppingTask 60000 60000])
  | ConnectionTask => (s, connectionTask now s)
  | DroppingTask => (s, droppingTask now s)
  | IncomingMessage msg =>
      match source msg with Some remote => message_from now msg remote s | None => (s, []) end
  | SendToNetwork msg strategy =>
      (s, chosen (filterConnections strategy (messageVersion msg) s) (fun l => (fun cp => Send (handlerRef cp) msg) <$> l))
  | RegisterMessageSpecs specs handler =>
      (set_handlers (foldl (fun m code => <[code := handler]> m) (messageHandlers s) specs) s, [])
  | ConnectTo peer => connectTo peer s
  | DisconnectFrom peer => (s, [CloseConnection (handlerRef peer)])
  | PenalizePeer a penalty => (s, [Penalize a penalty])
  | DisconnectFromAddress a => closeConnection a s
  | DisconnectFromNode a => closeConnectionFromNode a s
  | Connected remote local sender =>
      if isNewConnectionAndStillHaveRoom remote s then handleNewConnectionCreation now remote local sender s
      else (s, [Close sender])
  | ConnectionConfirmed id ref => createPeerConnectionHandler now id ref s
  | ConnectionDenied id ref => (s, [Close ref])
  | Handshaked info sender => handleHandshake info sender s
  | ConnectFailed remote =>
      (set_unconfirmed (unconfirmedConnections s ∖ {[ remote ]}) s,
       if (toLong (now - lastIncomingMessageTime s) <? connectionTimeout settings)%Z then [RemovePeer remote] else [])
  | Terminated ref =>
      match connectionForHandler ref s with
      | Some cp =>
          (set_unconfirmed (unconfirmedConnections s ∖ {[ cp_address cp ]})
             (set_connections (delete (cp_address cp) (connections s)) s),
           [PublishDisconnected (cp_address cp)])
      | None => (s, [])
      end
  | ConnectionClosed => (s, [])
  | ConnectionToPeer active unconfirmed => (s, connectionToPeer now active unconfirmed s)
  | RandomPeer found => random_peer_found now found s
  | GetPeersStatus => (s, [PeersStatus (lastIncomingMessageTime s) now])
  | GetConnectedPeers => (s, [ConnectedPeers (filter (fun cp => peerInfo cp <> None) (connections_values s))])
  | GetFilteredConnectedPeers strategy version =>
      (s, chosen (filterConnections strategy version s) (fun l => [ConnectedPeers l]))
  | ShutdownNetwork =>
      (s, chosen (filterConnections Broadcast Version_initial s)
            (fun l => ((fun cp => CloseConnection (handlerRef cp)) <$> l) ++ [Unbind; StopSelf]))
  | OtherInput => (s, [])
  end.

(** Messages one after the other, each with the clock reading of its handler *)
Fixpoint handle_all (evs : list (Z * In)) (s : Controller) : Controller * list Out :=
  match evs with
  | [] => (s, [])
  | (now, ev) :: evs' =>
      let '(s1, o1) := handle now ev s in
      let '(s2, o2) := handle_all evs' s1 in
      (s2, o1 ++ o2)
  end.
End Actor.
