(* ===== verification/ControllerThms.v ===== *)
(** * ControllerThms: runs of the network controller

    [reachable] are the states of the actor with what was sent so far.  What
    the subscribers of its events know is what it holds; the limits on accepted
    connections; whom a broadcast reaches; and the address that is never tried
    again. *)

From S2P Require Import Prelude Network MessageSpecs NetAddress PeerBuckets Controller.

Section Controller.
Context (settings : NetworkSettings) (context : SparkzContext).

(** ** Runs *)

(** What the runs below suppose, and the actor does not check: the peer manager
    confirms no connection from an address whose peer has shaken hands already,
    and a connection handler tells of one handshake, with the direction of its
    connection.  [second_confirmation] and [second_handshake] show what is lost
    otherwise. *)
Definition allowed (ev : In) (s : Controller) : Prop :=
  match ev with
  | ConnectionConfirmed id _ => forall cp, connections s !! remoteAddress id = Some cp -> peerInfo cp = None
  | Handshaked info sender =>
      forall a cp, connections s !! a = Some cp -> handlerRef cp = sender ->
        peerInfo cp = None /\ connectionType info = Some (direction (connectionId cp))
  | _ => True
  end.

Inductive reachable : Controller -> list Out -> Prop :=
| reach_start : reachable initial_controller []
| reach_step s os r now ev s' o : reachable s os -> order_ok r -> allowed ev s ->
    handle settings context r now ev s = (s', o) -> reachable s' (os ++ o).

(** ** The invariant *)

Record inv (s : Controller) : Prop := {
  inv_keys a cp : connections s !! a = Some cp -> cp_address cp = a;
  inv_fresh a cp : connections s !! a = Some cp -> (handlerRef cp < children s)%N;
  inv_handlers a b cp cq : connections s !! a = Some cp -> connections s !! b = Some cq ->
    handlerRef cp = handlerRef cq -> a = b
}.

Lemma elem_of_values r m cp : order_ok r -> cp ∈ values_of r m <-> exists a, m !! a = Some cp.
Proof.
  intros Hr. rewrite (values_ok _ Hr), list_elem_of_fmap. split.
  - intros ([a c] & -> & H). apply elem_of_map_to_list in H. by exists a.
  - intros [a H]. exists (a, cp). split; [done|]. by apply elem_of_map_to_list.
Qed.

Lemma find_Some_iff r P m : order_ok r ->
  match find P (values_of r m) with
  | Some cp => (exists a, m !! a = Some cp) /\ P cp = true
  | None => forall a cp, m !! a = Some cp -> P cp = false
  end.
Proof.
  intros Hr. unfold find. destruct (List.find P _) as [cp|] eqn:E.
  - apply find_some in E as [H1 H2]. split; [|done]. apply (elem_of_values r m cp Hr). by apply list_elem_of_In.
  - intros a cp H. apply (find_none _ _ E). apply list_elem_of_In, (elem_of_values r m cp Hr). eauto.
Qed.

Lemma handler_found r h s cp : order_ok r -> inv s -> connectionForHandler r h s = Some cp ->
  connections s !! cp_address cp = Some cp /\ handlerRef cp = h.
Proof.
  intros Hr Hi E. unfold connectionForHandler in E. pose proof (find_Some_iff r (fun cp => (handlerRef cp =? h)%N) (connections s) Hr) as H.
  unfold connections_values in E. rewrite E in H. destruct H as [[a Ha] H]. apply N.eqb_eq in H. split; [|done].
  by rewrite (inv_keys _ Hi _ _ Ha).
Qed.

Lemma address_free r a s : order_ok r -> inv s -> connectionForPeerAddress r a s = None -> connections s !! a = None.
Proof.
  intros Hr Hi E. unfold connectionForPeerAddress, connections_values in E.
  pose proof (find_Some_iff r (matches_address a) (connections s) Hr) as H. rewrite E in H.
  destruct (connections s !! a) as [cp|] eqn:Ec; [|done]. specialize (H a cp Ec).
  unfold matches_address in H. rewrite (inv_keys _ Hi _ _ Ec), bool_decide_true in H by done. done.
Qed.

(** The one value that contributes to a [flat_map] over the values *)
Lemma flat_map_one {A B} (f : A -> list B) l l' x : l ≡ₚ x :: l' -> (forall y, y ∈ l' -> f y = []) -> flat_map f l = f x.
Proof.
  intros Hp Hf. assert (Hx : x ∈ l) by (rewrite Hp; apply elem_of_cons; by left).
  apply list_elem_of_split in Hx as (l1 & l2 & ->). rewrite <- Permutation_middle in Hp. apply Permutation_cons_inv in Hp.
  assert (Hnil : forall k, (forall y, y ∈ k -> f y = []) -> flat_map f k = []).
  { induction k as [|y k IH]; intros H; [done|]. cbn. rewrite H by (apply elem_of_cons; by left).
    apply IH. intros z Hz. apply H, elem_of_cons. by right. }
  rewrite flat_map_app. cbn. rewrite !Hnil, app_nil_r; [done| |]; intros y Hy; apply Hf; rewrite <- Hp, elem_of_app; auto.
Qed.

(** Under the invariant, the two ways to close a connection by address agree. *)
Lemma close_agree r a s : order_ok r -> inv s -> closeConnection r a s = closeConnectionFromNode a s.
Proof.
  intros Hr Hi. unfold closeConnection, closeConnectionFromNode, connections_values.
  destruct (connections s !! a) as [cp|] eqn:E.
  - rewrite (flat_map_one _ _ (snd <$> map_to_list (delete a (connections s))) cp).
    + rewrite bool_decide_true by by apply (inv_keys _ Hi). do 2 f_equal.
      apply map_eq. intros b. destruct (decide (b = a)) as [->|Hb].
      * rewrite lookup_delete_eq. apply map_lookup_filter_None_2. right. intros cq Hq. cbn.
        rewrite (inv_keys _ Hi _ _ Hq). by intros H.
      * rewrite lookup_delete_ne by done. destruct (connections s !! b) as [cq|] eqn:Eb.
        -- apply map_lookup_filter_Some_2; [done|]. cbn. by rewrite (inv_keys _ Hi _ _ Eb).
        -- apply map_lookup_filter_None_2. by left.
    + rewrite (values_ok _ Hr), <- (map_to_list_delete _ _ _ E). done.
    + intros cq H. apply list_elem_of_fmap in H as ([b c] & -> & H). apply elem_of_map_to_list in H.
      apply lookup_delete_Some in H as [Hb H]. cbn. rewrite bool_decide_false; [done|]. by rewrite (inv_keys _ Hi _ _ H).
  - f_equal.
    + destruct s; unfold set_connections; cbn in *; f_equal. apply map_filter_id. intros b cq H ?. cbn in H.
      pose proof (inv_keys _ Hi _ _ H) as K. cbn in *. congruence.
    + assert (H : forall l, (forall cp, cp ∈ l -> cp_address cp <> a) ->
        flat_map (fun cp => if bool_decide (cp_address cp = a) then [CloseConnection (handlerRef cp); PublishDisconnected a] else []) l = []).
      { induction l as [|x l IH]; intros H; [done|]. cbn. rewrite bool_decide_false by (apply H, elem_of_cons; by left).
        apply IH. intros y Hy. apply H, elem_of_cons. by right. }
      apply H. intros cp Hcp Ha. apply (elem_of_values _ _ _ Hr) in Hcp as [b Hb].
      pose proof (inv_keys _ Hi _ _ Hb). congruence.
Qed.

(** ** What a message changes *)

Definition is_published (o : Out) : bool := match o with PublishHandshaked _ | PublishDisconnected _ => true | _ => false end.
Definition published (os : list Out) : list Out := filter (fun o => is_published o = true) os.

(** The peer of [cp] is let in with what it told in its handshake. *)
Record accepted (s : Controller) (cp : ConnectedPeer) (info : PeerInfo) : Prop := {
  acc_there : connections s !! cp_address cp = Some cp;
  acc_first : peerInfo cp = None;
  acc_type : connectionType info = Some (direction (connectionId cp));
  acc_session : session_verdict settings context info (cp_address cp) = false;
  acc_limit : isConnectionLimitExhausted settings info
                (has_feature ForgerNodePeerFeature info && isForgerNode settings) s = false
}.

Inductive change (s s' : Controller) (os : list Out) : Prop :=
| change_none : connections s' = connections s -> children s' = children s -> published os = [] -> change s s' os
| change_touch a cp t : connections s !! a = Some cp -> children s' = children s ->
    connections s' = <[a := set_lastMessage t cp]> (connections s) -> published os = [] -> change s s' os
| change_new id t : (forall cp, connections s !! remoteAddress id = Some cp -> peerInfo cp = None) -> children s' = N.succ (children s) ->
    connections s' = <[remoteAddress id := Connected_ id (children s) t None]> (connections s) ->
    published os = [] -> change s s' os
| change_accept cp info : accepted s cp info -> children s' = children s ->
    connections s' = <[cp_address cp := set_peerInfo info cp]> (connections s) ->
    published os = [PublishHandshaked (set_peerInfo info cp)] -> change s s' os
| change_reject cp : connections s !! cp_address cp = Some cp -> peerInfo cp = None -> children s' = children s ->
    connections s' = delete (cp_address cp) (connections s) -> published os = [] -> change s s' os
| change_gone a cp : connections s !! a = Some cp -> children s' = children s ->
    connections s' = delete a (connections s) -> published os = [PublishDisconnected a] -> change s s' os.

Lemma published_none os : Forall (fun o => is_published o = false) os -> published os = [].
Proof. unfold published. induction 1 as [|o os H _ IH]; [done|]. rewrite filter_cons_False by congruence. done. Qed.

Lemma published_fmap {A} (f : A -> Out) l : (forall x, is_published (f x) = false) -> published (f <$> l) = [].
Proof. intros H. apply published_none, Forall_fmap, Forall_forall. intros x _. apply H. Qed.

Lemma published_omap {A} (f : A -> option Out) l : (forall x o, f x = Some o -> is_published o = false) -> published (omap f l) = [].
Proof. intros H. apply published_none, Forall_forall. intros o Ho. apply list_elem_of_omap in Ho as (x & _ & E). eauto. Qed.

Lemma published_app l k : published (l ++ k) = published l ++ published k.
Proof. apply filter_app. Qed.

Lemma published_chosen t k : (forall l, published (k l) = []) -> published (chosen t k) = [].
Proof. intros H. destruct t; cbn; [apply H|done]. Qed.

Lemma published_task r now s : published (connectionTask settings r now s) = [].
Proof. unfold connectionTask. by case_match. Qed.

Ltac unchanged := apply change_none; [done|done|].

Lemma gone_change a s s' os : closeConnectionFromNode a s = (s', os) -> change s s' os.
Proof.
  unfold closeConnectionFromNode. destruct (connections s !! a) as [cp|] eqn:E; intros [= <- <-]; [|by unchanged].
  by apply (change_gone _ _ _ a cp).
Qed.

Lemma create_change now id ref s s' os : (forall cp, connections s !! remoteAddress id = Some cp -> peerInfo cp = None) ->
  createPeerConnectionHandler settings context now id ref s = (s', os) -> change s s' os.
Proof. intros H [= <- <-]. by apply (change_new _ _ _ id now). Qed.

Lemma handshake_change r now info sender s s' os : order_ok r -> inv s -> allowed (Handshaked info sender) s ->
  handle settings context r now (Handshaked info sender) s = (s', os) -> change s s' os.
Proof.
  intros Hr Hi Ha. cbn. unfold handleHandshake. destruct (connectionForHandler r sender s) as [cp|] eqn:E.
  - destruct (handler_found _ _ _ _ Hr Hi E) as [Hc Hh]. destruct (Ha _ _ Hc Hh) as [Hp Ht].
    destruct (_ || isConnectionLimitExhausted _ _ _ _) eqn:Ed; intros [= <- <-].
    + by apply (change_reject _ _ _ cp).
    + apply orb_false_iff in Ed as [Ed El]. apply orb_false_iff in Ed as [_ Es].
      apply (change_accept _ _ _ cp info); [by split|done|done|done].
  - intros [= <- <-]. by unchanged.
Qed.

Lemma handle_change r now ev s s' os : order_ok r -> inv s -> allowed ev s ->
  handle settings context r now ev s = (s', os) -> change s s' os.
Proof.
  intros Hr Hi Ha. destruct ev; try (by apply handshake_change); cbn [handle]; try (intros [= <- <-]; by unchanged).
  - intros [= <- <-]. unchanged. unfold published. rewrite filter_cons_False, filter_app by done.
    fold (published (connectionTask settings r now s)). by rewrite published_task.
  - intros [= <- <-]. unchanged. apply published_task.
  - intros [= <- <-]. unchanged. apply published_omap. intros cp o E. by case_match; simplify_eq.
  - destruct (source msg) as [cp|]; [|intros [= <- <-]; by unchanged]. unfold message_from.
    destruct (connections s !! cp_address cp) as [c|] eqn:E; intros [= <- <-].
    + apply (change_touch _ _ _ (cp_address cp) c now); [done|done|done|]. by case_match.
    + unchanged. by case_match.
  - intros [= <- <-]. unchanged. apply published_chosen. intros l. by apply published_fmap.
  - unfold connectTo. repeat case_match; intros [= <- <-]; by unchanged.
  - rewrite close_agree by done. apply gone_change.
  - apply gone_change.
  - unfold isNewConnectionAndStillHaveRoom. destruct (_ && _) eqn:E; [|intros [= <- <-]; by unchanged].
    apply andb_true_iff in E as [E _]. apply bool_decide_eq_true in E. apply (address_free _ _ _ Hr Hi) in E.
    unfold handleNewConnectionCreation. destruct (bool_decide _ && (_ || _)).
    + apply create_change. cbn. intros cp. by rewrite E.
    + case_match; intros [= <- <-]; by unchanged.
  - by apply create_change.
  - intros [= <- <-]. unchanged. by case_match.
  - destruct (connectionForHandler r ref s) as [cp|] eqn:E; intros [= <- <-]; [|by unchanged].
    destruct (handler_found _ _ _ _ Hr Hi E) as [Hc _]. by apply (change_gone _ _ _ (cp_address cp) cp).
  - unfold random_peer_found. repeat case_match; intros [= <- <-]; by unchanged.
  - intros [= <- <-]. unchanged. by apply published_chosen.
  - intros [= <- <-]. unchanged. by rewrite published_app, published_fmap.
Qed.

Lemma change_inv s s' os : inv s -> change s s' os -> inv s'.
Proof.
  intros [Hk Hf Hh] C.
  assert (Hupd : forall a cp cp', connections s !! a = Some cp -> connectionId cp' = connectionId cp ->
    handlerRef cp' = handlerRef cp -> children s' = children s -> connections s' = <[a := cp']> (connections s) -> inv s').
  { intros a cp cp' Hc Hid Href Hch Hs. assert (L : forall b c, connections s' !! b = Some c ->
      exists c0, connections s !! b = Some c0 /\ cp_address c = cp_address c0 /\ handlerRef c = handlerRef c0).
    { intros b c H. rewrite Hs in H. apply lookup_insert_Some in H as [[<- <-]|[_ H]]; [|by exists c].
      exists cp. unfold cp_address. by rewrite Hid. }
    split.
    - intros b c H. apply L in H as (c0 & H & -> & _). eauto.
    - intros b c H. apply L in H as (c0 & H & _ & ->). rewrite Hch. eauto.
    - intros b b' c c' H H' E. apply L in H as (c0 & H & _ & E0). apply L in H' as (c0' & H' & _ & E0').
      apply (Hh _ _ _ _ H H'). congruence. }
  assert (Hsub : connections s' ⊆ connections s -> children s' = children s -> inv s').
  { intros Hs Hch. split; intros; rewrite ?Hch; eauto using lookup_weaken. }
  destruct C as [Hs Hc _|a cp t Ha Hc Hs _|id t Ha Hc Hs _|cp info A Hc Hs _|cp Ha _ Hc Hs _|a cp Ha Hc Hs _].
  - apply Hsub; [by rewrite Hs|done].
  - by apply (Hupd a cp (set_lastMessage t cp)).
  - split.
    + intros b c H. rewrite Hs in H. apply lookup_insert_Some in H as [[<- <-]|[_ H]]; [done|eauto].
    + intros b c H. rewrite Hs in H. rewrite Hc. apply lookup_insert_Some in H as [[<- <-]|[_ H]]; cbn; [lia|]. specialize (Hf _ _ H). lia.
    + intros b b' c c' H H' E. rewrite Hs in H, H'.
      apply lookup_insert_Some in H as [[<- <-]|[_ H]], H' as [[<- <-]|[_ H']]; cbn in E; [done| | |eauto].
      * specialize (Hf _ _ H'). lia.
      * specialize (Hf _ _ H). lia.
  - by apply (Hupd (cp_address cp) cp (set_peerInfo info cp)); [apply A|..].
  - apply Hsub; [rewrite Hs; apply delete_subseteq|done].
  - apply Hsub; [rewrite Hs; apply delete_subseteq|done].
Qed.

Lemma inv_initial : inv initial_controller.
Proof. split; cbn; intros; by rewrite lookup_empty in *. Qed.

Lemma controller_inv s os : reachable s os -> inv s.
Proof.
  induction 1 as [|s os r now ev s' o _ IH Hr Ha E]; [apply inv_initial|].
  eapply change_inv; [exact IH|]. by eapply handle_change.
Qed.

(** Rule induction on the runs, by the changes *)
Lemma reachable_changes (P : Controller -> list Out -> Prop) :
  P initial_controller [] ->
  (forall s os s' o, reachable s os -> inv s -> P s os -> change s s' o -> P s' (os ++ o)) ->
  forall s os, reachable s os -> P s os.
Proof.
  intros H0 Hs s os R. induction R as [|s os r now ev s' o R IH Hr Ha E]; [done|].
  pose proof (controller_inv _ _ R) as Hi. apply (Hs s); [done|done|done|]. by eapply handle_change.
Qed.

(** ** What subscribers know *)

(** What tells one accepted connection from another; when it was last heard of is not told. *)
Definition told_of (cp : ConnectedPeer) : option (ConnectionId * ActorRef * PeerInfo) :=
  (fun i => (connectionId cp, handlerRef cp, i)) <$> peerInfo cp.

Definition learn (m : gmap InetSocketAddress (ConnectionId * ActorRef * PeerInfo)) (o : Out) :=
  match o with
  | PublishHandshaked cp => partial_alter (fun _ => told_of cp) (cp_address cp) m
  | PublishDisconnected a => delete a m
  | _ => m
  end.
Definition told (os : list Out) : gmap InetSocketAddress (ConnectionId * ActorRef * PeerInfo) := foldl learn ∅ os.

Lemma learn_published os : forall m, foldl learn m os = foldl learn m (published os).
Proof.
  unfold published. induction os as [|o os IH]; intros m; [done|]. cbn [foldl]. rewrite IH, filter_cons.
  destruct o; cbn; reflexivity.
Qed.

Lemma told_app os o : told (os ++ o) = foldl learn (told os) (published o).
Proof. unfold told. by rewrite foldl_app, learn_published. Qed.

(** ** Counting *)

Abbreviation count P m := (size (filter (fun kv : InetSocketAddress * ConnectedPeer => P kv.2 = true) (m : gmap InetSocketAddress ConnectedPeer))).

Lemma count_le (P Q : ConnectedPeer -> bool) m m' :
  (forall a cp, m !! a = Some cp -> P cp = true -> exists cp', m' !! a = Some cp' /\ Q cp' = true) -> count P m <= count Q m'.
Proof.
  intros H. rewrite <- !(size_dom (D := gset InetSocketAddress)). apply subseteq_size. intros a Ha.
  apply elem_of_dom in Ha as [cp Hcp]. apply map_lookup_filter_Some in Hcp as [Hcp HP]. cbn in HP.
  destruct (H a cp Hcp HP) as (cp' & H1 & H2). apply elem_of_dom. exists cp'. by apply map_lookup_filter_Some_2.
Qed.

Lemma count_insert_le (P : ConnectedPeer -> bool) m a cp : count P (<[a := cp]> m) <= S (count P m).
Proof.
  destruct (P cp) eqn:E.
  - rewrite map_filter_insert_True by done. rewrite map_size_insert. case_match; cbv beta delta [id]; lia.
  - transitivity (count P m); [|lia]. apply count_le. intros b c H Hc. apply lookup_insert_Some in H as [[_ <-]|[_ H]]; [congruence|eauto].
Qed.

(** Accepted and counted against the limit of its direction *)
Definition counted (d : ConnectionDirection) (cp : ConnectedPeer) : bool :=
  bool_decide (is_Some (peerInfo cp)) && has_direction d cp && negb (is_forger cp && isForgerNode settings).

Definition limit (d : ConnectionDirection) : Z :=
  match d with Incoming => maxIncomingConnections settings | Outgoing => maxOutgoingConnections settings end.

Lemma limit_of_accepted s cp info d : accepted s cp info -> counted d (set_peerInfo info cp) = true ->
  (count_connections (has_direction d) s <= limit d)%Z.
Proof.
  intros [_ _ Ht _ Hl] Hc. unfold counted, is_forger in Hc. cbn in Hc.
  apply andb_true_iff in Hc as [Hd Hf]. unfold has_direction in Hd. cbn in Hd. apply bool_decide_eq_true in Hd.
  unfold isConnectionLimitExhausted in Hl. rewrite Hf, Ht, Hd in Hl.
  apply orb_false_iff in Hl as [Hl H2]. apply orb_false_iff in Hl as [_ H1].
  destruct d; cbn in H1, H2 |- *.
  - by apply Z.ltb_ge in H1.
  - by apply Z.ltb_ge in H2.
Qed.

(** A change adds to a count only by letting a peer in. *)
Lemma change_count (P : ConnectedPeer -> bool) s s' os : change s s' os ->
  (forall cp t, P (set_lastMessage t cp) = P cp) -> (forall cp, peerInfo cp = None -> P cp = false) ->
  count P (connections s') <= count P (connections s) \/
  exists cp info, accepted s cp info /\ P (set_peerInfo info cp) = true /\
    connections s' = <[cp_address cp := set_peerInfo info cp]> (connections s).
Proof.
  intros C Ht Hn.
  assert (Hsub : connections s' ⊆ connections s -> count P (connections s') <= count P (connections s)).
  { intros Hs. apply count_le. eauto using lookup_weaken. }
  destruct C as [Hs _ _|a cp t Ha _ Hs _|id t Ha _ Hs _|cp info A _ Hs _|cp Ha _ _ Hs _|a cp Ha _ Hs _].
  - left. by rewrite Hs.
  - left. rewrite Hs. apply count_le. intros b c H Hc. apply lookup_insert_Some in H as [[<- <-]|[_ H]]; [|eauto].
    exists cp. by rewrite <- (Ht cp t).
  - left. rewrite Hs. apply count_le. intros b c H Hc. apply lookup_insert_Some in H as [[<- <-]|[_ H]]; [|eauto].
    by rewrite Hn in Hc.
  - destruct (P (set_peerInfo info cp)) eqn:E; [right; by exists cp, info|left].
    rewrite Hs. apply count_le. intros b c H Hc. apply lookup_insert_Some in H as [[<- <-]|[_ H]]; [congruence|eauto].
  - left. apply Hsub. rewrite Hs. apply delete_subseteq.
  - left. apply Hsub. rewrite Hs. apply delete_subseteq.
Qed.

Lemma counted_change d s s' os : inv s -> change s s' os -> (Z.of_nat (count (counted d) (connections s)) <= limit d)%Z ->
  (Z.of_nat (count (counted d) (connections s')) <= limit d)%Z.
Proof.
  intros Hi C H. apply (change_count (counted d)) in C; [|done|].
  - destruct C as [C|(cp & info & A & E & Hs)]; [lia|].
    pose proof (limit_of_accepted s cp info d A E) as L. unfold count_connections in L.
    enough (count (counted d) (connections s') <= count (has_direction d) (connections s)) by lia.
    assert (Hd : forall c, counted d c = true -> has_direction d c = true).
    { intros c Hc. apply andb_true_iff in Hc as [Hc _]. by apply andb_true_iff in Hc as [_ Hc]. }
    rewrite Hs. apply count_le. intros b c Hb Hc. apply lookup_insert_Some in Hb as [[<- <-]|[_ Hb]]; [|eauto].
    exists cp. split; [apply A|]. apply Hd in E. exact E.
  - intros cp Hn. unfold counted. by rewrite Hn.
Qed.

Lemma forgers_change s s' os : isForgerNode settings = true -> inv s -> change s s' os ->
  (Z.of_nat (count is_forger (connections s)) <= maxForgerConnections settings + 1)%Z ->
  (Z.of_nat (count is_forger (connections s')) <= maxForgerConnections settings + 1)%Z.
Proof.
  intros Hf Hi C H. apply (change_count is_forger) in C; [|done|].
  - destruct C as [C|(cp & info & A & E & Hs)]; [lia|]. destruct A as [_ _ _ _ Hl].
    unfold is_forger in E. cbn in E. unfold isConnectionLimitExhausted in Hl. rewrite E, Hf in Hl. cbn in Hl.
    rewrite !orb_false_r in Hl. apply Z.ltb_ge in Hl. unfold getForgerConnectionsSize, count_connections in Hl.
    rewrite Hs. pose proof (count_insert_le is_forger (connections s) (cp_address cp) (set_peerInfo info cp)). lia.
  - intros cp Hn. unfold is_forger. by rewrite Hn.
Qed.

(** ** Sending *)

(** Of the peers that support a message, those a broadcast is for *)
Definition wanted (strategy : SendingStrategy) : option (ConnectedPeer -> bool) :=
  match strategy with
  | Broadcast | BroadcastBlock => Some (fun _ => true)
  | BroadcastTransaction => Some (fun cp => negb (disables_transactions cp))
  | BroadcastExceptOf exceptOf => Some (fun cp => negb (bool_decide (cp_address cp ∈ cp_address <$> exceptOf)))
  | _ => None
  end.

Lemma filter_perm_split {A} (f : A -> bool) (l : list A) :
  filter (fun x => f x = true) l ++ filter (fun x => f x = false) l ≡ₚ l.
Proof.
  induction l as [|x l IH]; [done|]. destruct (f x) eqn:E.
  - rewrite filter_cons_True, filter_cons_False by congruence. cbn [app]. by rewrite IH.
  - rewrite filter_cons_False, filter_cons_True by congruence. by rewrite <- Permutation_middle, IH.
Qed.

Lemma choose_wanted r strategy P l : wanted strategy = Some P ->
  exists k, choose r strategy l = Success k /\ k ≡ₚ filter (fun cp => P cp = true) l.
Proof.
  destruct strategy; intros [= <-]; eexists; (split; [reflexivity|]).
  - by rewrite filter_all by by apply Forall_forall.
  - apply reflexive_eq, list_filter_iff. intros cp. by rewrite negb_true_iff.
  - rewrite filter_perm_split. by rewrite filter_all by by apply Forall_forall.
  - apply reflexive_eq, list_filter_iff. intros cp. by rewrite negb_true_iff, bool_decide_eq_false.
Qed.

Lemma values_NoDup r s : order_ok r -> inv s -> NoDup (handlerRef <$> values_of r (connections s)).
Proof.
  intros Hr Hi. rewrite (values_ok _ Hr), <- list_fmap_compose.
  apply NoDup_fmap_2_strong; [|apply NoDup_map_to_list].
  intros [a cp] [b cq] Ha Hb E. apply elem_of_map_to_list in Ha, Hb. cbn in E.
  pose proof (inv_handlers _ Hi _ _ _ _ Ha Hb E). subst b. congruence.
Qed.

(** ** An address that is waited for *)

(** The messages by which a wait for the address can end *)
Definition frees (a : InetSocketAddress) (ev : In) : Prop :=
  match ev with
  | Connected remote _ _ | ConnectFailed remote => remote = a
  | ConnectionConfirmed id _ => remoteAddress id = a
  | _ => False
  end.

Definition waits (a : InetSocketAddress) (s : Controller) : Prop := a ∈ unconfirmedConnections s /\ connections s !! a = None.
Definition connects (a : InetSocketAddress) (o : Out) : Prop := exists t, o = Connect a t.

Lemma no_connect_chosen a t k : (forall l, Forall (fun o => ~ connects a o) (k l)) -> Forall (fun o => ~ connects a o) (chosen t k).
Proof. intros H. destruct t; [apply H|]. repeat constructor. by intros [? ?]. Qed.

Lemma no_connect_fmap {A} a (f : A -> Out) l : (forall x, ~ connects a (f x)) -> Forall (fun o => ~ connects a o) (f <$> l).
Proof. intros H. apply Forall_fmap, Forall_forall. intros x _. apply H. Qed.

Ltac no_connect := repeat constructor; intros [? ?]; discriminate.

Lemma waits_none a s s' o : waits a s -> unconfirmedConnections s' = unconfirmedConnections s -> connections s' ⊆ connections s ->
  Forall (fun o => ~ connects a o) o -> waits a s' /\ Forall (fun o => ~ connects a o) o.
Proof.
  intros [H1 H2] Hu Hs Ho. split; [|done]. split; [by rewrite Hu|]. eapply lookup_weaken_None; done.
Qed.

Lemma task_no_connect r now a s : Forall (fun o => ~ connects a o) (connectionTask settings r now s).
Proof. unfold connectionTask. case_match; no_connect. Qed.

Lemma create_waits a now id ref s s' o : waits a s -> remoteAddress id <> a ->
  createPeerConnectionHandler settings context now id ref s = (s', o) -> waits a s' /\ Forall (fun o => ~ connects a o) o.
Proof.
  intros [H1 H2] Hne [= <- <-]. split; [split; cbn|no_connect].
  - apply elem_of_difference. split; [done|]. rewrite elem_of_singleton. by intros ->.
  - by rewrite lookup_insert_ne.
Qed.

Lemma handle_waits r now ev a s s' o : order_ok r -> inv s -> waits a s -> ~ frees a ev ->
  handle settings context r now ev s = (s', o) -> waits a s' /\ Forall (fun o => ~ connects a o) o.
Proof.
  intros Hr Hi W F E. pose proof W as [W1 W2].
  destruct ev; cbn [handle frees] in E, F; try (injection E as <- <-; by apply (waits_none a s); [..|no_connect]).
  - injection E as <- <-. apply (waits_none a s); [done..|]. constructor; [by intros [? ?]|]. apply Forall_app. split; [apply task_no_connect|no_connect].
  - injection E as <- <-. apply (waits_none a s); [done..|apply task_no_connect].
  - injection E as <- <-. apply (waits_none a s); [done..|]. apply Forall_forall. intros o Ho. apply list_elem_of_omap in Ho as (cp & _ & E).
    case_match; simplify_eq. by intros [? ?].
  - destruct (source msg) as [cp|]; [|injection E as <- <-; by apply (waits_none a s)]. unfold message_from in E.
    destruct (connections s !! cp_address cp) as [c|] eqn:Ec; injection E as <- <-.
    + split; [|case_match; no_connect]. split; [done|]. cbn. rewrite lookup_insert_ne; [done|]. congruence.
    + apply (waits_none a s); [done..|]. case_match; no_connect.
  - injection E as <- <-. apply (waits_none a s); [done..|]. apply no_connect_chosen. intros l. apply no_connect_fmap. by intros x [? ?].
  - unfold connectTo in E. destruct (getPeerAddress peer) as [remote|]; [|injection E as <- <-; by apply (waits_none a s)].
    destruct (_ && _) eqn:Ed; injection E as <- <-; [|by apply (waits_none a s)].
    apply andb_true_iff in Ed as [_ Ed]. apply negb_true_iff, bool_decide_eq_false in Ed.
    split; [split; [cbn; by apply elem_of_union_r|done]|]. repeat constructor. intros [t [= ->]]. done.
  - injection E as <- <-. apply (waits_none a s); [done|done|apply map_filter_subseteq|].
    apply Forall_forall. intros o Ho. apply list_elem_of_In, in_flat_map in Ho as (cp & _ & Ho). case_match; [|done].
    destruct Ho as [<-|[<-|[]]]; by intros [? ?].
  - unfold closeConnectionFromNode in E. destruct (connections s !! address); injection E as <- <-; [|by apply (waits_none a s)].
    apply (waits_none a s); [done|done|apply delete_subseteq|no_connect].
  - destruct (isNewConnectionAndStillHaveRoom settings r remote s); [|injection E as <- <-; apply (waits_none a s); [done..|no_connect]].
    unfold handleNewConnectionCreation in E. destruct (bool_decide _ && (_ || _)); [eapply create_waits; [exact W| |exact E]; exact F|].
    case_match; injection E as <- <-; apply (waits_none a s); (done || no_connect).
  - eapply create_waits; [exact W| |exact E]; exact F.
  - unfold handleHandshake in E. destruct (connectionForHandler r sender s) as [cp|] eqn:Ec; [|injection E as <- <-; by apply (waits_none a s)].
    destruct (handler_found _ _ _ _ Hr Hi Ec) as [Hc _].
    case_match; injection E as <- <-; [apply (waits_none a s); [done|done|apply delete_subseteq|no_connect]|].
    split; [split; [done|]|no_connect]. cbn. rewrite lookup_insert_ne; [done|]. congruence.
  - injection E as <- <-. split; [split; [|done]|case_match; no_connect]. cbn. apply elem_of_difference. split; [done|].
    rewrite elem_of_singleton. by intros ->.
  - destruct (connectionForHandler r ref s) as [cp|] eqn:Ec; injection E as <- <-; [|by apply (waits_none a s)].
    destruct (handler_found _ _ _ _ Hr Hi Ec) as [Hc _]. split; [split; cbn|no_connect].
    + apply elem_of_difference. split; [done|]. rewrite elem_of_singleton. congruence.
    + rewrite lookup_delete_ne; [done|]. congruence.
  - unfold random_peer_found in E. repeat case_match; injection E as <- <-; (apply (waits_none a s); [done..|no_connect]).
  - injection E as <- <-. apply (waits_none a s); [done..|]. apply no_connect_chosen. intros l. no_connect.
  - injection E as <- <-. apply (waits_none a s); [done..|]. apply Forall_app. split; [|no_connect].
    apply no_connect_fmap. by intros x [? ?].
Qed.

(** Runs from a state, with the messages taken *)
Inductive run_from (s : Controller) : list In -> Controller -> list Out -> Prop :=
| run_nil : run_from s [] s []
| run_snoc evs s1 os r now ev s2 o : run_from s evs s1 os -> order_ok r -> allowed ev s1 ->
    handle settings context r now ev s1 = (s2, o) -> run_from s (evs ++ [ev]) s2 (os ++ o).

Lemma reachable_steps s os evs s' os' : reachable s os -> run_from s evs s' os' -> reachable s' (os ++ os').
Proof.
  intros R. induction 1 as [|evs s1 os1 r now ev s2 o _ IH Hr Ha E]; [by rewrite app_nil_r|].
  rewrite app_assoc. by eapply reach_step.
Qed.

(** ** Properties *)

(** C7: what a subscriber of the actor's events has been told, accepted peers
    added and disconnected ones removed, is exactly the connections with a
    completed handshake, each with its handler and what its peer told: after
    every run in which no connection is confirmed from an address whose peer has
    shaken hands already, and no connection handler tells of a second handshake or
    of another direction than that of its connection ([allowed]). *)
Theorem subscribers_exact s os : reachable s os -> told os = omap told_of (connections s).
Proof.
  revert s os. apply reachable_changes; [done|]. intros s os s' o R Hi IH C. rewrite told_app, IH. clear IH R os.
  destruct C as [Hs _ ->|a cp t Ha _ Hs ->|id t Ha _ Hs ->|cp info A _ Hs ->|cp Ha Hn _ Hs ->|a cp Ha _ Hs ->]; cbn [foldl learn]; rewrite Hs.
  - done.
  - apply map_eq. intros b. rewrite !lookup_omap. destruct (decide (b = a)) as [->|Hb]; [|by rewrite lookup_insert_ne].
    by rewrite lookup_insert_eq, Ha.
  - apply map_eq. intros b. rewrite !lookup_omap. destruct (decide (b = remoteAddress id)) as [->|Hb]; [|by rewrite lookup_insert_ne].
    rewrite lookup_insert_eq. destruct (connections s !! remoteAddress id) as [cp|] eqn:E; [|done]. cbn. unfold told_of at 1. by rewrite (Ha cp eq_refl).
  - apply map_eq. intros b. change (cp_address (set_peerInfo info cp)) with (cp_address cp).
    destruct (decide (b = cp_address cp)) as [->|Hb].
    + by rewrite lookup_partial_alter_eq, lookup_omap, lookup_insert_eq.
    + by rewrite lookup_partial_alter_ne, !lookup_omap, lookup_insert_ne.
  - apply map_eq. intros b. rewrite !lookup_omap. destruct (decide (b = cp_address cp)) as [->|Hb]; [|by rewrite lookup_delete_ne].
    rewrite lookup_delete_eq, Ha. cbn. unfold told_of. by rewrite Hn.
  - apply map_eq. intros b. rewrite lookup_omap. destruct (decide (b = a)) as [->|Hb].
    + by rewrite !lookup_delete_eq.
    + by rewrite !lookup_delete_ne, lookup_omap.
Qed.

(** C8: however many connections are accepted while their handshakes are awaited,
    the peers let in of each direction stay within its limit, those counted as
    forgers aside, and a forging node lets in at most one forger more than its limit. *)
Theorem limits_kept s os : reachable s os ->
  (0 <= maxIncomingConnections settings)%Z -> (0 <= maxOutgoingConnections settings)%Z -> (0 <= maxForgerConnections settings)%Z ->
  (count_connections (counted Incoming) s <= maxIncomingConnections settings)%Z /\
  (count_connections (counted Outgoing) s <= maxOutgoingConnections settings)%Z /\
  (isForgerNode settings = true -> getForgerConnectionsSize s <= maxForgerConnections settings + 1)%Z.
Proof.
  intros R Hi Ho Hf. unfold getForgerConnectionsSize, count_connections. revert s os R. apply reachable_changes.
  - cbn. rewrite !map_filter_empty, map_size_empty. lia.
  - intros s os s' o R I (IH1 & IH2 & IH3) C. split_and!.
    + by apply (counted_change Incoming s s' o).
    + by apply (counted_change Outgoing s s' o).
    + intros F. by apply (forgers_change s s' o); [..|apply IH3].
Qed.

(** C31: a broadcast goes once to each connected peer whose handshake told of a
    version that supports the message and whom the strategy is for, and to no other. *)
Theorem broadcast_reaches s os r now msg strategy P : reachable s os -> order_ok r -> wanted strategy = Some P ->
  exists o, handle settings context r now (SendToNetwork msg strategy) s = (s, o) /\ NoDup o /\
    forall x, x ∈ o <-> exists a cp, connections s !! a = Some cp /\ supports (messageVersion msg) cp = true /\ P cp = true /\
      x = Send (handlerRef cp) msg.
Proof.
  intros R Hr HP. pose proof (controller_inv _ _ R) as Hi. cbn [handle]. unfold filterConnections, connections_values.
  destruct (choose_wanted r strategy P (filter (fun cp => supports (messageVersion msg) cp = true) (values_of r (connections s))) HP) as (k & -> & Hk).
  eexists. split; [reflexivity|]. cbn [chosen]. split.
  - rewrite (list_fmap_compose handlerRef (fun h => Send h msg)). apply NoDup_fmap_2; [intros ?? [=]; done|].
    rewrite Hk. eapply sublist_NoDup; [by apply (values_NoDup r s)|]. apply fmap_sublist. etrans; apply sublist_filter.
  - intros x. rewrite list_elem_of_fmap. split.
    + intros (cp & -> & H). rewrite Hk, !list_elem_of_filter, (elem_of_values _ _ _ Hr) in H. destruct H as (? & ? & a & ?). eauto 8.
    + intros (a & cp & H1 & H2 & H3 & ->). exists cp. split; [done|].
      rewrite Hk, !list_elem_of_filter, (elem_of_values _ _ _ Hr). eauto.
Qed.

(** C32: an address whose own connection was refused, because there is no room or
    its peer is connected already, stays among the unconfirmed ones: whatever
    happens then, as long as nothing is heard of that address, it is never
    connected to again. *)
Theorem refused_never_retried s os r now a local ref s1 evs s2 o : reachable s os -> order_ok r ->
  a ∈ unconfirmedConnections s -> connections s !! a = None ->
  handle settings context r now (Connected a local ref) s = (s1, [Close ref]) ->
  run_from s1 evs s2 o -> Forall (fun ev => ~ frees a ev) evs ->
  a ∈ unconfirmedConnections s2 /\ forall t, Connect a t ∉ o.
Proof.
  intros R Hr Hu Hn E St Fr. assert (s1 = s) as ->.
  { cbn [handle] in E. unfold handleNewConnectionCreation in E. repeat case_match; by simplify_eq. }
  clear E.
  assert (W : waits a s2 /\ Forall (fun o => ~ connects a o) o).
  { induction St as [|evs s1 os1 r' now' ev s3 o St IH Hr' Ha E]; [by split|].
    apply Forall_app in Fr as [Fr1 Fr2]. apply Forall_cons_1 in Fr2 as [Fr2 _]. destruct (IH Fr1) as [W Fo].
    pose proof (controller_inv _ _ (reachable_steps _ _ _ _ _ R St)) as Hi.
    destruct (handle_waits _ _ _ _ _ _ _ Hr' Hi W Fr2 E) as [W' Fo']. split; [done|]. by apply Forall_app. }
  destruct W as [[W _] Fo]. split; [done|]. intros t H. rewrite Forall_forall in Fo. apply (Fo _ H). by exists t.
Qed.

End Controller.

(** ** Witnesses *)

Definition map_order : Order := {|
  values_of m := snd <$> map_to_list m;
  elements_of m := elements m;
  nextInt _ := 0%Z
|}.

Lemma map_order_ok : order_ok map_order.
Proof. split; cbn; intros; (done || lia). Qed.

Definition addr (n : Z) : InetSocketAddress := Inet [z2b 8; z2b 8; z2b 8; z2b n] 9084.

(** A forging node with room for one incoming and one outgoing peer and no other forger *)
Definition small_node : NetworkSettings := {|
  maxIncomingConnections := 1; maxOutgoingConnections := 1; maxForgerConnections := 0;
  connectionTimeout := 1000; inactiveConnectionDeadline := 60000; isForgerNode := true;
  handlingTransactionsEnabled := true; onlyConnectToKnownPeers := false; bindAddress := addr 1; knownPeers := [];
  magicBytes := [z2b 1; z2b 2; z2b 3; z2b 4]
|}.
Definition small_context : SparkzContext := {| ownFeatures := []; externalNodeAddress := None; interfaces := []; ownSessionId := 7 |}.

Definition told_by (feats : list PeerFeature) (d : ConnectionDirection) : PeerInfo :=
  Info (Spec [] (Ver 0 0 1) [] None (SessionIdPeerFeature [z2b 1; z2b 2; z2b 3; z2b 4] 8 :: feats)) 5 (Some d).

(** A run: an incoming forger is let in, an outgoing peer is let in, a third is refused. *)
Definition one_run : list (Z * In) := [
  (1, Connected (addr 2) (addr 1) 100); (2, ConnectionConfirmed (ConnId (addr 2) (addr 1) Incoming) 100);
  (3, Handshaked (told_by [ForgerNodePeerFeature] Incoming) 0);
  (4, ConnectTo (Info (Spec [] (Ver 0 0 1) [] (Some (addr 3)) []) 0 None)); (5, Connected (addr 3) (addr 1) 101);
  (6, Handshaked (told_by [] Outgoing) 1)]%Z.

Definition after_run : Controller * list Out := handle_all small_node small_context map_order one_run initial_controller.

Section Sequences.
Context (set : NetworkSettings) (ctx : SparkzContext) (r : Order).

Fixpoint all_allowed (evs : list (Z * In)) (s : Controller) : Prop :=
  match evs with
  | [] => True
  | (now, ev) :: evs' => allowed ev s /\ all_allowed evs' (handle set ctx r now ev s).1
  end.

Lemma handle_all_steps evs : order_ok r -> forall s0 evs0 s os s' o, run_from set ctx s0 evs0 s os -> all_allowed evs s ->
  handle_all set ctx r evs s = (s', o) -> run_from set ctx s0 (evs0 ++ (snd <$> evs)) s' (os ++ o).
Proof.
  intros Hr. induction evs as [|[now ev] evs IH]; intros s0 evs0 s os s' o R Ha; cbn [handle_all all_allowed fmap list_fmap] in *.
  - intros [= <- <-]. by rewrite !app_nil_r.
  - destruct (handle set ctx r now ev s) as [s1 o1] eqn:E1. destruct (handle_all set ctx r evs s1) as [s2 o2] eqn:E2.
    intros [= <- <-]. destruct Ha as [Ha1 Ha2]. rewrite app_assoc.
    replace (evs0 ++ snd (now, ev) :: (snd <$> evs)) with ((evs0 ++ [ev]) ++ (snd <$> evs)) by by rewrite <- app_assoc.
    apply (IH s0 (evs0 ++ [ev]) s1 (os ++ o1)); [by eapply run_snoc|done|done].
Qed.

Lemma handle_all_reachable evs s o : order_ok r -> all_allowed evs initial_controller ->
  handle_all set ctx r evs initial_controller = (s, o) -> reachable set ctx s o.
Proof.
  intros Hr Ha E. apply (reachable_steps set ctx initial_controller [] (snd <$> evs) s o); [apply reach_start|].
  by apply (handle_all_steps evs Hr initial_controller [] initial_controller [] s o); [apply run_nil|..].
Qed.

Lemma allowed_handshake info sender s :
  Forall (fun kv : InetSocketAddress * ConnectedPeer => handlerRef kv.2 = sender ->
    peerInfo kv.2 = None /\ connectionType info = Some (direction (connectionId kv.2))) (map_to_list (connections s)) ->
  allowed (Handshaked info sender) s.
Proof. intros H a cp Hc. rewrite Forall_forall in H. apply (H (a, cp)). by apply elem_of_map_to_list. Qed.
End Sequences.

(** What was computed follows. *)
Ltac allowed_run :=
  cbn [all_allowed]; split_and?; try exact I;
  first [vm_compute; intros ? [=]
        |apply allowed_handshake; vm_compute; repeat (constructor; [try discriminate; by split|]); constructor].

Lemma one_run_reachable : reachable small_node small_context after_run.1 after_run.2.
Proof.
  eapply (handle_all_reachable _ _ map_order one_run); [apply map_order_ok| |unfold after_run; by destruct (handle_all _ _ _ _ _)].
  unfold one_run. allowed_run.
Qed.

Lemma subscribers_exact_witness : told after_run.2 = omap told_of (connections after_run.1) /\ size (told after_run.2) = 2.
Proof. split; [apply (subscribers_exact small_node small_context), one_run_reachable|vm_compute; reflexivity]. Defined.

(** Neither of the two conditions on runs can be left out.  A second connection
    confirmed from the address of a peer takes the place of the first; a second
    handshake that is refused removes the entry of the first.  Both times the
    subscribers keep a peer that the actor has lost, and are never told that it
    is gone: the end of its handler is not that of any connection then. *)
Definition second_confirmation : list (Z * In) :=
  (one_run ++ [(7, ConnectionConfirmed (ConnId (addr 2) (addr 1) Incoming) 102); (8, Terminated 0)])%Z.
Definition second_handshake : list (Z * In) :=
  (one_run ++ [(7, Handshaked (told_by [ForgerNodePeerFeature] Incoming) 0); (8, Terminated 0)])%Z.

Example second_confirmation_lost : let '(s, os) := handle_all small_node small_context map_order second_confirmation initial_controller in
  is_Some (told os !! addr 2) /\ omap told_of (connections s) !! addr 2 = None.
Proof. vm_compute. split; [by eexists|reflexivity]. Qed.
Example second_handshake_lost : let '(s, os) := handle_all small_node small_context map_order second_handshake initial_controller in
  is_Some (told os !! addr 2) /\ connections s !! addr 2 = None.
Proof. vm_compute. split; [by eexists|reflexivity]. Qed.

(** The one forger more than the limit *)
Lemma limits_kept_witness : (count_connections (counted small_node Incoming) after_run.1 <= 1)%Z /\
  (count_connections (counted small_node Outgoing) after_run.1 <= 1)%Z /\
  getForgerConnectionsSize after_run.1 = (maxForgerConnections small_node + 1)%Z.
Proof.
  destruct (limits_kept small_node small_context _ _ one_run_reachable) as (H1 & H2 & H3); [done..|].
  split_and!; [exact H1|exact H2|vm_compute; reflexivity].
Defined.

Definition greeting : NetMessage := Msg 1 (Ver 0 0 1) [] None.

Lemma broadcast_reaches_witness : exists o,
  handle small_node small_context map_order 9 (SendToNetwork greeting BroadcastBlock) after_run.1 = (after_run.1, o) /\
  NoDup o /\ Send 0 greeting ∈ o /\ Send 1 greeting ∈ o.
Proof.
  destruct (broadcast_reaches small_node small_context _ _ map_order 9 greeting BroadcastBlock (fun _ => true) one_run_reachable map_order_ok eq_refl)
    as (o & E & Hn & Ho).
  exists o. split_and!; [exact E|exact Hn| |]; apply Ho; [exists (addr 2)|exists (addr 3)];
    eexists; (split; [vm_compute; reflexivity|split_and!; vm_compute; reflexivity]).
Defined.

(** Two outgoing connections are asked for, and there is room for one. *)
Definition known (n : Z) : PeerInfo := Info (Spec [] (Ver 0 0 1) [] (Some (addr n)) []) 0 None.
Definition two_asked : list (Z * In) := [(1, ConnectTo (known 3)); (2, ConnectTo (known 4)); (3, Connected (addr 3) (addr 1) 100)]%Z.
Definition after_asked : Controller * list Out := handle_all small_node small_context map_order two_asked initial_controller.
Definition later : list (Z * In) := [(5, ConnectTo (known 4)); (6, Terminated 0); (7, ConnectTo (known 4))]%Z.

Lemma refused_never_retried_witness :
  handle small_node small_context map_order 4 (Connected (addr 4) (addr 1) 101) after_asked.1 = (after_asked.1, [Close 101]) /\
  exists s2 o, handle_all small_node small_context map_order later after_asked.1 = (s2, o) /\
    addr 4 ∈ unconfirmedConnections s2 /\ connections s2 = ∅ /\ forall t, Connect (addr 4) t ∉ o.
Proof.
  assert (E : handle small_node small_context map_order 4 (Connected (addr 4) (addr 1) 101) after_asked.1 = (after_asked.1, [Close 101]))
    by (vm_compute; reflexivity).
  split; [exact E|]. destruct (handle_all small_node small_context map_order later after_asked.1) as [s2 o] eqn:E2.
  exists s2, o. split; [done|].
  destruct (refused_never_retried small_node small_context after_asked.1 after_asked.2 map_order 4 (addr 4) (addr 1) 101
    after_asked.1 (snd <$> later) s2 o) as [H1 H2].
  - eapply (handle_all_reachable _ _ map_order two_asked); [apply map_order_ok| |unfold after_asked; by destruct (handle_all _ _ _ _ _)].
    unfold two_asked. allowed_run.
  - apply map_order_ok.
  - by apply (bool_decide_unpack _).
  - vm_compute. reflexivity.
  - exact E.
  - apply (handle_all_steps small_node small_context map_order later map_order_ok _ [] after_asked.1 []); [apply run_nil| |exact E2].
    unfold later. allowed_run.
  - repeat constructor; intros H; exact H.
  - split_and!; [exact H1| |exact H2]. apply (f_equal fst) in E2. cbn [fst] in E2. rewrite <- E2. vm_compute. reflexivity.
Defined.
