(* ===== verification/DeliveryTracker.v ===== *)
(** * DeliveryTracker: the status of the modifiers our node asks for

    src/main/scala/sparkz/core/network/DeliveryTracker.scala.  A scheduled
    message is an entry of [timers] until it is cancelled or fires; the clock
    reading of the methods that read it is their argument [now], in
    nanoseconds.  The two products by [slowModeMeasurementImpact], computed in
    double precision, are the functions of the settings. *)

From S2P Require Import Prelude Network.

Abbreviation ModifierId := string.
Abbreviation ModifierTypeId := Z.

(** ModifiersStatus.scala *)
Inductive ModifiersStatus := Unknown | Requested | Received | Held | Invalid.

#[export] Instance status_eq_dec : EqDecision ModifiersStatus.
Proof. solve_decision. Defined.

Record NetworkSettings := {
  maxDeliveryChecks : Z;
  maxRequestedPerPeer : Z;
  slowModeFeatureFlag : bool;
  slowModeThresholdMs : Z;
  slowModeMaxRequested : Z;
  scaleByRest : Z -> Z;      (* x => (x * (1 - slowModeMeasurementImpact)).toLong *)
  scaleByImpact : Z -> Z;    (* x => (x * slowModeMeasurementImpact).toLong *)
  rebroadcastEnabled : bool;
  rebroadcastQueueSize : Z;
  rebroadcastBatchSize : Z
}.

(** Messages the scheduler will deliver to the synchronizer. *)
Inductive TimerEvent :=
| CheckDelivery (source : ConnectedPeer) (typeId : ModifierTypeId) (modifierId : ModifierId)
| TransactionRebroadcast.

Record RequestedInfo := ReqInfo {
  ri_peer : ConnectedPeer;
  ri_cancellable : N;
  ri_checks : Z
}.

Record Tracker := Tr {
  requested : gmap ModifierId RequestedInfo;
  peerLimits : gmap N Z;
  invalid : gset ModifierId;
  received : gmap ModifierId (ConnectedPeer * Z);
  rebroadcastQueue : list ModifierId;
  transactionRebroadcastEvent : option N;
  averageProcessingTimeMs : Z;
  slowMode : bool;
  timers : gmap N TimerEvent;
  nextTimer : N
}.

Definition empty_tracker : Tracker := Tr ∅ ∅ ∅ ∅ [] None 0 false ∅ 0.

Section Setters.
Implicit Type t : Tracker.
Definition set_requested x t := Tr x (peerLimits t) (invalid t) (received t) (rebroadcastQueue t)
  (transactionRebroadcastEvent t) (averageProcessingTimeMs t) (slowMode t) (timers t) (nextTimer t).
Definition set_peerLimits x t := Tr (requested t) x (invalid t) (received t) (rebroadcastQueue t)
  (transactionRebroadcastEvent t) (averageProcessingTimeMs t) (slowMode t) (timers t) (nextTimer t).
Definition set_invalid x t := Tr (requested t) (peerLimits t) x (received t) (rebroadcastQueue t)
  (transactionRebroadcastEvent t) (averageProcessingTimeMs t) (slowMode t) (timers t) (nextTimer t).
Definition set_received x t := Tr (requested t) (peerLimits t) (invalid t) x (rebroadcastQueue t)
  (transactionRebroadcastEvent t) (averageProcessingTimeMs t) (slowMode t) (timers t) (nextTimer t).
Definition set_queue x t := Tr (requested t) (peerLimits t) (invalid t) (received t) x
  (transactionRebroadcastEvent t) (averageProcessingTimeMs t) (slowMode t) (timers t) (nextTimer t).
Definition set_event x t := Tr (requested t) (peerLimits t) (invalid t) (received t)
  (rebroadcastQueue t) x (averageProcessingTimeMs t) (slowMode t) (timers t) (nextTimer t).
Definition set_slow avg b t := Tr (requested t) (peerLimits t) (invalid t) (received t)
  (rebroadcastQueue t) (transactionRebroadcastEvent t) avg b (timers t) (nextTimer t).
Definition set_timers x i t := Tr (requested t) (peerLimits t) (invalid t) (received t)
  (rebroadcastQueue t) (transactionRebroadcastEvent t) (averageProcessingTimeMs t) (slowMode t) x i.
End Setters.

Abbreviation DT := (Eff Tracker).

(** system.scheduler.scheduleOnce and Cancellable.cancel *)
Definition scheduleOnce (e : TimerEvent) : DT N :=
  let! i := gets nextTimer in
  modify (fun t => set_timers (<[i := e]> (timers t)) (i + 1)%N t) ;! ret i.

Definition cancel (i : N) : DT unit :=
  modify (fun t => set_timers (delete i (timers t)) (nextTimer t) t).

(** The scheduler delivers and forgets one message. *)
Definition fire (i : N) (t : Tracker) : Tracker * option TimerEvent :=
  (set_timers (delete i (timers t)) (nextTimer t) t, timers t !! i).

(** requested(id): NoSuchElementException when absent *)
Definition requestedApply (id : ModifierId) : DT RequestedInfo :=
  let! r := gets (fun t => requested t !! id) in lift_try (of_option NoSuchElement r).

(** status; [modifierKeepers] as their [contains] *)
Definition status (modifierId : ModifierId) (modifierKeepers : list (ModifierId -> bool)) (t : Tracker)
    : ModifiersStatus :=
  if bool_decide (is_Some (received t !! modifierId)) then Received
  else if bool_decide (is_Some (requested t !! modifierId)) then Requested
  else if bool_decide (modifierId ∈ invalid t) then Invalid
  else if existsb (fun c => c modifierId) modifierKeepers then Held
  else Unknown.

(** isCorrectTransition *)
Definition isCorrectTransition (oldStatus newStatus : ModifiersStatus) : bool :=
  if bool_decide (oldStatus = newStatus) then true
  else if bool_decide (newStatus = Invalid) || bool_decide (newStatus = Held) then true
  else match oldStatus with
       | Unknown => bool_decide (newStatus = Requested)
       | Requested => bool_decide (newStatus = Unknown) || bool_decide (newStatus = Received)
       | Received => bool_decide (newStatus = Unknown)
       | _ => false
       end.

Definition incrementPeerLimitCounter (peer : ConnectedPeer) : DT unit :=
  modify (fun t =>
    set_peerLimits (match peerLimits t !! remoteAddress peer with
                    | Some value => <[remoteAddress peer := (value + 1)%Z]> (peerLimits t)
                    | None => <[remoteAddress peer := 1%Z]> (peerLimits t)
                    end) t).

Definition decrementPeerLimitCounter (peer : ConnectedPeer) : DT unit :=
  modify (fun t =>
    set_peerLimits (match peerLimits t !! remoteAddress peer with
                    | Some value =>
                        if (value =? 1)%Z then delete (remoteAddress peer) (peerLimits t)
                        else <[remoteAddress peer := (value - 1)%Z]> (peerLimits t)
                    | None => peerLimits t
                    end) t).

Section Methods.
Context (cfg : NetworkSettings).

(** scheduleRebroadcastIfNeeded *)
Definition scheduleRebroadcastIfNeeded : DT unit :=
  let! t := gets id in
  if rebroadcastEnabled cfg && negb (bool_decide (rebroadcastQueue t = [])) then
    (match transactionRebroadcastEvent t with Some i => cancel i | None => ret tt end) ;!
    let! i := scheduleOnce TransactionRebroadcast in
    modify (set_event (Some i))
  else ret tt.

(** updateProcessingTime *)
Definition updateProcessingTime (now startTime : Z) : DT unit :=
  if slowModeFeatureFlag cfg then
    let! t := gets id in
    let elapsedMs := Z.quot (now - startTime) 1000000 in
    let avg := toLong (scaleByRest cfg (averageProcessingTimeMs t) + scaleByImpact cfg elapsedMs) in
    modify (set_slow avg (slowMode t)) ;!
    if (slowModeThresholdMs cfg <? avg)%Z && negb (slowMode t) then modify (set_slow avg true)
    else if (avg <? slowModeThresholdMs cfg)%Z && slowMode t then
      modify (set_slow avg false) ;! scheduleRebroadcastIfNeeded
    else ret tt
  else ret tt.

(** clearStatusForModifier *)
Definition clearStatusForModifier (now : Z) (id : ModifierId) (oldStatus : ModifiersStatus) : DT unit :=
  match oldStatus with
  | Requested =>
      let! info := requestedApply id in
      cancel (ri_cancellable info) ;!
      modify (fun t => set_requested (delete id (requested t)) t) ;!
      decrementPeerLimitCounter (ri_peer info)
  | Received =>
      let! r := gets (fun t => received t !! id) in
      modify (fun t => set_received (delete id (received t)) t) ;!
      match r with
      | Some (_, timestamp) => updateProcessingTime now timestamp
      | None => ret tt
      end
  | _ => ret tt
  end.

(** require(isCorrectTransition(old, new)) *)
Definition checkTransition (id : ModifierId) (newStatus : ModifiersStatus) : DT ModifiersStatus :=
  let! old := gets (status id []) in
  guard IllegalArgument (isCorrectTransition old newStatus) ;! ret old.

(** The private setRequested, its [Try] result dropped *)
Definition setRequested (id : ModifierId) (typeId : ModifierTypeId) (supplier : ConnectedPeer)
    (checksDone : Z) : DT unit :=
  checkTransition id Requested ;!
  let! cancellable := scheduleOnce (CheckDelivery supplier typeId id) in
  let! old := gets (fun t => requested t !! id) in
  modify (fun t => set_requested (<[id := ReqInfo supplier cancellable checksDone]> (requested t)) t) ;!
  match old with
  | Some info =>
      if sameConnectionId supplier (ri_peer info) then ret tt
      else decrementPeerLimitCounter (ri_peer info) ;! incrementPeerLimitCounter supplier
  | None => incrementPeerLimitCounter supplier
  end.

(** tryWithLogging whose result the caller ignores: the effects stay, the
    exception does not escape. *)
Definition ignoring (m : DT unit) : DT unit := fun t => (fst (m t), Success tt).

(** The public setRequested *)
Fixpoint setRequestedAll (ids : list ModifierId) (typeId : ModifierTypeId) (cp : ConnectedPeer) : DT unit :=
  match ids with
  | [] => ret tt
  | id :: ids' => ignoring (setRequested id typeId cp 0) ;! setRequestedAll ids' typeId cp
  end.

(** setInvalid: the peer that sent it, or that was asked for it *)
Definition setInvalid (now : Z) (modifierId : ModifierId) : DT (option ConnectedPeer) :=
  let! oldStatus := gets (status modifierId []) in
  if isCorrectTransition oldStatus Invalid then
    let! sender :=
      match oldStatus with
      | Requested =>
          let! info := requestedApply modifierId in
          cancel (ri_cancellable info) ;!
          modify (fun t => set_requested (delete modifierId (requested t)) t) ;!
          decrementPeerLimitCounter (ri_peer info) ;!
          ret (Some (ri_peer info))
      | Received =>
          let! r := gets (fun t => received t !! modifierId) in
          modify (fun t => set_received (delete modifierId (received t)) t) ;!
          match r with
          | Some (peer, timestamp) => updateProcessingTime now timestamp ;! ret (Some peer)
          | None => ret None
          end
      | _ => ret None
      end in
    modify (fun t => set_invalid ({[modifierId]} ∪ invalid t) t) ;! ret sender
  else ret None.

(** setHeld *)
Definition setHeld (now : Z) (id : ModifierId) : DT unit :=
  let! oldStatus := checkTransition id Held in clearStatusForModifier now id oldStatus.

(** setUnknown *)
Definition setUnknown (now : Z) (id : ModifierId) : DT unit :=
  let! oldStatus := checkTransition id Unknown in clearStatusForModifier now id oldStatus.

(** setReceived *)
Definition setReceived (now : Z) (id : ModifierId) (sender : ConnectedPeer) : DT unit :=
  let! oldStatus := checkTransition id Received in
  if bool_decide (oldStatus = Received) then ret tt
  else
    let! info := requestedApply id in
    cancel (ri_cancellable info) ;!
    modify (fun t => set_requested (delete id (requested t)) t) ;!
    decrementPeerLimitCounter sender ;!
    modify (fun t => set_received (<[id := (sender, now)]> (received t)) t).

(** onStillWaiting *)
Definition onStillWaiting (now : Z) (cp : ConnectedPeer) (typeId : ModifierTypeId) (id : ModifierId)
    : DT unit :=
  let! info := requestedApply id in
  let checks := (ri_checks info + 1)%Z in
  ignoring (setUnknown now id) ;!
  if (checks <? maxDeliveryChecks cfg)%Z then ignoring (setRequested id typeId cp checks)
  else throw (Raised "StopExpectingError").

(** peerInfo *)
Definition peerInfo (id : ModifierId) (t : Tracker) : option ConnectedPeer :=
  match status id [] t with
  | Requested => ri_peer <$> requested t !! id
  | Received => fst <$> received t !! id
  | _ => None
  end.

(** getPeerLimit *)
Definition getPeerLimit (peer : ConnectedPeer) (t : Tracker) : Z :=
  (maxRequestedPerPeer cfg - default 0 (peerLimits t !! remoteAddress peer))%Z.

(** canRequestMoreTransactions *)
Definition canRequestMoreTransactions (t : Tracker) : bool :=
  negb (slowModeFeatureFlag cfg && slowMode t &&
        (slowModeMaxRequested cfg <? Z.of_nat (size (requested t)))%Z).

(** putInRebroadcastQueue: enqueue, then dequeue while too long *)
Fixpoint trimQueue (bound : Z) (q : list ModifierId) : list ModifierId :=
  match q with
  | [] => []
  | _ :: q' => if (bound <? zlen q)%Z then trimQueue bound q' else q
  end.

(** [dequeue] of an empty queue throws, when the bound is negative. *)
Definition putInRebroadcastQueue (modifierId : ModifierId) : DT unit :=
  if rebroadcastEnabled cfg then
    modify (fun t => set_queue (trimQueue (rebroadcastQueueSize cfg) (rebroadcastQueue t ++ [modifierId])) t) ;!
    guard NoSuchElement (0 <=? rebroadcastQueueSize cfg)%Z
  else ret tt.

(** getRebroadcastModifiers *)
Definition getRebroadcastModifiers : DT (list ModifierId) :=
  let! q := gets rebroadcastQueue in
  let n := Z.to_nat (rebroadcastBatchSize cfg) in
  modify (set_queue (drop n q)) ;! ret (take n q).
End Methods.
