(* ===== verification/DeliveryTrackerSpec.v ===== *)
(** * DeliveryTrackerSpec: the status machine the tracker implements

    [AStatus] is one status per modifier, with the retry count of a requested one;
    [astep] is the effect of each operation on it as the operations are coded,
    [dstep] as the comments of the class document it, which differ in setHeld of
    an invalid modifier only.  [core] is the part of the tracker the statuses
    depend on; each operation's effect on it is one lemma. *)

From S2P Require Import Prelude Network DeliveryTracker.

(** ** Operations as data *)

Inductive TrackerOp :=
| OSetRequested (ids : list ModifierId) (typeId : ModifierTypeId) (cp : ConnectedPeer)
| OSetInvalid (now : Z) (id : ModifierId)
| OSetHeld (now : Z) (id : ModifierId)
| OSetUnknown (now : Z) (id : ModifierId)
| OSetReceived (now : Z) (id : ModifierId) (sender : ConnectedPeer)
| OStillWaiting (now : Z) (cp : ConnectedPeer) (typeId : ModifierTypeId) (id : ModifierId)
| OForget (now : Z) (id : ModifierId)
| OPutRebroadcast (id : ModifierId)
| OGetRebroadcast
| OScheduleRebroadcast
| OFire (i : N).

(** OForget is [clearStatusForModifier] as the synchronizer's checkDelivery
    calls it: with [Requested], for a modifier whose status that is. *)
Definition run_op (cfg : NetworkSettings) (op : TrackerOp) (t : Tracker) : Tracker :=
  match op with
  | OSetRequested ids typeId cp => fst (setRequestedAll ids typeId cp t)
  | OSetInvalid now id => fst (setInvalid cfg now id t)
  | OSetHeld now id => fst (setHeld cfg now id t)
  | OSetUnknown now id => fst (setUnknown cfg now id t)
  | OSetReceived now id sender => fst (setReceived now id sender t)
  | OStillWaiting now cp typeId id => fst (onStillWaiting cfg now cp typeId id t)
  | OForget now id =>
      if bool_decide (status id [] t = Requested)
      then fst (clearStatusForModifier cfg now id Requested t) else t
  | OPutRebroadcast id => fst (putInRebroadcastQueue cfg id t)
  | OGetRebroadcast => fst (getRebroadcastModifiers cfg t)
  | OScheduleRebroadcast => fst (scheduleRebroadcastIfNeeded cfg t)
  | OFire i => fst (fire i t)
  end.

Definition run_ops cfg (ops : list TrackerOp) (t : Tracker) : Tracker :=
  foldl (fun t op => run_op cfg op t) t ops.

(** ** The abstract machine *)

Inductive AStatus := AUnknown | ARequested (checks : Z) | AReceived | AInvalid.

#[export] Instance astatus_eq_dec : EqDecision AStatus.
Proof. solve_decision. Defined.

Definition upd (s : ModifierId -> AStatus) (id : ModifierId) (v : AStatus) : ModifierId -> AStatus :=
  fun id' => if decide (id' = id) then v else s id'.

(** Request: from Unknown, or again. *)
Definition a_request (checks : Z) (a : AStatus) : AStatus :=
  match a with AUnknown | ARequested _ => ARequested checks | _ => a end.

(** Clearing as coded: an invalid modifier stays invalid, whether it is to be
    unknown, which the comments forbid too, or held, which they allow. *)
Definition a_clear (a : AStatus) : AStatus :=
  match a with ARequested _ | AReceived => AUnknown | _ => a end.

Definition a_receive (a : AStatus) : AStatus :=
  match a with ARequested _ => AReceived | _ => a end.

(** Delivery timeout: ask again, at most [maxDeliveryChecks] times in all. *)
Definition a_wait (cfg : NetworkSettings) (a : AStatus) : AStatus :=
  match a with
  | ARequested c => if (c + 1 <? maxDeliveryChecks cfg)%Z then ARequested (c + 1) else AUnknown
  | _ => a
  end.

Definition a_forget (a : AStatus) : AStatus :=
  match a with ARequested _ => AUnknown | _ => a end.

Definition astep (cfg : NetworkSettings) (op : TrackerOp) (s : ModifierId -> AStatus)
    : ModifierId -> AStatus :=
  match op with
  | OSetRequested ids _ _ => foldl (fun s id => upd s id (a_request 0 (s id))) s ids
  | OSetInvalid _ id => upd s id AInvalid
  | OSetHeld _ id | OSetUnknown _ id => upd s id (a_clear (s id))
  | OSetReceived _ id _ => upd s id (a_receive (s id))
  | OStillWaiting _ _ _ id => upd s id (a_wait cfg (s id))
  | OForget _ id => upd s id (a_forget (s id))
  | _ => s
  end.

(** The comments let a modifier that was applied go to Held from any state; Held is
    not kept in the tracker, which then has the modifier in no place. *)
Definition dstep (cfg : NetworkSettings) (op : TrackerOp) (s : ModifierId -> AStatus) : ModifierId -> AStatus :=
  match op with
  | OSetHeld _ id => upd s id AUnknown
  | _ => astep cfg op s
  end.

Definition abs (t : Tracker) (id : ModifierId) : AStatus :=
  if bool_decide (is_Some (received t !! id)) then AReceived
  else match requested t !! id with
       | Some info => ARequested (ri_checks info)
       | None => if bool_decide (id ∈ invalid t) then AInvalid else AUnknown
       end.

(** The status the tracker reports for an abstract status. *)
Definition to_status (keepers : list (ModifierId -> bool)) (id : ModifierId) (a : AStatus) : ModifiersStatus :=
  match a with
  | AReceived => Received
  | ARequested _ => Requested
  | AInvalid => Invalid
  | AUnknown => if existsb (fun c => c id) keepers then Held else Unknown
  end.

Lemma status_abs t id keepers : status id keepers t = to_status keepers id (abs t id).
Proof.
  unfold status, abs. destruct (received t !! id); simpl; [done|].
  destruct (requested t !! id); simpl; [done|]. by case_bool_decide.
Qed.

(** ** The well-formedness invariant: one place per modifier *)

Record wf (t : Tracker) : Prop := {
  wf_received id : is_Some (received t !! id) -> requested t !! id = None /\ id ∉ invalid t;
  wf_requested id : is_Some (requested t !! id) -> id ∉ invalid t
}.

Lemma wf_empty : wf empty_tracker.
Proof. split; simpl; intros id [x E]; by rewrite lookup_empty in E. Qed.

(** ** Effects on the core *)

Definition core (t : Tracker) :=
  (requested t, peerLimits t, invalid t, received t).

Lemma core_proj t u : core t = core u ->
  requested t = requested u /\ peerLimits t = peerLimits u /\ invalid t = invalid u /\ received t = received u.
Proof. unfold core. by intros [= -> -> -> ->]. Qed.

Lemma abs_core t u id : core t = core u -> abs t id = abs u id.
Proof. intros (E1 & E2 & E3 & E4)%core_proj. unfold abs. by rewrite E1, E3, E4. Qed.

Lemma wf_core t u : core t = core u -> wf t -> wf u.
Proof.
  intros (E1 & E2 & E3 & E4)%core_proj [W1 W2]. rewrite E1, E3, E4 in *. by split.
Qed.

Lemma schedule_core cfg t : core (fst (scheduleRebroadcastIfNeeded cfg t)) = core t.
Proof.
  unfold scheduleRebroadcastIfNeeded, scheduleOnce, cancel, bind, gets, modify, ret, id. simpl.
  destruct (_ && _); [|done]. by destruct (transactionRebroadcastEvent t).
Qed.

Lemma updateProcessingTime_core cfg now start t :
  core (fst (updateProcessingTime cfg now start t)) = core t.
Proof.
  unfold updateProcessingTime, bind, gets, modify, ret, id. destruct (slowModeFeatureFlag cfg); [|done].
  simpl. destruct (_ && _); [done|]. destruct (_ && _); [|done]. by rewrite schedule_core.
Qed.

Lemma updateProcessingTime_success cfg now start t :
  snd (updateProcessingTime cfg now start t) = Success tt.
Proof.
  unfold updateProcessingTime, scheduleRebroadcastIfNeeded, scheduleOnce, cancel, bind, gets, modify, ret, id.
  destruct (slowModeFeatureFlag cfg); [|done]. simpl. destruct (_ && _); [done|].
  destruct (_ && _); [|done]. simpl. destruct (_ && _); [|done].
  by destruct (transactionRebroadcastEvent t).
Qed.

(** The counter updates as functions of the map. *)
Definition inc_limit (a : N) (m : gmap N Z) : gmap N Z := <[a := (default 0 (m !! a) + 1)%Z]> m.
Definition dec_limit (a : N) (m : gmap N Z) : gmap N Z :=
  match m !! a with
  | Some v => if (v =? 1)%Z then delete a m else <[a := (v - 1)%Z]> m
  | None => m
  end.

Lemma increment_eq p t : incrementPeerLimitCounter p t =
  (set_peerLimits (inc_limit (remoteAddress p) (peerLimits t)) t, Success tt).
Proof.
  unfold incrementPeerLimitCounter, modify, inc_limit. by destruct (peerLimits t !! remoteAddress p).
Qed.

Lemma decrement_eq p t : decrementPeerLimitCounter p t =
  (set_peerLimits (dec_limit (remoteAddress p) (peerLimits t)) t, Success tt).
Proof. done. Qed.

#[local] Arguments incrementPeerLimitCounter : simpl never.
#[local] Arguments decrementPeerLimitCounter : simpl never.

Definition cleared (id : ModifierId) (t : Tracker) :=
  match received t !! id with
  | Some _ => (requested t, peerLimits t, invalid t, delete id (received t))
  | None =>
      match requested t !! id with
      | Some info => (delete id (requested t), dec_limit (remoteAddress (ri_peer info)) (peerLimits t),
                      invalid t, received t)
      | None => core t
      end
  end.

Lemma status_nil t id : status id [] t =
  match received t !! id, requested t !! id with
  | Some _, _ => Received
  | None, Some _ => Requested
  | None, None => if bool_decide (id ∈ invalid t) then Invalid else Unknown
  end.
Proof. unfold status. by destruct (received t !! id), (requested t !! id). Qed.

Lemma clearStatus_core cfg now id t :
  core (fst (clearStatusForModifier cfg now id (status id [] t) t)) = cleared id t.
Proof.
  rewrite status_nil. unfold cleared, clearStatusForModifier, requestedApply, bind, gets, modify, lift_try, cancel.
  destruct (received t !! id) as [[p ts]|] eqn:Er; simpl; rewrite ?Er.
  - pose proof (updateProcessingTime_core cfg now ts (set_received (delete id (received t)) t)) as E.
    destruct (updateProcessingTime _ _ _ _) as [u r]. simpl in *. by rewrite E.
  - destruct (requested t !! id) as [info|] eqn:Eq; simpl; rewrite ?Eq; simpl; [done|].
    by case_bool_decide.
Qed.

Lemma setUnknown_core cfg now id t : core (fst (setUnknown cfg now id t)) = cleared id t.
Proof.
  rewrite <- (clearStatus_core cfg now). unfold setUnknown, checkTransition, bind, gets, guard.
  destruct (status id [] t) eqn:E; simpl; try done; by destruct (clearStatusForModifier _ _ _ _ _).
Qed.

Lemma setHeld_core cfg now id t : core (fst (setHeld cfg now id t)) = cleared id t.
Proof.
  rewrite <- (clearStatus_core cfg now). unfold setHeld, checkTransition, bind, gets, guard.
  destruct (status id [] t) eqn:E; simpl; try done; by destruct (clearStatusForModifier _ _ _ _ _).
Qed.

Lemma setReceived_core now id sender t :
  core (fst (setReceived now id sender t)) =
    match received t !! id, requested t !! id with
    | None, Some _ => (delete id (requested t), dec_limit (remoteAddress sender) (peerLimits t), invalid t,
                       <[id := (sender, now)]> (received t))
    | _, _ => core t
    end.
Proof.
  unfold setReceived, checkTransition, bind, gets, guard. rewrite status_nil.
  destruct (received t !! id) as [[p ts]|] eqn:Er; simpl; [done|].
  destruct (requested t !! id) as [info|] eqn:Eq; simpl.
  - unfold requestedApply, bind, gets, lift_try, cancel, modify. simpl. by rewrite Eq.
  - by case_bool_decide.
Qed.

Lemma setInvalid_core cfg now id t :
  core (fst (setInvalid cfg now id t)) =
    let '(r, l, i, v) := cleared id t in (r, l, {[id]} ∪ i, v).
Proof.
  unfold setInvalid, cleared, requestedApply, cancel, bind, gets, modify, lift_try, ret. rewrite status_nil.
  destruct (received t !! id) as [[p ts]|] eqn:Er; simpl; rewrite ?Er.
  - pose proof (updateProcessingTime_core cfg now ts (set_received (delete id (received t)) t)) as E.
    pose proof (updateProcessingTime_success cfg now ts (set_received (delete id (received t)) t)) as S.
    destruct (updateProcessingTime _ _ _ _) as [u r]. simpl in *. subst r.
    apply core_proj in E as (E1 & E2 & E3 & E4). unfold core. simpl. by rewrite E1, E2, E3, E4.
  - destruct (requested t !! id) as [info|] eqn:Eq; simpl; rewrite ?Eq; simpl; [done|].
    by case_bool_decide.
Qed.

(** What a request does to the counters. *)
Definition request_limits (id : ModifierId) (supplier : ConnectedPeer) (t : Tracker) : gmap N Z :=
  match requested t !! id with
  | Some info =>
      if sameConnectionId supplier (ri_peer info) then peerLimits t
      else inc_limit (remoteAddress supplier) (dec_limit (remoteAddress (ri_peer info)) (peerLimits t))
  | None => inc_limit (remoteAddress supplier) (peerLimits t)
  end.

Lemma setRequested_core id typeId supplier checks t : exists c,
  core (fst (setRequested id typeId supplier checks t)) =
    match status id [] t with
    | Unknown | Requested => (<[id := ReqInfo supplier c checks]> (requested t),
                              request_limits id supplier t, invalid t, received t)
    | _ => core t
    end.
Proof.
  exists (nextTimer t). unfold setRequested, checkTransition, request_limits.
  unfold bind at 1. simpl. unfold bind at 1, gets at 1.
  destruct (status id [] t) eqn:Es; simpl; try done.
  - rewrite status_nil in Es. destruct (received t !! id); [done|].
    destruct (requested t !! id) as [info|] eqn:Eq; [done|].
    unfold scheduleOnce, bind, gets, modify, ret; simpl. rewrite Eq, increment_eq. done.
  - unfold scheduleOnce, bind, gets, modify, ret; simpl.
    destruct (requested t !! id) as [info|] eqn:Eq.
    + destruct (sameConnectionId _ _); [done|]. by rewrite increment_eq.
    + by rewrite increment_eq.
Qed.

(** ** Results *)

Lemma clearStatus_result cfg now id t :
  snd (clearStatusForModifier cfg now id (status id [] t) t) = Success tt.
Proof.
  rewrite status_nil. unfold clearStatusForModifier, requestedApply, bind, gets, modify, lift_try, cancel.
  destruct (received t !! id) as [[p ts]|] eqn:Er; simpl; rewrite ?Er.
  - apply updateProcessingTime_success.
  - destruct (requested t !! id) as [info|] eqn:Eq; simpl; rewrite ?Eq; [done|]. by case_bool_decide.
Qed.

Lemma setHeld_result cfg now id t : snd (setHeld cfg now id t) = Success tt.
Proof.
  rewrite <- (clearStatus_result cfg now id t). unfold setHeld, checkTransition, bind, gets, guard.
  destruct (status id [] t) eqn:E; simpl; try done; by destruct (clearStatusForModifier _ _ _ _ _).
Qed.

Lemma setUnknown_result cfg now id t :
  snd (setUnknown cfg now id t) =
    if bool_decide (status id [] t = Invalid) then Failure IllegalArgument else Success tt.
Proof.
  pose proof (clearStatus_result cfg now id t) as H. unfold setUnknown, checkTransition, bind, gets, guard.
  destruct (status id [] t) eqn:E; simpl; try done; try (rewrite <- H; by destruct (clearStatusForModifier _ _ _ _ _)).
  rewrite status_nil in E. destruct (received t !! id), (requested t !! id); try done. by case_bool_decide.
Qed.

Lemma setReceived_result now id sender t :
  snd (setReceived now id sender t) =
    match status id [] t with Requested | Received => Success tt | _ => Failure IllegalArgument end.
Proof.
  unfold setReceived, checkTransition, bind, gets, guard. rewrite status_nil.
  destruct (received t !! id) as [[p ts]|] eqn:Er; simpl; [done|].
  destruct (requested t !! id) as [info|] eqn:Eq; simpl.
  - unfold requestedApply, bind, gets, lift_try, cancel, modify. simpl. by rewrite Eq.
  - by case_bool_decide.
Qed.

Lemma setRequested_result id typeId supplier checks t :
  snd (setRequested id typeId supplier checks t) =
    match status id [] t with Unknown | Requested => Success tt | _ => Failure IllegalArgument end.
Proof.
  unfold setRequested, checkTransition, scheduleOnce, bind, gets, guard, modify, ret, throw.
  destruct (status id [] t) eqn:Es; simpl; try done; destruct (requested t !! id) as [info|]; try done;
    by destruct (sameConnectionId _ _).
Qed.

Lemma setInvalid_result cfg now id t : snd (setInvalid cfg now id t) = Success (peerInfo id t).
Proof.
  unfold setInvalid, peerInfo, requestedApply, cancel, bind, gets, modify, lift_try, ret. rewrite status_nil.
  destruct (received t !! id) as [[p ts]|] eqn:Er; simpl; rewrite ?Er.
  - pose proof (updateProcessingTime_success cfg now ts (set_received (delete id (received t)) t)) as S.
    destruct (updateProcessingTime _ _ _ _) as [u r]. simpl in *. by subst r.
  - destruct (requested t !! id) as [info|] eqn:Eq; simpl; rewrite ?Eq; simpl; [done|]. by case_bool_decide.
Qed.

Lemma onStillWaiting_result cfg now cp typeId id t :
  snd (onStillWaiting cfg now cp typeId id t) =
    match ri_checks <$> requested t !! id with
    | Some checks => if (checks + 1 <? maxDeliveryChecks cfg)%Z then Success tt
                   else Failure (Raised "StopExpectingError")
    | None => Failure NoSuchElement
    end.
Proof.
  unfold onStillWaiting, requestedApply, bind, gets, lift_try. simpl.
  destruct (requested t !! id) as [info|]; simpl; [|done]. by destruct (_ <? _)%Z.
Qed.

(** ** Effects on the abstract status, and preservation of [wf] *)

Lemma core_tuple u r l i v : core u = (r, l, i, v) ->
  requested u = r /\ peerLimits u = l /\ invalid u = i /\ received u = v.
Proof. unfold core. by intros [= -> -> -> ->]. Qed.

(** The abstraction of [u], whose core the hypothesis gives in terms of [t]'s,
    agrees with the machine; and [u] is well formed. *)
Definition simulates (t u : Tracker) (s : ModifierId -> AStatus) : Prop :=
  wf u /\ forall id, abs u id = s id.

Lemma core_simulates t u : wf t -> core u = core t -> simulates t u (abs t).
Proof. intros W E. split; [by apply (wf_core t)|]. intros id. by apply abs_core. Qed.

Lemma upd_noop (s : ModifierId -> AStatus) id v id' : v = s id -> s id' = upd s id v id'.
Proof. intros ->. unfold upd. by destruct (decide _) as [->|]. Qed.

(** An operation that does not apply to the status changes nothing. *)
Lemma noop_simulates t u id v : wf t -> core u = core t -> v = abs t id -> simulates t u (upd (abs t) id v).
Proof.
  intros W E Hv. destruct (core_simulates t u W E) as [Wu Hu]. split; [done|].
  intros id'. rewrite Hu. by apply upd_noop.
Qed.

Lemma delete_received_simulates t u id r :
  wf t -> received t !! id = Some r ->
  core u = (requested t, peerLimits t, invalid t, delete id (received t)) ->
  simulates t u (upd (abs t) id AUnknown).
Proof.
  intros [W1 W2] Er (E1 & E2 & E3 & E4)%core_tuple. destruct (W1 id (mk_is_Some _ _ Er)) as [Hq Hi].
  split.
  - split; intros id' Hs; rewrite ?E1, ?E3, ?E4 in *.
    + apply W1. destruct Hs as [x Hx]. apply lookup_delete_Some in Hx as [_ Hx]. by exists x.
    + by apply W2.
  - intros id'. unfold upd, abs. rewrite E1, E3, E4. destruct (decide (id' = id)) as [->|Hne].
    + rewrite lookup_delete_eq, Hq. simpl. by rewrite bool_decide_false.
    + by rewrite lookup_delete_ne.
Qed.

Lemma delete_requested_simulates t u id info l :
  wf t -> requested t !! id = Some info ->
  core u = (delete id (requested t), l, invalid t, received t) ->
  simulates t u (upd (abs t) id AUnknown).
Proof.
  intros [W1 W2] Eq (E1 & E2 & E3 & E4)%core_tuple. pose proof (W2 id (mk_is_Some _ _ Eq)) as Hi.
  assert (received t !! id = None) as Hr.
  { destruct (received t !! id) eqn:Er; [|done]. destruct (W1 id (mk_is_Some _ _ Er)) as [H _]. congruence. }
  split.
  - split; intros id' Hs; rewrite ?E1, ?E3, ?E4 in *.
    + destruct (W1 id' Hs) as [H1 H2]. split; [|done]. by rewrite lookup_delete_None, H1; right.
    + apply W2. destruct Hs as [x Hx]. apply lookup_delete_Some in Hx as [_ Hx]. by exists x.
  - intros id'. unfold upd, abs. rewrite E1, E3, E4. destruct (decide (id' = id)) as [->|Hne].
    + rewrite Hr, lookup_delete_eq. simpl. by rewrite bool_decide_false.
    + by rewrite lookup_delete_ne.
Qed.

Lemma abs_requested t id info : wf t -> requested t !! id = Some info -> abs t id = ARequested (ri_checks info).
Proof.
  intros [W1 W2] Eq. unfold abs. destruct (received t !! id) eqn:Er; simpl; [|by rewrite Eq].
  destruct (W1 id (mk_is_Some _ _ Er)) as [H _]. congruence.
Qed.

Lemma requested_abs t id : wf t ->
  ri_checks <$> requested t !! id = match abs t id with ARequested c => Some c | _ => None end.
Proof.
  intros W. destruct (requested t !! id) as [info|] eqn:E; [by rewrite (abs_requested _ _ _ W E)|].
  unfold abs. rewrite E. by repeat case_bool_decide.
Qed.

Lemma abs_received t id r : received t !! id = Some r -> abs t id = AReceived.
Proof. intros Er. unfold abs. by rewrite Er. Qed.

Lemma abs_neither t id : received t !! id = None -> requested t !! id = None ->
  abs t id = if bool_decide (id ∈ invalid t) then AInvalid else AUnknown.
Proof. intros Er Eq. unfold abs. by rewrite Er, Eq. Qed.

Lemma cleared_simulates t u id :
  wf t -> core u = cleared id t -> simulates t u (upd (abs t) id (a_clear (abs t id))).
Proof.
  intros W. unfold cleared. destruct (received t !! id) eqn:Er.
  - intros E. rewrite (abs_received _ _ _ Er). by eapply delete_received_simulates.
  - destruct (requested t !! id) eqn:Eq; intros E.
    + rewrite (abs_requested _ _ _ W Eq). by eapply delete_requested_simulates.
    + apply noop_simulates; [done..|]. rewrite abs_neither by done. by case_bool_decide.
Qed.

Lemma receive_simulates now id sender t :
  wf t -> simulates t (fst (setReceived now id sender t)) (upd (abs t) id (a_receive (abs t id))).
Proof.
  intros W. pose proof (setReceived_core now id sender t) as E.
  destruct (received t !! id) eqn:Er; [|destruct (requested t !! id) as [info|] eqn:Eq].
  - apply noop_simulates; [done..|]. by rewrite (abs_received _ _ _ Er).
  - rewrite (abs_requested _ _ _ W Eq). apply core_tuple in E as (E1 & E2 & E3 & E4).
    destruct W as [W1 W2]. pose proof (W2 id (mk_is_Some _ _ Eq)) as Hi. split.
    + split; intros id' Hs; rewrite ?E1, ?E3, ?E4 in *.
      * destruct (decide (id = id')) as [->|Hne].
        { by rewrite lookup_delete_eq. }
        rewrite lookup_insert_ne in Hs by done. rewrite lookup_delete_ne by done. by apply W1.
      * apply W2. destruct Hs as [x Hx]. apply lookup_delete_Some in Hx as [_ Hx]. by exists x.
    + intros id'. unfold upd, abs. rewrite E1, E3, E4. destruct (decide (id' = id)) as [->|Hne].
      * by rewrite lookup_insert_eq.
      * by rewrite lookup_insert_ne, lookup_delete_ne.
  - apply noop_simulates; [done..|]. rewrite abs_neither by done. by case_bool_decide.
Qed.

Lemma invalid_simulates cfg now id t :
  wf t -> simulates t (fst (setInvalid cfg now id t)) (upd (abs t) id AInvalid).
Proof.
  intros W. pose proof (setInvalid_core cfg now id t) as E.
  destruct (cleared id t) as [[[r l] i] v] eqn:Ec.
  set (u := Tr r l i v [] None 0 false ∅ 0).
  destruct (cleared_simulates t u id W (eq_sym Ec)) as [[W1 W2] Ha].
  apply core_tuple in E as (E1 & E2 & E3 & E4). simpl in *.
  pose proof (Ha id) as Hid. unfold upd in Hid. rewrite decide_True in Hid by done.
  assert (v !! id = None /\ r !! id = None) as [Hv Hr].
  { revert Hid. generalize (abs t id). intros a. unfold abs. simpl.
    destruct (v !! id), (r !! id); simpl; by destruct a. }
  split.
  - split; intros id' Hs; rewrite ?E1, ?E3, ?E4 in *.
    + destruct (W1 id' Hs) as [H1 H2]. split; [done|]. intros [->%elem_of_singleton|]%elem_of_union; [|done].
      destruct Hs as [x Hx]. congruence.
    + specialize (W2 id' Hs). intros [->%elem_of_singleton|]%elem_of_union; [|done].
      destruct Hs as [x Hx]. congruence.
  - intros id'. pose proof (Ha id') as Ha'. unfold upd in *. destruct (decide (id' = id)) as [->|Hne].
    + unfold abs. rewrite E1, E3, E4, Hv, Hr. simpl. by rewrite bool_decide_true by (by apply elem_of_union_l, elem_of_singleton).
    + rewrite <- Ha'. unfold abs. rewrite E1, E3, E4. simpl. destruct (v !! id'), (r !! id'); try done. simpl.
      by rewrite (bool_decide_ext (id' ∈ {[id]} ∪ i) (id' ∈ i))
        by (rewrite elem_of_union, elem_of_singleton; clear -Hne; tauto).
Qed.

Lemma request_simulates id typeId supplier checks t :
  wf t -> simulates t (fst (setRequested id typeId supplier checks t))
                      (upd (abs t) id (a_request checks (abs t id))).
Proof.
  intros W. destruct (setRequested_core id typeId supplier checks t) as [c E]. rewrite status_nil in E.
  destruct (received t !! id) eqn:Er.
  - apply noop_simulates; [done..|]. by rewrite (abs_received _ _ _ Er).
  - assert (id ∉ invalid t ->
            core (fst (setRequested id typeId supplier checks t)) =
              (<[id := ReqInfo supplier c checks]> (requested t), request_limits id supplier t, invalid t, received t) ->
            simulates t (fst (setRequested id typeId supplier checks t))
                      (upd (abs t) id (ARequested checks))) as Hgen.
    { intros Hi (E1 & E2 & E3 & E4)%core_tuple. destruct W as [W1 W2]. split.
      - split; intros id' Hs; rewrite ?E1, ?E3, ?E4 in *.
        + destruct (W1 id' Hs) as [H1 H2]. split; [|done]. rewrite lookup_insert_ne; [done|].
          intros ->. destruct Hs as [x Hx]. congruence.
        + destruct (decide (id = id')) as [->|Hne]; [done|]. rewrite lookup_insert_ne in Hs by done. by apply W2.
      - intros id'. unfold upd, abs. rewrite E1, E3, E4. destruct (decide (id' = id)) as [->|Hne].
        + by rewrite Er, lookup_insert_eq.
        + by rewrite lookup_insert_ne. }
    destruct (requested t !! id) as [info|] eqn:Eq.
    + rewrite (abs_requested _ _ _ W Eq). apply Hgen; [|done]. apply (wf_requested t W). by exists info.
    + rewrite abs_neither by done. case_bool_decide.
      * apply noop_simulates; [done..|].
        rewrite abs_neither by done. by rewrite bool_decide_true.
      * by apply Hgen.
Qed.

Lemma set_requested_all_simulates typeId cp ids t :
  wf t -> simulates t (fst (setRequestedAll ids typeId cp t))
                      (foldl (fun s id => upd s id (a_request 0 (s id))) (abs t) ids).
Proof.
  revert t. induction ids as [|id ids IH]; intros t W; [by apply core_simulates|].
  simpl. unfold bind, ignoring. simpl.
  destruct (request_simulates id typeId cp 0 t W) as [W1 H1].
  destruct (IH _ W1) as [W2 H2]. split; [done|]. intros id'. rewrite H2.
  clear -H1. set (s1 := abs (fst (setRequested id typeId cp 0 t))) in *.
  set (s2 := upd (abs t) id (a_request 0 (abs t id))) in *. clearbody s1 s2. clear t.
  revert s1 s2 H1. induction ids as [|i ids IH]; intros s1 s2 H1; simpl; [done|].
  apply IH. intros j. unfold upd. rewrite (H1 i). by destruct (decide _).
Qed.

Lemma still_waiting_simulates cfg now cp typeId id t :
  wf t -> simulates t (fst (onStillWaiting cfg now cp typeId id t)) (upd (abs t) id (a_wait cfg (abs t id))).
Proof.
  intros W. unfold onStillWaiting, requestedApply, bind, gets, lift_try. simpl.
  destruct (requested t !! id) as [info|] eqn:Eq.
  - simpl. rewrite (abs_requested _ _ _ W Eq). simpl.
    pose proof (setUnknown_core cfg now id t) as E. destruct (cleared_simulates _ _ _ W E) as [W1 H1].
    rewrite (abs_requested _ _ _ W Eq) in H1. simpl in H1.
    destruct (ri_checks info + 1 <? maxDeliveryChecks cfg)%Z; simpl; [|by split].
    set (u := fst (setUnknown cfg now id t)) in *.
    destruct (request_simulates id typeId cp (ri_checks info + 1) u W1) as [W2 H2].
    split; [done|]. intros id'. rewrite H2. unfold upd in *. rewrite !H1.
    destruct (decide (id' = id)); [|done]. by rewrite decide_True.
  - apply noop_simulates; [done..|]. unfold abs. rewrite Eq. by repeat case_bool_decide.
Qed.

Lemma putInRebroadcastQueue_core cfg id t : core (fst (putInRebroadcastQueue cfg id t)) = core t.
Proof.
  unfold putInRebroadcastQueue, bind, modify, guard, ret, throw. destruct (rebroadcastEnabled cfg); [|done].
  simpl. by destruct (0 <=? rebroadcastQueueSize cfg)%Z.
Qed.

(** Every operation of a well-formed tracker is one step of the machine. *)
Lemma run_op_simulates cfg op t : wf t -> simulates t (run_op cfg op t) (astep cfg op (abs t)).
Proof.
  intros W. destruct op as [ids ty cp|now id|now id|now id|now id sender|now cp ty id|now id|id| | |i]; simpl.
  - by apply set_requested_all_simulates.
  - by apply invalid_simulates.
  - apply cleared_simulates, setHeld_core; done.
  - apply cleared_simulates, setUnknown_core; done.
  - by apply receive_simulates.
  - by apply still_waiting_simulates.
  - case_bool_decide as Hs.
    + pose proof (clearStatus_core cfg now id t) as E. rewrite Hs in E.
      destruct (cleared_simulates _ _ _ W E) as [W1 H1]. split; [done|]. intros id'. rewrite H1.
      rewrite status_abs in Hs. by destruct (abs t id).
    + apply noop_simulates; [done..|]. rewrite status_abs in Hs. by destruct (abs t id).
  - by apply core_simulates, putInRebroadcastQueue_core.
  - by apply core_simulates.
  - by apply core_simulates, schedule_core.
  - by apply core_simulates.
Qed.

Lemma astep_ext cfg op s1 s2 : (forall id, s1 id = s2 id) -> forall id, astep cfg op s1 id = astep cfg op s2 id.
Proof.
  intros H. assert (forall i v, (forall id, upd s1 i v id = upd s2 i v id)) as Hu.
  { intros i v j. unfold upd. by destruct (decide _). }
  destruct op; simpl; intros j; rewrite <- ?H; auto.
  clear Hu. revert s1 s2 H. induction ids as [|i ids IH]; intros s1 s2 H; simpl; [done|].
  apply IH. intros k. unfold upd. rewrite (H i). by destruct (decide _).
Qed.

Lemma run_ops_simulates cfg ops t s : wf t -> (forall id, abs t id = s id) ->
  simulates t (run_ops cfg ops t) (foldl (fun s op => astep cfg op s) s ops).
Proof.
  revert t s. induction ops as [|op ops IH]; intros t s W H; simpl; [by split|].
  destruct (run_op_simulates cfg op t W) as [W1 H1]. unfold run_ops. simpl.
  destruct (IH (run_op cfg op t) (astep cfg op s) W1) as [W2 H2].
  - intros id. rewrite H1. by apply astep_ext.
  - by split.
Qed.
