(* ===== verification/DeliveryTrackerThms.v ===== *)
(** * DeliveryTrackerThms: the properties of the delivery tracker

    The status machines it refines, the per-peer counters, the retry bound and
    the rebroadcast queue. *)

From S2P Require Import Prelude Network DeliveryTracker DeliveryTrackerSpec.

(** ** Counting the requests of a peer *)

Definition from_peer (a : N) (p : ModifierId * RequestedInfo) : Prop := remoteAddress (ri_peer p.2) = a.

#[export] Instance from_peer_dec a p : Decision (from_peer a p).
Proof. unfold from_peer. apply _. Defined.

Definition nreq (a : N) (m : gmap ModifierId RequestedInfo) : Z := Z.of_nat (size (filter (from_peer a) m)).

Lemma nreq_insert a m id info : m !! id = None ->
  nreq a (<[id := info]> m) = (nreq a m + if decide (remoteAddress (ri_peer info) = a) then 1 else 0)%Z.
Proof.
  intros Hn. unfold nreq. destruct (decide _) as [Hp|Hp].
  - rewrite map_filter_insert_True by done. rewrite map_size_insert_None; [lia|].
    apply map_lookup_filter_None_2. by left.
  - rewrite map_filter_insert_not' by (try done; intros y Hy; congruence). lia.
Qed.

Lemma nreq_delete a m id info : m !! id = Some info ->
  nreq a (delete id m) = (nreq a m - if decide (remoteAddress (ri_peer info) = a) then 1 else 0)%Z.
Proof.
  intros Hs. rewrite <- (insert_delete_id m id info Hs) at 2.
  rewrite nreq_insert by apply lookup_delete_eq. lia.
Qed.

Lemma nreq_nonneg a m : (0 <= nreq a m)%Z.
Proof. unfold nreq. lia. Qed.

Lemma nreq_empty a : nreq a ∅ = 0%Z.
Proof. unfold nreq. by rewrite map_filter_empty, map_size_empty. Qed.

(** The counters agree with the requests, and a peer without requests has none. *)
Definition limits_ok (m : gmap ModifierId RequestedInfo) (l : gmap N Z) : Prop :=
  forall a, l !! a = if decide (nreq a m = 0)%Z then None else Some (nreq a m).

Lemma limits_insert m l id info : limits_ok m l -> m !! id = None ->
  limits_ok (<[id := info]> m) (inc_limit (remoteAddress (ri_peer info)) l).
Proof.
  intros H Hn a. rewrite nreq_insert by done. unfold inc_limit. pose proof (nreq_nonneg a m) as H0.
  destruct (decide (remoteAddress (ri_peer info) = a)) as [->|Hne].
  - rewrite lookup_insert_eq, (H a). destruct (decide (nreq a m = 0)%Z) as [E|E];
      (rewrite decide_False by lia); simpl; f_equal; lia.
  - rewrite lookup_insert_ne by done. rewrite (H a). by rewrite Z.add_0_r.
Qed.

Lemma limits_delete m l id info : limits_ok m l -> m !! id = Some info ->
  limits_ok (delete id m) (dec_limit (remoteAddress (ri_peer info)) l).
Proof.
  intros H Hs a. rewrite (nreq_delete a m id info Hs). unfold dec_limit.
  pose proof (nreq_nonneg a (delete id m)) as H0. rewrite (nreq_delete a m id info Hs) in H0.
  destruct (decide (remoteAddress (ri_peer info) = a)) as [->|Hne].
  - rewrite (H a). rewrite decide_False by lia. destruct (Z.eqb_spec (nreq a m) 1) as [E|E].
    + rewrite lookup_delete_eq. by rewrite decide_True by lia.
    + rewrite lookup_insert_eq. by rewrite decide_False by lia.
  - rewrite Z.sub_0_r. destruct (l !! remoteAddress (ri_peer info)) as [v|]; [|apply H].
    destruct (v =? 1)%Z; [rewrite lookup_delete_ne by done|rewrite lookup_insert_ne by done]; apply H.
Qed.

Lemma inc_dec_limit m l id info : limits_ok m l -> m !! id = Some info ->
  inc_limit (remoteAddress (ri_peer info)) (dec_limit (remoteAddress (ri_peer info)) l) = l.
Proof.
  intros H Hs. set (a := remoteAddress (ri_peer info)).
  pose proof (nreq_delete a m id info Hs) as Hd. rewrite decide_True in Hd by done.
  pose proof (nreq_nonneg a (delete id m)). pose proof (H a) as Ha. rewrite decide_False in Ha by lia.
  unfold inc_limit, dec_limit. rewrite Ha. apply map_eq. intros b.
  destruct (Z.eqb_spec (nreq a m) 1) as [E|E]; destruct (decide (a = b)) as [<-|Hb].
  - rewrite lookup_insert_eq, lookup_delete_eq, Ha. simpl. f_equal. lia.
  - by rewrite lookup_insert_ne, lookup_delete_ne by done.
  - rewrite !lookup_insert_eq, Ha. simpl. f_equal. lia.
  - by rewrite !lookup_insert_ne by done.
Qed.

Lemma limits_request m t id supplier c checks : limits_ok (requested t) (peerLimits t) -> m = requested t ->
  limits_ok (<[id := ReqInfo supplier c checks]> m) (request_limits id supplier t).
Proof.
  intros H ->. unfold request_limits. destruct (requested t !! id) as [info|] eqn:E.
  - rewrite <- insert_delete_eq.
    assert (limits_ok (<[id:=ReqInfo supplier c checks]> (delete id (requested t)))
             (inc_limit (remoteAddress supplier) (dec_limit (remoteAddress (ri_peer info)) (peerLimits t)))) as Hok.
    { apply (limits_insert _ _ id (ReqInfo supplier c checks)); [by apply limits_delete|apply lookup_delete_eq]. }
    unfold sameConnectionId. case_bool_decide as Hp; [|done].
    rewrite Hp in Hok at 2. by rewrite (inc_dec_limit _ _ _ _ H E) in Hok.
  - by apply (limits_insert _ _ id (ReqInfo supplier c checks)).
Qed.

Definition counted (t : Tracker) : Prop := limits_ok (requested t) (peerLimits t).

Lemma counted_core t u : core u = core t -> counted t -> counted u.
Proof. unfold counted. by intros (-> & -> & _)%core_proj. Qed.

Lemma counted_cleared t u id : core u = cleared id t -> counted t -> counted u.
Proof.
  unfold cleared. destruct (received t !! id).
  - intros (E1 & E2 & _)%core_tuple. unfold counted. by rewrite E1, E2.
  - destruct (requested t !! id) eqn:E; [|apply counted_core].
    intros (E1 & E2 & _)%core_tuple H. unfold counted. rewrite E1, E2. by apply limits_delete.
Qed.

Lemma counted_request id typeId supplier checks t :
  counted t -> counted (fst (setRequested id typeId supplier checks t)).
Proof.
  intros H. destruct (setRequested_core id typeId supplier checks t) as [c E].
  destruct (status id [] t); try (by apply (counted_core t));
    apply core_tuple in E as (E1 & E2 & _); unfold counted; rewrite E1, E2; by apply limits_request.
Qed.

(** The delivery is from (the address of) the peer that was asked. *)
Definition attributed (op : TrackerOp) (t : Tracker) : Prop :=
  match op with
  | OSetReceived _ id sender =>
      forall info, requested t !! id = Some info -> remoteAddress sender = remoteAddress (ri_peer info)
  | _ => True
  end.

Lemma counted_step cfg op t : attributed op t -> counted t -> counted (run_op cfg op t).
Proof.
  intros Ha H. destruct op as [ids ty cp|now id|now id|now id|now id sender|now cp ty id|now id|id| | |i]; simpl in *.
  - clear Ha. revert t H. induction ids as [|id ids IH]; intros t H; [done|].
    apply IH. by apply counted_request.
  - pose proof (setInvalid_core cfg now id t) as E. destruct (cleared id t) as [[[r l] i] v] eqn:Ec.
    pose proof (counted_cleared t (Tr r l i v [] None 0 false ∅ 0) id (eq_sym Ec) H) as Hc.
    apply core_tuple in E as (E1 & E2 & _). unfold counted. by rewrite E1, E2.
  - eapply counted_cleared; [apply setHeld_core|done].
  - eapply counted_cleared; [apply setUnknown_core|done].
  - pose proof (setReceived_core now id sender t) as E.
    destruct (received t !! id); [by apply (counted_core t)|].
    destruct (requested t !! id) as [info|] eqn:Eq; [|by apply (counted_core t)].
    apply core_tuple in E as (E1 & E2 & _). unfold counted. rewrite E1, E2, (Ha info eq_refl).
    by apply limits_delete.
  - unfold onStillWaiting, requestedApply, bind, gets, lift_try. simpl.
    destruct (requested t !! id) as [info|]; [|done]. simpl.
    pose proof (counted_cleared t _ id (setUnknown_core cfg now id t) H).
    destruct (_ <? _)%Z; [|done]. by apply counted_request.
  - case_bool_decide as Hs; [|done]. pose proof (clearStatus_core cfg now id t) as E. rewrite Hs in E.
    by eapply counted_cleared.
  - by apply (counted_core t), H; apply putInRebroadcastQueue_core.
  - done.
  - by apply (counted_core t), H; apply schedule_core.
  - done.
Qed.

Inductive attributed_trace (cfg : NetworkSettings) : Tracker -> list TrackerOp -> Prop :=
| at_nil t : attributed_trace cfg t []
| at_cons t op ops : attributed op t -> attributed_trace cfg (run_op cfg op t) ops ->
    attributed_trace cfg t (op :: ops).

Lemma counted_run cfg ops t : attributed_trace cfg t ops -> counted t -> counted (run_ops cfg ops t).
Proof.
  intros Ha. induction Ha as [|t op ops Ho _ IH]; [done|]. intros H. unfold run_ops. simpl.
  by apply IH, counted_step.
Qed.

Lemma counted_empty : counted empty_tracker.
Proof. intros a. rewrite decide_True by apply nreq_empty. apply lookup_empty. Qed.

Lemma getPeerLimit_counted cfg peer t : counted t ->
  getPeerLimit cfg peer t = (maxRequestedPerPeer cfg - nreq (remoteAddress peer) (requested t))%Z.
Proof. intros H. unfold getPeerLimit. rewrite (H _). by destruct (decide _) as [->|]. Qed.

(** ** Retries *)

Definition retry_bound (cfg : NetworkSettings) : Z := Z.max 1 (maxDeliveryChecks cfg).

Definition bounded (cfg : NetworkSettings) (a : AStatus) : Prop :=
  match a with ARequested c => (0 <= c < retry_bound cfg)%Z | _ => True end.

Lemma bounded_upd cfg s id v : (forall i, bounded cfg (s i)) -> bounded cfg v -> forall i, bounded cfg (upd s id v i).
Proof. intros Hs Hv i. unfold upd. by destruct (decide _). Qed.

Lemma astep_bounded cfg op s : (forall i, bounded cfg (s i)) -> forall i, bounded cfg (astep cfg op s i).
Proof.
  intros Hs. destruct op; simpl; try done.
  - revert s Hs. induction ids as [|id ids IH]; intros s Hs; simpl; [done|]. apply IH, bounded_upd; [done|].
    pose proof (Hs id) as H. destruct (s id); simpl in *; unfold retry_bound; lia.
  - by apply bounded_upd.
  - apply bounded_upd; [done|]. by destruct (s id) eqn:E.
  - apply bounded_upd; [done|]. by destruct (s id) eqn:E.
  - apply bounded_upd; [done|]. by destruct (s id) eqn:E.
  - apply bounded_upd; [done|]. pose proof (Hs id) as H. destruct (s id); simpl in *; try done.
    destruct (Z.ltb_spec (checks + 1) (maxDeliveryChecks cfg)); simpl; unfold retry_bound in *; lia.
  - apply bounded_upd; [done|]. by destruct (s id) eqn:E.
Qed.

(** [n] delivery timeouts of one modifier in a row *)
Fixpoint waits (l : list (Z * ConnectedPeer * ModifierTypeId)) (id : ModifierId) : list TrackerOp :=
  match l with
  | [] => []
  | (now, cp, typeId) :: l' => OStillWaiting now cp typeId id :: waits l' id
  end.

Lemma waits_abs cfg l id s :
  bounded cfg (s id) -> (maxDeliveryChecks cfg <= zlen l + match s id with ARequested c => c | _ => 0 end)%Z ->
  (0 < zlen l)%Z ->
  forall c, foldl (fun s op => astep cfg op s) s (waits l id) id <> ARequested c.
Proof.
  revert s. induction l as [|[[now cp] ty] l IH]; intros s Hb Hl H0 c; [done|]. cbn [waits foldl astep].
  assert (forall l s, (forall c, s id <> ARequested c) -> forall c,
            foldl (fun s op => astep cfg op s) s (waits l id) id <> ARequested c) as Hstay.
  { clear. intros l. induction l as [|[[now cp] ty] l IH]; intros s Hs c; simpl; [done|]. apply IH. intros c'.
    unfold upd. rewrite decide_True by done. unfold a_wait.
    destruct (s id) as [|k| |]; try done. by destruct (Hs k). }
  unfold zlen in *. simpl length in *.
  destruct (s id) as [|ch| |] eqn:Es;
    try (apply Hstay; intros c'; unfold upd; by rewrite decide_True).
  simpl. destruct (Z.ltb_spec (ch + 1) (maxDeliveryChecks cfg)) as [Hlt|Hge].
  - apply IH; unfold upd; rewrite ?decide_True by done; simpl in *; unfold retry_bound in *; lia.
  - apply Hstay. intros c'. unfold upd. by rewrite decide_True.
Qed.

(** ** The rebroadcast queue *)

Lemma trimQueue_drop bound q : (0 <= bound)%Z -> trimQueue bound q = drop (length q - Z.to_nat bound) q.
Proof.
  intros H0. induction q as [|x q IH]; [done|]. cbn [trimQueue].
  destruct (Z.ltb_spec bound (zlen (x :: q))) as [Hl|Hl]; unfold zlen in Hl; simpl length in *.
  - rewrite IH. by replace (S (length q) - Z.to_nat bound)%nat with (S (length q - Z.to_nat bound)) by lia.
  - by replace (S (length q) - Z.to_nat bound)%nat with 0%nat by lia.
Qed.

Lemma put_queue cfg id t : rebroadcastEnabled cfg = true -> (0 <= rebroadcastQueueSize cfg)%Z ->
  rebroadcastQueue (run_op cfg (OPutRebroadcast id) t) =
    let q := rebroadcastQueue t ++ [id] in drop (length q - Z.to_nat (rebroadcastQueueSize cfg)) q.
Proof.
  intros He H0. simpl. unfold putInRebroadcastQueue, bind, modify, guard. rewrite He. simpl.
  rewrite (proj2 (Z.leb_le _ _) H0). simpl. by rewrite trimQueue_drop.
Qed.

Lemma puts_queue cfg ids t : rebroadcastEnabled cfg = true -> (0 <= rebroadcastQueueSize cfg)%Z ->
  (zlen (rebroadcastQueue t) <= rebroadcastQueueSize cfg)%Z ->
  rebroadcastQueue (run_ops cfg (OPutRebroadcast <$> ids) t) =
    let q := rebroadcastQueue t ++ ids in drop (length q - Z.to_nat (rebroadcastQueueSize cfg)) q.
Proof.
  intros He H0. revert t. induction ids as [|id ids IH]; intros t Hl; unfold zlen in Hl.
  - simpl. rewrite app_nil_r. by replace (_ - _)%nat with 0%nat by lia.
  - change (run_ops cfg (OPutRebroadcast <$> (id :: ids)) t)
      with (run_ops cfg (OPutRebroadcast <$> ids) (run_op cfg (OPutRebroadcast id) t)).
    pose proof (put_queue cfg id t He H0) as E. cbv zeta in E.
    rewrite IH; rewrite E; unfold zlen; cbv zeta; rewrite ?length_app, ?length_drop, ?length_app; simpl length; [|lia].
    set (n := length (rebroadcastQueue t)) in *. set (b := Z.to_nat (rebroadcastQueueSize cfg)) in *.
    replace (rebroadcastQueue t ++ id :: ids) with ((rebroadcastQueue t ++ [id]) ++ ids) by by rewrite <- app_assoc.
    assert (length (rebroadcastQueue t ++ [id]) = n + 1)%nat as Hq by (rewrite length_app; done).
    rewrite <- (drop_app_le (rebroadcastQueue t ++ [id]) ids) by (rewrite Hq; lia).
    rewrite drop_drop. f_equal. lia.
Qed.

(** ** Properties *)

Definition run cfg ops := run_ops cfg ops empty_tracker.
Definition arun cfg ops := foldl (fun s op => astep cfg op s) (fun _ => AUnknown) ops.

Lemma run_wf_abs cfg ops : wf (run cfg ops) /\ forall id, abs (run cfg ops) id = arun cfg ops id.
Proof.
  apply (run_ops_simulates cfg ops empty_tracker (fun _ => AUnknown) wf_empty).
  intros id. unfold abs. simpl. by rewrite !lookup_empty.
Qed.

(** The machine of the comments *)
Definition drun cfg ops := foldl (fun s op => dstep cfg op s) (fun _ => AUnknown) ops.

Lemma upd_local s s' i j v v' : s i = s' i -> (i = j -> v = v') -> upd s j v i = upd s' j v' i.
Proof. intros Hs Hv. unfold upd. destruct (decide (i = j)); auto. Qed.

(** Steps for other modifiers do not matter. *)
Lemma astep_local cfg op s s' i : s i = s' i -> astep cfg op s i = astep cfg op s' i.
Proof.
  intros E. destruct op as [ids ty cp| | | | | | | | | |]; cbn [astep]; try done; try (apply upd_local; [done|by intros <-; rewrite ?E]).
  revert s s' E. induction ids as [|j ids IH]; intros s s' E; [done|]. cbn [foldl]. apply IH, upd_local; [done|by intros <-; rewrite E].
Qed.

(** No setHeld finds the modifier invalid. *)
Definition never_held_invalid cfg ops id : Prop :=
  forall ops1 now ops2, ops = ops1 ++ OSetHeld now id :: ops2 -> status id [] (run cfg ops1) <> Invalid.

Lemma drun_arun cfg ops id : never_held_invalid cfg ops id -> drun cfg ops id = arun cfg ops id.
Proof.
  induction ops as [|op ops IH] using rev_ind; intros H; [done|].
  assert (drun cfg ops id = arun cfg ops id) as E.
  { apply IH. intros ops1 now ops2 ->. apply (H ops1 now (ops2 ++ [op])). by rewrite <- app_assoc. }
  unfold drun, arun. rewrite !foldl_app. cbn [foldl]. fold (drun cfg ops) (arun cfg ops).
  rewrite <- (astep_local cfg op (drun cfg ops) (arun cfg ops) id E). destruct op as [| |now j| | | | | | | |]; try done.
  cbn [dstep astep]. unfold upd. destruct (decide (id = j)) as [<-|]; [|done]. rewrite E.
  specialize (H ops now [] eq_refl). rewrite status_abs, (proj2 (run_wf_abs cfg ops)) in H. by destruct (arun cfg ops id).
Qed.

(** Operations other than the queue's own do not touch it. *)
Lemma schedule_queue cfg t : rebroadcastQueue (fst (scheduleRebroadcastIfNeeded cfg t)) = rebroadcastQueue t.
Proof.
  unfold scheduleRebroadcastIfNeeded, scheduleOnce, cancel, bind, gets, modify, ret, id. simpl.
  destruct (_ && _); [|done]. by destruct (transactionRebroadcastEvent t).
Qed.

Lemma updateProcessingTime_queue cfg now start t :
  rebroadcastQueue (fst (updateProcessingTime cfg now start t)) = rebroadcastQueue t.
Proof.
  unfold updateProcessingTime, bind, gets, modify, ret, id. destruct (slowModeFeatureFlag cfg); [|done].
  simpl. destruct (_ && _); [done|]. destruct (_ && _); [|done]. by rewrite schedule_queue.
Qed.

Ltac queue_solver :=
  unfold clearStatusForModifier, checkTransition, requestedApply, cancel, bind, gets, modify, lift_try, guard, ret, throw;
  repeat first
    [ done
    | match goal with
      | |- context [(updateProcessingTime ?c ?n ?s ?t).1] => rewrite (updateProcessingTime_queue c n s t)
      end
    | case_match; simplify_eq/=
    | progress simpl ];
  repeat match goal with
  | H : updateProcessingTime ?c ?n ?s ?t = (?u, _) |- _ =>
      let E := fresh in pose proof (updateProcessingTime_queue c n s t) as E; rewrite H in E; clear H; simpl in E
  end; try done.

Lemma setRequested_queue id typeId cp checks t :
  rebroadcastQueue (fst (setRequested id typeId cp checks t)) = rebroadcastQueue t.
Proof.
  unfold setRequested, scheduleOnce, decrementPeerLimitCounter, incrementPeerLimitCounter. queue_solver.
Qed.

Lemma run_op_queue cfg op t : (0 <= rebroadcastQueueSize cfg)%Z ->
  (zlen (rebroadcastQueue t) <= rebroadcastQueueSize cfg)%Z ->
  (zlen (rebroadcastQueue (run_op cfg op t)) <= rebroadcastQueueSize cfg)%Z.
Proof.
  intros H0 Hl. destruct op as [ids ty cp|now id|now id|now id|now id sender|now cp ty id|now id|id| | |i].
  9: { simpl. unfold zlen in *. rewrite length_drop. lia. }
  8: { destruct (rebroadcastEnabled cfg) eqn:He.
       - rewrite put_queue by done. unfold zlen in *. simpl. rewrite length_drop. lia.
       - simpl. unfold putInRebroadcastQueue. by rewrite He. }
  all: replace (rebroadcastQueue _) with (rebroadcastQueue t); [done|symmetry].
  - simpl. revert t Hl. induction ids as [|id ids IH]; intros t Hl; [done|]. simpl. unfold bind, ignoring. simpl.
    rewrite IH; rewrite ?setRequested_queue; done.
  - unfold run_op, setInvalid. queue_solver.
  - unfold run_op, setHeld. queue_solver.
  - unfold run_op, setUnknown. queue_solver.
  - unfold run_op, setReceived. queue_solver.
  - simpl. unfold onStillWaiting, requestedApply, bind, gets, lift_try, ignoring. simpl.
    destruct (requested t !! id); [|done]. simpl.
    assert (rebroadcastQueue (setUnknown cfg now id t).1 = rebroadcastQueue t) as E by (unfold setUnknown; queue_solver).
    destruct (_ <? _)%Z; [|done]. simpl. by rewrite setRequested_queue.
  - simpl. case_bool_decide; [|done]. queue_solver.
  - apply schedule_queue.
  - done.
Qed.

Lemma run_queue_bounded cfg ops : (0 <= rebroadcastQueueSize cfg)%Z ->
  (zlen (rebroadcastQueue (run cfg ops)) <= rebroadcastQueueSize cfg)%Z.
Proof.
  intros H0. unfold run, run_ops. induction ops as [|op ops IH] using rev_ind; [done|].
  rewrite foldl_app. simpl. by apply run_op_queue.
Qed.

(** C23: after any sequence of operations from the empty tracker, whatever the clock,
    the peers and the settings, the status of every modifier is the one that the
    machine of statuses, with the transitions as they are coded, reaches with the
    same operations.  It is also the one the machine of the comments reaches, as
    long as no setHeld finds the modifier invalid; where one does, the comments say
    Held, and the tracker leaves the modifier invalid. *)
Theorem tracker_refines_status_machine cfg ops id keepers :
  status id keepers (run cfg ops) = to_status keepers id (arun cfg ops id) /\
  (never_held_invalid cfg ops id -> status id keepers (run cfg ops) = to_status keepers id (drun cfg ops id)) /\
  (forall now, status id keepers (run cfg ops) = Invalid ->
     status id keepers (run cfg (ops ++ [OSetHeld now id])) = Invalid /\
     to_status keepers id (drun cfg (ops ++ [OSetHeld now id]) id) = if existsb (fun c => c id) keepers then Held else Unknown).
Proof.
  assert (forall l, status id keepers (run cfg l) = to_status keepers id (arun cfg l id)) as E.
  { intros l. rewrite status_abs. by rewrite (proj2 (run_wf_abs cfg l)). }
  split; [apply E|]. split; [intros H; by rewrite drun_arun|]. intros now. rewrite !E. unfold arun, drun. rewrite !foldl_app. cbn [foldl].
  fold (arun cfg ops). cbn [astep dstep]. unfold upd. rewrite !decide_True by done.
  destruct (arun cfg ops id); cbn; try done.
Qed.

(** The results of the operations in any reachable state: [setInvalid]
    returns the peer that was asked or that sent the modifier, [setHeld] never
    fails, and the other ones fail exactly on the transitions the machine
    forbids, or when the retries are exhausted. *)
Theorem tracker_outcomes cfg ops now id cp typeId checks :
  let t := run cfg ops in
  snd (setInvalid cfg now id t) = Success (peerInfo id t) /\
  snd (setHeld cfg now id t) = Success tt /\
  match arun cfg ops id with
  | AUnknown =>
      snd (setRequested id typeId cp checks t) = Success tt /\
      snd (setReceived now id cp t) = Failure IllegalArgument /\
      snd (setUnknown cfg now id t) = Success tt /\
      snd (onStillWaiting cfg now cp typeId id t) = Failure NoSuchElement
  | ARequested c =>
      snd (setRequested id typeId cp checks t) = Success tt /\
      snd (setReceived now id cp t) = Success tt /\
      snd (setUnknown cfg now id t) = Success tt /\
      snd (onStillWaiting cfg now cp typeId id t) =
        if (c + 1 <? maxDeliveryChecks cfg)%Z then Success tt else Failure (Raised "StopExpectingError")
  | AReceived =>
      snd (setRequested id typeId cp checks t) = Failure IllegalArgument /\
      snd (setReceived now id cp t) = Success tt /\
      snd (setUnknown cfg now id t) = Success tt /\
      snd (onStillWaiting cfg now cp typeId id t) = Failure NoSuchElement
  | AInvalid =>
      snd (setRequested id typeId cp checks t) = Failure IllegalArgument /\
      snd (setReceived now id cp t) = Failure IllegalArgument /\
      snd (setUnknown cfg now id t) = Failure IllegalArgument /\
      snd (onStillWaiting cfg now cp typeId id t) = Failure NoSuchElement
  end.
Proof.
  intros t. destruct (run_wf_abs cfg ops) as [W Habs]. fold t in W, Habs. rewrite <- (Habs id). clearbody t. clear Habs.
  split; [by apply setInvalid_result|]. split; [apply setHeld_result|].
  rewrite setRequested_result, setReceived_result, setUnknown_result, onStillWaiting_result, requested_abs by done.
  rewrite status_abs. by destruct (abs t id).
Qed.

(** The counter of a peer is exactly the number of modifiers requested from
    it, so that what [getPeerLimit] leaves is the configured maximum less that
    number, as long as each modifier is received from the peer it was asked
    from. *)
Theorem peer_limit_counts cfg ops peer :
  attributed_trace cfg empty_tracker ops ->
  getPeerLimit cfg peer (run cfg ops) =
    (maxRequestedPerPeer cfg - nreq (remoteAddress peer) (requested (run cfg ops)))%Z.
Proof. intros Ha. by apply getPeerLimit_counted, counted_run, counted_empty. Qed.

(** When another peer delivers a requested modifier, the counter of the
    peer that was asked stays one above its requests, so it loses one request of
    its limit, and the sender's counter is one below if it had requests. *)
Theorem setReceived_wrong_counter cfg ops now id sender info :
  attributed_trace cfg empty_tracker ops ->
  let t := run cfg ops in
  let t' := fst (setReceived now id sender t) in
  requested t !! id = Some info ->
  remoteAddress sender <> remoteAddress (ri_peer info) ->
  getPeerLimit cfg (ri_peer info) t' =
    (maxRequestedPerPeer cfg - (nreq (remoteAddress (ri_peer info)) (requested t') + 1))%Z /\
  (0 < nreq (remoteAddress sender) (requested t') ->
   getPeerLimit cfg sender t' =
     maxRequestedPerPeer cfg - (nreq (remoteAddress sender) (requested t') - 1))%Z.
Proof.
  intros Ha t t' Eq Hne. pose proof (counted_run cfg ops empty_tracker Ha counted_empty) as H. fold (run cfg ops) t in H.
  pose proof (setReceived_core now id sender t) as E. fold t' in E. rewrite Eq in E.
  destruct (run_wf_abs cfg ops) as [W _]. fold t in W.
  assert (received t !! id = None) as Er.
  { destruct (received t !! id) eqn:Er; [|done]. destruct (wf_received t W id (mk_is_Some _ _ Er)). congruence. }
  rewrite Er in E. apply core_tuple in E as (E1 & E2 & _). clearbody t'.
  unfold getPeerLimit. rewrite E1, E2, !(nreq_delete _ _ _ _ Eq).
  rewrite (decide_True (P := remoteAddress (ri_peer info) = remoteAddress (ri_peer info))) by done.
  rewrite decide_False by done.
  pose proof (nreq_delete (remoteAddress (ri_peer info)) _ _ _ Eq) as Hd. rewrite decide_True in Hd by done.
  pose proof (nreq_nonneg (remoteAddress (ri_peer info)) (delete id (requested t))).
  unfold dec_limit. rewrite (H (remoteAddress sender)).
  split.
  - assert (forall m : gmap N Z, m !! remoteAddress (ri_peer info) = peerLimits t !! remoteAddress (ri_peer info) ->
      default 0%Z (m !! remoteAddress (ri_peer info)) = nreq (remoteAddress (ri_peer info)) (requested t)) as Hm.
    { intros m ->. rewrite (H _), decide_False by lia. done. }
    rewrite Hm; [lia|]. destruct (decide _); [done|].
    destruct (_ =? _)%Z; by rewrite ?lookup_delete_ne, ?lookup_insert_ne.
  - intros Hp. rewrite decide_False by lia. destruct (Z.eqb_spec (nreq (remoteAddress sender) (requested t)) 1) as [E|E].
    + rewrite lookup_delete_eq. simpl. lia.
    + rewrite lookup_insert_eq. simpl. lia.
Qed.

(** Retries are bounded: in any reachable state a requested modifier has
    been checked fewer than [maxDeliveryChecks] times, and that many delivery
    timeouts in a row (at least one) leave it no longer requested. *)
Theorem delivery_retries_bounded cfg ops id :
  (forall info, requested (run cfg ops) !! id = Some info ->
     (0 <= ri_checks info < Z.max 1 (maxDeliveryChecks cfg))%Z) /\
  forall l, (0 < zlen l)%Z -> (maxDeliveryChecks cfg <= zlen l)%Z ->
    requested (run cfg (ops ++ waits l id)) !! id = None.
Proof.
  assert (forall i, bounded cfg (arun cfg ops i)) as Hb.
  { unfold arun. assert (forall s, (forall i, bounded cfg (s i)) ->
      forall i, bounded cfg (foldl (fun s op => astep cfg op s) s ops i)) as Hg; [|by apply Hg].
    induction ops as [|op ops IH]; intros s Hs; [done|]. simpl. apply IH. by apply astep_bounded. }
  split.
  - intros info Eq. destruct (run_wf_abs cfg ops) as [W Ha]. specialize (Hb id).
    by rewrite <- Ha, (abs_requested _ _ _ W Eq) in Hb.
  - intros l H0 Hl. destruct (run_wf_abs cfg (ops ++ waits l id)) as [W Ha].
    destruct (requested _ !! id) as [info|] eqn:Eq; [|done].
    pose proof (abs_requested _ _ _ W Eq) as Hs. rewrite Ha in Hs. unfold arun in Hs. rewrite foldl_app in Hs.
    apply waits_abs in Hs; [done|apply Hb| |done]. specialize (Hb id). unfold arun in Hb.
    destruct (foldl _ _ ops id); simpl in Hb; lia.
Qed.

(** The rebroadcast queue keeps the last [rebroadcastQueueSize] modifiers
    put, and [getRebroadcastModifiers] takes the oldest batch off it. *)
Theorem rebroadcast_queue_fifo cfg ops ids :
  rebroadcastEnabled cfg = true -> (0 <= rebroadcastQueueSize cfg)%Z ->
  let t := run cfg ops in
  let q := rebroadcastQueue t ++ ids in
  let t' := run_ops cfg (OPutRebroadcast <$> ids) t in
  let q' := drop (length q - Z.to_nat (rebroadcastQueueSize cfg)) q in
  rebroadcastQueue t' = q' /\
  exists t'', getRebroadcastModifiers cfg t' = (t'', Success (take (Z.to_nat (rebroadcastBatchSize cfg)) q')) /\
    rebroadcastQueue t'' = drop (Z.to_nat (rebroadcastBatchSize cfg)) q'.
Proof.
  intros He H0 t q t' q'.
  assert (rebroadcastQueue t' = q') as E by (apply puts_queue; [done..|by apply run_queue_bounded]).
  split; [done|]. eexists. unfold getRebroadcastModifiers, bind, gets, modify, ret. simpl. by rewrite E.
Qed.

(** ** Witnesses *)

(** Two peers and settings to evaluate the tracker on. *)
Definition peerA : ConnectedPeer := Peer 1 10 true.
Definition peerB : ConnectedPeer := Peer 2 11 false.
Definition sample_settings : NetworkSettings :=
  Build_NetworkSettings 3 10 true 1000 5 (fun x => x) (fun x => x) true 2 1.

(** An invalid modifier that is applied after all: by the comments it is held. *)
Lemma tracker_refines_status_machine_witness :
  let ops := [OSetRequested ["a"; "b"]%string 1 peerA; OSetReceived 0 "a" peerA; OSetHeld 0 "a"; OSetInvalid 0 "b"] in
  let holds := [fun id => bool_decide (id = "a" \/ id = "b")]%string in
  status "a" holds (run sample_settings ops) = to_status holds "a" (drun sample_settings ops "a") /\
  to_status holds "a" (drun sample_settings ops "a") = Held /\
  status "b" holds (run sample_settings (ops ++ [OSetHeld 0 "b"])) = Invalid /\
  to_status holds "b" (drun sample_settings (ops ++ [OSetHeld 0 "b"]) "b") = Held.
Proof.
  intros ops holds. destruct (tracker_refines_status_machine sample_settings ops "a" holds) as (_ & Ha & _).
  destruct (tracker_refines_status_machine sample_settings ops "b" holds) as (_ & _ & Hb).
  split; [apply Ha|split; [by vm_compute|]].
  - intros ops1 now ops2 E. destruct ops1 as [|? [|? [|? [|? [|? ops1]]]]]; try discriminate E. injection E as <- <- _ _. by vm_compute.
  - destruct (Hb 0%Z) as [H1 H2]; [by vm_compute|]. split; [exact H1|]. etransitivity; [exact H2|by vm_compute].
Defined.

Lemma peer_limit_counts_witness :
  let ops := [OSetRequested ["a"; "b"]%string 1 peerA; OSetReceived 0 "a" peerA] in
  getPeerLimit sample_settings peerA (run sample_settings ops) = (10 - 1)%Z.
Proof.
  intros ops. rewrite (peer_limit_counts sample_settings ops peerA); [by vm_compute|].
  repeat constructor. intros info E. vm_compute in E. by injection E as <-.
Defined.

Lemma setReceived_wrong_counter_witness :
  let ops := [OSetRequested ["a"]%string 1 peerA; OSetRequested ["b"]%string 1 peerB] in
  let t' := fst (setReceived 0 "a" peerB (run sample_settings ops)) in
  getPeerLimit sample_settings peerA t' = (10 - (0 + 1))%Z /\
  getPeerLimit sample_settings peerB t' = (10 - (1 - 1))%Z.
Proof.
  intros ops t'.
  destruct (setReceived_wrong_counter sample_settings ops 0 "a" peerB (ReqInfo peerA 0 0)) as [H1 H2];
    [repeat constructor|by vm_compute|done|].
  split; [etransitivity; [exact H1|by vm_compute]|].
  etransitivity; [apply H2; by vm_compute|by vm_compute].
Defined.

Lemma delivery_retries_bounded_witness :
  let ops := [OSetRequested ["a"]%string 1 peerA; OStillWaiting 0 peerA 1 "a"] in
  (0 <= 1 < 3)%Z /\
  requested (run sample_settings (ops ++ waits [(0, peerA, 1); (0, peerB, 1); (0, peerA, 1)]%Z "a")) !! "a"%string = None.
Proof.
  intros ops. destruct (delivery_retries_bounded sample_settings ops "a") as [H1 H2]. split.
  - apply (H1 (ReqInfo peerA 1 1)). by vm_compute.
  - by apply H2.
Defined.

Lemma rebroadcast_queue_fifo_witness :
  let ops := [OPutRebroadcast "a"] in
  rebroadcastQueue (run_ops sample_settings (OPutRebroadcast <$> ["b"; "c"]%string) (run sample_settings ops)) =
    ["b"; "c"]%string.
Proof. intros ops. by destruct (rebroadcast_queue_fifo sample_settings ops ["b"; "c"]%string eq_refl ltac:(done)) as [H _]. Defined.
