(* ===== verification/ModifiersCache.v ===== *)
(** * ModifiersCache: modifiers that could not be applied yet

    core/ModifiersCache.scala: the trait, LRUCache and DefaultModifiersCache.  The
    linked hash map of the cache is the list of its entries in the order they
    were put; the eviction queue is a list.  What history says of a modifier
    (applicableTry) is the application's. *)

From S2P Require Import Prelude DeliveryTracker.

(** ModifierError.scala *)
Definition RecoverableModifierError : exn := Raised "RecoverableModifierError".

Section Cache.
Context {PMOD HIS : Type} (applicableTry : HIS -> PMOD -> Try unit) (maxSize : Z).

Record Cache := mkCache { cache : list (ModifierId * PMOD); evictionQueue : list ModifierId }.
Definition new_cache : Cache := mkCache [] [].

(** modifierById, contains of ContainsModifiers, size *)
Definition modifierById (k : ModifierId) (c : Cache) : option PMOD := snd <$> find (fun e => bool_decide (e.1 = k)) (cache c).
Definition contains (k : ModifierId) (c : Cache) : bool := bool_decide (is_Some (modifierById k c)).
Definition size (c : Cache) : Z := zlen (cache c).

(** LRUCache.onPut *)
Definition cleaningThreshold : Z := 50.
Definition onPut (k : ModifierId) (c : Cache) : Cache :=
  let q := evictionQueue c ++ [k] in
  mkCache (cache c) (if (toInt (maxSize + cleaningThreshold) <? zlen q)%Z then filter (fun k => contains k c = true) q else q).

Definition put (k : ModifierId) (v : PMOD) (c : Cache) : Cache :=
  if contains k c then c else onPut k (mkCache (cache c ++ [(k, v)]) (evictionQueue c)).

(** remove; LRUCache leaves onRemove as it is *)
Definition remove (k : ModifierId) (c : Cache) : option PMOD * Cache :=
  (modifierById k c, mkCache (filter (fun e => e.1 <> k) (cache c)) (evictionQueue c)).

(** findCandidateKey of DefaultModifiersCache: the iterator of the linked map has
    gone on when the predicate removes the entry it is asked about *)
Fixpoint find_entry (h : HIS) (l : list (ModifierId * PMOD)) (c : Cache) : option ModifierId * Cache :=
  match l with
  | [] => (None, c)
  | (k, v) :: l' =>
      match applicableTry h v with
      | Success _ => (Some k, c)
      | Failure e => if bool_decide (e = RecoverableModifierError) then find_entry h l' c else find_entry h l' (snd (remove k c))
      end
  end.
Definition findCandidateKey (h : HIS) (c : Cache) : option ModifierId * Cache := find_entry h (cache c) c.

Definition popCandidate (h : HIS) (c : Cache) : option PMOD * Cache :=
  let '(key, c') := findCandidateKey h c in
  match key with Some k => remove k c' | None => (None, c') end.

(** cleanOverfull: the removed modifiers, the last one first *)
Fixpoint removeUntilCorrectSize (q : list ModifierId) (c : Cache) (acc : list PMOD) : list PMOD * Cache :=
  match q with
  | [] => (acc, mkCache (cache c) [])
  | k :: q' =>
      if (size c <=? maxSize)%Z then (acc, mkCache (cache c) q)
      else let '(v, c') := remove k c in
           removeUntilCorrectSize q' c' match v with Some m => m :: acc | None => acc end
  end.
Definition cleanOverfull (c : Cache) : list PMOD * Cache := removeUntilCorrectSize (evictionQueue c) c [].

(** ** What every operation keeps *)

(** No key twice, and each in the eviction queue *)
Record cache_ok (c : Cache) : Prop := {
  keys_once : NoDup (cache c).*1;
  keys_queued k : k ∈ (cache c).*1 -> k ∈ evictionQueue c
}.

Lemma new_cache_ok : cache_ok new_cache.
Proof. split; [constructor|by intros k ?%elem_of_nil]. Qed.

Lemma modifierById_elem k v c : NoDup (cache c).*1 -> modifierById k c = Some v <-> (k, v) ∈ cache c.
Proof.
  unfold modifierById. induction (cache c) as [|[k' v'] l IH]; cbn [fmap list_fmap find fst]; intros H.
  - split; [done|by intros ?%elem_of_nil].
  - apply NoDup_cons in H as [Hk Hl]. rewrite elem_of_cons. destruct (bool_decide (k' = k)) eqn:E.
    + apply bool_decide_eq_true in E as ->. cbn. split; [by intros [= ->]; left|]. intros [[= ->]|Hin]; [done|].
      destruct Hk. by apply (list_elem_of_fmap_2 fst) in Hin.
    + apply bool_decide_eq_false in E. rewrite IH by done. split; [by right|]. intros [[= -> _]|?]; done.
Qed.
Lemma contains_keys k c : contains k c = true <-> k ∈ (cache c).*1.
Proof.
  unfold contains, modifierById. rewrite bool_decide_eq_true, fmap_is_Some. induction (cache c) as [|[k' v'] l IH]; cbn [find fmap list_fmap fst].
  - split; [by intros []|by intros ?%elem_of_nil].
  - rewrite elem_of_cons. case_bool_decide as E; [split; [by left|by eexists]|]. rewrite IH. split; [by right|by intros [->|?]].
Qed.

Lemma put_ok k v c : cache_ok c -> cache_ok (put k v c).
Proof.
  intros [Hn Hq]. unfold put. destruct (contains k c) eqn:E; [done|]. assert (k ∉ (cache c).*1) as Hk by (intros H%contains_keys; congruence).
  split; cbn [cache onPut].
  - rewrite fmap_app. apply NoDup_app. split; [done|]. split; [|apply NoDup_singleton]. by intros x Hx ->%list_elem_of_singleton.
  - intros x Hx. cbn [evictionQueue onPut]. assert (x ∈ evictionQueue c ++ [k]) as Hin.
    { rewrite fmap_app, elem_of_app in Hx. rewrite elem_of_app. destruct Hx as [Hx|Hx]; [left; by apply Hq|by right]. }
    destruct (_ <? _)%Z; [|done]. apply list_elem_of_filter. split; [by apply contains_keys|done].
Qed.
Lemma remove_keys k c x : x ∈ (cache (snd (remove k c))).*1 -> x ∈ (cache c).*1.
Proof. cbn. rewrite !list_elem_of_fmap. intros ([x' v] & -> & [_ H]%list_elem_of_filter). by exists (x', v). Qed.
Lemma remove_ok k c : cache_ok c -> cache_ok (snd (remove k c)).
Proof.
  intros [Hn Hq]. split; [|intros x Hx; apply Hq; by eapply remove_keys]. cbn. eapply sublist_NoDup; [exact Hn|]. apply fmap_sublist, sublist_filter.
Qed.

(** ** Candidates *)

Definition applicable (h : HIS) (v : PMOD) : bool := isSuccess (applicableTry h v).
Definition recoverable (h : HIS) (e : ModifierId * PMOD) : Prop := applicableTry h e.2 = Failure RecoverableModifierError.
#[export] Instance recoverable_dec h e : Decision (recoverable h e).
Proof. unfold recoverable. apply _. Defined.
Definition inapplicable (h : HIS) (e : ModifierId * PMOD) : Prop := applicable h e.2 = false.

Lemma remove_entry pre k v l c : cache c = pre ++ (k, v) :: l -> NoDup (cache c).*1 -> cache (snd (remove k c)) = pre ++ l.
Proof.
  intros E H. cbn. rewrite E in *. rewrite fmap_app, fmap_cons in H. apply NoDup_app in H as (_ & Hd & [Hl _]%NoDup_cons).
  rewrite filter_app, filter_cons_False by (by intros []). f_equal.
  - apply filter_all, Forall_forall. intros [k' v'] Hin. cbn. intros ->. apply (Hd k); [by apply (list_elem_of_fmap_2 fst) in Hin|left].
  - apply filter_all, Forall_forall. intros [k' v'] Hin. cbn. intros ->. apply Hl. by apply (list_elem_of_fmap_2 fst) in Hin.
Qed.

Lemma find_entry_spec h l : forall pre c, cache c = pre ++ l -> NoDup (cache c).*1 ->
  let '(key, c') := find_entry h l c in evictionQueue c' = evictionQueue c /\
  match key with
  | Some k => exists l1 v l2, l = l1 ++ (k, v) :: l2 /\ applicable h v = true /\ Forall (inapplicable h) l1 /\
      cache c' = pre ++ filter (recoverable h) l1 ++ (k, v) :: l2
  | None => Forall (inapplicable h) l /\ cache c' = pre ++ filter (recoverable h) l
  end.
Proof.
  induction l as [|[k v] l IH]; intros pre c E Hn; cbn [find_entry]; [done|].
  destruct (applicableTry h v) as [[]|e] eqn:Ea.
  { split; [done|]. exists [], v, l. cbn. unfold applicable. by rewrite Ea. }
  assert (inapplicable h (k, v)) as Hi by (unfold inapplicable, applicable; cbn; by rewrite Ea). case_bool_decide as He.
  - subst e. specialize (IH (pre ++ [(k, v)]) c). rewrite <- app_assoc in IH. specialize (IH E Hn).
    destruct (find_entry h l c) as [[k'|] c'], IH as [Eq IH]; (split; [done|]).
    + destruct IH as (l1 & w & l2 & -> & Hw & H1 & Ec). exists ((k, v) :: l1), w, l2. split_and!; [done|done|by constructor|].
      rewrite filter_cons_True by done. by rewrite Ec, <- app_assoc.
    + destruct IH as [H1 Ec]. split; [by constructor|]. rewrite filter_cons_True by done. by rewrite Ec, <- app_assoc.
  - assert (~ recoverable h (k, v)) as Hr by (unfold recoverable; cbn; congruence). pose proof (remove_entry pre k v l c E Hn) as Er.
    specialize (IH pre (snd (remove k c)) Er). rewrite Er in IH.
    assert (NoDup (pre ++ l).*1) as Hn'. { rewrite <- Er. eapply sublist_NoDup; [exact Hn|]. cbn. apply fmap_sublist, sublist_filter. }
    specialize (IH Hn'). destruct (find_entry h l _) as [[k'|] c'], IH as [Eq IH]; (split; [done|]).
    + destruct IH as (l1 & w & l2 & -> & Hw & H1 & Ec). exists ((k, v) :: l1), w, l2. split_and!; [done|done|by constructor|].
      by rewrite filter_cons_False.
    + destruct IH as [H1 Ec]. split; [by constructor|]. by rewrite filter_cons_False.
Qed.

(** What popCandidate gives is the first applicable modifier; those before it,
    or all if there is none, stay if they may become applicable, and go if not. *)
Lemma pop_spec h c : cache_ok c ->
  let '(o, c') := popCandidate h c in evictionQueue c' = evictionQueue c /\
  match o with
  | Some v => exists pre k post, cache c = pre ++ (k, v) :: post /\ applicable h v = true /\ Forall (inapplicable h) pre /\
      cache c' = filter (recoverable h) pre ++ post
  | None => Forall (inapplicable h) (cache c) /\ cache c' = filter (recoverable h) (cache c)
  end.
Proof.
  intros [Hn Hq]. unfold popCandidate, findCandidateKey. pose proof (find_entry_spec h (cache c) [] c eq_refl Hn) as H.
  destruct (find_entry h (cache c) c) as [[k|] c'], H as [Eq H]; [|done]. destruct H as (l1 & v & l2 & El & Hv & H1 & Ec). cbn in Ec.
  assert (NoDup (cache c').*1) as Hn'.
  { rewrite Ec. eapply sublist_NoDup; [exact Hn|]. rewrite El. apply fmap_sublist, sublist_app; [apply sublist_filter|done]. }
  unfold remove at 1. rewrite (proj2 (modifierById_elem k v c' Hn')) by (rewrite Ec, elem_of_app; right; left).
  split; [done|]. exists l1, k, l2. split_and!; [done..|]. exact (remove_entry _ k v l2 c' Ec Hn').
Qed.

Lemma pop_ok h c : cache_ok c -> cache_ok (snd (popCandidate h c)).
Proof.
  intros H. pose proof (pop_spec h c H) as Hp. destruct H as [Hn Hq]. destruct (popCandidate h c) as [o c'], Hp as [Eq Hp]. cbn [snd].
  assert (sublist (cache c') (cache c)) as Hs.
  { destruct o as [v|].
    - destruct Hp as (pre & k & post & -> & _ & _ & ->). apply sublist_app; [apply sublist_filter|by constructor].
    - destruct Hp as [_ ->]. apply sublist_filter. }
  split; [eapply sublist_NoDup; [exact Hn|by apply fmap_sublist]|]. intros k Hk. rewrite Eq. apply Hq.
  apply list_elem_of_fmap in Hk as (e & -> & He). apply list_elem_of_fmap. exists e. split; [done|]. by eapply elem_of_sublist.
Qed.

Lemma pop_shorter h c v c' : cache_ok c -> popCandidate h c = (Some v, c') -> length (cache c') < length (cache c).
Proof.
  intros H E. pose proof (pop_spec h c H) as Hp. rewrite E in Hp. destruct Hp as (_ & pre & k & post & -> & _ & _ & ->).
  rewrite !length_app. cbn [length]. pose proof (length_filter (recoverable h) pre). lia.
Qed.

(** ** Cleaning *)

Lemma remove_perm k c : NoDup (cache c).*1 ->
  (cache c).*2 ≡ₚ match fst (remove k c) with Some v => [v] | None => [] end ++ (cache (snd (remove k c))).*2.
Proof.
  intros Hn. destruct (fst (remove k c)) as [v|] eqn:E.
  - cbn in E. apply modifierById_elem in E; [|done]. apply list_elem_of_split in E as (pre & post & E). rewrite (remove_entry pre k v post c E Hn), E.
    rewrite !fmap_app, fmap_cons. cbn. by rewrite Permutation_middle.
  - cbn [app]. cbn in E |- *. rewrite filter_all; [done|]. apply Forall_forall. intros [k' v'] Hin. cbn. intros ->. apply modifierById_elem in Hin; [|done]. congruence.
Qed.

Lemma removeUntil_spec q : forall c acc, NoDup (cache c).*1 -> (forall k, k ∈ (cache c).*1 -> k ∈ q) ->
  let '(cleared, c') := removeUntilCorrectSize q c acc in
  cache_ok c' /\ (size c' <= Z.max 0 maxSize)%Z /\ exists gone, cleared = gone ++ acc /\ (cache c).*2 ≡ₚ gone ++ (cache c').*2.
Proof.
  induction q as [|k q IH]; intros c acc Hn Hq; cbn [removeUntilCorrectSize].
  - assert (cache c = []) as E. { destruct (cache c) as [|[k v] l]; [done|]. specialize (Hq k ltac:(left)). by apply elem_of_nil in Hq. }
    split_and!; [split; [done|by cbn; rewrite E; intros k ?%elem_of_nil]|unfold size; cbn; rewrite E; unfold zlen; cbn; lia|]. by exists [].
  - destruct (size c <=? maxSize)%Z eqn:Es.
    { split_and!; [by split|unfold size in *; cbn; lia|]. by exists []. }
    pose proof (remove_perm k c Hn) as Hp. destruct (remove k c) as [v c1] eqn:Er. cbn [fst snd] in Hp.
    assert (c1 = snd (remove k c)) as -> by (by rewrite Er).
    specialize (IH (snd (remove k c)) match v with Some m => m :: acc | None => acc end).
    destruct (removeUntilCorrectSize q _ _) as [cleared c'] eqn:Ec. destruct IH as (H1 & H2 & gone & -> & Hg).
    + cbn. eapply sublist_NoDup; [exact Hn|]. apply fmap_sublist, sublist_filter.
    + intros x Hx. assert (x <> k) as Hne. { cbn in Hx. apply list_elem_of_fmap in Hx as (e & -> & [? _]%list_elem_of_filter). done. }
      apply remove_keys, Hq, elem_of_cons in Hx as [?|?]; done.
    + split_and!; [done|done|]. exists (gone ++ match v with Some m => [m] | None => [] end). split; [by destruct v; rewrite <- app_assoc|].
      rewrite Hp, Hg, !app_assoc. by rewrite (Permutation_app_comm gone).
Qed.

(** Cleaning brings the cache to its size; what goes is answered. *)
Lemma cleanOverfull_spec c : cache_ok c ->
  let '(cleared, c') := cleanOverfull c in
  cache_ok c' /\ (size c' <= Z.max 0 maxSize)%Z /\ (cache c).*2 ≡ₚ cleared ++ (cache c').*2.
Proof.
  intros [Hn Hq]. unfold cleanOverfull. pose proof (removeUntil_spec (evictionQueue c) c [] Hn Hq) as H.
  destruct (removeUntilCorrectSize _ c []) as [cleared c'], H as (H1 & H2 & gone & -> & Hg). by rewrite app_nil_r.
Qed.

(** Entries only go. *)
Lemma pop_elem h c e : cache_ok c -> e ∈ cache (snd (popCandidate h c)) -> e ∈ cache c.
Proof.
  intros H. pose proof (pop_spec h c H) as Hp. destruct (popCandidate h c) as [[v|] c'], Hp as [_ Hp]; cbn [snd].
  - destruct Hp as (pre & k & post & -> & _ & _ & ->). rewrite !elem_of_app, list_elem_of_filter, elem_of_cons. tauto.
  - destruct Hp as [_ ->]. by intros [_ ?]%list_elem_of_filter.
Qed.
Lemma removeUntil_elem q e : forall c acc, e ∈ cache (snd (removeUntilCorrectSize q c acc)) -> e ∈ cache c.
Proof.
  induction q as [|k q IH]; intros c acc; cbn [removeUntilCorrectSize]; [done|]. destruct (_ <=? _)%Z; [done|].
  destruct (remove k c) as [v c1] eqn:Er. intros H%IH. assert (c1 = snd (remove k c)) as -> by (by rewrite Er).
  cbn in H. by apply list_elem_of_filter in H as [_ ?].
Qed.
End Cache.

(** The queue keeps keys that were removed.  A modifier that comes again is then
    evicted in place of its first arrival: here before the older 2. *)
Lemma reput_evicted_first :
  let accept (v : Z) := if (v =? 1)%Z then Success tt else Failure RecoverableModifierError in
  let c1 := snd (popCandidate (fun (_ : unit) v => accept v) tt (put 2 "1" 1%Z new_cache)) in
  let c2 := put 2 "3" 3%Z (put 2 "1" 1%Z (put 2 "2" 2%Z c1)) in
  (cache c2).*2 = [2; 1; 3]%Z /\ fst (cleanOverfull 2 c2) = [1%Z].
Proof. by vm_compute. Qed.
