(* ===== verification/NodeViewHolder.v ===== *)
(** * NodeViewHolder: the actor that applies modifiers to the node's view

    core/NodeViewHolder.scala.  History, minimal state, vault and memory pool are
    the application's: a class gives the methods of the framework's traits the
    actor calls (History.scala, HistoryReader.scala, MinimalState.scala,
    Vault.scala, MemoryPool.scala), as functions of values, which is how the
    traits are declared: an instance that changes in place is not covered.  What
    the actor publishes on the event stream and answers to a sender is the list
    [out], in order. *)

From S2P Require Import Prelude DeliveryTracker ModifiersCache.

(** ** The components of the view *)

(** History.ProgressInfo: its constructor refuses modifiers to remove without a
    branch point *)
Record ProgressInfo (PMOD : Type) := Progress {
  branchPoint : option ModifierId;
  toRemove : list PMOD;
  toApply : list PMOD;
  progress_required : match toRemove with [] => true | _ => bool_decide (is_Some branchPoint) end = true
}.
Arguments Progress {PMOD}. Arguments branchPoint {PMOD}. Arguments toRemove {PMOD}. Arguments toApply {PMOD}. Arguments progress_required {PMOD}.

Definition chainSwitchingNeeded {PMOD} (p : ProgressInfo PMOD) : bool := match toRemove p with [] => false | _ => true end.

Class NodeViewParts (PMOD TX HIS MS VL MP : Type) := {
  mod_id : PMOD -> ModifierId;
  carried : PMOD -> option (list TX);               (* of a TransactionsCarryingPersistentNodeViewModifier *)
  tx_id : TX -> ModifierId;
  (* History *)
  history_contains : HIS -> ModifierId -> bool;
  applicableTry : HIS -> PMOD -> Try unit;
  openSurfaceIds : HIS -> list ModifierId;
  append : HIS -> PMOD -> Try (HIS * ProgressInfo PMOD);
  reportModifierIsValid : HIS -> PMOD -> Try HIS;
  reportModifierIsInvalid : HIS -> PMOD -> ProgressInfo PMOD -> Try (HIS * ProgressInfo PMOD);
  (* MinimalState; TransactionValidation if the state has it *)
  version : MS -> ModifierId;
  applyModifier : MS -> PMOD -> Try MS;
  rollbackTo : MS -> ModifierId -> Try MS;
  validate : option (MS -> TX -> Try unit);
  (* Vault *)
  scanOffchain : VL -> TX -> VL;
  scanPersistent : VL -> PMOD -> VL;
  vault_rollback : VL -> ModifierId -> Try VL;
  (* MemoryPool *)
  pool_put : MP -> TX -> Try MP;
  putWithoutCheck : MP -> list TX -> MP;
  pool_filter : MP -> (TX -> bool) -> MP
}.

Section Holder.
Context {PMOD TX HIS MS VL MP : Type} `{NV : !NodeViewParts PMOD TX HIS MS VL MP}.
Context (handlingTransactionsEnabled : bool) (maxModifiersCacheSize : Z).

Record NodeView := View { history : HIS; minimalState : MS; vault : VL; memoryPool : MP }.

Inductive ViewEvent :=
| SuccessfulTransaction (tx : TX)
| FailedTransaction (id : ModifierId) (e : exn) (immediateFailure : bool)
| ChangedHistory (h : HIS)
| ChangedState (s : MS)
| ChangedVault (v : VL)
| ChangedMempool (m : MP)
| StartingPersistentModifierApplication (m : PMOD)
| SyntacticallySuccessfulModifier (m : PMOD)
| SyntacticallyFailedModification (m : PMOD) (e : exn)
| NewOpenSurface (ids : list ModifierId)
| SemanticallySuccessfulModifier (m : PMOD)
| SemanticallyFailedModification (m : PMOD) (e : exn)
| RollbackFailed
| ModifiersProcessingResult (applied cleared : list PMOD)
| CurrentView (v : NodeView).                       (* what f is applied to, for the sender *)

Record Holder := mkHolder { nodeView : NodeView; modifiersCache : Cache (PMOD := PMOD); out : list ViewEvent }.
Abbreviation NVH := (Eff Holder).

Definition publish (o : ViewEvent) : NVH unit := modify (fun d => mkHolder (nodeView d) (modifiersCache d) (out d ++ [o])).
Fixpoint publish_all (l : list ViewEvent) : NVH unit := match l with [] => ret tt | o :: l' => publish o ;! publish_all l' end.
Definition on_cache {A} (f : Cache (PMOD := PMOD) -> A * Cache (PMOD := PMOD)) : NVH A :=
  fun d => let '(a, c) := f (modifiersCache d) in (mkHolder (nodeView d) c (out d), Success a).

(** updateNodeView *)
Definition publish_if {A} (o : option A) (f : ViewEvent) : NVH unit := match o with Some _ => publish f | None => ret tt end.
Definition updateNodeView (updatedHistory : option HIS) (updatedState : option MS) (updatedVault : option VL) (updatedMempool : option MP) : NVH unit :=
  let! v := gets nodeView in
  let newNodeView := View (default (history v) updatedHistory) (default (minimalState v) updatedState)
                          (default (vault v) updatedVault) (default (memoryPool v) updatedMempool) in
  publish_if updatedHistory (ChangedHistory (history newNodeView)) ;!
  publish_if updatedState (ChangedState (minimalState newNodeView)) ;!
  publish_if updatedVault (ChangedVault (vault newNodeView)) ;!
  publish_if updatedMempool (ChangedMempool (memoryPool newNodeView)) ;!
  modify (fun d => mkHolder newNodeView (modifiersCache d) (out d)).

Definition validate_tx (s : MS) (tx : TX) : Try unit := match validate with Some v => v s tx | None => Success tt end.

Definition txModify (tx : TX) : NVH unit :=
  let! v := gets nodeView in
  match validate_tx (minimalState v) tx with
  | Success _ =>
      match pool_put (memoryPool v) tx with
      | Success newPool =>
          let newVault := scanOffchain (vault v) tx in
          updateNodeView None None (Some newVault) (Some newPool) ;!
          publish (SuccessfulTransaction tx)
      | Failure e => publish (FailedTransaction (tx_id tx) e true)
      end
  | Failure e => publish (FailedTransaction (tx_id tx) e true)
  end.

Definition extractTransactions (m : PMOD) : list TX := default [] (carried m).

Definition updateMemPool (blocksRemoved blocksApplied : list PMOD) (memPool : MP) (state : MS) : MP :=
  if handlingTransactionsEnabled then
    let rolledBackTxs := flat_map extractTransactions blocksRemoved in
    let appliedTxs := flat_map extractTransactions blocksApplied in
    pool_filter (putWithoutCheck memPool rolledBackTxs)
      (fun tx => negb (existsb (fun t => bool_decide (tx_id t = tx_id tx)) appliedTxs) && isSuccess (validate_tx state tx))
  else memPool.

(** indexWhere, drop *)
Fixpoint from_index (l : list PMOD) (id : ModifierId) : list PMOD :=
  match l with
  | [] => []
  | m :: l' => if bool_decide (mod_id m = id) then l else from_index l' id
  end.
Definition trimChainSuffix (suffix : list PMOD) (rollbackPoint : ModifierId) : list PMOD := from_index suffix rollbackPoint.

(** ** updateState *)

Record UpdateInformation := Update {
  u_history : HIS; u_state : MS; failedMod : option PMOD; alternativeProgressInfo : option (ProgressInfo PMOD); u_suffix : list PMOD
}.

(** The step of the fold of applyState *)
Definition apply_one (history : HIS) (progressInfo : ProgressInfo PMOD) (acc : Try UpdateInformation) (modToApply : PMOD) : NVH (Try UpdateInformation) :=
  match acc with
  | Failure ex => ret (Failure ex)
  | Success updateInfo =>
      match failedMod updateInfo with
      | Some _ => ret acc
      | None =>
          match applyModifier (u_state updateInfo) modToApply with
          | Success stateAfterApply =>
              match reportModifierIsValid history modToApply with
              | Success newHis =>
                  publish (SemanticallySuccessfulModifier modToApply) ;!
                  ret (Success (Update newHis stateAfterApply None None (u_suffix updateInfo ++ [modToApply])))
              | Failure ex => ret (Failure ex)
              end
          | Failure e =>
              match reportModifierIsInvalid history modToApply progressInfo with
              | Success (newHis, newProgressInfo) =>
                  publish (SemanticallyFailedModification modToApply e) ;!
                  ret (Success (Update newHis (u_state updateInfo) (Some modToApply) (Some newProgressInfo) (u_suffix updateInfo)))
              | Failure ex => ret (Failure ex)
              end
          end
      end
  end.
Fixpoint fold_apply (history : HIS) (progressInfo : ProgressInfo PMOD) (acc : Try UpdateInformation) (l : list PMOD) : NVH (Try UpdateInformation) :=
  match l with
  | [] => ret acc
  | m :: l' => let! acc' := apply_one history progressInfo acc m in fold_apply history progressInfo acc' l'
  end.
Definition applyState (history : HIS) (stateToApply : MS) (suffixTrimmed : list PMOD) (progressInfo : ProgressInfo PMOD) : NVH (Try UpdateInformation) :=
  fold_apply history progressInfo (Success (Update history stateToApply None None suffixTrimmed)) (toApply progressInfo).

Fixpoint updateState (fuel : nat) (history : HIS) (state : MS) (progressInfo : ProgressInfo PMOD) (suffixApplied : list PMOD) : NVH (HIS * Try MS * list PMOD) :=
  match fuel with
  | O => throw NoFuel
  | S fuel =>
      let! (stateToApplyTry, suffixTrimmed) :=
        if chainSwitchingNeeded progressInfo then
          match branchPoint progressInfo with
          | None => throw NoSuchElement
          | Some branchingPoint =>
              if bool_decide (version state = branchingPoint) then ret (Success state, [])
              else ret (rollbackTo state branchingPoint, trimChainSuffix suffixApplied branchingPoint)
          end
        else ret (Success state, suffixApplied) in
      match stateToApplyTry with
      | Success stateToApply =>
          let! info := applyState history stateToApply suffixTrimmed progressInfo in
          match info with
          | Success stateUpdateInfo =>
              match failedMod stateUpdateInfo with
              | Some _ =>
                  match alternativeProgressInfo stateUpdateInfo with
                  | None => throw NoSuchElement
                  | Some alternative => updateState fuel (u_history stateUpdateInfo) (u_state stateUpdateInfo) alternative (u_suffix stateUpdateInfo)
                  end
              | None => ret (u_history stateUpdateInfo, Success (u_state stateUpdateInfo), u_suffix stateUpdateInfo)
              end
          | Failure ex => ret (history, Failure ex, suffixTrimmed)
          end
      | Failure _ => publish RollbackFailed ;! throw NotImplemented
      end
  end.

(** ** Handlers *)

Definition pmodModify (fuel : nat) (pmod : PMOD) : NVH unit :=
  let! v := gets nodeView in
  if history_contains (history v) (mod_id pmod) then ret tt else
  publish (StartingPersistentModifierApplication pmod) ;!
  match append (history v) pmod with
  | Success (historyBeforeStUpdate, progressInfo) =>
      publish (SyntacticallySuccessfulModifier pmod) ;!
      publish (NewOpenSurface (openSurfaceIds historyBeforeStUpdate)) ;!
      match toApply progressInfo with
      | [] => updateNodeView (Some historyBeforeStUpdate) None None None
      | _ =>
          let! (newHistory, newStateTry, blocksApplied) := updateState fuel historyBeforeStUpdate (minimalState v) progressInfo [] in
          match newStateTry with
          | Success newMinState =>
              let newMemPool := updateMemPool (toRemove progressInfo) blocksApplied (memoryPool v) newMinState in
              let! newVault :=
                if chainSwitchingNeeded progressInfo
                then match branchPoint progressInfo with Some p => lift_try (vault_rollback (vault v) p) | None => throw NoSuchElement end
                else ret (vault v) in
              (* blocksApplied.foreach(newVault.scanPersistent): the vaults it gives are dropped *)
              updateNodeView (Some newHistory) (Some newMinState) (Some newVault) (Some newMemPool)
          | Failure _ => updateNodeView (Some newHistory) None None None
          end
      end
  | Failure e => publish (SyntacticallyFailedModification pmod e)
  end.

(** processRemoteModifiers: the loop removes a modifier from the cache each time,
    so the entries of the cache bound its rounds *)
Fixpoint applyLoop (rounds fuel : nat) (applied : list PMOD) : NVH (list PMOD) :=
  match rounds with
  | O => throw NoFuel
  | S rounds =>
      let! v := gets nodeView in
      let! candidate := on_cache (popCandidate applicableTry (history v)) in
      match candidate with
      | Some m => pmodModify fuel m ;! applyLoop rounds fuel (m :: applied)
      | None => ret applied
      end
  end.
Fixpoint put_all (mods : list PMOD) (c : Cache (PMOD := PMOD)) : Cache (PMOD := PMOD) :=
  match mods with [] => c | m :: mods' => put_all mods' (put maxModifiersCacheSize (mod_id m) m c) end.
Definition processRemoteModifiers (fuel : nat) (mods : list PMOD) : NVH unit :=
  on_cache (fun c => (tt, put_all mods c)) ;!
  let! c := gets modifiersCache in
  let! applied := applyLoop (S (length (cache c))) fuel [] in
  let! cleared := on_cache (cleanOverfull maxModifiersCacheSize) in
  publish (ModifiersProcessingResult applied cleared).

Inductive Message :=
| ModifiersFromRemote (mods : list PMOD)
| LocallyGeneratedModifier (pmod : PMOD)
| NewTransactions (txs : list TX)                    (* LocallyGeneratedTransaction, TransactionsFromRemote *)
| EliminateTransactions (ids : list ModifierId)
| GetDataFromCurrentView
| GetNodeViewChanges (history state vault mempool : bool).

Fixpoint each_tx (f : TX -> NVH unit) (l : list TX) : NVH unit := match l with [] => ret tt | tx :: l' => f tx ;! each_tx f l' end.

Definition receive (fuel : nat) (msg : Message) : NVH unit :=
  match msg with
  | ModifiersFromRemote mods => processRemoteModifiers fuel mods
  | LocallyGeneratedModifier pmod => pmodModify fuel pmod
  | NewTransactions txs =>
      if handlingTransactionsEnabled then each_tx txModify txs
      else each_tx (fun tx => publish (FailedTransaction (tx_id tx) (Raised "Transactions handling disabled") false)) txs
  | EliminateTransactions ids =>
      let! v := gets nodeView in
      let updatedPool := pool_filter (memoryPool v) (fun tx => negb (bool_decide (tx_id tx ∈ ids))) in
      updateNodeView None None None (Some updatedPool) ;!
      publish_all ((fun id => FailedTransaction id (Raised "Became invalid") false) <$> ids)
  | GetDataFromCurrentView => let! v := gets nodeView in publish (CurrentView v)
  | GetNodeViewChanges h s vl mp =>
      let! v := gets nodeView in
      (if h then publish (ChangedHistory (history v)) else ret tt) ;!
      (if s then publish (ChangedState (minimalState v)) else ret tt) ;!
      (if vl then publish (ChangedVault (vault v)) else ret tt) ;!
      (if mp then publish (ChangedMempool (memoryPool v)) else ret tt)
  end.
End Holder.
