(* ===== verification/NodeViewHolderThms.v ===== *)
(** * NodeViewHolderThms: what the node's view goes through

    Runs of the state update as a relation, the abstract machine of view steps
    the actor's handlers follow, the end of handlers for histories that stop
    giving alternatives, and what is made of
    modifiers that come from others. *)

From S2P Require Import Prelude DeliveryTracker ModifiersCache NodeViewHolder.

Section Holder.
Context {PMOD TX HIS MS VL MP : Type} `{NV : !NodeViewParts PMOD TX HIS MS VL MP}.
Context (handling : bool) (maxSize : Z).
Abbreviation Holder := (NodeViewHolder.Holder (PMOD := PMOD) (TX := TX) (HIS := HIS) (MS := MS) (VL := VL) (MP := MP)).
Abbreviation NodeView := (NodeViewHolder.NodeView (HIS := HIS) (MS := MS) (VL := VL) (MP := MP)).
Abbreviation ViewEvent := (NodeViewHolder.ViewEvent (PMOD := PMOD) (TX := TX) (HIS := HIS) (MS := MS) (VL := VL) (MP := MP)).
Abbreviation Info := (UpdateInformation (PMOD := PMOD) (HIS := HIS) (MS := MS)).

(** More was published, nothing else changed. *)
Definition said (d : Holder) (os : list ViewEvent) : Holder := mkHolder (nodeView d) (modifiersCache d) (out d ++ os).
Lemma said_nil d : said d [] = d.
Proof. destruct d. unfold said. cbn. by rewrite app_nil_r. Qed.
Lemma said_said d os os' : said (said d os) os' = said d (os ++ os').
Proof. unfold said. cbn. by rewrite app_assoc. Qed.

(** ** The fold of applyState *)

Section Fold.
Context (h : HIS) (p : ProgressInfo PMOD).

Inductive fold_run : Info -> list PMOD -> list ViewEvent -> Try Info -> Prop :=
| fold_end u : fold_run u [] [] (Success u)
| fold_valid u m l s h' os r :
    applyModifier (u_state u) m = Success s -> reportModifierIsValid h m = Success h' ->
    fold_run (Update h' s None None (u_suffix u ++ [m])) l os r ->
    fold_run u (m :: l) (SemanticallySuccessfulModifier m :: os) r
| fold_invalid u m l e h' p' :
    applyModifier (u_state u) m = Failure e -> reportModifierIsInvalid h m p = Success (h', p') ->
    fold_run u (m :: l) [SemanticallyFailedModification m e] (Success (Update h' (u_state u) (Some m) (Some p') (u_suffix u)))
| fold_valid_error u m l s ex :
    applyModifier (u_state u) m = Success s -> reportModifierIsValid h m = Failure ex -> fold_run u (m :: l) [] (Failure ex)
| fold_invalid_error u m l e ex :
    applyModifier (u_state u) m = Failure e -> reportModifierIsInvalid h m p = Failure ex -> fold_run u (m :: l) [] (Failure ex).

Lemma fold_apply_settled l (acc : Try Info) d : (forall u, acc = Success u -> failedMod u <> None) -> fold_apply h p acc l d = (d, Success acc).
Proof.
  intros H. induction l as [|m l IH]; [done|]. cbn [fold_apply]. unfold bind, apply_one. destruct acc as [u|ex]; [|exact IH].
  specialize (H u eq_refl). destruct (failedMod u); [exact IH|done].
Qed.

Lemma fold_apply_run l : forall u d, failedMod u = None -> exists os r, fold_apply h p (Success u) l d = (said d os, Success r) /\ fold_run u l os r.
Proof.
  induction l as [|m l IH]; intros u d Hu; cbn [fold_apply].
  { exists [], (Success u). rewrite said_nil. split; [done|constructor]. }
  unfold bind at 1, apply_one. rewrite Hu. destruct (applyModifier (u_state u) m) as [s|e] eqn:Ea.
  - destruct (reportModifierIsValid h m) as [h'|ex] eqn:Er.
    + cbn. set (u' := Update _ _ _ _ _). destruct (IH u' (said d [SemanticallySuccessfulModifier m]) eq_refl) as (os & r & E & Hr).
      exists (SemanticallySuccessfulModifier m :: os), r. unfold said in E at 1. rewrite E, said_said. split; [done|by econstructor].
    + cbn [ret]. rewrite fold_apply_settled by done. exists [], (Failure ex). rewrite said_nil. split; [done|by econstructor].
  - destruct (reportModifierIsInvalid h m p) as [[h' p']|ex] eqn:Er.
    + cbn. rewrite fold_apply_settled by (by intros u' [= <-]). eexists [_], _. split; [done|by econstructor].
    + cbn [ret]. rewrite fold_apply_settled by done. exists [], (Failure ex). rewrite said_nil. split; [done|by econstructor].
Qed.

(** A failed modifier comes with what to do instead. *)
Lemma fold_run_failed u l os r : fold_run u l os r -> failedMod u = None ->
  forall u', r = Success u' -> match failedMod u' with Some m => exists p', alternativeProgressInfo u' = Some p' | None => True end.
Proof. induction 1; intros Hu u' E; [injection E as <-; by rewrite Hu|by apply IHfold_run|injection E as <-; by eexists|done..]. Qed.
End Fold.

(** ** Runs of updateState *)

(** What there is to apply to, and what of the suffix is kept *)
Inductive prepared (s : MS) (p : ProgressInfo PMOD) (suffix : list PMOD) : Try MS -> list PMOD -> Prop :=
| prepared_linear : chainSwitchingNeeded p = false -> prepared s p suffix (Success s) suffix
| prepared_there b : chainSwitchingNeeded p = true -> branchPoint p = Some b -> version s = b -> prepared s p suffix (Success s) []
| prepared_rollback b : chainSwitchingNeeded p = true -> branchPoint p = Some b -> version s <> b ->
    prepared s p suffix (rollbackTo s b) (trimChainSuffix suffix b).

Inductive update_run : HIS -> MS -> ProgressInfo PMOD -> list PMOD -> list ViewEvent -> Try (HIS * Try MS * list PMOD) -> Prop :=
| update_done h s p suffix s0 suffix0 os u :
    prepared s p suffix (Success s0) suffix0 -> fold_run h p (Update h s0 None None suffix0) (toApply p) os (Success u) -> failedMod u = None ->
    update_run h s p suffix os (Success (u_history u, Success (u_state u), u_suffix u))
| update_error h s p suffix s0 suffix0 os ex :
    prepared s p suffix (Success s0) suffix0 -> fold_run h p (Update h s0 None None suffix0) (toApply p) os (Failure ex) ->
    update_run h s p suffix os (Success (h, Failure ex, suffix0))
| update_retarget h s p suffix s0 suffix0 os u m p' os' r :
    prepared s p suffix (Success s0) suffix0 -> fold_run h p (Update h s0 None None suffix0) (toApply p) os (Success u) ->
    failedMod u = Some m -> alternativeProgressInfo u = Some p' -> update_run (u_history u) (u_state u) p' (u_suffix u) os' r ->
    update_run h s p suffix (os ++ os') r
| update_no_rollback h s p suffix e suffix0 :
    prepared s p suffix (Failure e) suffix0 -> update_run h s p suffix [RollbackFailed] (Failure NotImplemented).

Lemma branchPoint_defined (p : ProgressInfo PMOD) : chainSwitchingNeeded p = true -> exists b, branchPoint p = Some b.
Proof. pose proof (progress_required p) as H. unfold chainSwitchingNeeded. destruct (toRemove p); [done|]. by apply bool_decide_eq_true in H as [b ->]; exists b. Qed.

(** The first part of a round *)
Lemma prepare s (p : ProgressInfo PMOD) suffix : exists t suffix0, prepared s p suffix t suffix0 /\
  forall (d : Holder), (if chainSwitchingNeeded p then
     match branchPoint p with
     | None => throw NoSuchElement
     | Some b => if bool_decide (version s = b) then ret (Success s, []) else ret (rollbackTo s b, trimChainSuffix suffix b)
     end
   else ret (Success s, suffix)) d = (d, Success (t, suffix0)).
Proof.
  destruct (chainSwitchingNeeded p) eqn:Hc.
  - destruct (branchPoint_defined p Hc) as [b Hb]. rewrite Hb. case_bool_decide as Hv; eexists _, _; (split; [|done]); by econstructor.
  - eexists _, _. split; [by constructor|done].
Qed.

Lemma updateState_run fuel : forall h s p suffix d d' r, updateState fuel h s p suffix d = (d', r) ->
  exists os, d' = said d os /\ (r = Failure NoFuel \/ update_run h s p suffix os r).
Proof.
  induction fuel as [|fuel IH]; intros h s p suffix d d' r; cbn [updateState]; [by intros [= <- <-]; exists []; rewrite said_nil; auto|].
  destruct (prepare s p suffix) as (t & suffix0 & Hp & E). unfold bind at 1. rewrite E. destruct t as [s0|e].
  2: { cbn. intros [= <- <-]. eexists. split; [done|right; by econstructor]. }
  unfold bind at 1, applyState. destruct (fold_apply_run h p (toApply p) (Update h s0 None None suffix0) d eq_refl) as (os & r0 & -> & Hr).
  destruct r0 as [u|ex]; [|intros [= <- <-]; eexists; split; [done|right; by econstructor]].
  destruct (failedMod u) as [m|] eqn:Ef; [|intros [= <- <-]; eexists; split; [done|right; by econstructor]].
  pose proof (fold_run_failed _ _ _ _ _ _ Hr eq_refl u eq_refl) as Halt. rewrite Ef in Halt. destruct Halt as [p' Hp']. rewrite Hp'.
  intros (os' & -> & Hu)%IH. exists (os ++ os'). split; [by rewrite said_said|]. destruct Hu; [by left|right; by econstructor].
Qed.

(** ** The machine of view steps *)

Inductive view_step (v : NodeView) : NodeView -> Prop :=
| step_transaction tx pool : validate_tx (minimalState v) tx = Success tt -> pool_put (memoryPool v) tx = Success pool ->
    view_step v (View (history v) (minimalState v) (scanOffchain (vault v) tx) pool)
| step_eliminate (ids : list ModifierId) :
    view_step v (View (history v) (minimalState v) (vault v) (pool_filter (memoryPool v) (fun tx => negb (bool_decide (tx_id tx ∈ ids)))))
| step_history m h p : history_contains (history v) (mod_id m) = false -> append (history v) m = Success (h, p) -> toApply p = [] ->
    view_step v (View h (minimalState v) (vault v) (memoryPool v))
| step_error m h p os h' e l : history_contains (history v) (mod_id m) = false -> append (history v) m = Success (h, p) ->
    update_run h (minimalState v) p [] os (Success (h', Failure e, l)) ->
    view_step v (View h' (minimalState v) (vault v) (memoryPool v))
| step_block m h p os h' s l vl : history_contains (history v) (mod_id m) = false -> append (history v) m = Success (h, p) ->
    update_run h (minimalState v) p [] os (Success (h', Success s, l)) ->
    (if chainSwitchingNeeded p then exists b, branchPoint p = Some b /\ vault_rollback (vault v) b = Success vl else vl = vault v) ->
    view_step v (View h' s vl (updateMemPool handling (toRemove p) l (memoryPool v) s)).

(** ** What the handlers do to the view *)

Definition changes (uh : option HIS) (us : option MS) (uv : option VL) (um : option MP) : list ViewEvent :=
  match uh with Some h => [ChangedHistory h] | None => [] end ++ match us with Some s => [ChangedState s] | None => [] end ++
  match uv with Some v => [ChangedVault v] | None => [] end ++ match um with Some m => [ChangedMempool m] | None => [] end.

Lemma updateNodeView_run uh us uv um (d : Holder) : updateNodeView uh us uv um d =
  (mkHolder (View (default (history (nodeView d)) uh) (default (minimalState (nodeView d)) us) (default (vault (nodeView d)) uv) (default (memoryPool (nodeView d)) um))
     (modifiersCache d) (out d ++ changes uh us uv um), Success tt).
Proof.
  destruct uh, us, uv, um; unfold updateNodeView, publish_if, publish, bind, gets, modify, ret; cbn; rewrite <- ?app_assoc, ?app_nil_r; done.
Qed.

(** The outcomes of pmodModify *)
Inductive pmod_run (m : PMOD) (v : NodeView) : list ViewEvent -> NodeView -> Try unit -> Prop :=
| pmod_known : history_contains (history v) (mod_id m) = true -> pmod_run m v [] v (Success tt)
| pmod_refused e : history_contains (history v) (mod_id m) = false -> append (history v) m = Failure e ->
    pmod_run m v [StartingPersistentModifierApplication m; SyntacticallyFailedModification m e] v (Success tt)
| pmod_only_history h p : history_contains (history v) (mod_id m) = false -> append (history v) m = Success (h, p) -> toApply p = [] ->
    pmod_run m v [StartingPersistentModifierApplication m; SyntacticallySuccessfulModifier m; NewOpenSurface (openSurfaceIds h); ChangedHistory h]
      (View h (minimalState v) (vault v) (memoryPool v)) (Success tt)
| pmod_error h p os h' e l : history_contains (history v) (mod_id m) = false -> append (history v) m = Success (h, p) ->
    update_run h (minimalState v) p [] os (Success (h', Failure e, l)) ->
    pmod_run m v ([StartingPersistentModifierApplication m; SyntacticallySuccessfulModifier m; NewOpenSurface (openSurfaceIds h)] ++ os ++ [ChangedHistory h'])
      (View h' (minimalState v) (vault v) (memoryPool v)) (Success tt)
| pmod_block h p os h' s l vl : history_contains (history v) (mod_id m) = false -> append (history v) m = Success (h, p) ->
    update_run h (minimalState v) p [] os (Success (h', Success s, l)) ->
    (if chainSwitchingNeeded p then exists b, branchPoint p = Some b /\ vault_rollback (vault v) b = Success vl else vl = vault v) ->
    let pool := updateMemPool handling (toRemove p) l (memoryPool v) s in
    pmod_run m v ([StartingPersistentModifierApplication m; SyntacticallySuccessfulModifier m; NewOpenSurface (openSurfaceIds h)] ++ os ++ changes (Some h') (Some s) (Some vl) (Some pool))
      (View h' s vl pool) (Success tt)
| pmod_no_vault h p os h' s l b e : history_contains (history v) (mod_id m) = false -> append (history v) m = Success (h, p) ->
    update_run h (minimalState v) p [] os (Success (h', Success s, l)) -> branchPoint p = Some b -> vault_rollback (vault v) b = Failure e ->
    pmod_run m v ([StartingPersistentModifierApplication m; SyntacticallySuccessfulModifier m; NewOpenSurface (openSurfaceIds h)] ++ os) v (Failure e)
| pmod_no_rollback h p os e : history_contains (history v) (mod_id m) = false -> append (history v) m = Success (h, p) ->
    update_run h (minimalState v) p [] os (Failure e) ->
    pmod_run m v ([StartingPersistentModifierApplication m; SyntacticallySuccessfulModifier m; NewOpenSurface (openSurfaceIds h)] ++ os) v (Failure e).

Definition in_view (v : NodeView) (os : list ViewEvent) (d : Holder) : Holder := mkHolder v (modifiersCache d) (out d ++ os).

Lemma pmodModify_run fuel m d d' r : pmodModify handling fuel m d = (d', r) ->
  (r = Failure NoFuel /\ nodeView d' = nodeView d) \/ exists os v', d' = in_view v' os d /\ pmod_run m (nodeView d) os v' r.
Proof.
  unfold pmodModify. unfold bind at 1, gets. destruct (history_contains _ _) eqn:Hc.
  { intros [= <- <-]. right. exists [], (nodeView d). split; [unfold in_view; rewrite app_nil_r; by destruct d|by constructor]. }
  unfold bind at 1, publish, modify. destruct (append _ m) as [[h p]|e] eqn:Ha.
  2: { intros [= <- <-]. right. eexists _, _. split; [unfold in_view; cbn; by rewrite <- app_assoc|by constructor]. }
  unfold bind at 1 2. cbn [modifiersCache nodeView out]. rewrite <- !app_assoc. cbn [app].
  destruct (toApply p) as [|m1 ms] eqn:Hp.
  { rewrite updateNodeView_run. cbn [modifiersCache nodeView out default from_option id]. intros [= <- <-]. right. eexists _, _. split; [unfold in_view; rewrite <- app_assoc; done|by eapply pmod_only_history]. }
  set (d1 := mkHolder _ _ _). unfold bind at 1. destruct (updateState fuel h (minimalState (nodeView d)) p [] d1) as [d2 r2] eqn:Eu.
  apply updateState_run in Eu as (os & -> & [->|Hr]); [by intros [= <- <-]; left|]. destruct r2 as [[[h' [s|e]] l]|e].
  - unfold bind at 1. assert (forall vl, (if chainSwitchingNeeded p then exists b, branchPoint p = Some b /\ vault_rollback (vault (nodeView d)) b = Success vl else vl = vault (nodeView d)) ->
      updateNodeView (Some h') (Some s) (Some vl) (Some (updateMemPool handling (toRemove p) l (memoryPool (nodeView d)) s)) (said d1 os) = (d', r) ->
      r = Failure NoFuel /\ nodeView d' = nodeView d \/ exists os v', d' = in_view v' os d /\ pmod_run m (nodeView d) os v' r) as Hdone.
    { intros vl Hvl. rewrite updateNodeView_run. intros [= <- <-]. right. eexists _, _. split; [|by eapply pmod_block]. unfold in_view, said, d1. cbn. by rewrite <- !app_assoc. }
    destruct (chainSwitchingNeeded p) eqn:Hsw; [|by apply Hdone]. destruct (branchPoint_defined p Hsw) as [b Hb]. rewrite Hb in Hdone |- *. unfold lift_try.
    destruct (vault_rollback (vault (nodeView d)) b) as [vl|e] eqn:Hv; [apply Hdone; by exists b|].
    intros [= <- <-]. right. eexists _, _. split; [|by eapply pmod_no_vault]. unfold in_view, said, d1. cbn. by rewrite <- app_assoc.
  - rewrite updateNodeView_run. intros [= <- <-]. right. eexists _, _. split; [|by eapply pmod_error]. unfold in_view, said, d1. cbn. by rewrite <- !app_assoc.
  - intros [= <- <-]. right. eexists _, _. split; [|by eapply pmod_no_rollback]. unfold in_view, said, d1. cbn. by rewrite <- app_assoc.
Qed.

Lemma pmod_run_step m v os v' r : pmod_run m v os v' r -> v' = v \/ r = Success tt /\ view_step v v'.
Proof. destruct 1; try by left. all: right; split; [done|]; by econstructor. Qed.

(** A computation that takes the view along steps of the machine *)
Definition follows {A} (m : Eff Holder A) : Prop := forall d, rtc view_step (nodeView d) (nodeView (fst (m d))).

Lemma follows_quiet {A} (m : Eff Holder A) : (forall d, nodeView (fst (m d)) = nodeView d) -> follows m.
Proof. intros H d. by rewrite H. Qed.
Lemma follows_bind {A B} (m : Eff Holder A) (f : A -> Eff Holder B) : follows m -> (forall x, follows (f x)) -> follows (bind m f).
Proof.
  intros Hm Hf d. specialize (Hm d). unfold bind. destruct (m d) as [d1 [x|e]]; cbn [fst] in *; [|done]. etransitivity; [exact Hm|apply Hf].
Qed.
Lemma follows_ret {A} (x : A) : follows (ret x).
Proof. by apply follows_quiet. Qed.
Lemma follows_publish o : follows (publish o).
Proof. by apply follows_quiet. Qed.
Lemma follows_gets {A} (f : Holder -> A) : follows (gets f).
Proof. by apply follows_quiet. Qed.
Lemma follows_cache {A} (f : Cache (PMOD := PMOD) -> A * Cache (PMOD := PMOD)) : follows (on_cache f).
Proof. apply follows_quiet. intros d. unfold on_cache. by destruct (f _). Qed.
Lemma follows_publish_all l : follows (publish_all l).
Proof. induction l as [|o l IH]; [apply follows_ret|apply follows_bind; [apply follows_publish|done]]. Qed.
Lemma follows_each f l : (forall tx, follows (f tx)) -> follows (each_tx f l).
Proof. intros H. induction l as [|tx l IH]; [apply follows_ret|by apply follows_bind]. Qed.
Lemma follows_if (b : bool) o : follows (if b then publish o else ret tt).
Proof. destruct b; [apply follows_publish|apply follows_ret]. Qed.

Lemma follows_pmod fuel m : follows (pmodModify handling fuel m).
Proof.
  intros d. destruct (pmodModify handling fuel m d) as [d' r] eqn:E. cbn [fst].
  destruct (pmodModify_run _ _ _ _ _ E) as [[_ ->]|(os & v' & -> & Hr)]; [done|].
  destruct (pmod_run_step _ _ _ _ _ Hr) as [->|[_ Hs]]; [done|by apply rtc_once].
Qed.
Lemma follows_tx tx : follows (txModify tx).
Proof.
  intros d. unfold txModify, bind at 1, gets. destruct (validate_tx _ tx) as [[]|e] eqn:Ev; [|done]. destruct (pool_put _ tx) as [pool|e] eqn:Ep; [|done].
  unfold bind. rewrite updateNodeView_run. cbn. apply rtc_once. by apply step_transaction.
Qed.
Lemma follows_loop rounds fuel : forall applied, follows (applyLoop handling rounds fuel applied).
Proof.
  induction rounds as [|rounds IH]; intros applied; cbn [applyLoop]; [by apply follows_quiet|].
  apply follows_bind; [apply follows_gets|]. intros v. apply follows_bind; [apply follows_cache|]. intros [m|]; [|apply follows_ret].
  apply follows_bind; [apply follows_pmod|by intros _].
Qed.

(** C4: whatever message comes, and whether its handler ends or throws, the view
    goes along steps of a machine: a transaction that is valid in the state enters
    pool and vault at once; history alone takes a modifier that has nothing to
    apply, or one whose application failed; or all four parts change at once, by
    a run of the state update. *)
Theorem holder_refines_machine fuel msg d : rtc view_step (nodeView d) (nodeView (fst (receive handling maxSize fuel msg d))).
Proof.
  revert d. change (follows (receive handling maxSize fuel msg)). destruct msg as [mods|m|txs|ids| |h s vl mp]; cbn [receive].
  - unfold processRemoteModifiers. repeat first [apply follows_publish|apply follows_bind; [first [apply follows_cache|apply follows_gets|apply follows_loop]|intros ?]].
  - apply follows_pmod.
  - destruct handling; apply follows_each; intros tx; [apply follows_tx|apply follows_publish].
  - intros d. unfold bind at 1, gets. unfold bind. rewrite updateNodeView_run. cbn [fst]. set (d1 := mkHolder _ _ _).
    eapply rtc_l; [apply (step_eliminate _ ids)|]. apply (follows_publish_all _ d1).
  - apply follows_bind; [apply follows_gets|intros; apply follows_publish].
  - repeat first [apply follows_if|apply follows_bind; [first [apply follows_gets|apply follows_if]|intros ?]].
Qed.

(** ** Handlers end *)

Section Ends.
(** A report of an invalid modifier gives nothing more to apply, or makes what is
    left to report less. *)
Context (mu : HIS -> nat) (Hmu : forall h m p h' p', reportModifierIsInvalid h m p = Success (h', p') -> toApply p' = [] \/ mu h' < mu h).
Context (Hvault : forall (v : VL) b, vault_rollback v b <> Failure NoFuel).

Lemma fold_run_mu h p u l os r : fold_run h p u l os r -> failedMod u = None -> forall u' p', r = Success u' -> failedMod u' <> None ->
  alternativeProgressInfo u' = Some p' -> toApply p' = [] \/ mu (u_history u') < mu h.
Proof using Hmu.
  induction 1 as [u|u m l s h' os r Ha Hr Hf IH|u m l e h' p' Ha Hr|u m l s ex Ha Hr|u m l e ex Ha Hr]; intros Hu u' q E Hn Hq; [congruence|by eapply IH| |done..].
  injection E as <-. injection Hq as <-. by eapply Hmu.
Qed.

Definition ends {A} (m : nat -> Eff Holder A) (d : Holder) : Prop :=
  exists f0 d' r, r <> Failure NoFuel /\ forall f, f0 <= f -> m f d = (d', r).

Lemma ends_const {A} (m : Eff Holder A) d : snd (m d) <> Failure NoFuel -> ends (fun _ => m) d.
Proof using. intros H. exists 0, (fst (m d)), (snd (m d)). split; [done|]. intros f _. by destruct (m d). Qed.
Lemma ends_bind {A B} (m : nat -> Eff Holder A) (k : nat -> A -> Eff Holder B) d : ends m d ->
  (forall d1 x f0, (forall f, f0 <= f -> m f d = (d1, Success x)) -> ends (fun f => k f x) d1) -> ends (fun f => bind (m f) (k f)) d.
Proof using.
  intros (f0 & d1 & r & Hr & E) Hk. destruct r as [x|e].
  - destruct (Hk d1 x f0 E) as (f1 & d2 & r2 & Hr2 & E2). exists (f0 + f1), d2, r2. split; [done|]. intros f Hf. unfold bind. rewrite E by lia. apply E2. lia.
  - exists f0, d1, (Failure e). split; [congruence|]. intros f Hf. unfold bind. by rewrite E.
Qed.

(** With nothing to apply one round is enough. *)
Lemma ends_nothing h s p suffix d : toApply p = [] -> ends (fun f => updateState f h s p suffix) d.
Proof using.
  intros Hnil. destruct (prepare s p suffix) as (t & suffix0 & Hp & E).
  exists 1, (fst (updateState 1 h s p suffix d)), (snd (updateState 1 h s p suffix d)).
  assert (forall f, updateState (S f) h s p suffix d = updateState 1 h s p suffix d /\ snd (updateState 1 h s p suffix d) <> Failure NoFuel) as H.
  { intros f. cbn [updateState]. unfold bind. rewrite E. destruct t as [s0|e]; [|by split].
    unfold applyState. rewrite Hnil. by split. }
  split; [by apply (H 0)|]. intros [|f] Hf; [lia|]. rewrite (proj1 (H f)). by destruct (updateState 1 h s p suffix d).
Qed.

Lemma ends_updateState : forall n h s p suffix d, mu h < n -> ends (fun f => updateState f h s p suffix) d.
Proof using Hmu.
  induction n as [|n IH]; intros h s p suffix d Hn; [lia|]. destruct (prepare s p suffix) as (t & suffix0 & Hp & E).
  destruct t as [s0|e].
  2: { exists 1, (said d [RollbackFailed]), (Failure NotImplemented). split; [done|]. intros [|f] Hf; [lia|]. cbn [updateState]. unfold bind at 1. by rewrite E. }
  destruct (fold_apply_run h p (toApply p) (Update h s0 None None suffix0) d eq_refl) as (os & r0 & Er & Hr).
  assert (forall r, r <> Failure NoFuel -> (forall f, updateState (S f) h s p suffix d = (said d os, r)) -> ends (fun f => updateState f h s p suffix) d) as Hnow.
  { intros r Hnf H. exists 1, (said d os), r. split; [done|]. intros [|f] Hf; [lia|apply H]. }
  destruct r0 as [u|ex].
  2: { eapply Hnow; [|intros f; cbn [updateState]; unfold bind at 1; rewrite E; unfold bind at 1, applyState; rewrite Er; reflexivity]. done. }
  destruct (failedMod u) as [m|] eqn:Ef.
  2: { eapply Hnow; [|intros f; cbn [updateState]; unfold bind at 1; rewrite E; unfold bind at 1, applyState; rewrite Er, Ef; reflexivity]. done. }
  pose proof (fold_run_failed _ _ _ _ _ _ Hr eq_refl u eq_refl) as Halt. rewrite Ef in Halt. destruct Halt as [p' Hp'].
  assert (ends (fun f => updateState f (u_history u) (u_state u) p' (u_suffix u)) (said d os)) as (f0 & d' & r & Hnf & H).
  { destruct (fold_run_mu _ _ _ _ _ _ Hr eq_refl u p' eq_refl ltac:(by rewrite Ef) Hp') as [Hnil|Hless]; [by apply ends_nothing|apply IH; lia]. }
  exists (S f0), d', r. split; [done|]. intros [|f] Hf; [lia|]. cbn [updateState]. unfold bind at 1. rewrite E. unfold bind at 1, applyState. rewrite Er, Ef, Hp'.
  apply H. lia.
Qed.

Lemma update_run_thrown h s p suffix os r : update_run h s p suffix os r -> forall e, r = Failure e -> e = NotImplemented.
Proof using. induction 1; intros e' E; try done; [by apply IHupdate_run|by injection E as <-]. Qed.

Lemma pmod_run_ends m v os v' r : pmod_run m v os v' r -> r <> Failure NoFuel.
Proof using Hvault.
  destruct 1 as [| | | | |h p os h' s l b e _ _ _ _ Hv|h p os e _ _ Hu]; try done; [intros [= ->]; by eapply Hvault|].
  by rewrite (update_run_thrown _ _ _ _ _ _ Hu e eq_refl).
Qed.
Lemma ends_pmod m d : ends (fun f => pmodModify handling f m) d.
Proof using Hmu Hvault.
  unfold pmodModify. apply ends_bind; [by apply ends_const|]. intros d1 v f0 _. destruct (history_contains _ _); [by apply ends_const|].
  apply ends_bind; [by apply ends_const|]. intros d2 [] f2 _. destruct (append _ m) as [[h p]|e]; [|by apply ends_const].
  apply ends_bind; [by apply ends_const|]. intros d3 [] f3 _. apply ends_bind; [by apply ends_const|]. intros d4 [] f4 _.
  destruct (toApply p) as [|m1 ms]; [apply ends_const; by rewrite updateNodeView_run|].
  apply ends_bind; [apply (ends_updateState (S (mu h))); lia|]. intros d5 [[h' st] l] f5 _. destruct st as [s|e]; [|apply ends_const; by rewrite updateNodeView_run].
  apply ends_bind; [|intros d6 vl f6 _; apply ends_const; by rewrite updateNodeView_run].
  apply ends_const. destruct (chainSwitchingNeeded p); [|done]. destruct (branchPoint p) as [b|]; [|done]. apply Hvault.
Qed.

(** The loop over the cache ends, each round takes a modifier out. *)
Lemma pmod_cache fuel m d d' r : pmodModify handling fuel m d = (d', r) -> r <> Failure NoFuel -> modifiersCache d' = modifiersCache d.
Proof using. intros E Hr. by apply pmodModify_run in E as [[-> _]|(os & v' & -> & _)]. Qed.

Lemma ends_loop rounds : forall applied d, cache_ok (modifiersCache d) -> length (cache (modifiersCache d)) < rounds -> ends (fun f => applyLoop handling rounds f applied) d.
Proof using Hmu Hvault.
  induction rounds as [|rounds IH]; intros applied d Hok Hlen; [lia|]. cbn [applyLoop].
  apply ends_bind; [by apply ends_const|]. intros d1 v f1 H1. specialize (H1 f1 (le_n _)). injection H1 as <- <-.
  destruct (popCandidate applicableTry (history (nodeView d)) (modifiersCache d)) as [o c] eqn:Ep.
  apply ends_bind; [apply ends_const; unfold on_cache; by rewrite Ep|]. intros d2 o2 f2 H2. specialize (H2 f2 (le_n _)). unfold on_cache in H2. rewrite Ep in H2. injection H2 as <- <-.
  destruct o as [m|]; [|by apply ends_const].
  pose proof (pop_ok applicableTry (history (nodeView d)) _ Hok) as Hok'. rewrite Ep in Hok'. cbn [snd] in Hok'.
  pose proof (pop_shorter applicableTry (history (nodeView d)) _ _ _ Hok Ep) as Hless.
  apply ends_bind; [apply ends_pmod|]. intros d3 [] f3 H3. pose proof (pmod_cache _ _ _ _ _ (H3 f3 (le_n _)) ltac:(done)) as Ec. cbn in Ec.
  apply IH; rewrite Ec; [done|lia].
Qed.

Lemma ends_each (g : nat -> TX -> Eff Holder unit) l : (forall tx d, ends (fun f => g f tx) d) -> forall d, ends (fun f => each_tx (g f) l) d.
Proof using. intros H. induction l as [|tx l IH]; intros d; cbn [each_tx]; [by apply ends_const|]. apply ends_bind; [apply H|intros; apply IH]. Qed.
Lemma put_all_ok mods : forall c, cache_ok c -> cache_ok (put_all maxSize mods c).
Proof using. induction mods as [|m mods IH]; intros c Hc; [done|]. cbn [put_all]. by apply IH, put_ok. Qed.
Lemma publish_all_ends l : forall d : Holder, snd (publish_all l d) = Success tt.
Proof using. induction l as [|o l IH]; intros d; [done|]. apply IH. Qed.

Lemma receive_const_ends msg d : match msg with ModifiersFromRemote _ | LocallyGeneratedModifier _ => False | _ => True end ->
  ends (fun f => receive handling maxSize f msg) d.
Proof using.
  destruct msg as [mods|m|txs|ids| |h s vl mp]; intros Hm; [done|done|..]; cbn [receive].
  - destruct handling; apply ends_each; intros tx d'; [|by apply ends_const]. apply ends_const. unfold txModify, bind at 1, gets.
    destruct (validate_tx _ tx); [|done]. destruct (pool_put _ tx); [|done]. unfold bind. by rewrite updateNodeView_run.
  - apply ends_const. unfold bind at 1, gets, bind. rewrite updateNodeView_run. by rewrite publish_all_ends.
  - by apply ends_const.
  - apply ends_const. by destruct h, s, vl, mp.
Qed.

(** For a history that answers a report of an invalid modifier with nothing more
    to apply, as HybridHistory does, or with less left to report by some measure,
    every handler of the actor ends: there is a number of rounds of the state
    update from which on the outcome is one and the same, and is not that the
    rounds ran out.  Nothing in the code asks this of a history. *)
Theorem receive_ends msg d : cache_ok (modifiersCache d) ->
  exists rounds d' r, r <> Failure NoFuel /\ forall fuel, rounds <= fuel -> receive handling maxSize fuel msg d = (d', r).
Proof using Hmu Hvault.
  intros Hok. change (ends (fun f => receive handling maxSize f msg) d). destruct msg as [mods|m|txs|ids| |h s vl mp]; try by apply receive_const_ends.
  - cbn [receive]. unfold processRemoteModifiers. apply ends_bind; [by apply ends_const|]. intros d1 [] f1 H1. specialize (H1 f1 (le_n _)). injection H1 as <-.
    apply ends_bind; [by apply ends_const|]. intros d2 c f2 H2. specialize (H2 f2 (le_n _)). injection H2 as <- <-. cbn [modifiersCache].
    apply ends_bind; [apply ends_loop; [by apply put_all_ok|cbn; lia]|]. intros d3 applied f3 _.
    apply ends_bind; [apply ends_const; unfold on_cache; by destruct (cleanOverfull _ _)|]. intros d4 cleared f4 _. by apply ends_const.
  - apply ends_pmod.
Qed.
End Ends.
End Holder.
