(* ===== verification/NodeViewProps.v ===== *)
(** * NodeViewProps: blocks, retargeting, and modifiers from others *)

From stdpp Require Import pretty.
From S2P Require Import Prelude DeliveryTracker ModifiersCache NodeViewHolder NodeViewHolderThms.

Section Holder.
Context {PMOD TX HIS MS VL MP : Type} `{NV : !NodeViewParts PMOD TX HIS MS VL MP}.
Context (handling : bool) (maxSize : Z).
Abbreviation Holder := (NodeViewHolder.Holder (PMOD := PMOD) (TX := TX) (HIS := HIS) (MS := MS) (VL := VL) (MP := MP)).
Abbreviation NodeView := (NodeViewHolder.NodeView (HIS := HIS) (MS := MS) (VL := VL) (MP := MP)).

(** ** Modifiers that all apply *)

Fixpoint apply_mods (s : MS) (l : list PMOD) : Try MS :=
  match l with [] => Success s | m :: l' => let? s' := applyModifier s m in apply_mods s' l' end.

Lemma apply_mods_app s l1 l2 : apply_mods s (l1 ++ l2) = (let? s' := apply_mods s l1 in apply_mods s' l2).
Proof. revert s. induction l1 as [|m l1 IH]; intros s; [done|]. cbn. destruct (applyModifier s m); cbn; [apply IH|done]. Qed.

Section Fold.
Context (h : HIS) (p : ProgressInfo PMOD) (rep : PMOD -> HIS).

(** Each is reported to the history of the beginning, so the last report is what
    there is in the end. *)
Lemma fold_all l : forall u s d, failedMod u = None -> alternativeProgressInfo u = None -> apply_mods (u_state u) l = Success s ->
  (forall m, m ∈ l -> reportModifierIsValid h m = Success (rep m)) ->
  fold_apply h p (Success u) l d =
    (said d (SemanticallySuccessfulModifier <$> l), Success (Success (Update (default (u_history u) (rep <$> last l)) s None None (u_suffix u ++ l)))).
Proof.
  induction l as [|m l IH]; intros u s d Hu Ha Hs Hrep; cbn [fold_apply apply_mods] in *.
  - injection Hs as <-. cbn [fmap list_fmap last]. rewrite said_nil, app_nil_r. destruct u. cbn in *. by subst.
  - destruct (applyModifier (u_state u) m) as [s1|] eqn:Em; [|done]. unfold bind at 1, apply_one. rewrite Hu, Em, (Hrep m) by left. cbn.
    specialize (IH (Update (rep m) s1 None None (u_suffix u ++ [m])) s (said d [SemanticallySuccessfulModifier m]) eq_refl eq_refl Hs (fun x Hx => Hrep x ltac:(by right))).
    unfold said in IH at 1. rewrite IH, said_said. cbn [u_suffix u_history]. rewrite <- app_assoc.
    destruct l as [|m2 l]; [done|]. change (last (m :: m2 :: l)) with (last (m2 :: l)). destruct (last (m2 :: l)) eqn:E; [done|by apply last_None in E].
Qed.

(** One that does not apply *)
Lemma fold_stops l x l' e h' p' u s d : failedMod u = None -> apply_mods (u_state u) l = Success s ->
  (forall m, m ∈ l -> reportModifierIsValid h m = Success (rep m)) -> applyModifier s x = Failure e -> reportModifierIsInvalid h x p = Success (h', p') ->
  fold_apply h p (Success u) (l ++ x :: l') d =
    (said d ((SemanticallySuccessfulModifier <$> l) ++ [SemanticallyFailedModification x e]), Success (Success (Update h' s (Some x) (Some p') (u_suffix u ++ l)))).
Proof.
  revert u d. induction l as [|m l IH]; intros u d Hu Hs Hrep Hx Hi; cbn [app fold_apply apply_mods] in *.
  - injection Hs as <-. unfold bind at 1, apply_one. rewrite Hu, Hx, Hi. cbn. rewrite fold_apply_settled by (by intros u' [= <-]). by rewrite app_nil_r.
  - destruct (applyModifier (u_state u) m) as [s1|] eqn:Em; [|done]. unfold bind at 1, apply_one. rewrite Hu, Em, (Hrep m) by left. cbn.
    specialize (IH (Update (rep m) s1 None None (u_suffix u ++ [m])) (said d [SemanticallySuccessfulModifier m]) eq_refl Hs (fun y Hy => Hrep y ltac:(by right)) Hx Hi).
    unfold said in IH at 1. rewrite IH, said_said. cbn [u_suffix]. by rewrite <- app_assoc.
Qed.
End Fold.

(** The state and the vault a block is applied to *)
Definition begins (v : NodeView) (p : ProgressInfo PMOD) (s : MS) (vl : VL) : Prop :=
  if chainSwitchingNeeded p
  then exists b, branchPoint p = Some b /\ vault_rollback (vault v) b = Success vl /\
       (version (minimalState v) = b /\ s = minimalState v \/ version (minimalState v) <> b /\ rollbackTo (minimalState v) b = Success s)
  else s = minimalState v /\ vl = vault v.

(** Contents of the pool, by the two methods the actor uses *)
Context (elems : MP -> TX -> Prop).
Context (elems_put : forall mp l tx, elems (putWithoutCheck mp l) tx <-> elems mp tx \/ tx ∈ l).
Context (elems_filter : forall mp f tx, elems (pool_filter mp f) tx <-> elems mp tx /\ f tx = true).

Definition carried_by (l : list PMOD) (tx : TX) : Prop := exists m, m ∈ l /\ tx ∈ extractTransactions m.

Lemma carried_flat l tx : tx ∈ flat_map extractTransactions l <-> carried_by l tx.
Proof using.
  unfold carried_by. rewrite list_elem_of_In, in_flat_map. setoid_rewrite list_elem_of_In. done.
Qed.

Lemma updateMemPool_elems removed applied pool s tx : elems (updateMemPool true removed applied pool s) tx <->
  (elems pool tx \/ carried_by removed tx) /\ (forall t, carried_by applied t -> tx_id t <> tx_id tx) /\ isSuccess (validate_tx s tx) = true.
Proof using elems_put elems_filter.
  unfold updateMemPool. rewrite elems_filter, elems_put, carried_flat, andb_true_iff, negb_true_iff. apply and_iff_compat_l. apply and_iff_compat_r.
  rewrite <- not_true_iff_false, existsb_exists. setoid_rewrite <- list_elem_of_In. setoid_rewrite carried_flat. setoid_rewrite bool_decide_eq_true. naive_solver.
Qed.

(** C6: a block whose modifiers all apply, to the state or to the one rolled back to,
    for components that are immutable values, so that a report or a scan gives a
    new value and changes none in place: all four parts of the view change at once.
    The state has the modifiers applied in order, the pool has its transactions and
    those of the removed modifiers, without those now applied or not valid any
    more; but history is the value that the last report gave, made from history as
    it was at the beginning of the update, so that earlier reports are in none of
    the parts, and the vault is as it was or rolled back, with nothing scanned.  A
    history or vault that records reports and scans in place, as those of the
    examples and the testkit do, keeps them, and is not covered. *)
Theorem block_applied fuel m d h p l x s0 s1 vl rep : let v := nodeView d in
  history_contains (history v) (mod_id m) = false -> append (history v) m = Success (h, p) -> toApply p = l ++ [x] ->
  begins v p s0 vl -> apply_mods s0 (l ++ [x]) = Success s1 -> (forall y, y ∈ l ++ [x] -> reportModifierIsValid h y = Success (rep y)) ->
  exists pool os, pmodModify handling (S fuel) m d = (in_view (View (rep x) s1 vl pool) os d, Success tt) /\
    os = [StartingPersistentModifierApplication m; SyntacticallySuccessfulModifier m; NewOpenSurface (openSurfaceIds h)] ++
         (SemanticallySuccessfulModifier <$> l ++ [x]) ++ [ChangedHistory (rep x); ChangedState s1; ChangedVault vl; ChangedMempool pool] /\
    forall tx, elems pool tx <->
      if handling then (elems (memoryPool v) tx \/ carried_by (toRemove p) tx) /\ (forall t, carried_by (l ++ [x]) t -> tx_id t <> tx_id tx) /\ isSuccess (validate_tx s1 tx) = true
      else elems (memoryPool v) tx.
Proof using elems_put elems_filter.
  intros v Hc Ha Hl Hb Hs Hrep. exists (updateMemPool handling (toRemove p) (l ++ [x]) (memoryPool v) s1). eexists. split; [|split; [reflexivity|]].
  2: { intros tx. destruct handling; [apply updateMemPool_elems|done]. }
  unfold pmodModify. unfold bind at 1, gets. fold v. rewrite Hc. unfold bind at 1, publish, modify. rewrite Ha. unfold bind at 1 2. cbn [modifiersCache nodeView out]. rewrite Hl.
  destruct (l ++ [x]) as [|y ys] eqn:El; [by destruct l|]. rewrite <- El in *. set (d1 := mkHolder _ _ _).
  assert (updateState (S fuel) h (minimalState v) p [] d1 = (said d1 (SemanticallySuccessfulModifier <$> l ++ [x]), Success (rep x, Success s1, l ++ [x]))) as Eu.
  { cbn [updateState]. unfold bind at 1. assert ((if chainSwitchingNeeded p then
      match branchPoint p with
      | None => throw NoSuchElement
      | Some b => if bool_decide (version (minimalState v) = b) then ret (Success (minimalState v), []) else ret (rollbackTo (minimalState v) b, trimChainSuffix [] b)
      end else ret (Success (minimalState v), [])) d1 = (d1, Success (Success s0, []))) as ->.
    { unfold begins in Hb. destruct (chainSwitchingNeeded p).
      - destruct Hb as (b & -> & _ & [[Hv ->]|[Hv Hr]]); [by rewrite bool_decide_true|by rewrite bool_decide_false, Hr].
      - by destruct Hb as [-> _]. }
    unfold bind at 1, applyState. rewrite Hl, (fold_all h p rep (l ++ [x]) (Update h s0 None None []) s1 d1 eq_refl eq_refl Hs Hrep). by rewrite last_snoc. }
  unfold bind at 1. rewrite Eu. unfold bind. unfold begins in Hb. assert ((if chainSwitchingNeeded p
      then match branchPoint p with Some b => lift_try (vault_rollback (vault v) b) | None => throw NoSuchElement end
      else ret (vault v)) (said d1 (SemanticallySuccessfulModifier <$> l ++ [x])) = (said d1 (SemanticallySuccessfulModifier <$> l ++ [x]), Success vl)) as ->.
  { destruct (chainSwitchingNeeded p); [destruct Hb as (b & -> & Hv & _); unfold lift_try; by rewrite Hv|by destruct Hb as [_ ->]]. }
  rewrite updateNodeView_run. unfold in_view, said, d1. cbn. by rewrite <- !app_assoc.
Qed.

(** ** A modifier that does not apply *)

Lemma from_index_here l a l' : mod_id a ∉ mod_id <$> l -> from_index (l ++ a :: l') (mod_id a) = a :: l'.
Proof using.
  induction l as [|m l IH]; cbn [fmap list_fmap app from_index]; [by rewrite bool_decide_true|]. rewrite not_elem_of_cons. intros [Hm Hl].
  rewrite bool_decide_false by done. by apply IH.
Qed.
Lemma version_last (Hversion : forall s m s', applyModifier s m = Success s' -> version s' = mod_id m) l : forall s a s',
  apply_mods s (l ++ [a]) = Success s' -> version s' = mod_id a.
Proof using.
  induction l as [|m l IH]; intros s a s'; cbn; destruct (applyModifier s _) as [s1|] eqn:E; cbn; try done; [intros [= <-]; by eapply Hversion|apply IH].
Qed.

(** When a modifier turns out invalid after others were applied, and history
    goes back to one of these, [a], to apply others from there, the state is that
    of the modifiers up to [a] and the new ones; but what updateState gives as
    applied, from which pool and vault are updated, lacks those before [a], and
    has those after it, which were rolled back. *)
Theorem retarget_misreports fuel h s p A a B x C s1 s2 e h' p' D s3 (rep rep' : PMOD -> HIS) d :
  (forall s m s', applyModifier s m = Success s' -> version s' = mod_id m) -> NoDup (mod_id <$> A ++ a :: B) ->
  chainSwitchingNeeded p = false -> toApply p = A ++ a :: B ++ x :: C ->
  apply_mods s (A ++ [a]) = Success s1 -> apply_mods s1 B = Success s2 -> applyModifier s2 x = Failure e ->
  (forall m, m ∈ A ++ a :: B -> reportModifierIsValid h m = Success (rep m)) -> reportModifierIsInvalid h x p = Success (h', p') ->
  chainSwitchingNeeded p' = true -> branchPoint p' = Some (mod_id a) -> rollbackTo s2 (mod_id a) = Success s1 ->
  toApply p' = D -> apply_mods s1 D = Success s3 -> (forall m, m ∈ D -> reportModifierIsValid h' m = Success (rep' m)) ->
  apply_mods s (A ++ a :: D) = Success s3 /\
  exists h3 d3, updateState (S (S fuel)) h s p [] d = (d3, Success (h3, Success s3, match B with [] => D | _ => a :: B ++ D end)).
Proof using.
  intros Hversion Hnd Hlin Hp H1 H2 Hx Hrep Hinv Hsw Hbp Hrb HD H3 Hrep'. split.
  { replace (A ++ a :: D) with ((A ++ [a]) ++ D) by (by rewrite <- app_assoc). by rewrite apply_mods_app, H1. }
  assert (apply_mods s (A ++ a :: B) = Success s2) as H12.
  { replace (A ++ a :: B) with ((A ++ [a]) ++ B) by (by rewrite <- app_assoc). by rewrite apply_mods_app, H1. }
  cbn [updateState]. unfold bind at 1. rewrite Hlin. cbn [ret]. unfold bind at 1, applyState.
  rewrite Hp. replace (A ++ a :: B ++ x :: C) with ((A ++ a :: B) ++ x :: C) by (by rewrite <- app_assoc).
  rewrite (fold_stops h p rep _ x C e h' p' (Update h s None None []) s2 d eq_refl H12 Hrep Hx Hinv). cbn [failedMod alternativeProgressInfo u_history u_state u_suffix app].
  set (d1 := said d _). unfold bind at 1. rewrite Hsw, Hbp.
  assert (exists suffix0 d2, (if bool_decide (version s2 = mod_id a) then ret (Success s2, []) else ret (rollbackTo s2 (mod_id a), trimChainSuffix (A ++ a :: B) (mod_id a))) d1
    = (d2, Success (Success s1, suffix0)) /\ suffix0 = match B with [] => [] | _ => a :: B end) as (suffix0 & d2 & -> & Hsuf).
  { destruct B as [|b B] using rev_ind; [|clear IHB].
    - cbn in H2. injection H2 as <-. rewrite bool_decide_true by (by eapply version_last). by eexists _, _.
    - assert (version s2 = mod_id b) as Hv by (by eapply version_last). rewrite bool_decide_false; [|rewrite Hv; intros E].
      + rewrite Hrb. eexists _, _. split; [done|]. unfold trimChainSuffix. rewrite fmap_app, fmap_cons in Hnd. apply NoDup_app in Hnd as (_ & Hd & _).
        rewrite from_index_here; [by destruct B|]. intros Hin. apply (Hd _ Hin). left.
      + rewrite fmap_app, fmap_cons in Hnd. apply NoDup_app in Hnd as (_ & _ & [Hn _]%NoDup_cons). apply Hn. rewrite <- E, fmap_app. apply elem_of_app. right. left. }
  unfold bind at 1, applyState. rewrite HD, (fold_all h' p' rep' D (Update h' s1 None None suffix0) s3 d2 eq_refl eq_refl H3 Hrep').
  cbn [failedMod u_history u_state u_suffix]. eexists _, _. rewrite Hsuf. destruct B; reflexivity.
Qed.

(** ** Modifiers from others *)

(** Never to become applicable, as far as history says *)
Definition hopeless (m : PMOD) : Prop := exists h e, applicableTry h m = Failure e /\ e <> RecoverableModifierError.

(** Applicable, as history once said *)
Definition ready (m : PMOD) : Prop := exists h, applicable applicableTry h m = true.

Lemma filter_parts {A} (P : A -> Prop) `{!forall x, Decision (P x)} (l : list A) : l ≡ₚ filter P l ++ filter (fun x => ~ P x) l.
Proof using. symmetry. apply filter_app_complement. Qed.

Lemma not_recoverable h (l : list (ModifierId * PMOD)) : Forall (inapplicable applicableTry h) l ->
  Forall hopeless (filter (fun e => ~ recoverable applicableTry h e) l).*2.
Proof using.
  intros H. apply Forall_fmap, Forall_forall. intros e [Hr He]%list_elem_of_filter. pose proof (proj1 (Forall_forall _ _) H e He) as Hi.
  unfold inapplicable, applicable, recoverable in *. destruct (applicableTry h e.2) as [|ex] eqn:E; [done|]. exists h, ex. split; [done|]. intros ->. by apply Hr.
Qed.

Lemma loop_accounts rounds fuel : forall applied d d' applied', cache_ok (modifiersCache d) -> applyLoop handling rounds fuel applied d = (d', Success applied') ->
  exists new dropped, applied' = new ++ applied /\ (cache (modifiersCache d)).*2 ≡ₚ new ++ dropped ++ (cache (modifiersCache d')).*2 /\
    Forall ready new /\ Forall hopeless dropped /\
    Forall (inapplicable applicableTry (history (nodeView d'))) (cache (modifiersCache d')) /\ cache_ok (modifiersCache d') /\
    forall e, e ∈ cache (modifiersCache d') -> e ∈ cache (modifiersCache d).
Proof using.
  induction rounds as [|rounds IH]; intros applied d d' applied' Hok; cbn [applyLoop]; [done|]. unfold bind at 1, gets. unfold bind at 1, on_cache.
  pose proof (pop_spec applicableTry (history (nodeView d)) _ Hok) as Hp. pose proof (pop_ok applicableTry (history (nodeView d)) _ Hok) as Hok1.
  pose proof (fun x => pop_elem applicableTry (history (nodeView d)) _ x Hok) as Hel.
  destruct (popCandidate applicableTry (history (nodeView d)) (modifiersCache d)) as [[m|] c]; cbn [snd] in Hok1, Hel; destruct Hp as [_ Hp].
  - destruct Hp as (pre & k & post & Ec & Hm & Hpre & Ec'). unfold bind. set (d1 := mkHolder _ _ _).
    destruct (pmodModify handling fuel m d1) as [d2 [[]|e]] eqn:Em; [|done]. pose proof (pmod_cache handling fuel m d1 d2 _ Em ltac:(done)) as E2. cbn in E2.
    intros H. apply IH in H as (new & dropped & -> & Hperm & Hn & Hd & Hi & Hok' & Hkept); [|by rewrite E2].
    exists (new ++ [m]), ((filter (fun e => ~ recoverable applicableTry (history (nodeView d)) e) pre).*2 ++ dropped). split_and!; [by rewrite <- app_assoc| | | |done|done|].
    + rewrite Ec, fmap_app, fmap_cons. cbn [snd]. rewrite (filter_parts (recoverable applicableTry (history (nodeView d))) pre) at 1. rewrite fmap_app.
      rewrite E2, Ec', fmap_app in Hperm. rewrite <- !app_assoc. cbn [app]. rewrite <- !Permutation_middle. apply Permutation_skip.
      etransitivity; [|apply Permutation_app_swap_app]. etransitivity; [apply Permutation_app_swap_app|]. apply Permutation_app_head. exact Hperm.
    + apply Forall_app. split; [done|]. apply Forall_singleton. by eexists.
    + apply Forall_app. split; [by apply not_recoverable|done].
    + intros x Hx%Hkept. rewrite E2 in Hx. by apply Hel.
  - intros [= <- <-]. destruct Hp as [Hall Ec]. exists [], (filter (fun e => ~ recoverable applicableTry (history (nodeView d)) e) (cache (modifiersCache d))).*2.
    cbn [modifiersCache nodeView app]. split_and!; [done| |done| | |done|].
    + rewrite Ec, <- fmap_app. apply fmap_Permutation. rewrite Permutation_app_comm. apply filter_parts.
    + by apply not_recoverable.
    + rewrite Ec. apply Forall_forall. intros e [_ He]%list_elem_of_filter. by apply (proj1 (Forall_forall _ _) Hall).
    + exact Hel.
Qed.

(** Each entry of the cache is under its modifier's id. *)
Definition filed (c : Cache) : Prop := cache_ok c /\ forall e, e ∈ cache c -> e.1 = mod_id e.2.

Lemma filed_keys c : filed c -> (cache c).*1 = mod_id <$> (cache c).*2.
Proof using.
  intros [_ H]. rewrite <- list_fmap_compose. apply list_fmap_ext. intros i e E. apply H. by eapply list_elem_of_lookup_2.
Qed.

(** Of the modifiers put one after the other those stay whose ids are new: the first of each *)
Lemma put_all_brings mods : forall c, exists brought,
  cache (put_all maxSize mods c) = cache c ++ ((fun m => (mod_id m, m)) <$> brought) /\ brought `sublist_of` mods /\
  (forall m, m ∈ mods -> mod_id m ∈ (cache (put_all maxSize mods c)).*1) /\
  forall m, m ∈ brought -> mod_id m ∉ (cache c).*1 /\ List.find (fun x => bool_decide (mod_id x = mod_id m)) mods = Some m.
Proof using.
  induction mods as [|m mods IH]; intros c; cbn [put_all].
  { exists []. rewrite app_nil_r. split_and!; [done|done|by intros ? ?%elem_of_nil..]. }
  destruct (IH (put maxSize (mod_id m) m c)) as (brought & E & Hs & Hall & Hb). unfold put in *. destruct (contains (mod_id m) c) eqn:Ec.
  - apply contains_keys in Ec. exists brought. split_and!; [done|by apply sublist_cons| |].
    + intros x [->|Hx]%elem_of_cons; [|by apply Hall]. rewrite E, fmap_app, elem_of_app. by left.
    + intros x Hx. destruct (Hb x Hx) as [Hn Hf]. split; [done|]. cbn. rewrite bool_decide_false; [done|]. congruence.
  - assert (mod_id m ∉ (cache c).*1) as Hm by (intros H%contains_keys; congruence). cbn [cache onPut] in E, Hb. exists (m :: brought).
    split_and!; [by rewrite E, <- app_assoc|by apply sublist_skip| |].
    + intros x [->|Hx]%elem_of_cons; [|by apply Hall]. rewrite E, !fmap_app, !elem_of_app. left. right. by left.
    + intros x [->|Hx]%elem_of_cons; [split; [done|]; cbn; by rewrite bool_decide_true|]. destruct (Hb x Hx) as [Hn Hf].
      rewrite fmap_app, elem_of_app in Hn. split; [by intros H; apply Hn; left|]. cbn. rewrite bool_decide_false; [done|].
      intros Hid. apply Hn. right. rewrite <- Hid. by left.
Qed.

(** C19: what becomes of the modifiers a message brings and of those in the cache.  Of
    the former the first with each id that the cache has not is put into it, so that
    every modifier of the message is among those then in the cache or has the id of
    one; each of these is tried once and answered as applied, after history has
    found it applicable, or answered as cleared, or stays in the cache, or is
    dropped because history has said it can never be applied, of which nobody is
    told; in the end history finds none in the cache applicable, and the cache has
    its size. *)
Theorem remote_modifiers_accounted fuel mods d d' : filed (modifiersCache d) ->
  receive handling maxSize fuel (ModifiersFromRemote mods) d = (d', Success tt) ->
  exists brought applied cleared dropped, last (out d') = Some (ModifiersProcessingResult applied cleared) /\
    let before := (cache (modifiersCache d)).*2 in
    let after := (cache (modifiersCache d')).*2 in
    brought `sublist_of` mods /\ NoDup (mod_id <$> before ++ brought) /\ (forall m, m ∈ mods -> mod_id m ∈ mod_id <$> before ++ brought) /\
    (forall m, m ∈ brought -> List.find (fun x => bool_decide (mod_id x = mod_id m)) mods = Some m) /\
    before ++ brought ≡ₚ applied ++ cleared ++ dropped ++ after /\
    Forall ready applied /\ Forall hopeless dropped /\ Forall (fun m => applicable applicableTry (history (nodeView d')) m = false) after /\
    (size (modifiersCache d') <= Z.max 0 maxSize)%Z /\ filed (modifiersCache d').
Proof using.
  intros Hfiled. pose proof Hfiled as [Hok _]. cbn [receive]. unfold processRemoteModifiers. unfold bind at 1, on_cache. unfold bind at 1, gets. cbn [modifiersCache].
  set (d1 := mkHolder _ _ _). unfold bind at 1. destruct (applyLoop handling _ fuel [] d1) as [d2 [applied|e]] eqn:El; [|done].
  apply loop_accounts in El as (new & dropped & -> & Hperm & Hr & Hd & Hi & Hok2 & Hkept); [|by apply put_all_ok]. rewrite app_nil_r. cbn [modifiersCache d1] in Hperm.
  pose proof (cleanOverfull_spec maxSize _ Hok2) as Hc. unfold bind. destruct (cleanOverfull maxSize (modifiersCache d2)) as [cleared c] eqn:Ec, Hc as (Hok3 & Hsize & Hperm2).
  destruct (put_all_brings mods (modifiersCache d)) as (brought & Eput & Hsub & Hall & Hb).
  pose proof (put_all_ok maxSize mods _ Hok) as [Hnd _]. assert ((cache (put_all maxSize mods (modifiersCache d))).*1 = mod_id <$> (cache (modifiersCache d)).*2 ++ brought) as Ekeys.
  { rewrite Eput, !fmap_app, (filed_keys _ Hfiled). f_equal. rewrite <- list_fmap_compose. by apply list_fmap_ext. }
  rewrite Ekeys in Hnd, Hall.
  intros [= <-]. exists brought, new, cleared, dropped. cbn [out modifiersCache nodeView]. split; [by rewrite last_snoc|].
  split_and!; [done..|by apply Hb| |done|done| |done|].
  - trans (cache (put_all maxSize mods (modifiersCache d))).*2.
    { rewrite Eput, fmap_app, <- list_fmap_compose. by rewrite list_fmap_id. }
    rewrite Hperm, Hperm2. apply Permutation_app_head. apply Permutation_app_swap_app.
  - apply Forall_forall. intros m Hm. assert (m ∈ (cache (modifiersCache d2)).*2) as Hin by (rewrite Hperm2, elem_of_app; by right).
    apply list_elem_of_fmap in Hin as (e & -> & He). apply (proj1 (Forall_forall _ _) Hi e He).
  - split; [done|]. intros e He. assert (e ∈ cache (put_all maxSize mods (modifiersCache d))) as Hin.
    { apply Hkept. apply (removeUntil_elem maxSize (evictionQueue (modifiersCache d2)) e (modifiersCache d2) []).
      unfold cleanOverfull in Ec. by rewrite Ec. }
    rewrite Eput, elem_of_app in Hin. destruct Hin as [Hin|(m & -> & _)%list_elem_of_fmap]; [by apply Hfiled|done].
Qed.
End Holder.

(** ** A node *)

(** Blocks are numbers, 13 is invalid, 100 never applicable and those above come
    too early; a history counts the reports of invalid blocks it may still get. *)
Record SampleHistory := Known { chances : nat; known_blocks : list nat }.
Definition after_invalid : ProgressInfo nat := Progress (Some (pretty 1)) [13] [7] eq_refl.
#[local] Instance sample_parts : NodeViewParts nat nat SampleHistory (list nat) (list nat) (list nat) := {|
  mod_id := pretty; carried m := Some [m]; tx_id := pretty;
  history_contains h id := existsb (fun m => bool_decide (pretty m = id)) (known_blocks h);
  applicableTry h m := if m <? 100 then Success tt else if m =? 100 then Failure IllegalArgument else Failure RecoverableModifierError;
  openSurfaceIds h := pretty <$> take 1 (known_blocks h);
  append h m := Success (h, Progress None [] [m] eq_refl);
  reportModifierIsValid h m := Success (Known (chances h) (m :: known_blocks h));
  reportModifierIsInvalid h m _ := match chances h with O => Failure IllegalArgument | S n => Success (Known n (known_blocks h), after_invalid) end;
  version s := match s with m :: _ => pretty m | [] => "" end;
  applyModifier s m := if m =? 13 then Failure IllegalArgument else Success (m :: s);
  rollbackTo s id := Success ((fix go l := match l with [] => [] | m :: l' => if bool_decide (pretty m = id) then l else go l' end) s);
  validate := None;
  scanOffchain v tx := v; scanPersistent v m := m :: v; vault_rollback v _ := Success v;
  pool_put mp tx := Success (tx :: mp); putWithoutCheck mp l := l ++ mp; pool_filter mp f := filter (fun tx => f tx = true) mp
|}.

Definition sample_node : NodeViewHolder.Holder (PMOD := nat) (TX := nat) (HIS := SampleHistory) (MS := list nat) (VL := list nat) (MP := list nat) :=
  mkHolder (View (Known 3 []) [] [] [5; 6]) new_cache [].

Lemma block_applied_witness :
  exists pool os, pmodModify true 1 5 sample_node = (in_view (View (Known 3 [5]) [5] [] pool) os sample_node, Success tt) /\ pool = [6].
Proof.
  destruct (block_applied true (fun mp tx => tx ∈ mp)) with (fuel := 0) (m := 5) (d := sample_node) (h := Known 3 []) (p := Progress None [] [5] eq_refl : ProgressInfo nat)
    (l := @nil nat) (x := 5) (s0 := @nil nat) (s1 := [5]) (vl := @nil nat) (rep := fun m : nat => Known 3 [m]) as (pool & os & E & _ & _).
  - intros mp l tx. cbn. rewrite elem_of_app. tauto.
  - intros mp f tx. cbn. rewrite list_elem_of_filter. tauto.
  - reflexivity.
  - reflexivity.
  - reflexivity.
  - by split.
  - reflexivity.
  - intros y ->%list_elem_of_singleton. reflexivity.
  - exists pool, os. split; [exact E|]. pose proof (f_equal (fun r => memoryPool (nodeView (fst r))) E) as H. cbn [fst in_view nodeView memoryPool] in H. rewrite <- H. vm_compute. reflexivity.
Defined.

(** 0, 1 and 2 apply, 13 does not, and history goes back to 1 and on to 7. *)
Lemma retarget_misreports_witness :
  exists h3 d3, updateState 2 (Known 3 []) [] (Progress None [] [0; 1; 2; 13; 4] eq_refl : ProgressInfo nat) [] sample_node =
    (d3, Success (h3, Success [7; 1; 0], [1; 2; 7])).
Proof.
  destruct (retarget_misreports 0 (Known 3 []) [] (Progress None [] [0; 1; 2; 13; 4] eq_refl) [0] 1 [2] 13 [4] [1; 0] [2; 1; 0] IllegalArgument
    (Known 2 []) after_invalid [7] [7; 1; 0] (fun m => Known 3 [m]) (fun m => Known 2 [m]) sample_node) as [_ H]; try reflexivity.
  - intros s m s'. cbn. destruct (m =? 13); [done|]. by intros [= <-].
  - apply NoDup_fmap_2; [apply _|]. apply (bool_decide_unpack _). vm_compute. reflexivity.
  - exact H.
Defined.

Lemma receive_ends_witness :
  exists rounds d' r, r <> Failure NoFuel /\ forall fuel, rounds <= fuel -> receive true 10 fuel (ModifiersFromRemote [5; 13; 101; 100; 3]) sample_node = (d', r).
Proof.
  apply (receive_ends true 10 chances).
  - intros h m p h' p'. cbn. destruct (chances h) eqn:E; [done|]. intros [= <- <-]. right. cbn. lia.
  - done.
  - apply new_cache_ok.
Defined.

(** 5 comes twice and 102 is in the cache already; 3 and 5 are applied, 100 is
    dropped, and of 101 and 102 one is cleared. *)
Definition waiting_node := mkHolder (nodeView sample_node) (put 1 (pretty 102) 102 new_cache) (out sample_node).
Lemma remote_modifiers_accounted_witness :
  let d' := fst (receive true 1 5 (ModifiersFromRemote [5; 101; 102; 100; 5; 3]) waiting_node) in
  exists brought applied cleared dropped, last (out d') = Some (ModifiersProcessingResult applied cleared) /\
    102 :: brought ≡ₚ applied ++ cleared ++ dropped ++ (cache (modifiersCache d')).*2 /\ Forall hopeless dropped /\ applied = [3; 5] /\ cleared = [102].
Proof.
  intros d'. assert (receive true 1 5 (ModifiersFromRemote [5; 101; 102; 100; 5; 3]) waiting_node = (d', Success tt)) as E by (vm_compute; reflexivity).
  destruct (remote_modifiers_accounted true 1 5 [5; 101; 102; 100; 5; 3] waiting_node d') as (brought & applied & cleared & dropped & Hl & _ & _ & _ & _ & Hp & _ & Hd & _).
  - split; [apply put_ok, new_cache_ok|]. intros e ->%list_elem_of_singleton. reflexivity.
  - exact E.
  - exists brought, applied, cleared, dropped. split; [exact Hl|]. split; [exact Hp|]. split; [exact Hd|]. vm_compute in Hl. injection Hl as <- <-. split; reflexivity.
Defined.
