(* ===== verification/SyncTracker.v ===== *)
(** * SyncTracker: which peers are ahead, and when they were last synced with

    core/network/SyncTracker.scala.  Its maps are keyed by ConnectedPeer, whose
    equality is that of the remote address: the key here is the address, with
    the peer object first stored under it.  The order of a hash map is that of
    [map_to_list]; the theorems speak of it only through membership.  The clock
    reading, in milliseconds, and the random number are arguments. *)

From S2P Require Import Prelude Network.

(** consensus/History.scala *)
Module History.
Inductive HistoryComparisonResult := Equal | Younger | Fork | Older | Nonsense | Unknown.
End History.
Import History.

#[export] Instance comparison_eq_dec : EqDecision HistoryComparisonResult.
Proof. solve_decision. Defined.

(** The intervals of the settings, in milliseconds *)
Record SyncSettings := {
  syncStatusRefresh : Z;
  syncStatusRefreshStable : Z;
  syncInterval : Z;
  syncIntervalStable : Z
}.

Record SyncState := SyncSt {
  schedule : option Z;                 (* the period of the running task *)
  statuses : gmap N (ConnectedPeer * HistoryComparisonResult);
  lastSyncSentTime : gmap N (ConnectedPeer * Z);
  lastSyncInfoSentTime : Z;
  stableSyncRegime : bool
}.

Definition empty_sync : SyncState := SyncSt None ∅ ∅ 0 false.

Inductive SyncEvent := NoBetterNeighbour | BetterNeighbourAppeared.

Definition set_schedule x s := SyncSt x (statuses s) (lastSyncSentTime s) (lastSyncInfoSentTime s) (stableSyncRegime s).
Definition set_statuses x s := SyncSt (schedule s) x (lastSyncSentTime s) (lastSyncInfoSentTime s) (stableSyncRegime s).
Definition set_times x l s := SyncSt (schedule s) (statuses s) x l (stableSyncRegime s).
Definition set_stable b s := SyncSt (schedule s) (statuses s) (lastSyncSentTime s) (lastSyncInfoSentTime s) b.

(** [+=] on a map keyed by peers: an equal key already there is kept. *)
Definition put_peer {A} (peer : ConnectedPeer) (a : A) (m : gmap N (ConnectedPeer * A)) : gmap N (ConnectedPeer * A) :=
  match m !! remoteAddress peer with
  | Some (key, _) => <[remoteAddress peer := (key, a)]> m
  | None => <[remoteAddress peer := (peer, a)]> m
  end.

(** keys *)
Definition keys {A} (m : gmap N (ConnectedPeer * A)) : list ConnectedPeer := (fun p => p.2.1) <$> map_to_list m.

Definition numOfSeniors (s : SyncState) : Z :=
  Z.of_nat (size (filter (fun p => p.2.2 = Older) (statuses s))).

Definition isFirstTimeTrackingPeer (peer : ConnectedPeer) (s : SyncState) : bool :=
  negb (bool_decide (is_Some (lastSyncSentTime s !! remoteAddress peer))).

Definition updateLastSyncSentTime (now : Z) (peer : ConnectedPeer) (s : SyncState) : SyncState :=
  set_times (put_peer peer now (lastSyncSentTime s)) now s.

(** clearStatus *)
Definition clearStatus (remote : N) (s : SyncState) : SyncState :=
  set_times (delete remote (lastSyncSentTime s)) (lastSyncInfoSentTime s)
    (set_statuses (delete remote (statuses s)) s).

Definition elapsedTimeSinceLastSync (now : Z) (s : SyncState) : Z := (now - lastSyncInfoSentTime s)%Z.

(** peersByStatus *)
Definition peersByStatus (s : SyncState) (r : HistoryComparisonResult) : list ConnectedPeer :=
  keys (filter (fun p => p.2.2 = r) (statuses s)).

Section Timed.
Context (cfg : SyncSettings).

Definition maxInterval (s : SyncState) : Z :=
  if stableSyncRegime s then syncStatusRefreshStable cfg else syncStatusRefresh cfg.
Definition minInterval (s : SyncState) : Z :=
  if stableSyncRegime s then syncIntervalStable cfg else syncInterval cfg.

(** The task that was running is cancelled. *)
Definition scheduleSendSyncInfo (s : SyncState) : SyncState := set_schedule (Some (minInterval s)) s.

(** updateStatus *)
Definition updateStatus (now : Z) (peer : ConnectedPeer) (status : HistoryComparisonResult) (s : SyncState)
    : SyncState * list SyncEvent :=
  let seniorsBefore := numOfSeniors s in
  let s1 := set_statuses (put_peer peer status (statuses s)) s in
  let s2 := if isFirstTimeTrackingPeer peer s1 then updateLastSyncSentTime now peer s1 else s1 in
  let seniorsAfter := numOfSeniors s2 in
  let done := (0 <? seniorsBefore)%Z && (seniorsAfter =? 0)%Z in
  let s3 := if done then scheduleSendSyncInfo (set_stable true s2) else s2 in
  (s3, (if done then [NoBetterNeighbour] else []) ++
       (if (seniorsBefore =? 0)%Z && (0 <? seniorsAfter)%Z then [BetterNeighbourAppeared] else [])).

(** outdatedPeers *)
Definition outdatedPeers (now : Z) (s : SyncState) : list ConnectedPeer :=
  keys (filter (fun p => (maxInterval s < now - p.2.2)%Z) (lastSyncSentTime s)).

(** peersToSyncWith; [random n] stands for Random.nextInt(n). *)
Definition peersToSyncWith (now : Z) (random : nat -> nat) (s : SyncState) : SyncState * list ConnectedPeer :=
  let outdated := outdatedPeers now s in
  let peers :=
    if negb (bool_decide (outdated = [])) then outdated
    else
      let unknowns := peersByStatus s Unknown in
      let forks := peersByStatus s Fork in
      let elders := peersByStatus s Older in
      let nonOutdated := option_list (elders !! random (length elders)) ++ unknowns ++ forks in
      filter (fun p => (minInterval s <= now - default 0 (snd <$> lastSyncSentTime s !! remoteAddress p))%Z) nonOutdated in
  (foldl (fun s p => updateLastSyncSentTime now p s) s peers, peers).
End Timed.

(** ** When the regime changes, and whom a sync goes to *)

Import History.

(** ** Operations and the invariant of the states they reach *)

Inductive SyncOp :=
| SSchedule
| SUpdate (now : Z) (peer : ConnectedPeer) (status : HistoryComparisonResult)
| SClear (remote : N)
| SSync (now : Z) (random : nat -> nat).

Definition run_sync_op (cfg : SyncSettings) (s : SyncState) (op : SyncOp) : SyncState :=
  match op with
  | SSchedule => scheduleSendSyncInfo cfg s
  | SUpdate now peer status => (updateStatus cfg now peer status s).1
  | SClear remote => clearStatus remote s
  | SSync now random => (peersToSyncWith cfg now random s).1
  end.

Definition run_sync cfg ops : SyncState := foldl (run_sync_op cfg) empty_sync ops.

Definition keyed {A} (m : gmap N (ConnectedPeer * A)) : Prop :=
  forall a p x, m !! a = Some (p, x) -> remoteAddress p = a.

Record sync_ok (cfg : SyncSettings) (s : SyncState) : Prop := {
  so_statuses : keyed (statuses s);
  so_times : keyed (lastSyncSentTime s);
  so_dom a : is_Some (statuses s !! a) <-> is_Some (lastSyncSentTime s !! a);
  so_schedule i : schedule s = Some i -> i = minInterval cfg s
}.

Lemma put_peer_lookup {A} p (x : A) m a :
  put_peer p x m !! a = if decide (a = remoteAddress p)
    then Some (default p (fst <$> m !! a), x) else m !! a.
Proof.
  unfold put_peer. destruct (m !! remoteAddress p) as [[k y]|] eqn:E; case_decide as Ha.
  - subst. rewrite lookup_insert_eq, E. done.
  - by rewrite lookup_insert_ne.
  - subst. rewrite lookup_insert_eq, E. done.
  - by rewrite lookup_insert_ne.
Qed.

Lemma put_peer_keyed {A} p (x : A) m : keyed m -> keyed (put_peer p x m).
Proof.
  intros Hk a q y. rewrite put_peer_lookup. case_decide as Ha; [|apply Hk].
  intros [= <- <-]. destruct (m !! a) as [[k z]|] eqn:E; simpl; [by eapply Hk|done].
Qed.

Lemma delete_keyed {A} a (m : gmap N (ConnectedPeer * A)) : keyed m -> keyed (delete a m).
Proof. intros Hk b p x [_ H]%lookup_delete_Some. by eapply Hk. Qed.

Lemma elem_of_keys {A} (m : gmap N (ConnectedPeer * A)) p : p ∈ keys m <-> exists a x, m !! a = Some (p, x).
Proof.
  unfold keys. rewrite list_elem_of_fmap. split.
  - intros ([a [q x]] & -> & H%elem_of_map_to_list). eauto.
  - intros (a & x & H). exists (a, (p, x)). split; [done|]. by apply elem_of_map_to_list.
Qed.

Lemma elem_of_keys_filter {A} (P : N * (ConnectedPeer * A) -> Prop) `{forall x, Decision (P x)} m p : keyed m ->
  p ∈ keys (filter P m) <-> exists x, m !! remoteAddress p = Some (p, x) /\ P (remoteAddress p, (p, x)).
Proof.
  intros Hk. rewrite elem_of_keys. split.
  - intros (a & x & [Hm HP]%map_lookup_filter_Some). pose proof (Hk _ _ _ Hm) as <-. eauto.
  - intros (x & Hm & HP). exists (remoteAddress p), x. by apply map_lookup_filter_Some.
Qed.

Lemma keys_nil {A} (P : N * (ConnectedPeer * A) -> Prop) `{forall x, Decision (P x)} m :
  keys (filter P m) = [] -> forall a q, m !! a = Some q -> ~ P (a, q).
Proof.
  intros E a [p x] Hm HP. assert (p ∈ keys (filter P m)) as Hin; [|rewrite E in Hin; by apply not_elem_of_nil in Hin].
  apply elem_of_keys. exists a, x. by apply map_lookup_filter_Some.
Qed.

(** ** Counting the seniors *)

Definition is_senior (r : option (ConnectedPeer * HistoryComparisonResult)) : Z :=
  match r with Some (_, Older) => 1 | _ => 0 end.

Lemma numOfSeniors_put s p r :
  numOfSeniors (set_statuses (put_peer p r (statuses s)) s) =
    (numOfSeniors s - is_senior (statuses s !! remoteAddress p) + is_senior (Some (p, r)))%Z.
Proof.
  assert (forall (m : gmap N (ConnectedPeer * HistoryComparisonResult)) a q c, m !! a = None ->
    Z.of_nat (size (filter (fun x => x.2.2 = Older) (<[a := (q, c)]> m))) =
    Z.of_nat (size (filter (fun x => x.2.2 = Older) m)) + is_senior (Some (q, c)))%Z as Hins.
  { intros m a q c Hn. destruct (decide (c = Older)) as [->|Hc].
    - rewrite map_filter_insert_True by done. rewrite map_size_insert_None; [simpl; lia|].
      apply map_lookup_filter_None_2. by left.
    - rewrite map_filter_insert_not' by (try done; intros y Hy; congruence).
      assert (is_senior (Some (q, c)) = 0%Z) as -> by (by destruct c). lia. }
  unfold numOfSeniors, put_peer. cbn [statuses set_statuses].
  set (a := remoteAddress p). set (m := statuses s).
  destruct (m !! a) as [[q c]|] eqn:E.
  - rewrite <- (insert_delete_id m a _ E) at 2. rewrite <- insert_delete_eq, !Hins by apply lookup_delete_eq.
    destruct r, c; simpl; lia.
  - rewrite Hins by done. simpl. destruct r; lia.
Qed.

(** ** The invariant is preserved *)

Lemma updateLast_lookup now p s a :
  lastSyncSentTime (updateLastSyncSentTime now p s) !! a =
    if decide (a = remoteAddress p) then Some (default p (fst <$> lastSyncSentTime s !! a), now)
    else lastSyncSentTime s !! a.
Proof. apply put_peer_lookup. Qed.

(** The last sync times after a round of [updateLastSyncSentTime] *)
Lemma updates_lookup now ps s a :
  let s' := foldl (fun s p => updateLastSyncSentTime now p s) s ps in
  (a ∈ remoteAddress <$> ps -> snd <$> lastSyncSentTime s' !! a = Some now) /\
  (a ∉ remoteAddress <$> ps -> lastSyncSentTime s' !! a = lastSyncSentTime s !! a) /\
  statuses s' = statuses s /\ schedule s' = schedule s /\ stableSyncRegime s' = stableSyncRegime s.
Proof.
  induction ps as [|p ps IH] using rev_ind; simpl; [split_and!; set_solver|].
  destruct IH as (H1 & H2 & H3 & H4 & H5). rewrite foldl_app, fmap_app. cbn [foldl].
  set (s' := foldl _ s ps) in *. split_and!; [..|by rewrite <- H3|by rewrite <- H4|by rewrite <- H5].
  - intros Ha. rewrite updateLast_lookup. case_decide as Hd; [done|]. apply H1. set_solver.
  - intros Ha. rewrite updateLast_lookup, decide_False by set_solver. apply H2. set_solver.
Qed.

Lemma updates_keyed now ps s : keyed (lastSyncSentTime s) ->
  keyed (lastSyncSentTime (foldl (fun s p => updateLastSyncSentTime now p s) s ps)).
Proof.
  revert s. induction ps as [|p ps IH]; intros s H; [done|]. simpl. apply IH. by apply put_peer_keyed.
Qed.

Lemma minInterval_stable cfg s1 s2 : stableSyncRegime s1 = stableSyncRegime s2 -> minInterval cfg s1 = minInterval cfg s2.
Proof. unfold minInterval. by intros ->. Qed.

(** What updateStatus does to the maps *)
Lemma updateStatus_maps cfg now p r s : sync_ok cfg s ->
  let s' := (updateStatus cfg now p r s).1 in
  statuses s' = put_peer p r (statuses s) /\
  lastSyncSentTime s' = (if isFirstTimeTrackingPeer p s then put_peer p now (lastSyncSentTime s) else lastSyncSentTime s) /\
  numOfSeniors s' = (numOfSeniors s - is_senior (statuses s !! remoteAddress p) + is_senior (Some (p, r)))%Z.
Proof.
  intros Hok. rewrite <- numOfSeniors_put. unfold updateStatus. cbn [fst].
  change (isFirstTimeTrackingPeer p (set_statuses _ s)) with (isFirstTimeTrackingPeer p s).
  unfold numOfSeniors. destruct (isFirstTimeTrackingPeer p s), (_ && _); done.
Qed.

Lemma updateStatus_ok cfg now p r s : sync_ok cfg s -> sync_ok cfg (updateStatus cfg now p r s).1.
Proof.
  intros Hok. destruct (updateStatus_maps cfg now p r s Hok) as (E1 & E2 & _). destruct Hok as [K1 K2 Hd Hs].
  split; rewrite ?E1, ?E2.
  - by apply put_peer_keyed.
  - destruct (isFirstTimeTrackingPeer p s); [by apply put_peer_keyed|done].
  - intros a. unfold isFirstTimeTrackingPeer. rewrite put_peer_lookup.
    case_bool_decide as Hp; simpl; [|rewrite put_peer_lookup]; case_decide as Ha; try done.
    subst a. split; [done|]. by rewrite is_Some_alt.
  - intros i. unfold updateStatus. cbn [fst]. set (t := if isFirstTimeTrackingPeer _ _ then _ else _).
    assert (schedule t = schedule s /\ stableSyncRegime t = stableSyncRegime s) as [T1 T2].
    { unfold t. by destruct (isFirstTimeTrackingPeer _ _). }
    destruct (_ && _); [simpl; by intros [= <-]|]. rewrite T1. intros H.
    rewrite (minInterval_stable cfg t s T2). auto.
Qed.

Lemma peersToSyncWith_tracked cfg now random s p : sync_ok cfg s -> p ∈ (peersToSyncWith cfg now random s).2 ->
  is_Some (statuses s !! remoteAddress p).
Proof.
  intros [K1 K2 Hd _]. unfold peersToSyncWith. cbn [snd]. case_bool_decide as Ho; cbn [negb].
  - intros [_ Hp]%list_elem_of_filter. rewrite !elem_of_app in Hp. unfold peersByStatus in Hp.
    assert (forall r, p ∈ keys (filter (fun q => q.2.2 = r) (statuses s)) -> is_Some (statuses s !! remoteAddress p)) as Hk.
    { intros r (x & -> & _)%elem_of_keys_filter; [by eexists|done]. }
    destruct Hp as [Hp|[Hp|Hp]]; eauto. destruct (_ !! _) as [q|] eqn:E; [|by apply not_elem_of_nil in Hp].
    simpl in Hp. apply list_elem_of_singleton in Hp as ->. apply list_elem_of_lookup_2 in E. eauto.
  - unfold outdatedPeers. intros (x & E & _)%elem_of_keys_filter; [|done]. apply Hd. by eexists.
Qed.

Lemma peersToSyncWith_ok cfg now random s : sync_ok cfg s -> sync_ok cfg (peersToSyncWith cfg now random s).1.
Proof.
  intros Hok. pose proof (fun p => peersToSyncWith_tracked cfg now random s p Hok) as Hp.
  destruct Hok as [K1 K2 Hd Hs]. unfold peersToSyncWith in *. cbn [fst snd] in *.
  set (ps := if negb _ then _ else _) in *.
  pose proof (fun a => updates_lookup now ps s a) as H. cbn zeta in H.
  pose proof (updates_keyed now ps s K2) as K. set (s' := foldl _ s ps) in *.
  destruct (H 0%N) as (_ & _ & E1 & E2 & E3). split.
  - by rewrite E1.
  - done.
  - intros a. rewrite E1. destruct (decide (a ∈ remoteAddress <$> ps)) as [Ha|Ha].
    + destruct (H a) as (Hin & _). specialize (Hin Ha).
      apply list_elem_of_fmap in Ha as (q & -> & Hq). split; intros _; [|by apply Hp].
      destruct (lastSyncSentTime s' !! _); [by eexists|done].
    + destruct (H a) as (_ & Hn & _). rewrite (Hn Ha). apply Hd.
  - intros i. rewrite E2. rewrite (minInterval_stable cfg s' s E3). auto.
Qed.

Lemma run_sync_ok cfg ops : sync_ok cfg (run_sync cfg ops).
Proof.
  unfold run_sync. induction ops as [|op ops IH] using rev_ind.
  - split; simpl; [intros ???; by rewrite lookup_empty..|intros a; by rewrite !lookup_empty|done].
  - rewrite foldl_app. simpl. destruct op as [|now p r|a|now random]; simpl.
    + destruct IH as [K1 K2 Hd Hs]. split; [done..|]. simpl. by intros i [= <-].
    + by apply updateStatus_ok.
    + destruct IH as [K1 K2 Hd Hs]. split; simpl.
      * by apply delete_keyed.
      * by apply delete_keyed.
      * intros b. destruct (decide (a = b)) as [->|]; [by rewrite !lookup_delete_eq|by rewrite !lookup_delete_ne].
      * done.
    + by apply peersToSyncWith_ok.
Qed.

(** In any reachable state a peer's news that it is not ahead ends the sync
    exactly when it was the only senior: the regime turns stable, the periodic
    task is rescheduled with the stable period, and NoBetterNeighbour is
    published; a peer's news that it is ahead publishes BetterNeighbourAppeared
    exactly when there was no senior.  The regime never turns back, and the
    running task always has the period of the regime. *)
Theorem sync_regime cfg ops now peer status :
  let s := run_sync cfg ops in
  let s' := (updateStatus cfg now peer status s).1 in
  let evs := (updateStatus cfg now peer status s).2 in
  (NoBetterNeighbour ∈ evs <->
     status <> Older /\ numOfSeniors s = 1%Z /\ is_senior (statuses s !! remoteAddress peer) = 1%Z) /\
  (NoBetterNeighbour ∈ evs -> stableSyncRegime s' = true /\ schedule s' = Some (syncIntervalStable cfg)) /\
  (BetterNeighbourAppeared ∈ evs <-> status = Older /\ numOfSeniors s = 0%Z) /\
  (stableSyncRegime s' = true <-> stableSyncRegime s = true \/ NoBetterNeighbour ∈ evs) /\
  (forall i, schedule s' = Some i -> i = if stableSyncRegime s' then syncIntervalStable cfg else syncInterval cfg).
Proof.
  intros s s' evs. pose proof (run_sync_ok cfg ops) as Hok. fold s in Hok.
  pose proof (updateStatus_ok cfg now peer status s Hok) as Hok'. fold s' in Hok'.
  pose proof (numOfSeniors_put s peer status) as En.
  assert (0 <= numOfSeniors s)%Z as Hpos by (unfold numOfSeniors; lia).
  assert (0 <= is_senior (statuses s !! remoteAddress peer) <= numOfSeniors s)%Z as Hbd.
  { pose proof (numOfSeniors_put s peer Equal) as E0. unfold numOfSeniors in *. simpl in E0.
    destruct (statuses s !! remoteAddress peer) as [[? []]|]; simpl in *; lia. }
  assert (is_senior (Some (peer, status)) = if decide (status = Older) then 1 else 0)%Z as Es by by destruct status.
  assert (is_senior (statuses s !! remoteAddress peer) <= 1)%Z as H1.
  { by destruct (statuses s !! remoteAddress peer) as [[? []]|]. }
  assert (forall s2, statuses s2 = statuses (set_statuses (put_peer peer status (statuses s)) s) ->
    numOfSeniors s2 = numOfSeniors (set_statuses (put_peer peer status (statuses s)) s)) as Hn.
  { unfold numOfSeniors. by intros s2 ->. }
  pose proof (so_schedule _ _ Hok') as Hsch. unfold minInterval in Hsch. subst evs.
  unfold s', updateStatus in *. cbn [fst snd] in *. set (t := if isFirstTimeTrackingPeer _ _ then _ else _) in *.
  assert (numOfSeniors t = numOfSeniors s - is_senior (statuses s !! remoteAddress peer) + (if decide (status = Older) then 1 else 0))%Z as Et.
  { rewrite <- Es, <- En. apply Hn. unfold t. by destruct (isFirstTimeTrackingPeer _ _). }
  assert (stableSyncRegime t = stableSyncRegime s) as Er by (unfold t; by destruct (isFirstTimeTrackingPeer _ _)).
  rewrite Et in *. clear Et En Es Hn.
  set (n := numOfSeniors s) in *. set (k := is_senior (statuses s !! remoteAddress peer)) in *.
  set (n' := (n - k + (if decide (status = Older) then 1 else 0))%Z) in *.
  assert ((0 <? n)%Z && (n' =? 0)%Z = true <-> status <> Older /\ n = 1%Z /\ k = 1%Z) as Hdone.
  { rewrite andb_true_iff, Z.ltb_lt, Z.eqb_eq. unfold n'. destruct (decide (status = Older)); intuition lia. }
  assert ((n =? 0)%Z && (0 <? n')%Z = true <-> status = Older /\ n = 0%Z) as Happ.
  { rewrite andb_true_iff, Z.ltb_lt, Z.eqb_eq. unfold n'. destruct (decide (status = Older)); intuition lia. }
  rewrite <- Hdone, <- Happ. clear Hdone Happ. clearbody n k n' t.
  destruct ((0 <? n)%Z && (n' =? 0)%Z), ((n =? 0)%Z && (0 <? n')%Z); cbn [set_stable scheduleSendSyncInfo set_schedule
    stableSyncRegime schedule minInterval] in *; rewrite <- ?Er in *; split_and!; try done; set_solver.
Qed.

(** When the peer of an address was last sent a sync *)
Definition last_sent (s : SyncState) (a : N) : option Z := snd <$> lastSyncSentTime s !! a.

Lemma peersByStatus_elem s r p : keyed (statuses s) -> p ∈ peersByStatus s r <-> statuses s !! remoteAddress p = Some (p, r).
Proof.
  intros K. unfold peersByStatus. rewrite elem_of_keys_filter by done. split.
  - by intros (x & H & [= ->]).
  - intros H. by exists r.
Qed.

Lemma outdated_elem cfg now s p : keyed (lastSyncSentTime s) -> p ∈ outdatedPeers cfg now s <->
  exists t, lastSyncSentTime s !! remoteAddress p = Some (p, t) /\ (maxInterval cfg s < now - t)%Z.
Proof. intros K. unfold outdatedPeers. by rewrite elem_of_keys_filter. Qed.

(** The peers a sync goes to, in any reachable state.  When the last sync
    of some peer is older than the maximal interval, they are all such peers;
    otherwise they are the peers of unknown or forked status and the random
    senior, those of them that had no sync within the minimal interval.  All
    are tracked, the time of their last sync becomes now, and no other one's
    changes. *)
Theorem sync_peers cfg ops now random :
  let s := run_sync cfg ops in
  let s' := (peersToSyncWith cfg now random s).1 in
  let ps := (peersToSyncWith cfg now random s).2 in
  let outdated a := exists t, last_sent s a = Some t /\ (maxInterval cfg s < now - t)%Z in
  let rested a := exists t, last_sent s a = Some t /\ (minInterval cfg s <= now - t)%Z in
  (forall p, p ∈ ps -> is_Some (statuses s !! remoteAddress p) /\
     (outdated (remoteAddress p) \/ (rested (remoteAddress p) /\ (forall a, ~ outdated a) /\
        exists r, statuses s !! remoteAddress p = Some (p, r) /\
          (r ∈ [Unknown; Fork] \/
           (r = Older /\ peersByStatus s Older !! random (length (peersByStatus s Older)) = Some p))))) /\
  (forall a, outdated a -> a ∈ remoteAddress <$> ps) /\
  ((forall a, ~ outdated a) -> forall p r, statuses s !! remoteAddress p = Some (p, r) ->
     r ∈ [Unknown; Fork] -> rested (remoteAddress p) -> p ∈ ps) /\
  (forall a, last_sent s' a = if decide (a ∈ remoteAddress <$> ps) then Some now else last_sent s a).
Proof.
  intros s s' ps outdated rested. pose proof (run_sync_ok cfg ops) as Hok. fold s in Hok.
  pose proof (fun p => peersToSyncWith_tracked cfg now random s p Hok) as Htr. fold ps in Htr.
  destruct Hok as [K1 K2 Hd _].
  assert (forall p t, lastSyncSentTime s !! remoteAddress p = Some (p, t) -> last_sent s (remoteAddress p) = Some t) as Hlast.
  { unfold last_sent. by intros p t ->. }
  assert (forall a, outdated a -> exists p, remoteAddress p = a /\ p ∈ outdatedPeers cfg now s) as Hout.
  { intros a (t & E & Ht). unfold last_sent in E. destruct (lastSyncSentTime s !! a) as [[p t']|] eqn:El; [|done].
    injection E as ->. pose proof (K2 _ _ _ El) as <-. exists p. split; [done|]. apply outdated_elem; [done|]. eauto. }
  assert (forall a, last_sent s' a = if decide (a ∈ remoteAddress <$> ps) then Some now else last_sent s a) as Hs'.
  { intros a. destruct (updates_lookup now ps s a) as (H1 & H2 & _). unfold last_sent, s', peersToSyncWith.
    cbn [fst]. change (foldl _ s _) with (foldl (fun s p => updateLastSyncSentTime now p s) s ps).
    case_decide as Ha; [by apply H1|by rewrite H2]. }
  unfold peersToSyncWith in ps. cbn [snd] in ps. destruct (bool_decide_reflect (outdatedPeers cfg now s = [])) as [E|E];
    cbn [negb] in ps.
  - assert (forall a, ~ outdated a) as Hno.
    { intros a (p & _ & Hp)%Hout. rewrite E in Hp. by apply not_elem_of_nil in Hp. }
    assert (forall p, is_Some (statuses s !! remoteAddress p) ->
      (minInterval cfg s <= now - default 0 (snd <$> lastSyncSentTime s !! remoteAddress p))%Z <-> rested (remoteAddress p)) as Hrest.
    { intros p Hp. apply Hd in Hp as [[q t] El]. unfold rested, last_sent. rewrite El. simpl. split; [eauto|].
      by intros (? & [= <-] & ?). }
    split_and!; [|by intros a ?%Hno| |done].
    + intros p Hp. split; [by apply Htr|right]. pose proof (Htr p Hp) as Hin. unfold ps in Hp.
      apply list_elem_of_filter in Hp as [Hr Hp]. apply Hrest in Hr; [|done]. split; [done|]. split; [done|].
      rewrite !elem_of_app in Hp. destruct Hp as [Hp|[Hp|Hp]].
      * destruct (_ !! _) as [q|] eqn:El; [|by apply not_elem_of_nil in Hp]. simpl in Hp. apply list_elem_of_singleton in Hp as ->.
        pose proof El as Ei. apply list_elem_of_lookup_2, peersByStatus_elem in El; [|done]. exists Older. auto.
      * apply peersByStatus_elem in Hp; [|done]. exists Unknown. split; [done|set_solver].
      * apply peersByStatus_elem in Hp; [|done]. exists Fork. split; [done|set_solver].
    + intros _ p r Hp Hr Hrs. unfold ps. apply list_elem_of_filter. split; [apply Hrest; [by eexists|done]|].
      rewrite !elem_of_app, !peersByStatus_elem by done. right. set_solver.
  - split_and!; [| | |done].
    + intros p Hp. split; [by apply Htr|left]. unfold ps in Hp. apply outdated_elem in Hp as (t & El & Ht); [|done]. exists t. eauto.
    + intros a (p & <- & Hp)%Hout. apply list_elem_of_fmap. eauto.
    + intros Hno. exfalso. destruct (outdatedPeers cfg now s) as [|p l] eqn:El; [done|].
      assert (p ∈ outdatedPeers cfg now s) as Hp by (rewrite El; set_solver).
      apply outdated_elem in Hp as (t & Et & Ht); [|done].
      apply (Hno (remoteAddress p)). exists t. eauto.
Qed.
