(* ===== verification/Synchronizer.v ===== *)
(** * Synchronizer: the actor between the network and the node view

    core/network/NodeViewSynchronizer.scala with Synchronizer.scala.  The
    modifiers, the readers of the history and the mempool and the modifier
    serializers are the application's, behind the traits of the framework: they
    are parameters of the section, with the methods the actor calls.  A handler
    is a computation over the actor's state, whose [sent] lists what the actor
    has sent, to whom, in order; one message is handled with one reading of the
    two clocks.  Only the log texts are left out. *)

From S2P Require Import Prelude Network Vlq Messages MessageSpecs DeliveryTracker SyncTracker.
Import SyncTracker.History.

Section Synchronizer.
Context (Modifier SyncInfo : Type).

(** NodeViewModifier and PersistentNodeViewModifier *)
Record ModifierMethods := {
  modId : Modifier -> ModifierId;
  modifierTypeId : Modifier -> ModifierTypeId;
  parentId : Modifier -> ModifierId
}.
Context (MM : ModifierMethods).

(** HistoryReader, with ContainsModifiers *)
Record HistoryReader := {
  modifierById : ModifierId -> option Modifier;
  applicableTry : Modifier -> Try unit;
  continuationIds : SyncInfo -> Z -> list (ModifierTypeId * ModifierId);
  compare : SyncInfo -> HistoryComparisonResult;
  syncInfo : SyncInfo
}.
Definition historyContains (h : HistoryReader) (id : ModifierId) : bool := bool_decide (is_Some (modifierById h id)).

(** MempoolReader *)
Record MempoolReader := {
  mempoolContains : ModifierId -> bool;
  getAll : list ModifierId -> list Modifier
}.

(** SparkzSerializer of modifiers *)
Record ModifierSerializer := {
  modToBytes : Modifier -> bytes;
  modParse : Reader Modifier
}.

(** Transaction.ModifierTypeId *)
Definition TransactionTypeId : ModifierTypeId := 2.

(** ModifierError.scala *)
Definition MalformedModifierError : exn := Raised "MalformedModifierError".

Record SynchronizerSettings := {
  trackerSettings : NetworkSettings;
  syncSettings : SyncSettings;
  ModifierIdSize : Z;
  maxInvObjects : Z;
  desiredInvObjects : Z;
  maxModifiersSpecMessageSize : Z;
  handlingTransactionsEnabled : bool;
  penaltyScoreThreshold : Z;
  modifierSerializers : gmap ModifierTypeId ModifierSerializer;
  parseSyncInfo : bytes -> Try SyncInfo                        (* syncInfoSpec *)
}.

(** The messages the actor builds *)
Inductive P2PMessage :=
| InvMessage (d : InvData)
| RequestMessage (d : InvData)
| ModifiersMessage (d : ModifiersData)
| SyncInfoMessage (si : SyncInfo).

(** SendingStrategy.scala *)
Inductive SendingStrategy :=
| SendToRandom | Broadcast | BroadcastTransaction | BroadcastBlock
| BroadcastExceptOf (exceptOf : list ConnectedPeer)
| SendToPeer (chosenPeer : ConnectedPeer)
| SendToPeers (chosenPeers : list ConnectedPeer)
| SendToRandomFromChosen (chosenPeers : list ConnectedPeer).

(** The specs [msgHandlers] tells apart; any other one is known by whether it
    parses the content. *)
Inductive Spec := InvSpec | RequestModifierSpec | ModifiersSpec | SyncInfoSpec | OtherSpec (parses : bytes -> bool).

Inductive SIn :=
| DataFromPeer (spec : Spec) (msgBytes : bytes) (source : ConnectedPeer)
| SendLocalSyncInfo (random : nat -> nat)
| OtherNodeSyncingStatus (remote : ConnectedPeer) (status : HistoryComparisonResult)
    (extension : list (ModifierTypeId * ModifierId))
| ResponseFromLocal (source : ConnectedPeer) (typeId : ModifierTypeId) (localObjects : list Modifier)
| SuccessfulTransaction (tx : Modifier)
| FailedTransaction (id : ModifierId) (immediateFailure : bool)
| SyntacticallySuccessfulModifier (m : Modifier)
| SyntacticallyFailedModification (m : Modifier)
| SemanticallySuccessfulModifier (m : Modifier)
| SemanticallyFailedModification (m : Modifier)
| ChangedHistory (reader : HistoryReader)
| ChangedMempool (reader : MempoolReader)
| ModifiersProcessingResult (applied cleared : list Modifier)
| HandshakedPeer (remote : ConnectedPeer)
| DisconnectedPeer (remote : N)
| TimerMessage (e : TimerEvent).

Inductive SOut :=
| RegisterMessageSpecs
| StartConnectingPeers
| GetNodeViewChanges
| SendToNetwork (m : P2PMessage) (strategy : SendingStrategy)
| ToPeer (peer : ConnectedPeer) (m : P2PMessage)               (* peer.handlerRef *)
| ToSelf (m : SIn)
| TransactionsFromRemote (txs : list Modifier)
| ModifiersFromRemote (mods : list Modifier)
| PenalizePeer (address : N) (penalty : PenaltyType)
| Publish (e : SyncEvent).

Record SyncActor := Actor {
  deliveryTracker : Tracker;
  statusTracker : SyncState;
  historyReaderOpt : option HistoryReader;
  mempoolReaderOpt : option MempoolReader;
  sent : list SOut
}.

Abbreviation NVS := (Eff SyncActor).

Definition send (o : SOut) : NVS unit :=
  modify (fun s => Actor (deliveryTracker s) (statusTracker s) (historyReaderOpt s) (mempoolReaderOpt s) (sent s ++ [o])).

(** A call of the delivery tracker, and one whose [Try] result is dropped *)
Definition on_tracker {A} (m : DT A) : NVS A := fun s =>
  let '(t, r) := m (deliveryTracker s) in
  (Actor t (statusTracker s) (historyReaderOpt s) (mempoolReaderOpt s) (sent s), r).
Definition tracked (m : DT unit) : NVS unit := on_tracker (ignoring m).

Definition set_statusTracker (st : SyncState) : NVS unit :=
  modify (fun s => Actor (deliveryTracker s) st (historyReaderOpt s) (mempoolReaderOpt s) (sent s)).

Fixpoint for_each {A} (f : A -> NVS unit) (l : list A) : NVS unit :=
  match l with [] => ret tt | x :: l' => f x ;! for_each f l' end.

Section Handlers.
Context (cfg : SynchronizerSettings).

(** preStart *)
Definition preStart : NVS unit :=
  send RegisterMessageSpecs ;! send StartConnectingPeers ;! send GetNodeViewChanges ;!
  let! st := gets statusTracker in
  set_statusTracker (scheduleSendSyncInfo (syncSettings cfg) st).

Definition penalize (penalty : PenaltyType) (peer : ConnectedPeer) : NVS unit :=
  send (PenalizePeer (remoteAddress peer) penalty).
Definition penalizeNonDeliveringPeer := penalize NonDeliveryPenalty.
Definition penalizeSpammingPeer := penalize SpamPenalty.
Definition penalizeMisbehavingPeer := penalize MisbehaviorPenalty.
Definition penalizeMaliciousPeer := penalize PermanentPenalty.
Definition penalizeAndDisconnectPeer := penalize (DisconnectPenalty (penaltyScoreThreshold cfg)).

(** broadcastModifierInv *)
Definition broadcastModifierInv (m : Modifier) : NVS unit :=
  let! t := gets deliveryTracker in
  if (modifierTypeId MM m =? TransactionTypeId)%Z && slowMode t then
    on_tracker (putInRebroadcastQueue (trackerSettings cfg) (modId MM m))
  else
    let msg := InvMessage (IData (modifierTypeId MM m) [modId MM m]) in
    if (modifierTypeId MM m =? TransactionTypeId)%Z then send (SendToNetwork msg BroadcastTransaction)
    else send (SendToNetwork msg BroadcastBlock).

(** updateStatus of the sync tracker, with the events it publishes *)
Definition updatePeerStatus (now : Z) (peer : ConnectedPeer) (status : HistoryComparisonResult) : NVS unit :=
  let! st := gets statusTracker in
  let '(st', evs) := updateStatus (syncSettings cfg) now peer status st in
  set_statusTracker st' ;! for_each (fun e => send (Publish e)) evs.

(** getLocalSyncInfo, sendSync *)
Definition sendSync (now : Z) (random : nat -> nat) (history : HistoryReader) : NVS unit :=
  let! st := gets statusTracker in
  let '(st', peers) := peersToSyncWith (syncSettings cfg) now random st in
  set_statusTracker st' ;!
  if bool_decide (peers = []) then ret tt
  else send (SendToNetwork (SyncInfoMessage (syncInfo history)) (SendToPeers peers)).

(** processSync *)
Definition processSync (si : SyncInfo) (remote : ConnectedPeer) : NVS unit :=
  let! h := gets historyReaderOpt in
  match h with
  | Some historyReader =>
      let ext := continuationIds historyReader si (desiredInvObjects cfg) in
      let comparison := compare historyReader si in
      send (ToSelf (OtherNodeSyncingStatus remote comparison ext))
  | None => ret tt
  end.

(** groupBy(_._1).mapValues(_.map(_._2)) *)
Definition group_by_type (ext : list (ModifierTypeId * ModifierId)) : list (ModifierTypeId * list ModifierId) :=
  (fun t => (t, snd <$> filter (fun p => p.1 = t) ext)) <$> remove_dups ext.*1.

(** sendExtension *)
Definition sendExtension (remote : ConnectedPeer) (ext : list (ModifierTypeId * ModifierId)) : NVS unit :=
  for_each (fun g => send (SendToNetwork (InvMessage (IData g.1 g.2)) (SendToPeer remote))) (group_by_type ext).

(** processSyncStatus *)
Definition processSyncStatus (now : Z) (remote : ConnectedPeer) (status : HistoryComparisonResult)
    (ext : list (ModifierTypeId * ModifierId)) : NVS unit :=
  updatePeerStatus now remote status ;!
  match status with
  | Younger | Fork => sendExtension remote ext
  | _ => ret tt
  end.

(** processInv *)
Definition processInv (invData : InvData) (peer : ConnectedPeer) : NVS unit :=
  let! s := gets id in
  match mempoolReaderOpt s, historyReaderOpt s with
  | Some mempool, Some history =>
      let t := deliveryTracker s in
      let candidates :=
        if (inv_typeId invData =? TransactionTypeId)%Z then
          if canRequestMoreTransactions (trackerSettings cfg) t && handlingTransactionsEnabled cfg
          then filter (fun mid => status mid [mempoolContains mempool] t = DeliveryTracker.Unknown) (inv_ids invData)
          else []
        else filter (fun mid => status mid [historyContains history] t = DeliveryTracker.Unknown) (inv_ids invData) in
      let newModifierIds := take (Z.to_nat (getPeerLimit (trackerSettings cfg) peer t)) candidates in
      if bool_decide (newModifierIds = []) then ret tt
      else
        send (ToPeer peer (RequestMessage (IData (inv_typeId invData) newModifierIds))) ;!
        on_tracker (setRequestedAll newModifierIds (inv_typeId invData) peer)
  | _, _ => ret tt
  end.

(** modifiersReq *)
Definition modifiersReq (invData : InvData) (remote : ConnectedPeer) : NVS unit :=
  let! s := gets id in
  match historyReaderOpt s, mempoolReaderOpt s with
  | Some history, Some mempool =>
      let objs :=
        if (inv_typeId invData =? TransactionTypeId)%Z then
          if handlingTransactionsEnabled cfg then getAll mempool (inv_ids invData) else []
        else omap (modifierById history) (inv_ids invData) in
      send (ToSelf (ResponseFromLocal remote (inv_typeId invData) objs))
  | _, _ => ret tt
  end.

(** processSpam *)
Definition processSpam (remote : ConnectedPeer) (modifiers : list (ModifierId * bytes)) : NVS (list (ModifierId * bytes)) :=
  let! t := gets deliveryTracker in
  let requested := filter (fun p => status p.1 [] t = Requested) modifiers in
  let spam := filter (fun p => status p.1 [] t <> Requested) modifiers in
  (if bool_decide (spam = []) then ret tt else penalizeSpammingPeer remote) ;! ret requested.

(** parseModifiers *)
Fixpoint parseModifiers (modifiers : list (ModifierId * bytes)) (serializer : ModifierSerializer)
    (remote : ConnectedPeer) : NVS (list Modifier) :=
  match modifiers with
  | [] => ret []
  | (mid, bs) :: rest =>
      let! parsed :=
        match modParse serializer bs with
        | (remaining, Success m) =>
            if bool_decide (mid = modId MM m) then
              (if bool_decide (remaining = []) then ret tt else penalizeMisbehavingPeer remote) ;! ret [m]
            else penalizeMisbehavingPeer remote ;! ret []
        | (_, Failure _) => penalizeMisbehavingPeer remote ;! ret []
        end in
      let! others := parseModifiers rest serializer remote in
      ret (parsed ++ others)
  end.

(** validateAndSetStatus *)
Definition validateAndSetStatus (now : Z) (remote : ConnectedPeer) (pmod : Modifier) : NVS bool :=
  let! s := gets id in
  if bool_decide (status (parentId MM pmod) [] (deliveryTracker s) = Invalid) then
    on_tracker (setInvalid (trackerSettings cfg) now (modId MM pmod)) ;!
    penalizeAndDisconnectPeer remote ;! ret false
  else
    let malformed := match historyReaderOpt s with
                     | Some hr => bool_decide (applicableTry hr pmod = Failure MalformedModifierError)
                     | None => false
                     end in
    if malformed then
      on_tracker (setInvalid (trackerSettings cfg) now (modId MM pmod)) ;!
      penalizeMisbehavingPeer remote ;! ret false
    else tracked (setReceived now (modId MM pmod) remote) ;! ret true.

(** filter(validateAndSetStatus(remote, _)) *)
Fixpoint filterValid (now : Z) (remote : ConnectedPeer) (mods : list Modifier) : NVS (list Modifier) :=
  match mods with
  | [] => ret []
  | m :: mods' =>
      let! ok := validateAndSetStatus now remote m in
      let! others := filterValid now remote mods' in
      ret (if ok : bool then m :: others else others)
  end.

(** modifiersFromRemote *)
Definition modifiersFromRemote (now : Z) (data : ModifiersData) (remote : ConnectedPeer) : NVS unit :=
  let! requestedModifiers := processSpam remote (md_modifiers data) in
  match modifierSerializers cfg !! md_typeId data with
  | Some serializer =>
      let! parsed := parseModifiers requestedModifiers serializer remote in
      if (md_typeId data =? TransactionTypeId)%Z then
        for_each (fun tx => tracked (setReceived now (modId MM tx) remote)) parsed ;!
        send (TransactionsFromRemote parsed)
      else
        let! valid := filterValid now remote parsed in
        if bool_decide (valid = []) then ret tt else send (ModifiersFromRemote valid)
  | None => ret tt
  end.

(** parseAndHandle, with msgHandlers *)
Definition parseAndHandle (now : Z) (spec : Spec) (msgBytes : bytes) (source : ConnectedPeer) : NVS unit :=
  match spec with
  | SyncInfoSpec =>
      match parseSyncInfo cfg msgBytes with
      | Success si => processSync si source
      | Failure _ => penalizeMaliciousPeer source
      end
  | InvSpec =>
      match run_reader (InvSpec_parse (ModifierIdSize cfg) (maxInvObjects cfg)) msgBytes with
      | Success d => processInv d source
      | Failure _ => penalizeMaliciousPeer source
      end
  | RequestModifierSpec =>
      match run_reader (RequestModifierSpec_parse (ModifierIdSize cfg) (maxInvObjects cfg)) msgBytes with
      | Success d => modifiersReq d source
      | Failure _ => penalizeMaliciousPeer source
      end
  | ModifiersSpec =>
      match run_reader (ModifiersSpec_parse (ModifierIdSize cfg) (maxModifiersSpecMessageSize cfg)) msgBytes with
      | Success d => modifiersFromRemote now d source
      | Failure _ => penalizeMaliciousPeer source
      end
  | OtherSpec parses => if parses msgBytes then ret tt else penalizeMaliciousPeer source
  end.

(** checkDelivery *)
Definition checkDelivery (now : Z) (peer : ConnectedPeer) (typeId : ModifierTypeId) (mid : ModifierId) : NVS unit :=
  let! t := gets deliveryTracker in
  if bool_decide (status mid [] t = Requested) then
    if (typeId =? TransactionTypeId)%Z then
      on_tracker (clearStatusForModifier (trackerSettings cfg) now mid Requested)
    else
      penalizeNonDeliveringPeer peer ;!
      tracked (onStillWaiting (trackerSettings cfg) now peer typeId mid)
  else ret tt.

(** takeWhile of sendByParts; [size] is an Int. *)
Fixpoint takeBatch (size : Z) (mods : list (ModifierId * bytes)) : list (ModifierId * bytes) :=
  match mods with
  | [] => []
  | (mid, modBytes) :: mods' =>
      let size' := toInt (size + ModifierIdSize cfg + 4 + zlen modBytes) in
      if (size' <? maxModifiersSpecMessageSize cfg)%Z then (mid, modBytes) :: takeBatch size' mods' else []
  end.

(** sendByParts, which recurses on what is left *)
Fixpoint sendByParts (fuel : nat) (peer : ConnectedPeer) (modType : ModifierTypeId)
    (mods : list (ModifierId * bytes)) : NVS unit :=
  match fuel with
  | O => throw NoFuel
  | S fuel' =>
      let batch := takeBatch (HeaderLength + ChecksumLength) mods in
      send (ToPeer peer (ModifiersMessage (MData modType batch))) ;!
      let remaining := drop (length batch) mods in
      if bool_decide (remaining = []) then ret tt else sendByParts fuel' peer modType remaining
  end.

(** responseFromLocal *)
Definition responseFromLocal (peer : ConnectedPeer) (modifiers : list Modifier) : NVS unit :=
  match modifiers with
  | [] => ret tt
  | head :: _ =>
      let modType := modifierTypeId MM head in
      match modifierSerializers cfg !! modType with
      | Some serializer =>
          sendByParts (length modifiers) peer modType ((fun m => (modId MM m, modToBytes serializer m)) <$> modifiers)
      | None => ret tt
      end
  end.

(** transactionRebroadcast *)
Definition transactionRebroadcast : NVS unit :=
  let! mods := on_tracker (getRebroadcastModifiers (trackerSettings cfg)) in
  let! mempool := gets mempoolReaderOpt in
  (match mempool with
   | Some mempool => for_each broadcastModifierInv (getAll mempool mods)
   | None => ret tt
   end) ;!
  on_tracker (scheduleRebroadcastIfNeeded (trackerSettings cfg)).

(** The sender of a modifier that was refused is penalized *)
Definition refuse (now : Z) (mid : ModifierId) (penalized : bool) (how : ConnectedPeer -> NVS unit) : NVS unit :=
  let! senderOpt := on_tracker (setInvalid (trackerSettings cfg) now mid) in
  if penalized then for_each how (option_list senderOpt) else ret tt.

(** receive: [now] of the delivery tracker's clock, [time] of the sync tracker's *)
Definition receive (now time : Z) (ev : SIn) : NVS unit :=
  match ev with
  | DataFromPeer spec msgBytes source => parseAndHandle now spec msgBytes source
  | SendLocalSyncInfo random =>
      let! h := gets historyReaderOpt in for_each (sendSync time random) (option_list h)
  | OtherNodeSyncingStatus remote status ext => processSyncStatus time remote status ext
  | ResponseFromLocal peer _ modifiers => responseFromLocal peer modifiers
  | SuccessfulTransaction tx =>
      if handlingTransactionsEnabled cfg then
        tracked (setHeld (trackerSettings cfg) now (modId MM tx)) ;! broadcastModifierInv tx
      else ret tt
  | FailedTransaction mid immediateFailure =>
      if handlingTransactionsEnabled cfg then refuse now mid immediateFailure penalizeMisbehavingPeer else ret tt
  | SyntacticallySuccessfulModifier m => tracked (setHeld (trackerSettings cfg) now (modId MM m))
  | SyntacticallyFailedModification m => refuse now (modId MM m) true penalizeAndDisconnectPeer
  | SemanticallySuccessfulModifier m => broadcastModifierInv m
  | SemanticallyFailedModification m => refuse now (modId MM m) true penalizeAndDisconnectPeer
  | ChangedHistory reader =>
      modify (fun s => Actor (deliveryTracker s) (statusTracker s) (Some reader) (mempoolReaderOpt s) (sent s))
  | ChangedMempool reader =>
      modify (fun s => Actor (deliveryTracker s) (statusTracker s) (historyReaderOpt s) (Some reader) (sent s))
  | ModifiersProcessingResult _ cleared =>
      for_each (fun m => tracked (setUnknown (trackerSettings cfg) now (modId MM m))) cleared
  | HandshakedPeer remote => updatePeerStatus time remote Unknown
  | DisconnectedPeer remote =>
      let! st := gets statusTracker in set_statusTracker (clearStatus remote st)
  | TimerMessage (CheckDelivery peer typeId mid) => checkDelivery now peer typeId mid
  | TimerMessage TransactionRebroadcast => transactionRebroadcast
  end.

(** The actor from its start: a message of the mailbox, or a scheduled message,
    which leaves the scheduler *)
Inductive Step := Mail (now time : Z) (ev : SIn) | Alarm (now time : Z) (i : N).

Definition empty_actor : SyncActor := Actor empty_tracker empty_sync None None [].

Definition step (s : SyncActor) (st : Step) : SyncActor :=
  match st with
  | Mail now time ev => fst (receive now time ev s)
  | Alarm now time i =>
      let '(t, e) := fire i (deliveryTracker s) in
      let s1 := Actor t (statusTracker s) (historyReaderOpt s) (mempoolReaderOpt s) (sent s) in
      match e with Some e => fst (receive now time (TimerMessage e) s1) | None => s1 end
  end.

Definition run_actor (steps : list Step) : SyncActor := foldl step (fst (preStart empty_actor)) steps.
End Handlers.
End Synchronizer.
