(* ===== verification/SynchronizerThms.v ===== *)
(** * SynchronizerThms: what the synchronizer asks for, lets in and sends out *)

From S2P Require Import Prelude Network Vlq Messages MessageSpecs MessageSpecsThms DeliveryTracker DeliveryTrackerSpec DeliveryTrackerThms SyncTracker Synchronizer.
Import SyncTracker.History.

Section Thms.
Context {Modifier SyncInfo : Type} (MM : ModifierMethods Modifier) (cfg : SynchronizerSettings Modifier SyncInfo).
Abbreviation Actor_ := (SyncActor Modifier SyncInfo).
Abbreviation NVS := (Eff Actor_).
Abbreviation Out := (SOut Modifier SyncInfo).
Abbreviation tcfg := (trackerSettings _ _ cfg).
Abbreviation tracker := (deliveryTracker Modifier SyncInfo).
Abbreviation outbox := (sent Modifier SyncInfo).
Abbreviation id_of := (modId Modifier MM).

(** ** The tracker changes only by its operations *)

Definition drives {A} (m : NVS A) : Prop :=
  forall s, exists ops, tracker (fst (m s)) = run_ops tcfg ops (tracker s).

Lemma drives_keep {A} (m : NVS A) : (forall s, tracker (fst (m s)) = tracker s) -> drives m.
Proof. intros H s. exists []. apply H. Qed.

Lemma drives_bind {A B} (m : NVS A) (f : A -> NVS B) : drives m -> (forall a, drives (f a)) -> drives (bind m f).
Proof.
  intros Hm Hf s. unfold bind. destruct (Hm s) as [ops1 E1]. destruct (m s) as [s1 [a|e]]; cbn [fst] in *; [|eauto].
  destruct (Hf a s1) as [ops2 E2]. exists (ops1 ++ ops2). rewrite E2, E1. unfold run_ops. by rewrite foldl_app.
Qed.

Lemma drives_op {A} op (m : DT A) : (forall t, fst (m t) = run_op tcfg op t) -> drives (on_tracker Modifier SyncInfo m).
Proof.
  intros H s. exists [op]. unfold on_tracker. specialize (H (tracker s)).
  destruct (m (tracker s)) as [t r]. exact H.
Qed.

Lemma drives_ret {A} (a : A) : drives (ret a).
Proof. by apply drives_keep. Qed.
Lemma drives_gets {A} (f : Actor_ -> A) : drives (gets f).
Proof. by apply drives_keep. Qed.
Lemma drives_send o : drives (send Modifier SyncInfo o).
Proof. by apply drives_keep. Qed.
Lemma drives_status st : drives (set_statusTracker Modifier SyncInfo st).
Proof. by apply drives_keep. Qed.
Lemma drives_throw {A} e : drives (throw e : NVS A).
Proof. by apply drives_keep. Qed.
Lemma drives_penalize p peer : drives (penalize Modifier SyncInfo p peer).
Proof. apply drives_send. Qed.

Lemma drives_for_each {A} (f : A -> NVS unit) l : (forall a, drives (f a)) -> drives (for_each Modifier SyncInfo f l).
Proof. intros H. induction l; cbn; [apply drives_ret|by apply drives_bind]. Qed.

Lemma drives_invalid now i : drives (on_tracker Modifier SyncInfo (setInvalid tcfg now i)).
Proof. by apply (drives_op (OSetInvalid now i)). Qed.
Lemma drives_held now i : drives (tracked Modifier SyncInfo (setHeld tcfg now i)).
Proof. by apply (drives_op (OSetHeld now i)). Qed.
Lemma drives_unknown now i : drives (tracked Modifier SyncInfo (setUnknown tcfg now i)).
Proof. by apply (drives_op (OSetUnknown now i)). Qed.
Lemma drives_received now i p : drives (tracked Modifier SyncInfo (setReceived now i p)).
Proof. by apply (drives_op (OSetReceived now i p)). Qed.
Lemma drives_waiting now p ty i : drives (tracked Modifier SyncInfo (onStillWaiting tcfg now p ty i)).
Proof. by apply (drives_op (OStillWaiting now p ty i)). Qed.
Lemma drives_requested ids ty p : drives (on_tracker Modifier SyncInfo (setRequestedAll ids ty p)).
Proof. by apply (drives_op (OSetRequested ids ty p)). Qed.
Lemma drives_put i : drives (on_tracker Modifier SyncInfo (putInRebroadcastQueue tcfg i)).
Proof. by apply (drives_op (OPutRebroadcast i)). Qed.
Lemma drives_get : drives (on_tracker Modifier SyncInfo (getRebroadcastModifiers tcfg)).
Proof. by apply (drives_op OGetRebroadcast). Qed.
Lemma drives_schedule : drives (on_tracker Modifier SyncInfo (scheduleRebroadcastIfNeeded tcfg)).
Proof. by apply (drives_op OScheduleRebroadcast). Qed.
#[local] Hint Resolve drives_ret drives_gets drives_send drives_status drives_throw drives_penalize drives_invalid drives_held
  drives_unknown drives_received drives_waiting drives_requested drives_put drives_get drives_schedule : drives.

Ltac drive := repeat first
  [ solve [eauto with drives nocore]
  | apply drives_bind; [|intros]
  | apply drives_for_each; intros
  | match goal with |- drives (if ?b then _ else _) => destruct b end
  | match goal with |- drives (match ?x with _ => _ end) => destruct x end
  | match goal with |- context [let '(_, _) := ?x in _] => destruct x end ].

Lemma drives_checkDelivery now peer ty mid : drives (checkDelivery _ _ cfg now peer ty mid).
Proof.
  intros s. unfold checkDelivery, bind at 1, gets. destruct (bool_decide _) eqn:Es; [|exists []; done].
  destruct (ty =? TransactionTypeId)%Z.
  - exists [OForget now mid]. unfold on_tracker, run_ops. cbn [foldl run_op]. rewrite Es.
    by destruct (clearStatusForModifier _ _ _ _ _).
  - assert (drives (penalizeNonDeliveringPeer Modifier SyncInfo peer ;!
      tracked _ _ (onStillWaiting tcfg now peer ty mid))) as H; [|apply H].
    unfold penalizeNonDeliveringPeer. drive.
Qed.

Lemma drives_parse mods ser remote : drives (parseModifiers _ _ MM mods ser remote).
Proof.
  induction mods as [|[mid bs] mods IH]; cbn; [drive|]. unfold penalizeMisbehavingPeer. drive.
Qed.

Lemma drives_validate now remote m : drives (validateAndSetStatus _ _ MM cfg now remote m).
Proof. unfold validateAndSetStatus, penalizeMisbehavingPeer, penalizeAndDisconnectPeer. drive. Qed.

Lemma drives_filterValid now remote mods : drives (filterValid _ _ MM cfg now remote mods).
Proof.
  induction mods as [|m mods IH]; cbn; [drive|]. apply drives_bind; [apply drives_validate|intros]. drive.
Qed.

Lemma drives_parts fuel peer ty mods : drives (sendByParts _ _ cfg fuel peer ty mods).
Proof. revert mods. induction fuel as [|fuel IH]; intros mods; cbn [sendByParts]; drive. Qed.

Lemma drives_broadcast m : drives (broadcastModifierInv _ _ MM cfg m).
Proof. unfold broadcastModifierInv. drive. Qed.
#[local] Hint Resolve drives_checkDelivery drives_parse drives_filterValid drives_parts drives_broadcast : drives.

Lemma drives_receive now time ev : drives (receive _ _ MM cfg now time ev).
Proof.
  destruct ev as [[] bs src|random|remote st ext|src ty objs|tx|mid im|m|m|m|m|r|r|ap cl|p|a|[]]; cbn [receive];
    unfold parseAndHandle, processInv, modifiersReq, modifiersFromRemote, processSpam, processSync, sendSync, processSyncStatus,
      sendExtension, updatePeerStatus, responseFromLocal, refuse, transactionRebroadcast, penalizeMaliciousPeer,
      penalizeSpammingPeer, penalizeMisbehavingPeer, penalizeAndDisconnectPeer; try (drive; fail);
    try (by apply drives_keep).
Qed.

Abbreviation run_actor := (run_actor Modifier SyncInfo MM cfg).

Lemma step_drives s st : exists ops, tracker (step _ _ MM cfg s st) = run_ops tcfg ops (tracker s).
Proof.
  destruct st as [now time ev|now time i]; cbn [step]; [apply drives_receive|].
  destruct (fire i (tracker s)) as [t e] eqn:Ef. assert (t = run_op tcfg (OFire i) (tracker s)) as -> by (unfold run_op; by rewrite Ef).
  destruct e as [e|]; [|by exists [OFire i]].
  set (s1 := Actor _ _ _ _ _ _ _). destruct (drives_receive now time (TimerMessage _ _ e) s1) as [ops E].
  exists (OFire i :: ops). by rewrite E.
Qed.

Lemma actor_tracker steps : exists ops, tracker (run_actor steps) = run tcfg ops.
Proof.
  unfold Synchronizer.run_actor. induction steps as [|st steps IH] using rev_ind.
  - by exists [].
  - rewrite foldl_app. cbn [foldl]. destruct IH as [ops1 E1]. destruct (step_drives (foldl (step _ _ MM cfg) (preStart _ _ cfg (empty_actor _ _)).1 steps) st) as [ops2 E2].
    exists (ops1 ++ ops2). rewrite E2, E1. unfold run, run_ops. by rewrite foldl_app.
Qed.

Lemma actor_wf steps : wf (tracker (run_actor steps)).
Proof. destruct (actor_tracker steps) as [ops ->]. apply run_wf_abs. Qed.

(** ** How the pieces of a handler run *)

Definition with_tracker (t : Tracker) (s : Actor_) : Actor_ :=
  Actor _ _ t (statusTracker _ _ s) (historyReaderOpt _ _ s) (mempoolReaderOpt _ _ s) (outbox s).
Definition emit (outs : list Out) (s : Actor_) : Actor_ :=
  Actor _ _ (tracker s) (statusTracker _ _ s) (historyReaderOpt _ _ s) (mempoolReaderOpt _ _ s) (outbox s ++ outs).

Lemma emit_nil s : emit [] s = s.
Proof. unfold emit. rewrite app_nil_r. by destruct s. Qed.
Lemma emit_emit o1 o2 s : emit o2 (emit o1 s) = emit (o1 ++ o2) s.
Proof. unfold emit. cbn. by rewrite app_assoc. Qed.
Lemma emit_with t o s : emit o (with_tracker t s) = with_tracker t (emit o s).
Proof. done. Qed.
Lemma with_with t u s : with_tracker t (with_tracker u s) = with_tracker t s.
Proof. done. Qed.
Lemma with_same s : with_tracker (tracker s) s = s.
Proof. by destruct s. Qed.

Lemma send_run o s : send _ _ o s = (emit [o] s, Success tt).
Proof. done. Qed.
Lemma on_tracker_run {A} (m : DT A) s :
  on_tracker Modifier SyncInfo m s = (with_tracker (fst (m (tracker s))) s, snd (m (tracker s))).
Proof. unfold on_tracker. by destruct (m (tracker s)). Qed.
Lemma tracked_run (m : DT unit) s :
  tracked Modifier SyncInfo m s = (with_tracker (fst (m (tracker s))) s, Success tt).
Proof. unfold tracked. by rewrite on_tracker_run. Qed.
Lemma gets_run {A} (f : Actor_ -> A) s : gets f s = (s, Success (f s)).
Proof. done. Qed.

(** ** What is made of the modifiers a peer sends *)

(** The modifier an entry carries, when it is what it declares to be *)
Definition carried (ser : ModifierSerializer Modifier) (e : ModifierId * bytes) : option Modifier :=
  match modParse _ ser e.2 with
  | (_, Success m) => if bool_decide (e.1 = id_of m) then Some m else None
  | _ => None
  end.

(** An entry that carries nothing or carries more bytes than its modifier is a fault. *)
Definition faulty (ser : ModifierSerializer Modifier) (e : ModifierId * bytes) : bool :=
  match modParse _ ser e.2 with
  | (rest, Success m) => negb (bool_decide (e.1 = id_of m) && bool_decide (rest = []))
  | _ => true
  end.

Definition faults ser remote (es : list (ModifierId * bytes)) : list Out :=
  flat_map (fun e => if faulty ser e then [PenalizePeer _ _ (remoteAddress remote) MisbehaviorPenalty] else []) es.

Lemma parseModifiers_run es ser remote s :
  parseModifiers _ _ MM es ser remote s = (emit (faults ser remote es) s, Success (omap (carried ser) es)).
Proof.
  revert s. induction es as [|[mid bs] es IH]; intros s; [cbn; by rewrite emit_nil|].
  cbn [parseModifiers]. unfold faults. cbn [flat_map omap list_omap]. fold (faults ser remote es).
  unfold faulty, carried at 1. cbn [fst snd].
  destruct (modParse _ ser bs) as [rest [m|e]].
  - case_bool_decide; cbn [andb negb]; [case_bool_decide; cbn [negb]|];
      unfold bind, penalizeMisbehavingPeer, penalize; rewrite ?send_run; cbn [ret]; rewrite IH; rewrite ?emit_emit; done.
  - unfold bind, penalizeMisbehavingPeer, penalize. rewrite send_run. cbn. rewrite IH, emit_emit. done.
Qed.

(** The verdict on a persistent modifier, by the statuses so far *)
Definition verdict (hr : option (HistoryReader Modifier SyncInfo)) (st : ModifierId -> AStatus) (m : Modifier) : option PenaltyType :=
  if bool_decide (st (parentId _ MM m) = AInvalid) then Some (DisconnectPenalty (penaltyScoreThreshold _ _ cfg))
  else match hr with
       | Some h => if bool_decide (applicableTry _ _ h m = Failure MalformedModifierError) then Some MisbehaviorPenalty else None
       | None => None
       end.

(** Judging them in order: the accepted, the penalties, the statuses after *)
Fixpoint judge hr (st : ModifierId -> AStatus) (ms : list Modifier) : list Modifier * list PenaltyType * (ModifierId -> AStatus) :=
  match ms with
  | [] => ([], [], st)
  | m :: ms' =>
      let v := verdict hr st m in
      let st1 := upd st (id_of m) (match v with Some _ => AInvalid | None => a_receive (st (id_of m)) end) in
      let '(good, pens, st2) := judge hr st1 ms' in
      match v with Some p => (good, p :: pens, st2) | None => (m :: good, pens, st2) end
  end.

Lemma judge_ext hr ms st1 st2 : (forall i, st1 i = st2 i) ->
  (judge hr st1 ms).1 = (judge hr st2 ms).1 /\ forall i, (judge hr st1 ms).2 i = (judge hr st2 ms).2 i.
Proof.
  revert st1 st2. induction ms as [|m ms IH]; intros st1 st2 H; [by split|]. cbn [judge].
  assert (verdict hr st1 m = verdict hr st2 m) as -> by (unfold verdict; by rewrite H).
  set (v := verdict hr st2 m).
  destruct (IH (upd st1 (id_of m) (match v with Some _ => AInvalid | None => a_receive (st1 (id_of m)) end))
               (upd st2 (id_of m) (match v with Some _ => AInvalid | None => a_receive (st2 (id_of m)) end))) as [E1 E2].
  { intros i. unfold upd. rewrite !H. by destruct (decide _). }
  destruct (judge hr (upd st1 _ _) ms) as [[g1 p1] s1], (judge hr (upd st2 _ _) ms) as [[g2 p2] s2].
  cbn in E1, E2. injection E1 as -> ->. by destruct v.
Qed.

Lemma validate_run now remote m s : wf (tracker s) ->
  let v := verdict (historyReaderOpt _ _ s) (abs (tracker s)) m in
  exists t, validateAndSetStatus _ _ MM cfg now remote m s =
      (with_tracker t (emit (match v with Some p => [PenalizePeer _ _ (remoteAddress remote) p] | None => [] end) s),
       Success (bool_decide (v = None))) /\
    wf t /\ forall i, abs t i = upd (abs (tracker s)) (id_of m)
      (match v with Some _ => AInvalid | None => a_receive (abs (tracker s) (id_of m)) end) i.
Proof.
  intros W v. unfold validateAndSetStatus. rewrite (bind_run _ _ s s s) by done. rewrite status_abs. unfold v, verdict.
  assert (to_status [] (parentId _ MM m) (abs (tracker s) (parentId _ MM m)) = Invalid <->
    abs (tracker s) (parentId _ MM m) = AInvalid) as Hinv by (by destruct (abs _ _)).
  rewrite (bool_decide_ext _ _ Hinv).
  pose proof (invalid_simulates tcfg now (id_of m) _ W) as [Wi Hi].
  pose proof (receive_simulates now (id_of m) remote _ W) as [Wr Hr].
  assert (forall p how, (forall s', how s' = (emit [PenalizePeer _ _ (remoteAddress remote) p] s', Success tt)) ->
    (on_tracker _ _ (setInvalid tcfg now (id_of m)) ;! how ;! ret false) s =
      (with_tracker (fst (setInvalid tcfg now (id_of m) (tracker s)))
         (emit [PenalizePeer _ _ (remoteAddress remote) p] s), Success false)) as Hbad.
  { intros p how Hhow. unfold bind. rewrite on_tracker_run, setInvalid_result, Hhow. done. }
  case_bool_decide as Hp; [|destruct (historyReaderOpt _ _ s) as [h|]; [case_bool_decide as Ha|]].
  - eexists. split; [by apply Hbad|]. by split.
  - eexists. split; [by apply Hbad|]. by split.
  - eexists. unfold bind. rewrite tracked_run, emit_nil. split; [done|]. by split.
  - eexists. unfold bind. rewrite tracked_run, emit_nil. split; [done|]. by split.
Qed.

Lemma filterValid_run now remote ms s : wf (tracker s) ->
  let '(good, pens, st) := judge (historyReaderOpt _ _ s) (abs (tracker s)) ms in
  exists t, filterValid _ _ MM cfg now remote ms s =
      (with_tracker t (emit (PenalizePeer _ _ (remoteAddress remote) <$> pens) s), Success good) /\
    wf t /\ forall i, abs t i = st i.
Proof.
  revert s. induction ms as [|m ms IH]; intros s W; cbn [judge filterValid].
  - exists (tracker s). cbn. by rewrite emit_nil, with_same.
  - destruct (validate_run now remote m s W) as (t & E & Wt & Ht). set (v := verdict _ _ m) in *.
    specialize (IH (with_tracker t (emit (match v with Some p => [PenalizePeer _ _ (remoteAddress remote) p] | None => [] end) s)) Wt).
    cbn [historyReaderOpt deliveryTracker with_tracker emit] in IH.
    destruct (judge_ext (historyReaderOpt _ _ s) ms _ _ Ht) as [E1 E2].
    destruct (judge _ (abs t) ms) as [[g1 p1] s1], (judge _ (upd _ _ _) ms) as [[g2 p2] s2]. cbn in E1, E2. injection E1 as -> ->.
    destruct IH as (t' & E' & Wt' & Ht'). 
    destruct v as [p|]; exists t'; unfold bind; rewrite E, E'; (split; [|split; [done|intros i; by rewrite Ht', E2]]);
      rewrite emit_with, with_with, emit_emit; done.
Qed.
End Thms.
