(* ===== verification/SynchronizerProps.v ===== *)
(** * SynchronizerProps: the handlers of the synchronizer, run in full *)

From S2P Require Import Prelude Base16 Network Vlq Messages MessageSpecs MessageSpecsThms DeliveryTracker DeliveryTrackerSpec DeliveryTrackerThms SyncTracker Synchronizer SynchronizerThms.
Import SyncTracker.History.

Section Props.
Context {Modifier SyncInfo : Type} (MM : ModifierMethods Modifier) (cfg : SynchronizerSettings Modifier SyncInfo).
Abbreviation Actor_ := (SyncActor Modifier SyncInfo).
Abbreviation NVS := (Eff Actor_).
Abbreviation Out := (SOut Modifier SyncInfo).
Abbreviation tcfg := (trackerSettings _ _ cfg).
Abbreviation tracker := (deliveryTracker Modifier SyncInfo).
Abbreviation id_of := (modId Modifier MM).
Abbreviation run_actor := (run_actor Modifier SyncInfo MM cfg).

(** ** Modifiers from a peer *)

(** The entries a peer was to send, and the penalty for the others *)
Definition asked (t : Tracker) (es : list (ModifierId * bytes)) : list (ModifierId * bytes) :=
  filter (fun e => status e.1 [] t = Requested) es.

Definition spam_penalty (t : Tracker) (remote : ConnectedPeer) (es : list (ModifierId * bytes)) : list Out :=
  if bool_decide (filter (fun e => status e.1 [] t <> Requested) es = []) then []
  else [PenalizePeer _ _ (remoteAddress remote) SpamPenalty].

Lemma processSpam_run remote es s : processSpam Modifier SyncInfo remote es s =
  (emit (spam_penalty (tracker s) remote es) s, Success (asked (tracker s) es)).
Proof.
  unfold processSpam, spam_penalty, asked, penalizeSpammingPeer, penalize. rewrite (bind_run _ _ s s (tracker s)) by done.
  destruct (bool_decide _); [|done]. unfold bind, ret. by rewrite emit_nil.
Qed.

Lemma receive_all_run now remote ms s : wf (tracker s) -> exists t,
  for_each _ _ (fun m => tracked _ _ (setReceived now (id_of m) remote)) ms s = (with_tracker t s, Success tt) /\ wf t /\
  forall i, abs t i = if bool_decide (i ∈ id_of <$> ms) then a_receive (abs (tracker s) i) else abs (tracker s) i.
Proof.
  revert s. induction ms as [|m ms IH]; intros s W.
  { exists (tracker s). cbn. rewrite with_same. split_and!; [done..|]. intros i. by rewrite bool_decide_false by (by intros ?%elem_of_nil). }
  destruct (receive_simulates now (id_of m) remote _ W) as [W1 H1]. set (t1 := fst (setReceived now (id_of m) remote (tracker s))) in *.
  destruct (IH (with_tracker t1 s) W1) as (t & E & Wt & Ht). exists t. split_and!; [|done|].
  - cbn [for_each]. rewrite (bind_run _ _ _ _ _ (tracked_run _ s)). fold t1. rewrite E. done.
  - intros i. rewrite Ht. cbn [deliveryTracker with_tracker]. rewrite H1. unfold upd. rewrite fmap_cons.
    destruct (decide (i = id_of m)) as [->|Hi].
    + rewrite (bool_decide_true (_ ∈ _ :: _)) by (by left). case_bool_decide; [|done]. by destruct (abs (tracker s) (id_of m)).
    + assert (i ∈ id_of m :: (id_of <$> ms) <-> i ∈ id_of <$> ms) as Hiff by (rewrite elem_of_cons; tauto). by rewrite (bool_decide_ext _ _ Hiff).
Qed.

Lemma judge_good hr (ms : list Modifier) st : (judge MM cfg hr st ms).1.1 `sublist_of` ms.
Proof.
  revert st. induction ms as [|m ms IH]; intros st; cbn [judge]; [done|].
  specialize (IH (upd st (id_of m) (match verdict MM cfg hr st m with Some _ => AInvalid | None => a_receive (st (id_of m)) end))).
  destruct (judge MM cfg hr _ ms) as [[g p] s2]. cbn in IH. destruct (verdict MM cfg hr st m); cbn; by constructor.
Qed.

Lemma carried_in (ser : ModifierSerializer Modifier) (es : list (ModifierId * bytes)) (m : Modifier) : m ∈ omap (carried MM ser) es -> exists bs rest, (id_of m, bs) ∈ es /\ modParse _ ser bs = (rest, Success m).
Proof.
  rewrite list_elem_of_omap. intros ([i bs] & Hin & E). unfold carried in E. cbn in E.
  destruct (modParse _ ser bs) as [rest [m'|]] eqn:Ep; [|done]. case_bool_decide as Ei; [|done]. injection E as ->. subst i. eauto.
Qed.

(** C26: what the actor makes, in any reachable state, of a message with
    modifiers of a type it knows.  Only entries it has asked for count; if there
    are others the sender is penalized, once, for spam.  An entry that does not
    parse to a modifier of its identifier, or has bytes left over, costs a
    misbehaviour penalty.  Transactions go to the node view as they are;
    persistent modifiers are judged in order, by the validity of their parent
    and by the history, and only the good ones go to the node view, the others
    become invalid at the cost of their sender.  So whatever reaches the node
    view was asked for, under the identifier it has. *)
Theorem modifiers_from_remote steps now data remote ser : modifierSerializers _ _ cfg !! md_typeId data = Some ser ->
  let s := run_actor steps in
  let es := asked (tracker s) (md_modifiers data) in
  let parsed := omap (carried MM ser) es in
  let pens := spam_penalty (tracker s) remote (md_modifiers data) ++ faults MM ser remote es in
  (exists t, if (md_typeId data =? TransactionTypeId)%Z then
     modifiersFromRemote _ _ MM cfg now data remote s =
       (with_tracker t (emit (pens ++ [TransactionsFromRemote _ _ parsed]) s), Success tt) /\
     forall i, abs t i = if bool_decide (i ∈ id_of <$> parsed) then a_receive (abs (tracker s) i) else abs (tracker s) i
   else
     let '(good, verdicts, st) := judge MM cfg (historyReaderOpt _ _ s) (abs (tracker s)) parsed in
     modifiersFromRemote _ _ MM cfg now data remote s =
       (with_tracker t (emit (pens ++ (PenalizePeer _ _ (remoteAddress remote) <$> verdicts) ++
          (if bool_decide (good = []) then [] else [ModifiersFromRemote _ _ good])) s), Success tt) /\
     (forall i, abs t i = st i) /\ good `sublist_of` parsed) /\
  (forall m, m ∈ parsed -> status (id_of m) [] (tracker s) = Requested /\
     exists bs rest, (id_of m, bs) ∈ md_modifiers data /\ modParse _ ser bs = (rest, Success m)).
Proof.
  intros Hser s es parsed pens. pose proof (actor_wf MM cfg steps) as W. fold s in W. split.
  - unfold modifiersFromRemote. rewrite (bind_run _ _ _ _ _ (processSpam_run remote _ s)). fold es. rewrite Hser.
    rewrite (bind_run _ _ _ _ _ (parseModifiers_run MM es ser remote _)). fold parsed. rewrite emit_emit. fold pens.
    destruct (md_typeId data =? TransactionTypeId)%Z.
    + destruct (receive_all_run now remote parsed (emit pens s) W) as (t & E & Wt & Ht). exists t. split; [|exact Ht].
      rewrite (bind_run _ _ _ _ _ E), send_run. by rewrite emit_with, emit_emit.
    + pose proof (filterValid_run MM cfg now remote parsed (emit pens s) W) as H. cbn [historyReaderOpt deliveryTracker emit] in H.
      pose proof (judge_good (historyReaderOpt _ _ s) parsed (abs (tracker s))) as Hsub.
      destruct (judge _ _ _ _ parsed) as [[good vs] st]. destruct H as (t & E & Wt & Ht). exists t. split; [|by split].
      rewrite (bind_run _ _ _ _ _ E). case_bool_decide.
      * by rewrite app_nil_r, emit_emit.
      * by rewrite send_run, emit_with, !emit_emit, ?app_assoc.
  - intros m Hm. apply carried_in in Hm as (bs & rest & Hin & Ep). unfold es, asked in Hin. apply list_elem_of_filter in Hin as [Hs Hin]. eauto.
Qed.

(** ** Inventories *)

Lemma request_all_abs ids (st : ModifierId -> AStatus) i :
  foldl (fun s id => upd s id (a_request 0 (s id))) st ids i = if bool_decide (i ∈ ids) then a_request 0 (st i) else st i.
Proof.
  revert st. induction ids as [|j ids IH]; intros st; cbn [foldl]; [done|]. rewrite IH. unfold upd.
  destruct (decide (i = j)) as [->|Hi].
  - rewrite (bool_decide_true (j ∈ j :: ids)) by (by left). case_bool_decide; [|done]. by destruct (st j).
  - assert (i ∈ j :: ids <-> i ∈ ids) as Hiff by (rewrite elem_of_cons; tauto). by rewrite (bool_decide_ext _ _ Hiff).
Qed.

(** The identifiers of an inventory that the node neither has nor waits for *)
Definition news (t : Tracker) (mempool : MempoolReader Modifier) (history : HistoryReader Modifier SyncInfo) (d : InvData) : list ModifierId :=
  if (inv_typeId d =? TransactionTypeId)%Z then
    if canRequestMoreTransactions tcfg t && handlingTransactionsEnabled _ _ cfg
    then filter (fun i => abs t i = AUnknown /\ mempoolContains _ mempool i = false) (inv_ids d) else []
  else filter (fun i => abs t i = AUnknown /\ modifierById _ _ history i = None) (inv_ids d).

Lemma unknown_abs t i (f : ModifierId -> bool) : status i [f] t = DeliveryTracker.Unknown <-> abs t i = AUnknown /\ f i = false.
Proof.
  rewrite status_abs. destruct (abs t i); cbn; try (split; [done|by intros [? _]]). rewrite orb_false_r.
  destruct (f i); split; try done. by intros [_ ?].
Qed.

(** On an inventory, with its readers there, the actor asks the peer for the
    first identifiers that are news to it, as many as the peer may still be
    asked for, in one message, or sends nothing when there are none; these
    become requested, and nothing else changes. *)
Theorem inventory_requests steps d peer mempool history :
  let s := run_actor steps in
  mempoolReaderOpt _ _ s = Some mempool -> historyReaderOpt _ _ s = Some history ->
  let req := take (Z.to_nat (getPeerLimit tcfg peer (tracker s))) (news (tracker s) mempool history d) in
  exists t, processInv _ _ cfg d peer s =
      (with_tracker t (emit (if bool_decide (req = []) then [] else [ToPeer _ _ peer (RequestMessage _ (IData (inv_typeId d) req))]) s), Success tt) /\
    (forall i, i ∈ req -> status i [] t = Requested /\ abs (tracker s) i = AUnknown) /\
    (forall i, i ∉ req -> abs t i = abs (tracker s) i).
Proof.
  intros s Hm Hh req. pose proof (actor_wf MM cfg steps) as W. fold s in W.
  assert ((if (inv_typeId d =? TransactionTypeId)%Z then
          if canRequestMoreTransactions tcfg (tracker s) && handlingTransactionsEnabled _ _ cfg
          then filter (fun mid => status mid [mempoolContains _ mempool] (tracker s) = DeliveryTracker.Unknown) (inv_ids d)
          else []
        else filter (fun mid => status mid [historyContains _ _ history] (tracker s) = DeliveryTracker.Unknown) (inv_ids d)) =
    news (tracker s) mempool history d) as Enews.
  { unfold news. destruct (_ =? _)%Z; [destruct (_ && _); [|done]|]; apply list_filter_iff; intros i; rewrite unknown_abs; [done|].
    unfold historyContains. by rewrite bool_decide_eq_false, eq_None_not_Some. }
  assert (forall i, i ∈ req -> abs (tracker s) i = AUnknown) as Hreq.
  { intros i Hi. unfold req in Hi. apply elem_of_take in Hi as (n & Hn & _). apply list_elem_of_lookup_2 in Hn. unfold news in Hn.
    destruct (_ =? _)%Z; [destruct (_ && _); [|by apply elem_of_nil in Hn]|]; by apply list_elem_of_filter in Hn as [[? _] _]. }
  unfold processInv. rewrite (bind_run _ _ s s s) by done. rewrite Hm, Hh, Enews. fold req.
  case_bool_decide as Er.
  - exists (tracker s). rewrite Er, emit_nil, with_same. split_and!; [done|by intros i ?%elem_of_nil|done].
  - exists (fst (setRequestedAll req (inv_typeId d) peer (tracker s))). destruct (set_requested_all_simulates (inv_typeId d) peer req _ W) as [Wt Ht].
    assert (snd (setRequestedAll req (inv_typeId d) peer (tracker s)) = Success tt) as Eres.
    { clear. generalize (tracker s) as t. induction req as [|i req IH]; intros t; [done|]. cbn [setRequestedAll]. unfold bind, ignoring. cbn. apply IH. }
    split_and!.
    + rewrite (bind_run _ _ _ _ _ (send_run _ s)), on_tracker_run. cbn [deliveryTracker emit]. by rewrite Eres.
    + intros i Hi. split; [|by apply Hreq]. rewrite status_abs, Ht, request_all_abs, bool_decide_true by done. by rewrite Hreq.
    + intros i Hi. rewrite Ht, request_all_abs, bool_decide_false by done. done.
Qed.

(** ** Deliveries that are late *)

(** What the actor makes, in any reachable state, of the delivery timer of a
    modifier.  If the modifier is not awaited, nothing.  A transaction is
    forgotten, and nobody is penalized.  For any other modifier the peer of the
    timer is penalized, once, and the modifier is asked for again, its count of
    misses one higher, until the count is at [maxDeliveryChecks]: then it is
    forgotten.  No other modifier changes its status, and no handler fails. *)
Theorem delivery_timeout steps now time peer ty mid :
  let s := run_actor steps in
  let awaited := bool_decide (status mid [] (tracker s) = Requested) in
  let tx := (ty =? TransactionTypeId)%Z in
  exists t, receive _ _ MM cfg now time (TimerMessage _ _ (CheckDelivery peer ty mid)) s =
      (with_tracker t (emit (if awaited && negb tx then [PenalizePeer _ _ (remoteAddress peer) NonDeliveryPenalty] else []) s), Success tt) /\
    forall i, abs t i = upd (abs (tracker s)) mid ((if tx then a_forget else a_wait tcfg) (abs (tracker s) mid)) i.
Proof.
  intros s awaited tx. pose proof (actor_wf MM cfg steps) as W. fold s in W. cbn [receive]. unfold checkDelivery.
  rewrite (bind_run _ _ _ _ _ (gets_run tracker s)). unfold awaited. case_bool_decide as Hs; cbn [andb]; [fold tx; destruct tx; cbn [negb]|].
  - exists (fst (clearStatusForModifier tcfg now mid Requested (tracker s))). rewrite on_tracker_run, emit_nil. split.
    + f_equal. rewrite <- Hs at 1. apply clearStatus_result.
    + intros i. pose proof (run_op_simulates tcfg (OForget now mid) _ W) as [_ H]. cbn [run_op astep] in H.
      rewrite bool_decide_true in H by done. apply H.
  - exists (fst (onStillWaiting tcfg now peer ty mid (tracker s))). unfold penalizeNonDeliveringPeer, penalize.
    rewrite (bind_run _ _ _ _ _ (send_run _ s)), tracked_run. split; [done|]. apply still_waiting_simulates, W.
  - exists (tracker s). rewrite emit_nil, with_same. split; [done|]. intros i. rewrite status_abs in Hs. unfold upd.
    destruct (decide (i = mid)) as [->|]; [|done]. destruct tx; by destruct (abs (tracker s) mid).
Qed.

(** ** Answers in parts *)

Abbreviation entry_size := (fun e : ModifierId * bytes => ModifierIdSize _ _ cfg + 4 + zlen e.2)%Z.
Abbreviation limit := (maxModifiersSpecMessageSize _ _ cfg).

Definition batch_size (batch : list (ModifierId * bytes)) : Z :=
  (HeaderLength + ChecksumLength + foldr (fun e n => entry_size e + n) 0 batch)%Z.

(** A message with the entry alone is below the limit. *)
Definition fits (e : ModifierId * bytes) : Prop := (batch_size [e] < limit)%Z.

Lemma takeBatch_spec size mods : (0 <= ModifierIdSize _ _ cfg)%Z -> (limit <= 2 ^ 30)%Z -> (HeaderLength + ChecksumLength <= size < limit)%Z -> Forall fits mods ->
  let b := takeBatch _ _ cfg size mods in
  exists rest, mods = b ++ rest /\ (size + foldr (fun e n => entry_size e + n) 0 b < limit)%Z /\
    (forall e rest', rest = e :: rest' -> limit <= size + foldr (fun e n => entry_size e + n) 0 b + entry_size e)%Z.
Proof.
  intros H0 Hl. revert size. induction mods as [|[i bs] mods IH]; intros size Hs HF; cbn [takeBatch].
  { exists []. cbn. split_and!; [done|lia|done]. }
  apply Forall_cons in HF as [Hf HF]. unfold fits, batch_size in Hf. cbn [foldr snd] in Hf.
  assert (0 <= zlen bs)%Z as Hz by (unfold zlen; lia).
  replace (size + ModifierIdSize _ _ cfg + 4 + zlen bs)%Z with (size + (ModifierIdSize _ _ cfg + 4 + zlen bs))%Z by lia.
  change HeaderLength with 9%Z in *. change ChecksumLength with 4%Z in *. change (2 ^ 30)%Z with 1073741824%Z in Hl.
  rewrite toInt_small by (unfold MinInt, MaxInt; lia). destruct (Z.ltb_spec (size + (ModifierIdSize _ _ cfg + 4 + zlen bs)) limit) as [Hlt|Hge].
  - destruct (IH (size + (ModifierIdSize _ _ cfg + 4 + zlen bs))%Z ltac:(lia) HF) as (rest & E & Hb & Hr).
    exists rest. cbn [app foldr snd]. split_and!; [by rewrite <- E|lia|]. intros e rest' Er. specialize (Hr e rest' Er). lia.
  - exists ((i, bs) :: mods). cbn [app foldr]. split_and!; [done|lia|]. intros e rest' [= <- <-]. cbn [snd]. lia.
Qed.

(** Batches as full as they can be: the next entry would not have fitted. *)
Fixpoint full (batches : list (list (ModifierId * bytes))) : Prop :=
  match batches with
  | b :: rest => match rest with (e :: _) :: _ => (limit <= batch_size b + entry_size e)%Z | _ => True end /\ full rest
  | [] => True
  end.

Definition part (peer : ConnectedPeer) (ty : ModifierTypeId) (batch : list (ModifierId * bytes)) : Out :=
  ToPeer _ _ peer (ModifiersMessage _ (MData ty batch)).

Lemma sendByParts_run fuel peer ty mods s : (0 <= ModifierIdSize _ _ cfg)%Z -> (limit <= 2 ^ 30)%Z ->
  mods <> [] -> Forall fits mods -> (length mods <= fuel)%nat -> exists batches,
  sendByParts _ _ cfg fuel peer ty mods s = (emit (part peer ty <$> batches) s, Success tt) /\
  mods = concat batches /\ Forall (fun b => b <> [] /\ (batch_size b < limit)%Z) batches /\ full batches.
Proof.
  intros H0 Hl. revert mods s. induction fuel as [|fuel IH]; intros mods s Hne HF Hlen; [by destruct mods; cbn in Hlen; [|lia]|].
  cbn [sendByParts]. destruct mods as [|m mods]; [done|]. pose proof HF as [Hm _]%Forall_cons.
  assert (HeaderLength + ChecksumLength <= HeaderLength + ChecksumLength < limit)%Z as Hsz.
  { unfold fits, batch_size in Hm. cbn [foldr] in Hm. assert (0 <= zlen m.2)%Z by (unfold zlen; lia). lia. }
  destruct (takeBatch_spec (HeaderLength + ChecksumLength) (m :: mods) H0 Hl Hsz HF) as (rest & E & Hb & Hr).
  set (b := takeBatch _ _ cfg _ _) in *. fold (batch_size b) in Hb, Hr.
  assert (b <> []) as Hbne.
  { intros Eb. rewrite Eb in E, Hr. symmetry in E. specialize (Hr _ _ E). unfold fits, batch_size in *. cbn [foldr] in *. lia. }
  rewrite (bind_run _ _ _ _ _ (send_run _ s)). rewrite E, drop_app_length. case_bool_decide as Erest.
  - subst rest. exists [b]. cbn. rewrite !app_nil_r in *. split_and!; try done. by apply Forall_singleton.
  - assert (Forall fits rest) as HFr by (rewrite E in HF; by apply Forall_app in HF as [_ ?]).
    destruct (IH rest (emit [part peer ty b] s)) as (bs & Es & Ec & HFb & Hfull); [done..| |].
    { apply (f_equal length) in E. rewrite length_app in E. destruct b; [done|]. cbn in E, Hlen. lia. }
    exists (b :: bs). cbn [fmap list_fmap concat full]. rewrite <- Ec. split_and!; [|done|by constructor| |done].
    + unfold part at 1. fold (part peer ty b). rewrite Es, emit_emit. done.
    + destruct bs as [|[|e b'] bs]; [done|done|]. apply (Hr e (b' ++ concat bs)). by rewrite Ec.
Qed.

(** The entries of an answer *)
Definition entries (ser : ModifierSerializer Modifier) (ms : list Modifier) : list (ModifierId * bytes) :=
  (fun m => (id_of m, modToBytes _ ser m)) <$> ms.

(** An answer each of whose modifiers fits a message is sent, whole, in
    order and exactly once, in messages below the limit of their size, none of
    them empty, and each with as many modifiers as fit. *)
Theorem answer_in_parts now time peer ty m ms ser s :
  modifierSerializers _ _ cfg !! modifierTypeId _ MM m = Some ser ->
  (0 <= ModifierIdSize _ _ cfg)%Z -> (limit <= 2 ^ 30)%Z -> Forall fits (entries ser (m :: ms)) -> exists batches,
  receive _ _ MM cfg now time (ResponseFromLocal _ _ peer ty (m :: ms)) s =
    (emit (part peer (modifierTypeId _ MM m) <$> batches) s, Success tt) /\
  entries ser (m :: ms) = concat batches /\ Forall (fun b => b <> [] /\ (batch_size b < limit)%Z) batches /\ full batches.
Proof.
  intros Hser H0 Hl HF. cbn [receive]. unfold responseFromLocal. rewrite Hser. fold (entries ser (m :: ms)).
  apply sendByParts_run; [done..|]. unfold entries. by rewrite length_fmap.
Qed.

Lemma takeBatch_fits size mods : (0 <= ModifierIdSize _ _ cfg)%Z -> (limit <= 2 ^ 30)%Z -> (HeaderLength + ChecksumLength <= size < 2 ^ 30)%Z ->
  Forall (fun e => entry_size e <= 2 ^ 30)%Z mods -> forall e, e ∈ takeBatch _ _ cfg size mods -> fits e.
Proof.
  intros H0 Hl. revert size. induction mods as [|[i bs] mods IH]; intros size Hs HF e; cbn [takeBatch]; [by intros ?%elem_of_nil|].
  apply Forall_cons in HF as [Hf HF]. cbn [snd] in Hf. assert (0 <= zlen bs)%Z as Hz by (unfold zlen; lia).
  replace (size + ModifierIdSize _ _ cfg + 4 + zlen bs)%Z with (size + (ModifierIdSize _ _ cfg + 4 + zlen bs))%Z by lia.
  unfold fits, batch_size in *. change HeaderLength with 9%Z in *. change ChecksumLength with 4%Z in *. change (2 ^ 30)%Z with 1073741824%Z in *.
  rewrite toInt_small by (unfold MinInt, MaxInt; lia). destruct (Z.ltb_spec (size + (ModifierIdSize _ _ cfg + 4 + zlen bs)) limit) as [Hlt|Hge].
  - intros [->|He]%elem_of_cons; [cbn [foldr snd]; lia|]. apply (IH (size + (ModifierIdSize _ _ cfg + 4 + zlen bs))%Z); [lia|done..].
  - by intros ?%elem_of_nil.
Qed.

(** With one modifier in it that does not fit a message, an answer never
    ends: however long the loop runs it has sent something, at last empty
    messages, and has not come to an end. *)
Theorem oversized_never_ends fuel peer ty mods e s :
  (0 <= ModifierIdSize _ _ cfg)%Z -> (HeaderLength + ChecksumLength < limit <= 2 ^ 30)%Z ->
  Forall (fun e => entry_size e <= 2 ^ 30)%Z mods -> e ∈ mods -> ~ fits e -> exists batches,
  sendByParts _ _ cfg fuel peer ty mods s = (emit (part peer ty <$> batches) s, Failure NoFuel) /\ length batches = fuel.
Proof.
  intros H0 Hl. revert mods s. induction fuel as [|fuel IH]; intros mods s HF He Hn.
  { exists []. cbn. by rewrite emit_nil. }
  cbn [sendByParts]. rewrite (bind_run _ _ _ _ _ (send_run _ s)). set (b := takeBatch _ _ cfg _ _).
  assert (e ∈ drop (length b) mods) as Hd.
  { assert (forall e, e ∈ b -> fits e) as Hb by (apply takeBatch_fits; [done|lia|lia|done]).
    assert (mods = b ++ drop (length b) mods) as E.
    { subst b. clear. generalize (HeaderLength + ChecksumLength)%Z as size. induction mods as [|[i bs] mods IH]; intros size; [done|].
      cbn [takeBatch]. destruct (_ <? _)%Z; [|done]. cbn. f_equal. apply IH. }
    rewrite E in He. apply elem_of_app in He as [He|He]; [by destruct (Hn (Hb _ He))|done]. }
  rewrite bool_decide_false by (intros E; rewrite E in Hd; by apply elem_of_nil in Hd).
  destruct (IH _ (emit [part peer ty b] s) (Forall_drop _ _ _ HF) Hd Hn) as (bs & Es & Hlen).
  exists (b :: bs). cbn [fmap list_fmap length]. rewrite Hlen. split; [|done].
  unfold part at 1. fold (part peer ty b). by rewrite Es, emit_emit.
Qed.
End Props.

(** ** Witnesses: modifiers of one byte, whose identifier is its hexadecimal *)

Definition sample_methods : ModifierMethods byte := {|
  modId b := bytesToId [b]; modifierTypeId _ := 1%Z; parentId _ := "00"%string |}.
Definition sample_history : HistoryReader byte unit := {|
  modifierById _ := None; applicableTry b := if bool_decide (b = x0b) then Failure MalformedModifierError else Success tt;
  continuationIds _ _ := []; compare _ := Equal; syncInfo := tt |}.
Definition sample_mempool : MempoolReader byte := {| mempoolContains _ := false; getAll _ := [] |}.
Definition sample_serializer : ModifierSerializer byte := {|
  modToBytes b := [b];
  modParse bs := match bs with b :: rest => (rest, Success b) | [] => ([], Failure (Raised "BufferUnderflow")) end |}.
Definition sample_sync : SynchronizerSettings byte unit := {|
  trackerSettings := sample_settings; syncSettings := Build_SyncSettings 1 1 1 1; ModifierIdSize := 1; maxInvObjects := 10;
  desiredInvObjects := 10; maxModifiersSpecMessageSize := 26; handlingTransactionsEnabled := true; penaltyScoreThreshold := 100;
  modifierSerializers := {[ 1%Z := sample_serializer ]}; parseSyncInfo _ := Success tt |}.

Definition ready : list (Step byte unit) := [Mail _ _ 0 0 (ChangedHistory _ _ sample_history); Mail _ _ 0 0 (ChangedMempool _ _ sample_mempool)].
Definition asked_for_two : list (Step byte unit) :=
  ready ++ [Mail _ _ 0 0 (DataFromPeer _ _ InvSpec [x01; x02; x0a; x0b] peerA)].

Lemma inventory_requests_witness :
  sent _ _ (fst (processInv _ _ sample_sync (IData 1 ["0a"; "0b"]%string) peerA (run_actor _ _ sample_methods sample_sync ready))) =
    sent _ _ (run_actor _ _ sample_methods sample_sync ready) ++
    [ToPeer _ _ peerA (RequestMessage _ (IData 1 ["0a"; "0b"]%string))].
Proof.
  destruct (inventory_requests sample_methods sample_sync ready (IData 1 ["0a"; "0b"]%string) peerA sample_mempool sample_history)
    as (t & -> & _); [by vm_compute..|]. by vm_compute.
Defined.

Lemma modifiers_from_remote_witness :
  let s := run_actor _ _ sample_methods sample_sync asked_for_two in
  sent _ _ (fst (modifiersFromRemote _ _ sample_methods sample_sync 0 (MData 1 [("0a", [x0a]); ("0c", [x0c]); ("0b", [x0b])]%string) peerA s)) =
    sent _ _ s ++ [PenalizePeer _ _ 1 SpamPenalty; PenalizePeer _ _ 1 MisbehaviorPenalty; ModifiersFromRemote _ _ [x0a]].
Proof.
  intros s. destruct (modifiers_from_remote sample_methods sample_sync asked_for_two 0
    (MData 1 [("0a", [x0a]); ("0c", [x0c]); ("0b", [x0b])]%string) peerA sample_serializer eq_refl) as [(t & H) _].
  fold s in H. cbn [md_typeId] in H. change ((1 =? TransactionTypeId)%Z) with false in H. cbn iota in H.
  destruct (judge _ _ _ _ _) as [[good vs] st] eqn:Ej in H. vm_compute in Ej. injection Ej as <- <- _.
  destruct H as (-> & _). by vm_compute.
Defined.

Lemma answer_in_parts_witness : let s := run_actor _ _ sample_methods sample_sync ready in exists batches,
  [("0a", [x0a]); ("0b", [x0b]); ("0c", [x0c])]%string = concat batches /\
  receive _ _ sample_methods sample_sync 0 0 (ResponseFromLocal _ _ peerA 1 [x0a; x0b; x0c]) s = (emit (part peerA 1 <$> batches) s, Success tt).
Proof.
  intros s. destruct (answer_in_parts sample_methods sample_sync 0 0 peerA 1 x0a [x0b; x0c] sample_serializer s) as (bs & E & Ec & _);
    [done..| |by exists bs]. repeat constructor.
Defined.

Lemma oversized_never_ends_witness : let s := run_actor _ _ sample_methods sample_sync ready in exists batches,
  sendByParts _ _ sample_sync 100 peerA 1 [("0a", [x0a]); ("0b", replicate 30 x0b)]%string s =
    (emit (part peerA 1 <$> batches) s, Failure NoFuel) /\ length batches = 100%nat.
Proof.
  intros s. apply (oversized_never_ends sample_sync 100 peerA 1 _ ("0b", replicate 30 x0b)%string); [done|done| | |].
  - repeat (constructor; [by vm_compute|]). constructor.
  - right. left.
  - unfold fits. by vm_compute.
Defined.
