(* ===== verification/JsCore.v ===== *)
(** * JsCore: JavaScript strings

    What the bundled JavaScript modules use of the language's strings.  A
    string is the list of its UTF-16 code units. *)

From S2P Require Import Prelude.

Abbreviation jsstr := (list N).

(** A string literal in ASCII *)
Definition js (s : string) : jsstr := Ascii.N_of_ascii <$> String.list_ascii_of_string s.

#[export] Instance js_inj : Inj (=) (=) js.
Proof.
  intros s t E. unfold js in E. apply list_fmap_eq_inj in E.
  - by rewrite <- (String.string_of_list_ascii_of_string s), E, String.string_of_list_ascii_of_string.
  - intros a b Eab. by rewrite <- (Ascii.ascii_N_embedding a), Eab, Ascii.ascii_N_embedding.
Qed.

Definition js_length (s : jsstr) : Z := Z.of_nat (length s).

(** s.substr(from, len), for from at most the length *)
Definition substr (s : jsstr) (from len : Z) : jsstr := take (Z.to_nat len) (drop (Z.to_nat from) s).

(** s.indexOf(c) for a string of one code unit *)
Fixpoint indexOf (c : N) (s : jsstr) : Z :=
  match s with
  | [] => -1
  | x :: s' => if (x =? c)%N then 0 else let i := indexOf c s' in if (i <? 0)%Z then -1 else i + 1
  end%Z.

(** WhiteSpace and LineTerminator of ECMAScript *)
Definition is_space (c : N) : bool :=
  bool_decide (c ∈ [9; 10; 11; 12; 13; 32; 160; 5760; 8232; 8233; 8239; 8287; 12288; 65279]%N)
  || ((8192 <=? c)%N && (c <=? 8202)%N).

(** trim *)
Fixpoint trim_start (s : jsstr) : jsstr :=
  match s with [] => [] | c :: s' => if is_space c then trim_start s' else s end.
Definition trim (s : jsstr) : jsstr := reverse (trim_start (reverse (trim_start s))).

(** join *)
Fixpoint join (sep : jsstr) (l : list jsstr) : jsstr :=
  match l with [] => [] | [s] => s | s :: l' => s ++ sep ++ join sep l' end.

(** toLowerCase on ASCII; other code units stay. *)
Definition to_lower (s : jsstr) : jsstr :=
  (fun c => if (65 <=? c)%N && (c <=? 90)%N then (c + 32)%N else c) <$> s.

(** [k] copies of a string *)
Definition copies (k : nat) (s : jsstr) : jsstr := mjoin (replicate k s).

Lemma copies_add a b s : copies (a + b) s = copies a s ++ copies b s.
Proof. unfold copies. by rewrite replicate_add, join_app. Qed.

Lemma copies_length k s : length (copies k s) = k * length s.
Proof. induction k as [|k IH]; [done|]. change (copies (S k) s) with (s ++ copies k s). rewrite length_app. lia. Qed.

Lemma copies_nil k : copies k [] = [].
Proof. induction k; [done|by simpl]. Qed.

Lemma take_copies a b s : a <= b -> take (a * length s) (copies b s) = copies a s.
Proof.
  intros H. replace b with (a + (b - a)) by lia. rewrite copies_add, <- copies_length. apply take_app_length.
Qed.

Lemma trim_start_id c s : is_space c = false -> trim_start (c :: s) = c :: s.
Proof. simpl. by intros ->. Qed.

(** A string with no space at its ends is its own trim. *)
Lemma trim_id s : (forall c, head s = Some c -> is_space c = false) -> (forall c, last s = Some c -> is_space c = false) ->
  trim s = s.
Proof.
  intros H1 H2. unfold trim. assert (forall s', (forall c, head s' = Some c -> is_space c = false) -> trim_start s' = s') as Hs.
  { intros [|c s'] H; [done|]. apply trim_start_id. by apply H. }
  rewrite (Hs s H1), Hs; [by rewrite reverse_involutive|]. intros c Hc. apply H2. by rewrite head_reverse in Hc.
Qed.

Lemma indexOf_app c a b : c ∉ a -> indexOf c (a ++ c :: b) = Z.of_nat (length a).
Proof.
  induction a as [|x a IH]; simpl; intros Hn; [by rewrite N.eqb_refl|].
  rewrite (proj2 (N.eqb_neq _ _)) by set_solver. rewrite IH by set_solver. rewrite (proj2 (Z.ltb_ge _ _)); lia.
Qed.

Lemma indexOf_none c a : c ∉ a -> indexOf c a = (-1)%Z.
Proof.
  induction a as [|x a IH]; simpl; intros Hn; [done|].
  rewrite (proj2 (N.eqb_neq _ _)) by set_solver. rewrite IH by set_solver. done.
Qed.

(** ** Bitwise operators

    Numbers are integers here.  The bitwise operators of JavaScript work on
    32-bit integers; on the ranges where the modules use them they are the
    operators of [Z], and [toInt] is written where a number may be larger. *)


(** for (i = a; i < b; i += step), the values of i *)
Definition steps (a b step : Z) : list Z := (fun k => a + step * k)%Z <$> seqZ 0 ((b - a + step - 1) / step).

(** x >>> k *)
Definition ushr32 (x k : Z) : Z := Z.shiftr (x mod 2 ^ 32) k.

(** s.charCodeAt(i) where it is used as a number; none past the end *)
Definition charCodeAt (s : jsstr) (i : Z) : option Z :=
  if (i <? 0)%Z then None else Z.of_N <$> s !! Z.to_nat i.

(** String.fromCharCode(x), of one number *)
Definition fromCharCode (x : Z) : N := Z.to_N (x mod 2 ^ 16).

(** ** Bits as arithmetic *)

Lemma land_mask k x : (0 <= k)%Z -> Z.land x (Z.ones k) = (x mod 2 ^ k)%Z.
Proof. intros. by apply Z.land_ones. Qed.
Lemma land_255 x : Z.land x 255 = (x mod 256)%Z.
Proof. exact (land_mask 8 x ltac:(lia)). Qed.
Lemma land_63 x : Z.land x 63 = (x mod 64)%Z.
Proof. exact (land_mask 6 x ltac:(lia)). Qed.
Lemma land_1023 x : Z.land x 1023 = (x mod 1024)%Z.
Proof. exact (land_mask 10 x ltac:(lia)). Qed.

Lemma lor_high a b k : (0 <= k)%Z -> (0 <= b < 2 ^ k)%Z -> Z.lor (a * 2 ^ k) b = (a * 2 ^ k + b)%Z.
Proof.
  intros Hk Hb. assert (Z.land (a * 2 ^ k) b = 0)%Z as E.
  { apply Z.bits_inj'. intros n Hn. rewrite Z.land_spec, Z.bits_0.
    destruct (Z.lt_ge_cases n k); [by rewrite Z.mul_pow2_bits_low|].
    rewrite <- (Z.mod_small b (2 ^ k)) by done. rewrite (Z.mod_pow2_bits_high b) by lia. apply andb_false_r. }
  pose proof (Z.add_lor_land (a * 2 ^ k) b). lia.
Qed.

Lemma steps_nil a b step : (0 < step)%Z -> (b <= a)%Z -> steps a b step = [].
Proof.
  intros Hs H. unfold steps. assert ((b - a + step - 1) / step <= 0)%Z as Hq.
  { apply Z.lt_succ_r, Z.div_lt_upper_bound; lia. }
  unfold seqZ. by rewrite Z2Nat.nonpos.
Qed.

Lemma steps_cons a b step : (0 < step)%Z -> (a < b)%Z -> steps a b step = a :: steps (a + step) b step.
Proof.
  intros Hs H. unfold steps. rewrite (seqZ_cons 0).
  2: { apply Z.div_str_pos. lia. }
  cbn [fmap list_fmap]. f_equal; [lia|].
  replace (Z.pred ((b - a + step - 1) / step)) with ((b - (a + step) + step - 1) / step)%Z.
  2: { replace (b - a + step - 1)%Z with (b - (a + step) + step - 1 + 1 * step)%Z by lia. rewrite Z.div_add by lia. lia. }
  change (Z.succ 0) with (0 + 1)%Z. rewrite (Z.add_comm 0 1), <- fmap_add_seqZ, <- list_fmap_compose.
  apply list_fmap_ext. intros i x _. cbn. lia.
Qed.

Lemma steps_app a m c step : (0 < step)%Z -> (a + step * Z.of_nat m <= c)%Z ->
  steps a c step = steps a (a + step * Z.of_nat m) step ++ steps (a + step * Z.of_nat m) c step.
Proof.
  intros Hs. revert a. induction m as [|m IH]; intros a H.
  - rewrite Z.mul_0_r, Z.add_0_r. by rewrite (steps_nil a a) by lia.
  - rewrite (steps_cons a c), (steps_cons a (a + _)) by lia. cbn [app]. f_equal.
    replace (a + step * Z.of_nat (S m))%Z with (a + step + step * Z.of_nat m)%Z by lia. apply IH. lia.
Qed.

(** A bound between the last two values of a loop is as good as the next value. *)
Lemma steps_round a m b step : (0 < step)%Z -> (a + step * Z.of_nat m - step < b <= a + step * Z.of_nat m)%Z ->
  steps a b step = steps a (a + step * Z.of_nat m) step.
Proof.
  intros Hs H. unfold steps. f_equal. f_equal.
  replace (a + step * Z.of_nat m - a + step - 1)%Z with (step - 1 + Z.of_nat m * step)%Z by lia.
  rewrite Z.div_add, (Z.div_small (step - 1)) by lia. symmetry.
  apply Z.div_unique with (b - a + step - 1 - step * Z.of_nat m)%Z; lia.
Qed.

Lemma steps_length a m step : (0 < step)%Z -> zlen (steps a (a + step * Z.of_nat m) step) = Z.of_nat m.
Proof.
  intros Hs. unfold zlen, steps. rewrite length_fmap, length_seqZ.
  replace (a + step * Z.of_nat m - a + step - 1)%Z with (step - 1 + Z.of_nat m * step)%Z by lia. rewrite Z.div_add, Z.div_small by lia. apply Nat2Z.id || lia.
Qed.
