(* ===== verification/Base64Js.v ===== *)
(** * Base64Js: the module base64-js of the Swagger UI bundle

    src/main/resources/swagger-ui/swagger-ui-bundle.js, line 71: the module the
    module buffer encodes and decodes base 64 with.  An element past the end of
    an array is undefined, 0 for the bitwise operators. *)

From S2P Require Import Prelude JsCore.

Definition alphabet : jsstr := js "ABCDEFGHIJKLMNOPQRSTUVWXYZabcdefghijklmnopqrstuvwxyz0123456789+/".

(** r: the digit of a number below 64 *)
Definition lookup64 (x : Z) : N := nth (Z.to_nat x) alphabet 0%N.

(** o: the number of a digit *)
Definition revLookup (c : option N) : Z :=
  match c with
  | None => 0
  | Some c => if (c =? 45)%N then 62 else if (c =? 95)%N then 63 else Z.max 0 (indexOf c alphabet)
  end.

(** c: where the digits end, and how many = there are to fill *)
Definition getLens (s : jsstr) : Try (Z * Z) :=
  let len := js_length s in
  if (0 <? len mod 4)%Z then Failure (Raised "Error") else
  let i := indexOf 61 s in
  let validLen := if (i =? -1)%Z then len else i in
  Success (validLen, if (validLen =? len)%Z then 0 else 4 - validLen mod 4)%Z.

(** byteLength *)
Definition base64_byteLength (s : jsstr) : Try Z :=
  let? (validLen, placeHoldersLen) := getLens s in
  Success (3 * (validLen + placeHoldersLen) / 4 - placeHoldersLen)%Z.

(** A new Uint8Array of [size] elements, to whose elements from the first on [ws]
    were assigned *)
Definition filled (size : Z) (ws : list Z) : bytes :=
  take (Z.to_nat size) ((z2b <$> ws) ++ replicate (Z.to_nat size) (z2b 0)).

(** o[e.charCodeAt(i)] *)
Definition digit (s : jsstr) (i : Z) : Z := revLookup (s !! Z.to_nat i).

(** The three bytes of four digits: the body of the loop of toByteArray *)
Definition decode_quad (s : jsstr) (f : Z) : list Z :=
  let t := Z.lor (Z.lor (Z.lor (Z.shiftl (digit s f) 18) (Z.shiftl (digit s (f + 1)) 12))
                 (Z.shiftl (digit s (f + 2)) 6)) (digit s (f + 3)) in
  [Z.land (Z.shiftr t 16) 255; Z.land (Z.shiftr t 8) 255; Z.land t 255].

(** toByteArray *)
Definition toByteArray (s : jsstr) : Try bytes :=
  let? (validLen, placeHoldersLen) := getLens s in
  let size := (3 * (validLen + placeHoldersLen) / 4 - placeHoldersLen)%Z in
  if (size <? 0)%Z then Failure (Raised "RangeError") else
  let l := (if 0 <? placeHoldersLen then validLen - 4 else validLen)%Z in
  let rounds := steps 0 l 4 in
  let f := (4 * zlen rounds)%Z in
  let last2 :=
    if (placeHoldersLen =? 2)%Z then
      [Z.land (Z.lor (Z.shiftl (digit s f) 2) (Z.shiftr (digit s (f + 1)) 4)) 255]
    else [] in
  let last1 :=
    if (placeHoldersLen =? 1)%Z then
      let t := Z.lor (Z.lor (Z.shiftl (digit s f) 10) (Z.shiftl (digit s (f + 1)) 4)) (Z.shiftr (digit s (f + 2)) 2) in
      [Z.land (Z.shiftr t 8) 255; Z.land t 255]
    else [] in
  Success (filled size (flat_map (decode_quad s) rounds ++ last2 ++ last1)).

(** e[i] of a Uint8Array *)
Definition element (e : bytes) (i : Z) : Z := match e !! Z.to_nat i with Some b => ub b | None => 0 end.

(** l: the digits of a range whose length is a multiple of 3 *)
Definition encodeChunk (e : bytes) (a b : Z) : jsstr :=
  flat_map (fun s =>
    let num := (Z.land (Z.shiftl (element e s) 16) 16711680 + Z.land (Z.shiftl (element e (s + 1)) 8) 65280
                + Z.land 255 (element e (s + 2)))%Z in
    [lookup64 (Z.land (Z.shiftr num 18) 63); lookup64 (Z.land (Z.shiftr num 12) 63);
     lookup64 (Z.land (Z.shiftr num 6) 63); lookup64 (Z.land 63 num)]) (steps a b 3).

(** fromByteArray *)
Definition fromByteArray (e : bytes) : jsstr :=
  let n := zlen e in
  let o := (n mod 3)%Z in
  let s := (n - o)%Z in
  let parts := flat_map (fun a => encodeChunk e a (if s <? a + 16383 then s else a + 16383)%Z) (steps 0 s 16383) in
  parts ++
  (if (o =? 1)%Z then
     let t := element e (n - 1) in
     [lookup64 (Z.shiftr t 2); lookup64 (Z.land (Z.shiftl t 4) 63)] ++ js "=="
   else if (o =? 2)%Z then
     let t := (Z.shiftl (element e (n - 2)) 8 + element e (n - 1))%Z in
     [lookup64 (Z.shiftr t 10); lookup64 (Z.land (Z.shiftr t 4) 63); lookup64 (Z.land (Z.shiftl t 2) 63)] ++ js "="
   else []).

#[local] Ltac Zify.zify_post_hook ::= Z.to_euclidean_division_equations.

(** ** Digits *)

Lemma digit_cases (P : Z -> Prop) : (forall k : nat, (k < 64)%nat -> P (Z.of_nat k)) -> forall x, (0 <= x < 64)%Z -> P x.
Proof. intros H x Hx. rewrite <- (Z2Nat.id x) by lia. apply H. lia. Qed.

Lemma digits_checked :
  forallb (fun k => (revLookup (Some (lookup64 (Z.of_nat k))) =? Z.of_nat k)%Z && negb (lookup64 (Z.of_nat k) =? 61)%N) (seq 0 64) = true.
Proof. by vm_compute. Qed.

Lemma digit_facts x : (0 <= x < 64)%Z -> revLookup (Some (lookup64 x)) = x /\ lookup64 x <> 61%N.
Proof.
  revert x. apply (digit_cases (fun x => revLookup (Some (lookup64 x)) = x /\ lookup64 x <> 61%N)). intros k Hk.
  pose proof digits_checked as H. rewrite forallb_forall in H. specialize (H k). rewrite andb_true_iff, Z.eqb_eq, negb_true_iff, N.eqb_neq in H.
  apply H, in_seq. lia.
Qed.

(** ** The encoding, by groups of three bytes *)

Fixpoint encode3 (bs : bytes) : jsstr :=
  match bs with
  | a :: b :: c :: rest =>
      lookup64 (ub a / 4) :: lookup64 (ub a mod 4 * 16 + ub b / 16) :: lookup64 (ub b mod 16 * 4 + ub c / 64) ::
      lookup64 (ub c mod 64) :: encode3 rest
  | [a; b] => [lookup64 (ub a / 4); lookup64 (ub a mod 4 * 16 + ub b / 16); lookup64 (ub b mod 16 * 4)] ++ js "="
  | [a] => [lookup64 (ub a / 4); lookup64 (ub a mod 4 * 16)] ++ js "=="
  | [] => []
  end%Z.

Lemma element_app pre bs k : (0 <= k)%Z -> element (pre ++ bs) (zlen pre + k) = element bs k.
Proof.
  intros Hk. unfold element, zlen. replace (Z.to_nat (Z.of_nat (length pre) + k)) with (length pre + Z.to_nat k) by lia.
  by rewrite lookup_app_r, Nat.add_sub_swap, Nat.sub_diag by lia.
Qed.

Lemma num_digits a b c : (0 <= a < 256)%Z -> (0 <= b < 256)%Z -> (0 <= c < 256)%Z ->
  let num := (Z.land (Z.shiftl a 16) 16711680 + Z.land (Z.shiftl b 8) 65280 + Z.land 255 c)%Z in
  Z.land (Z.shiftr num 18) 63 = (a / 4)%Z /\ Z.land (Z.shiftr num 12) 63 = (a mod 4 * 16 + b / 16)%Z /\
  Z.land (Z.shiftr num 6) 63 = (b mod 16 * 4 + c / 64)%Z /\ Z.land 63 num = (c mod 64)%Z.
Proof.
  intros Ha Hb Hc num.
  assert (num = a * 65536 + b * 256 + c)%Z as ->.
  { unfold num. rewrite (Z.land_comm 255), land_255. change 16711680%Z with (Z.shiftl 255 16). change 65280%Z with (Z.shiftl 255 8).
    rewrite <- !Z.shiftl_land, !land_255, !Z.shiftl_mul_pow2 by lia.
    change (2 ^ 16)%Z with 65536%Z. change (2 ^ 8)%Z with 256%Z. rewrite !Z.mod_small by lia. lia. }
  rewrite (Z.land_comm 63), !land_63, !Z.shiftr_div_pow2 by lia.
  change (2 ^ 18)%Z with 262144%Z. change (2 ^ 12)%Z with 4096%Z. change (2 ^ 6)%Z with 64%Z.
  set (a1 := (a / 4)%Z). set (a0 := (a mod 4)%Z). set (b1 := (b / 16)%Z). set (b0 := (b mod 16)%Z). set (c1 := (c / 64)%Z). set (c0 := (c mod 64)%Z).
  assert (a = 4 * a1 + a0 /\ b = 16 * b1 + b0 /\ c = 64 * c1 + c0)%Z as (Ea & Eb & Ec) by (unfold a1, a0, b1, b0, c1, c0; lia).
  assert (0 <= a0 < 4 /\ 0 <= b0 < 16 /\ 0 <= c0 < 64)%Z as (Ra & Rb & Rc) by (unfold a0, b0, c0; lia).
  clearbody a1 a0 b1 b0 c1 c0. subst a b c.
  rewrite <- (Z.div_unique _ 262144 a1 (a0 * 65536 + (16 * b1 + b0) * 256 + (64 * c1 + c0))) by lia.
  rewrite <- (Z.div_unique _ 4096 (a1 * 64 + (a0 * 16 + b1)) (b0 * 256 + (64 * c1 + c0))) by lia.
  rewrite <- (Z.div_unique _ 64 (((4 * a1 + a0) * 16 + b1) * 64 + (b0 * 4 + c1)) c0) by lia.
  split_and!; lia.
Qed.

Lemma three_induction (P : bytes -> Prop) :
  P [] -> (forall a b c bs, P bs -> P (a :: b :: c :: bs)) -> forall bs m, length bs = 3 * m -> P bs.
Proof.
  intros H0 H3 bs m. revert bs. induction m as [|m IH]; intros bs Hl; [destruct bs; [done|cbn in Hl; lia]|].
  destruct bs as [|a [|b [|c bs]]]; cbn in Hl; try lia. apply H3, IH. lia.
Qed.

Lemma encodeChunk_spec bs m : length bs = 3 * m -> forall pre post,
  encodeChunk (pre ++ bs ++ post) (zlen pre) (zlen pre + zlen bs) = encode3 bs.
Proof.
  intros Hl. revert bs m Hl. refine (three_induction _ _ _).
  - intros pre post. unfold encodeChunk. rewrite steps_nil by (unfold zlen; cbn; lia). done.
  - intros a b c bs IH pre post. unfold encodeChunk. rewrite steps_cons by (unfold zlen; cbn [length]; lia).
    cbn [flat_map encode3]. rewrite <- (Z.add_0_r (zlen pre)), !element_app by lia.
    rewrite <- !Z.add_assoc, !element_app by lia.
    change (element ((a :: b :: c :: bs) ++ post) 0) with (ub a). change (element ((a :: b :: c :: bs) ++ post) (0 + 1)) with (ub b).
    change (element ((a :: b :: c :: bs) ++ post) (0 + 2)) with (ub c).
    rewrite !(Z.add_assoc (Z.land (Z.shiftl (ub a) 16) 16711680)).
    destruct (num_digits (ub a) (ub b) (ub c) (ub_range a) (ub_range b) (ub_range c)) as (-> & -> & -> & ->). cbn [app]. do 4 f_equal.
    specialize (IH (pre ++ [a; b; c]) post). rewrite <- IH. unfold encodeChunk.
    rewrite <- !app_assoc. cbn [app]. f_equal. f_equal; unfold zlen; rewrite ?length_app; cbn [length]; lia.
Qed.

Lemma encodeChunk_app e a m c : (a + 3 * Z.of_nat m <= c)%Z ->
  encodeChunk e a c = encodeChunk e a (a + 3 * Z.of_nat m) ++ encodeChunk e (a + 3 * Z.of_nat m) c.
Proof. intros H. unfold encodeChunk. rewrite (steps_app a m c) by lia. apply flat_map_app. Qed.

Lemma chunks_spec e s k : forall a, (Z.to_nat (s - a) <= k)%nat ->
  flat_map (fun a => encodeChunk e a (if s <? a + 16383 then s else a + 16383)%Z) (steps a s 16383) = encodeChunk e a s.
Proof.
  induction k as [|k IH]; intros a Hk.
  - rewrite steps_nil by lia. unfold encodeChunk. by rewrite steps_nil by lia.
  - destruct (Z.le_gt_cases s a) as [Hle|Hlt].
    { rewrite steps_nil by lia. unfold encodeChunk. by rewrite steps_nil by lia. }
    rewrite steps_cons by lia. cbn [flat_map]. rewrite IH by lia. destruct (Z.ltb_spec s (a + 16383)) as [H|H].
    + assert (encodeChunk e (a + 16383) s = []) as -> by (unfold encodeChunk; by rewrite steps_nil by lia). by rewrite app_nil_r.
    + symmetry. apply (encodeChunk_app e a 5461). change (3 * Z.of_nat 5461)%Z with 16383%Z. lia.
Qed.

Lemma encode3_app full tail m : length full = 3 * m -> encode3 (full ++ tail) = encode3 full ++ encode3 tail.
Proof. intros Hl. revert full m Hl. refine (three_induction _ _ _); [done|]. intros a b c bs IH. cbn. by rewrite IH. Qed.

Lemma split3 (bs : bytes) : exists full tail m, bs = full ++ tail /\ length full = 3 * m /\ length tail < 3.
Proof.
  exists (take (3 * (length bs / 3)) bs), (drop (3 * (length bs / 3)) bs), (length bs / 3).
  pose proof (Nat.div_mod_eq (length bs) 3). pose proof (Nat.mod_upper_bound (length bs) 3).
  rewrite take_drop, length_take, length_drop. split_and!; [done|lia..].
Qed.

(** The module encodes by groups of three bytes. *)
Lemma fromByteArray_spec bs : fromByteArray bs = encode3 bs.
Proof.
  destruct (split3 bs) as (full & tail & m & -> & Hf & Ht). rewrite (encode3_app _ _ _ Hf). unfold fromByteArray.
  assert (zlen (full ++ tail) = 3 * Z.of_nat m + zlen tail)%Z as El by (unfold zlen; rewrite length_app; lia).
  assert (zlen tail = 0 \/ zlen tail = 1 \/ zlen tail = 2)%Z as Hcases by (unfold zlen; lia).
  assert (zlen (full ++ tail) mod 3 = zlen tail)%Z as Em.
  { rewrite El, Z.add_comm, Z.mul_comm, Z.mod_add by lia. apply Z.mod_small. lia. }
  rewrite Em, El. replace (3 * Z.of_nat m + zlen tail - zlen tail)%Z with (3 * Z.of_nat m)%Z by lia.
  rewrite (chunks_spec _ _ (3 * m)) by lia.
  pose proof (encodeChunk_spec full m Hf [] tail) as Hc. cbn [app] in Hc.
  replace (zlen [] + zlen full)%Z with (3 * Z.of_nat m)%Z in Hc by (unfold zlen; cbn; lia). change (zlen []) with 0%Z in Hc. rewrite Hc. f_equal.
  assert (forall k, (0 <= k)%Z -> element (full ++ tail) (3 * Z.of_nat m + k) = element tail k) as He.
  { intros k Hk. rewrite <- (element_app full tail k Hk). f_equal. unfold zlen. lia. }
  destruct tail as [|a [|b [|]]]; cbn [length] in Ht; [done| | |lia].
  - change (zlen [a]) with 1%Z. cbn [Z.eqb encode3]. change (1 =? 1)%Z with true. cbn iota.
    replace (3 * Z.of_nat m + 1 - 1)%Z with (3 * Z.of_nat m + 0)%Z by lia. rewrite He by lia. change (element [a] 0) with (ub a).
    pose proof (ub_range a). rewrite land_63, Z.shiftr_div_pow2, Z.shiftl_mul_pow2 by lia. change (2 ^ 2)%Z with 4%Z. change (2 ^ 4)%Z with 16%Z.
    replace ((ub a * 16) mod 64)%Z with (ub a mod 4 * 16)%Z by lia. done.
  - change (zlen [a; b]) with 2%Z. change (2 =? 1)%Z with false. change (2 =? 2)%Z with true. cbn iota.
    replace (3 * Z.of_nat m + 2 - 2)%Z with (3 * Z.of_nat m + 0)%Z by lia. replace (3 * Z.of_nat m + 2 - 1)%Z with (3 * Z.of_nat m + 1)%Z by lia.
    rewrite !He by lia. change (element [a; b] 0) with (ub a). change (element [a; b] 1) with (ub b).
    pose proof (ub_range a). pose proof (ub_range b). cbn [encode3].
    rewrite !land_63, !Z.shiftr_div_pow2, !Z.shiftl_mul_pow2 by lia. change (2 ^ 2)%Z with 4%Z. change (2 ^ 4)%Z with 16%Z. change (2 ^ 8)%Z with 256%Z. change (2 ^ 10)%Z with 1024%Z.
    replace ((ub a * 256 + ub b) / 1024)%Z with (ub a / 4)%Z by lia.
    replace (((ub a * 256 + ub b) / 16) mod 64)%Z with (ub a mod 4 * 16 + ub b / 16)%Z by lia.
    replace (((ub a * 256 + ub b) * 4) mod 64)%Z with (ub b mod 16 * 4)%Z by lia. done.
Qed.

(** ** Decoding what was encoded *)

Lemma digit_app pre s k : (0 <= k)%Z -> digit (pre ++ s) (zlen pre + k) = digit s k.
Proof.
  intros Hk. unfold digit, zlen. replace (Z.to_nat (Z.of_nat (length pre) + k)) with (length pre + Z.to_nat k) by lia.
  by rewrite lookup_app_r, Nat.add_sub_swap, Nat.sub_diag by lia.
Qed.

Lemma digit_cons x s : (0 <= x < 64)%Z -> digit (lookup64 x :: s) 0 = x.
Proof. intros H. by destruct (digit_facts x H). Qed.
Lemma digit_next c s k : (0 <= k)%Z -> digit (c :: s) (k + 1) = digit s k.
Proof. intros H. unfold digit. by replace (Z.to_nat (k + 1)) with (S (Z.to_nat k)) by lia. Qed.

Lemma digit_second c x s : (0 <= x < 64)%Z -> digit (c :: lookup64 x :: s) 1 = x.
Proof. intros H. by destruct (digit_facts x H). Qed.
Lemma digit_third c d x s : (0 <= x < 64)%Z -> digit (c :: d :: lookup64 x :: s) 2 = x.
Proof. intros H. by destruct (digit_facts x H). Qed.

Lemma four_digits a b c d : (0 <= b < 64)%Z -> (0 <= c < 64)%Z -> (0 <= d < 64)%Z ->
  Z.lor (Z.lor (Z.lor (Z.shiftl a 18) (Z.shiftl b 12)) (Z.shiftl c 6)) d = (a * 262144 + b * 4096 + c * 64 + d)%Z.
Proof.
  intros Hb Hc Hd. rewrite !Z.shiftl_mul_pow2 by lia.
  rewrite (lor_high a _ 18) by (change (2 ^ 18)%Z with 262144%Z; change (2 ^ 12)%Z with 4096%Z; lia).
  replace (a * 2 ^ 18 + b * 2 ^ 12)%Z with ((a * 64 + b) * 2 ^ 12)%Z by (change (2 ^ 18)%Z with 262144%Z; change (2 ^ 12)%Z with 4096%Z; lia).
  rewrite (lor_high _ (c * 2 ^ 6) 12) by (change (2 ^ 12)%Z with 4096%Z; change (2 ^ 6)%Z with 64%Z; lia).
  replace ((a * 64 + b) * 2 ^ 12 + c * 2 ^ 6)%Z with (((a * 64 + b) * 64 + c) * 2 ^ 6)%Z by (change (2 ^ 12)%Z with 4096%Z; change (2 ^ 6)%Z with 64%Z; lia).
  rewrite (lor_high _ d 6) by (change (2 ^ 6)%Z with 64%Z; lia). change (2 ^ 6)%Z with 64%Z. lia.
Qed.

Lemma decode_quad_spec (a b c : byte) s pre :
  decode_quad (pre ++ encode3 (a :: b :: c :: []) ++ s) (zlen pre) = [ub a; ub b; ub c].
Proof.
  pose proof (ub_range a) as Ha. pose proof (ub_range b) as Hb. pose proof (ub_range c) as Hc.
  cbn [encode3 app]. unfold decode_quad. rewrite <- (Z.add_0_r (zlen pre)), <- !Z.add_assoc, !digit_app by lia.
  set (d0 := (ub a / 4)%Z). set (d1 := (ub a mod 4 * 16 + ub b / 16)%Z). set (d2 := (ub b mod 16 * 4 + ub c / 64)%Z). set (d3 := (ub c mod 64)%Z).
  change (0 + 3)%Z with (0 + 1 + 1 + 1)%Z. change (0 + 2)%Z with (0 + 1 + 1)%Z. rewrite !digit_next, !digit_cons by (unfold d0, d1, d2, d3; lia).
  rewrite four_digits by (unfold d1, d2, d3; lia).
  assert (d0 * 262144 + d1 * 4096 + d2 * 64 + d3 = ub a * 65536 + ub b * 256 + ub c)%Z as -> by (unfold d0, d1, d2, d3; lia).
  rewrite !land_255, !Z.shiftr_div_pow2 by lia. change (2 ^ 16)%Z with 65536%Z. change (2 ^ 8)%Z with 256%Z.
  rewrite <- (Z.div_unique _ 65536 (ub a) (ub b * 256 + ub c)) by lia. rewrite <- (Z.div_unique _ 256 (ub a * 256 + ub b) (ub c)) by lia.
  do 3 f_equal; [|f_equal|f_equal]; lia.
Qed.

Lemma encode3_length full m : length full = 3 * m -> length (encode3 full) = 4 * m.
Proof.
  intros Hl. assert (length (encode3 full) * 3 = 4 * length full) as H; [|lia].
  revert full m Hl. refine (three_induction _ _ _); [done|]. intros a b c bs IH. cbn [encode3 length]. lia.
Qed.

Lemma quads_spec full m : length full = 3 * m -> forall pre s,
  flat_map (decode_quad (pre ++ encode3 full ++ s)) (steps (zlen pre) (zlen pre + 4 * Z.of_nat m) 4) = ub <$> full.
Proof.
  revert full. induction m as [|m IH]; intros full Hl pre s.
  - rewrite steps_nil by lia. by destruct full; [|cbn in Hl; lia].
  - destruct full as [|a [|b [|c bs]]]; cbn in Hl; try lia. rewrite steps_cons by lia. cbn [flat_map].
    change (encode3 (a :: b :: c :: bs)) with (encode3 [a; b; c] ++ encode3 bs). rewrite <- app_assoc.
    rewrite decode_quad_spec. cbn [app fmap list_fmap]. do 3 f_equal.
    specialize (IH bs ltac:(lia) (pre ++ encode3 [a; b; c]) s). rewrite <- app_assoc in IH. rewrite <- IH.
    f_equal. f_equal; unfold zlen; rewrite length_app; cbn [encode3 length]; lia.
Qed.

Lemma encode3_digits full m : length full = 3 * m -> 61%N ∉ encode3 full.
Proof.
  intros Hl. revert full m Hl. refine (three_induction _ _ _); [by intros ?%elem_of_nil|]. intros a b c bs IH. cbn [encode3].
  pose proof (ub_range a). pose proof (ub_range b). pose proof (ub_range c).
  rewrite !not_elem_of_cons. split_and!; try apply not_eq_sym, digit_facts; try lia. done.
Qed.

Lemma filled_exact bs : filled (zlen bs) (ub <$> bs) = bs.
Proof.
  unfold filled, zlen. rewrite Nat2Z.id, <- list_fmap_compose. rewrite (list_fmap_ext _ id) by (intros; apply z2b_ub).
  rewrite list_fmap_id. apply take_app_length.
Qed.

(** Where the digits of an encoding end *)
Lemma getLens_spec (D T : jsstr) (p : nat) : 61%N ∉ D ++ T -> ((zlen (D ++ T) + Z.of_nat p) mod 4 = 0)%Z -> p < 4 ->
  getLens (D ++ T ++ replicate p 61%N) = Success (zlen (D ++ T), Z.of_nat p).
Proof.
  intros Hn Hm Hp. rewrite app_assoc. set (s := D ++ T) in *. unfold getLens.
  assert (js_length (s ++ replicate p 61%N) = zlen s + Z.of_nat p)%Z as -> by (unfold js_length, zlen; rewrite length_app, length_replicate; lia).
  rewrite Hm. change (0 <? 0)%Z with false. cbn iota.
  assert (0 <= zlen s)%Z as H0 by (unfold zlen; lia).
  destruct p as [|p]; cbn [replicate].
  - rewrite app_nil_r, indexOf_none, Z.add_0_r by done. change (-1 =? -1)%Z with true. cbn iota. by rewrite Z.eqb_refl.
  - rewrite indexOf_app by done. fold (zlen s). rewrite (proj2 (Z.eqb_neq (zlen s) (-1))) by lia.
    rewrite (proj2 (Z.eqb_neq _ _)) by lia. do 2 f_equal. lia.
Qed.

(** The last group of a string whose digits [T] stand for less than three bytes *)
Lemma toByteArray_tail full m (T : jsstr) (p : nat) (tail : bytes) : length full = 3 * m -> 61%N ∉ T -> length T + p = 4 -> p = 1 \/ p = 2 ->
  length tail = 3 - p ->
  (if decide (p = 2) then [Z.land (Z.lor (Z.shiftl (digit T 0) 2) (Z.shiftr (digit T 1) 4)) 255]
   else let t := Z.lor (Z.lor (Z.shiftl (digit T 0) 10) (Z.shiftl (digit T 1) 4)) (Z.shiftr (digit T 2) 2) in
        [Z.land (Z.shiftr t 8) 255; Z.land t 255]) = ub <$> tail ->
  let s := encode3 full ++ T ++ replicate p 61%N in
  toByteArray s = Success (full ++ tail) /\ base64_byteLength s = Success (zlen (full ++ tail)).
Proof.
  intros Hf HT HTp Hp Htail Hlast s. pose proof (encode3_length _ _ Hf) as HD.
  assert (zlen (encode3 full ++ T) = 4 * Z.of_nat m + 4 - Z.of_nat p)%Z as HDT by (unfold zlen; rewrite length_app; lia).
  unfold toByteArray, base64_byteLength, s. rewrite (getLens_spec (encode3 full) T p).
  2: { rewrite elem_of_app. intros [H|H]; [by apply (encode3_digits _ _ Hf)|done]. }
  2: { rewrite HDT. lia. }
  2: { lia. }
  cbn [try_bind]. rewrite HDT. replace (3 * (4 * Z.of_nat m + 4 - Z.of_nat p + Z.of_nat p) / 4 - Z.of_nat p)%Z with (zlen (full ++ tail)).
  2: { unfold zlen. rewrite length_app, Hf, Htail. lia. }
  split; [|done]. rewrite (proj2 (Z.ltb_ge _ _)) by (unfold zlen; lia). rewrite (proj2 (Z.ltb_lt 0 (Z.of_nat p))) by lia.
  rewrite (steps_round 0 m) by lia. rewrite steps_length, Z.add_0_l by lia.
  pose proof (quads_spec full m Hf [] (T ++ replicate p 61%N)) as Hq. cbn [app] in Hq. change (zlen []) with 0%Z in Hq. rewrite Z.add_0_l in Hq. rewrite Hq.
  replace (4 * Z.of_nat m)%Z with (zlen (encode3 full) + 0)%Z by (unfold zlen; lia). rewrite <- !Z.add_assoc, !digit_app by lia.
  assert (forall k, (0 <= k < 4 - Z.of_nat p)%Z -> digit (T ++ replicate p 61%N) k = digit T k) as Hd.
  { intros k Hk. unfold digit. by rewrite lookup_app_l by lia. }
  f_equal. etransitivity; [|apply filled_exact]. f_equal. rewrite fmap_app, <- Hlast. f_equal. destruct Hp as [->| ->]; cbn [Z.of_nat]; rewrite !Hd by lia; done.
Qed.

Lemma decode_encode3 bs : toByteArray (encode3 bs) = Success bs /\ base64_byteLength (encode3 bs) = Success (zlen bs).
Proof.
  destruct (split3 bs) as (full & tail & m & -> & Hf & Ht). rewrite (encode3_app _ _ _ Hf).
  destruct tail as [|a [|b [|]]]; cbn [length] in Ht; try lia; cbn [encode3].
  - rewrite !app_nil_r. pose proof (encode3_length _ _ Hf) as HD. pose proof (encode3_digits _ _ Hf) as HnD.
    pose proof (getLens_spec (encode3 full) [] 0) as H. cbn [app replicate] in H. rewrite app_nil_r in H.
    assert (zlen (encode3 full) = 4 * Z.of_nat m)%Z as HzD by (unfold zlen; lia).
    unfold toByteArray, base64_byteLength. rewrite H by (done || lia). cbn [try_bind]. change (Z.of_nat 0) with 0%Z. rewrite HzD, Z.add_0_r.
    replace (3 * (4 * Z.of_nat m) / 4 - 0)%Z with (zlen full) by (unfold zlen; lia). split; [|done].
    rewrite (proj2 (Z.ltb_ge _ _)) by (unfold zlen; lia). change (0 <? 0)%Z with false. change (0 =? 2)%Z with false. change (0 =? 1)%Z with false. cbn iota.
    pose proof (quads_spec full m Hf [] []) as Hq. cbn [app] in Hq. rewrite app_nil_r in Hq. change (zlen []) with 0%Z in Hq. rewrite Z.add_0_l in Hq.
    by rewrite Hq, !app_nil_r, filled_exact.
  - pose proof (ub_range a) as Ha. apply (toByteArray_tail full m _ 2 [a]); [done| |done|lia|done|].
    { rewrite !not_elem_of_cons. split_and!; try apply not_eq_sym, digit_facts; try lia. apply not_elem_of_nil. }
    rewrite decide_True by done. rewrite digit_cons, digit_second by lia.
    rewrite land_255, Z.shiftl_mul_pow2, Z.shiftr_div_pow2 by lia. rewrite lor_high by (change (2 ^ 4)%Z with 16%Z; change (2 ^ 2)%Z with 4%Z; lia).
    change (2 ^ 4)%Z with 16%Z. change (2 ^ 2)%Z with 4%Z. cbn. f_equal. lia.
  - pose proof (ub_range a) as Ha. pose proof (ub_range b) as Hb. apply (toByteArray_tail full m _ 1 [a; b]); [done| |done|lia|done|].
    { rewrite !not_elem_of_cons. split_and!; try apply not_eq_sym, digit_facts; try lia. apply not_elem_of_nil. }
    rewrite decide_False by done. rewrite digit_cons, digit_second, digit_third by lia.
    set (hi := (ub a mod 4 * 16 + ub b / 16)%Z). set (lo := (ub b mod 16 * 4)%Z).
    assert (Z.lor (Z.lor (Z.shiftl (ub a / 4) 10) (Z.shiftl hi 4)) (Z.shiftr lo 2) = ub a * 256 + ub b)%Z as ->.
    { rewrite !Z.shiftl_mul_pow2, Z.shiftr_div_pow2 by lia. rewrite lor_high by (change (2 ^ 4)%Z with 16%Z; change (2 ^ 10)%Z with 1024%Z; lia).
      replace (ub a / 4 * 2 ^ 10 + hi * 2 ^ 4)%Z with ((ub a / 4 * 64 + hi) * 2 ^ 4)%Z by lia.
      rewrite lor_high by (change (2 ^ 4)%Z with 16%Z; change (2 ^ 2)%Z with 4%Z; lia). change (2 ^ 4)%Z with 16%Z. change (2 ^ 2)%Z with 4%Z. lia. }
    cbv zeta. rewrite !land_255, Z.shiftr_div_pow2 by lia. change (2 ^ 8)%Z with 256%Z. cbn [fmap list_fmap].
    rewrite <- (Z.div_unique _ 256 (ub a) (ub b)) by lia. f_equal; [|f_equal]; lia.
Qed.

(** What base64-js encodes it decodes to the same bytes, and it knows their
    number beforehand; the encoding is four digits for three bytes, rounded up. *)
Theorem base64_roundtrip bs :
  toByteArray (fromByteArray bs) = Success bs /\ base64_byteLength (fromByteArray bs) = Success (zlen bs) /\
  js_length (fromByteArray bs) = (4 * ((zlen bs + 2) / 3))%Z.
Proof.
  rewrite fromByteArray_spec. destruct (decode_encode3 bs) as [-> ->]. split_and!; [done..|].
  destruct (split3 bs) as (full & tail & m & -> & Hf & Ht). rewrite (encode3_app _ _ _ Hf).
  unfold js_length, zlen. rewrite !length_app, (encode3_length _ _ Hf). destruct tail as [|a [|b [|]]]; cbn in Ht |- *; lia.
Qed.
