(* ===== verification/BufferCodec.v ===== *)
(** * BufferCodec: the encodings of the module buffer of the Swagger UI bundle

    src/main/resources/swagger-ui/swagger-ui-bundle.js, lines 45-51 (the same
    module is in swagger-ui-standalone-preset.js, lines 7-13, and in
    swagger-ui.js, lines 2-8): the conversions between strings and bytes.  A
    string is the list of its code units, each below 2^16.  A conversion that
    is given a number of bytes to stay within takes it as [units]; none is
    Infinity. *)

From S2P Require Import Prelude JsCore Base64Js.

(** ** utf8 *)

Definition spend (n : Z) (units : option Z) : option Z := (fun u => u - n)%Z <$> units.
Definition left_over (units : option Z) : bool := match units with Some u => (-1 <? u)%Z | None => true end.

Definition replacement : list Z := [239; 191; 189]%Z.

(** The bytes of a code point, which is below 1114112 *)
Definition utf8_bytes (n : Z) : list Z :=
  (if n <? 128 then [n]
   else if n <? 2048 then [Z.lor (Z.shiftr n 6) 192; Z.lor (Z.land 63 n) 128]
   else if n <? 65536 then [Z.lor (Z.shiftr n 12) 224; Z.lor (Z.land (Z.shiftr n 6) 63) 128; Z.lor (Z.land 63 n) 128]
   else [Z.lor (Z.shiftr n 18) 240; Z.lor (Z.land (Z.shiftr n 12) 63) 128; Z.lor (Z.land (Z.shiftr n 6) 63) 128; Z.lor (Z.land 63 n) 128])%Z.

(** z: utf8ToBytes; [lead] is a high surrogate that waits for a low one.  The
    bytes of a character that does not fit end the loop, a replacement that
    does not fit is left out. *)
Fixpoint utf8_loop (s : jsstr) (lead : option Z) (units : option Z) : list Z :=
  match s with
  | [] => []
  | c :: s' =>
      let n := Z.of_N c in
      let lost := if left_over (spend 3 units) then replacement else [] in
      let put n units :=
        let bs := utf8_bytes n in
        if left_over (spend (zlen bs) units) then bs ++ utf8_loop s' None (spend (zlen bs) units) else [] in
      if (55295 <? n)%Z && (n <? 57344)%Z then
        match lead with
        | None =>
            if (56319 <? n)%Z then lost ++ utf8_loop s' None (spend 3 units)
            else if bool_decide (s' = []) then lost ++ utf8_loop s' None (spend 3 units)
            else utf8_loop s' (Some n) units
        | Some l =>
            if (n <? 56320)%Z then lost ++ utf8_loop s' (Some n) (spend 3 units)
            else put (65536 + Z.lor (Z.shiftl (l - 55296) 10) (n - 56320))%Z units
        end
      else
        match lead with
        | None => put n units
        | Some _ => lost ++ put n (spend 3 units)
        end
  end.

(** z(e, t): no units, or 0 of them, is Infinity *)
Definition utf8ToBytes (s : jsstr) (units : option Z) : list Z :=
  utf8_loop s None (match units with Some 0%Z => None | _ => units end).

(** The code point at the start of some bytes, if there is a whole one, and the
    number of bytes of its sequence: the body of the loop of O *)
Definition utf8_at (l : bytes) : option Z * nat :=
  match l with
  | [] => (None, 1)
  | b :: rest =>
      let c := ub b in
      let f := (if 239 <? c then 4 else if 223 <? c then 3 else if 191 <? c then 2 else 1)%Z in
      let cont x := (Z.land 192 x =? 128)%Z in
      let cp :=
        if (zlen l <? f)%Z then None else
        match f, rest with
        | 1%Z, _ => if (c <? 128)%Z then Some c else None
        | 2%Z, i :: _ =>
            let u := Z.lor (Z.shiftl (Z.land 31 c) 6) (Z.land 63 (ub i)) in
            if cont (ub i) && (127 <? u)%Z then Some u else None
        | 3%Z, i :: a :: _ =>
            let u := Z.lor (Z.lor (Z.shiftl (Z.land 15 c) 12) (Z.shiftl (Z.land 63 (ub i)) 6)) (Z.land 63 (ub a)) in
            if cont (ub i) && cont (ub a) && (2047 <? u)%Z && ((u <? 55296)%Z || (57343 <? u)%Z) then Some u else None
        | 4%Z, i :: a :: s :: _ =>
            let u := Z.lor (Z.lor (Z.lor (Z.shiftl (Z.land 15 c) 18) (Z.shiftl (Z.land 63 (ub i)) 12))
                                  (Z.shiftl (Z.land 63 (ub a)) 6)) (Z.land 63 (ub s)) in
            if cont (ub i) && cont (ub a) && cont (ub s) && (65535 <? u)%Z && (u <? 1114112)%Z then Some u else None
        | _, _ => None
        end in
      (cp, Z.to_nat f)
  end.

(** The code units of a code point *)
Definition utf16_units (l : Z) : jsstr :=
  if (65535 <? l)%Z then
    let l := (l - 65536)%Z in
    [Z.to_N (Z.lor (Z.land (Z.shiftr l 10) 1023) 55296); Z.to_N (Z.lor 56320 (Z.land 1023 l))]
  else [Z.to_N l].

(** O: utf8Slice, of the bytes of the slice *)
Fixpoint utf8_decode (fuel : nat) (l : bytes) : jsstr :=
  match fuel, l with
  | S fuel', _ :: _ =>
      match utf8_at l with
      | (Some cp, f) => utf16_units cp ++ utf8_decode fuel' (drop f l)
      | (None, _) => utf16_units 65533 ++ utf8_decode fuel' (drop 1 l)
      end
  | _, _ => []
  end.
Definition utf8Slice (l : bytes) : jsstr := utf8_decode (length l) l.

(** ** utf16le, ascii, latin1 *)

Fixpoint utf16leToBytes (s : jsstr) (units : Z) : list Z :=
  match s with
  | [] => []
  | c :: s' =>
      let units := (units - 2)%Z in
      if (units <? 0)%Z then [] else (Z.of_N c mod 256 :: Z.shiftr (Z.of_N c) 8 :: utf16leToBytes s' units)%Z
  end.

(** P: an odd byte at the end is a NaN, and the character 0 *)
Fixpoint utf16leSlice (l : bytes) : jsstr :=
  match l with
  | lo :: hi :: l' => fromCharCode (ub lo + 256 * ub hi) :: utf16leSlice l'
  | [_] => [0%N]
  | [] => []
  end.

(** asciiToBytes, of ascii and latin1 alike *)
Definition asciiToBytes (s : jsstr) : list Z := (fun c => Z.land 255 (Z.of_N c)) <$> s.
Definition asciiSlice (l : bytes) : jsstr := (fun b => fromCharCode (Z.land 127 (ub b))) <$> l.
Definition latin1Slice (l : bytes) : jsstr := (fun b => fromCharCode (ub b)) <$> l.

(** ** hex *)

(** The value of a digit of base 16 *)
Definition hex_value (c : N) : option Z :=
  let n := Z.of_N c in
  (if (48 <=? n) && (n <=? 57) then Some (n - 48)
   else if (97 <=? n) && (n <=? 102) then Some (n - 87)
   else if (65 <=? n) && (n <=? 70) then Some (n - 55) else None)%Z.

Fixpoint hex_digits (s : jsstr) : list Z :=
  match s with c :: s' => match hex_value c with Some v => v :: hex_digits s' | None => [] end | [] => [] end.

(** parseInt(s, 16): white space, a sign, 0x, then digits up to what is none *)
Definition parseInt16 (s : jsstr) : option Z :=
  let s := trim_start s in
  let '(neg, s) := match s with 45%N :: r => (true, r) | 43%N :: r => (false, r) | _ => (false, s) end in
  let s := match s with 48%N :: x :: r => if (x =? 120)%N || (x =? 88)%N then r else s | _ => s end in
  match hex_digits s with
  | [] => None
  | ds => let v := foldl (fun n d => 16 * n + d)%Z 0%Z ds in Some (if neg : bool then - v else v)%Z
  end.

(** The numbers b writes, up to the first pair that is not a number *)
Fixpoint hexNumbers (s : jsstr) (count : nat) : list Z :=
  match count with
  | S count' => match parseInt16 (take 2 s) with Some v => v :: hexNumbers (drop 2 s) count' | None => [] end
  | O => []
  end.

(** F: toHex *)
Definition hex_char (x : Z) : N := Z.to_N (if x <? 10 then 48 + x else 87 + x)%Z.
Definition toHex (b : byte) : jsstr :=
  let n := ub b in if (n <? 16)%Z then [48%N; hex_char n] else [hex_char (n / 16); hex_char (n mod 16)].
(** j: hexSlice *)
Definition hexSlice (l : bytes) : jsstr := flat_map toHex l.

(** ** base64 *)

(** q: the characters base64clean keeps *)
Definition base64_char (c : N) : bool :=
  bool_decide (c ∈ js "+/-_") || ((48 <=? c)%N && (c <=? 57)%N) || ((65 <=? c)%N && (c <=? 90)%N) || ((97 <=? c)%N && (c <=? 122)%N).

(** B: base64clean, then toByteArray *)
Definition base64clean (s : jsstr) : jsstr :=
  let e := filter (fun c => base64_char c = true) (trim s) in
  if (js_length e <? 2)%Z then []
  else e ++ replicate (Z.to_nat ((- js_length e) mod 4)) 61%N.
Definition base64ToBytes (s : jsstr) : Try bytes := toByteArray (base64clean s).
