(* ===== verification/BufferCodecThms.v ===== *)
(** * BufferCodecThms: what the encodings of the module buffer keep *)

From S2P Require Import Prelude JsCore Base64Js BufferCodec.

#[local] Ltac Zify.zify_post_hook ::= Z.to_euclidean_division_equations.

(** ** Code points as bytes *)

(** A Unicode scalar value *)
Definition scalar (n : Z) : Prop := (0 <= n < 55296 \/ 57344 <= n < 1114112)%Z.

Lemma continuation b : (Z.land 192 (ub b) =? 128)%Z = ((128 <=? ub b) && (ub b <? 192))%Z.
Proof. by destruct b. Qed.

Lemma land_left k x : (0 <= k)%Z -> Z.land (Z.ones k) x = (x mod 2 ^ k)%Z.
Proof. intros. rewrite Z.land_comm. by apply Z.land_ones. Qed.
Lemma land_63l x : Z.land 63 x = (x mod 64)%Z.
Proof. exact (land_left 6 x ltac:(lia)). Qed.
Lemma land_31l x : Z.land 31 x = (x mod 32)%Z.
Proof. exact (land_left 5 x ltac:(lia)). Qed.
Lemma land_15l x : Z.land 15 x = (x mod 16)%Z.
Proof. exact (land_left 4 x ltac:(lia)). Qed.

Lemma lor_192 x : (0 <= x < 64)%Z -> Z.lor x 192 = (192 + x)%Z.
Proof. intros H. rewrite Z.lor_comm. exact (lor_high 3 x 6 ltac:(lia) H). Qed.
Lemma lor_224 x : (0 <= x < 32)%Z -> Z.lor x 224 = (224 + x)%Z.
Proof. intros H. rewrite Z.lor_comm. exact (lor_high 7 x 5 ltac:(lia) H). Qed.
Lemma lor_240 x : (0 <= x < 16)%Z -> Z.lor x 240 = (240 + x)%Z.
Proof. intros H. rewrite Z.lor_comm. exact (lor_high 15 x 4 ltac:(lia) H). Qed.
Lemma lor_cont x : (0 <= x < 64)%Z -> Z.lor x 128 = (128 + x)%Z.
Proof. intros H. rewrite Z.lor_comm. apply (lor_high 1 x 7); [lia|]. change (2 ^ 7)%Z with 128%Z. lia. Qed.

Lemma lor_6 a b : (0 <= b < 64)%Z -> Z.lor (Z.shiftl a 6) b = (a * 64 + b)%Z.
Proof. intros H. rewrite Z.shiftl_mul_pow2 by lia. exact (lor_high a b 6 ltac:(lia) H). Qed.
Lemma lor_12 a b c : (0 <= b < 64)%Z -> (0 <= c < 64)%Z -> Z.lor (Z.lor (Z.shiftl a 12) (Z.shiftl b 6)) c = (a * 4096 + b * 64 + c)%Z.
Proof.
  intros Hb Hc. pose proof (four_digits 0 a b c) as H. rewrite Z.shiftl_0_l, Z.lor_0_l in H.
  rewrite !Z.shiftl_mul_pow2 by lia. rewrite (lor_high a _ 12) by (change (2 ^ 12)%Z with 4096%Z; change (2 ^ 6)%Z with 64%Z; lia).
  replace (a * 2 ^ 12 + b * 2 ^ 6)%Z with ((a * 64 + b) * 2 ^ 6)%Z by (change (2 ^ 12)%Z with 4096%Z; change (2 ^ 6)%Z with 64%Z; lia).
  rewrite (lor_high _ c 6) by done. change (2 ^ 6)%Z with 64%Z. lia.
Qed.

(** The bytes of a code point, by arithmetic *)
Lemma utf8_bytes_spec n : (0 <= n < 1114112)%Z -> utf8_bytes n =
  (if n <? 128 then [n]
   else if n <? 2048 then [192 + n / 64; 128 + n mod 64]
   else if n <? 65536 then [224 + n / 4096; 128 + n / 64 mod 64; 128 + n mod 64]
   else [240 + n / 262144; 128 + n / 4096 mod 64; 128 + n / 64 mod 64; 128 + n mod 64])%Z.
Proof.
  intros H. unfold utf8_bytes. rewrite !land_63l, !land_63, !Z.shiftr_div_pow2 by lia.
  change (2 ^ 6)%Z with 64%Z. change (2 ^ 12)%Z with 4096%Z. change (2 ^ 18)%Z with 262144%Z.
  destruct (Z.ltb_spec n 128); [done|]. destruct (Z.ltb_spec n 2048); [by rewrite lor_192, lor_cont by lia|].
  destruct (Z.ltb_spec n 65536); [by rewrite lor_224, !lor_cont by lia|]. by rewrite lor_240, !lor_cont by lia.
Qed.

Lemma ub_small n : (0 <= n < 256)%Z -> ub (z2b n) = n.
Proof. intros H. rewrite ub_z2b. by apply Z.mod_small. Qed.

(** The length a first byte announces, and sequences of each length *)
Ltac first_byte := repeat match goal with
  | |- context [(?a <? ?b)%Z] => first [rewrite (proj2 (Z.ltb_lt a b)) by (unfold zlen; cbn [length]; lia) | rewrite (proj2 (Z.ltb_ge a b)) by (unfold zlen; cbn [length]; lia)]
  end.

Lemma utf8_at1 a l : (ub a < 128)%Z -> utf8_at (a :: l) = (Some (ub a), 1).
Proof. intros H. unfold utf8_at. first_byte. done. Qed.

Lemma utf8_at2 a b l : (192 <= ub a < 224)%Z -> (128 <= ub b < 192)%Z ->
  let u := (ub a mod 32 * 64 + ub b mod 64)%Z in (127 < u)%Z -> utf8_at (a :: b :: l) = (Some u, 2).
Proof.
  intros Ha Hb u Hu. unfold utf8_at. first_byte. rewrite continuation, land_31l, land_63l, lor_6 by lia. fold u.
  rewrite (proj2 (Z.leb_le _ _)) by lia. first_byte. done.
Qed.

Lemma utf8_at3 a b c l : (224 <= ub a < 240)%Z -> (128 <= ub b < 192)%Z -> (128 <= ub c < 192)%Z ->
  let u := (ub a mod 16 * 4096 + ub b mod 64 * 64 + ub c mod 64)%Z in (2047 < u)%Z -> (u < 55296 \/ 57343 < u)%Z ->
  utf8_at (a :: b :: c :: l) = (Some u, 3).
Proof.
  intros Ha Hb Hc u Hu Hs. unfold utf8_at. first_byte. rewrite !continuation, land_15l, !land_63l, lor_12 by lia. fold u.
  rewrite !(proj2 (Z.leb_le _ _)), !(proj2 (Z.ltb_lt _ 192)), (proj2 (Z.ltb_lt 2047 u)) by lia. cbn [andb].
  replace ((u <? 55296) || (57343 <? u))%Z with true by (symmetry; apply orb_true_iff; rewrite !Z.ltb_lt; exact Hs). done.
Qed.

Lemma utf8_at4 a b c d l : (240 <= ub a)%Z -> (128 <= ub b < 192)%Z -> (128 <= ub c < 192)%Z -> (128 <= ub d < 192)%Z ->
  let u := (ub a mod 16 * 262144 + ub b mod 64 * 4096 + ub c mod 64 * 64 + ub d mod 64)%Z in (65535 < u < 1114112)%Z ->
  utf8_at (a :: b :: c :: d :: l) = (Some u, 4).
Proof.
  intros Ha Hb Hc Hd u Hu. pose proof (ub_range a). unfold utf8_at. first_byte.
  rewrite !continuation, land_15l, !land_63l, four_digits by lia. fold u.
  rewrite !(proj2 (Z.leb_le _ _)), !(proj2 (Z.ltb_lt _ 192)), (proj2 (Z.ltb_lt 65535 u)), (proj2 (Z.ltb_lt u _)) by lia. done.
Qed.

(** A decoder at the bytes of a scalar value reads that value. *)
Lemma utf8_at_bytes n rest : scalar n -> utf8_at ((z2b <$> utf8_bytes n) ++ rest) = (Some n, length (utf8_bytes n)).
Proof.
  intros Hn. assert (0 <= n < 1114112)%Z as H by (unfold scalar in Hn; lia). rewrite (utf8_bytes_spec n H).
  destruct (Z.ltb_spec n 128); [|destruct (Z.ltb_spec n 2048); [|destruct (Z.ltb_spec n 65536)]]; cbn [fmap list_fmap app length].
  - by rewrite utf8_at1, ub_small by (rewrite ?ub_small; lia).
  - rewrite utf8_at2; rewrite ?ub_small by lia; [|lia..]. do 2 f_equal. lia.
  - rewrite utf8_at3; rewrite ?ub_small by lia; [|unfold scalar in Hn; lia..]. do 2 f_equal. lia.
  - rewrite utf8_at4; rewrite ?ub_small by lia; [|lia..]. do 2 f_equal. lia.
Qed.

Lemma utf8_bytes_length n : 1 <= length (utf8_bytes n) <= 4.
Proof. unfold utf8_bytes. repeat destruct (_ <? _)%Z; cbn; lia. Qed.

Lemma utf8_decode_scalars ns fuel : Forall scalar ns -> length (flat_map utf8_bytes ns) <= fuel ->
  utf8_decode fuel (z2b <$> flat_map utf8_bytes ns) = flat_map utf16_units ns.
Proof.
  intros H. revert fuel. induction H as [|n ns Hn _ IH]; intros fuel Hf; [by destruct fuel|].
  cbn [flat_map] in *. rewrite length_app in Hf. pose proof (utf8_bytes_length n). destruct fuel as [|fuel]; [lia|].
  rewrite fmap_app. pose proof (utf8_at_bytes n (z2b <$> flat_map utf8_bytes ns) Hn) as Hat.
  assert (drop (length (utf8_bytes n)) ((z2b <$> utf8_bytes n) ++ (z2b <$> flat_map utf8_bytes ns)) = z2b <$> flat_map utf8_bytes ns) as Hd.
  { by rewrite <- (length_fmap z2b), drop_app_length. }
  destruct ((z2b <$> utf8_bytes n) ++ _) as [|b l] eqn:E; [apply (f_equal length) in E; rewrite length_app, length_fmap in E; cbn in E; lia|].
  cbn [utf8_decode]. rewrite Hat, Hd. f_equal. apply IH. lia.
Qed.

(** ** Strings as code points *)

Definition high (c : N) : bool := (55296 <=? c)%N && (c <? 56320)%N.
Definition low (c : N) : bool := (56320 <=? c)%N && (c <? 57344)%N.
Definition pair (c d : N) : Z := (65536 + (Z.of_N c - 55296) * 1024 + (Z.of_N d - 56320))%Z.

Lemma high_spec c : reflect (55296 <= Z.of_N c < 56320)%Z (high c).
Proof. apply iff_reflect. unfold high. rewrite andb_true_iff, N.leb_le, N.ltb_lt. lia. Qed.
Lemma low_spec c : reflect (56320 <= Z.of_N c < 57344)%Z (low c).
Proof. apply iff_reflect. unfold low. rewrite andb_true_iff, N.leb_le, N.ltb_lt. lia. Qed.

(** The scalar values of a string, U+FFFD for a surrogate that is alone *)
Fixpoint scalars (s : jsstr) : list Z :=
  match s with
  | [] => []
  | c :: s' =>
      if high c then
        match s' with
        | d :: s'' => if low d then pair c d :: scalars s'' else 65533%Z :: scalars s'
        | [] => [65533%Z]
        end
      else (if low c then 65533%Z else Z.of_N c) :: scalars s'
  end.

Lemma scalars_cons c d s : scalars (c :: d :: s) =
  if high c then if low d then pair c d :: scalars s else 65533%Z :: scalars (d :: s)
  else (if low c then 65533%Z else Z.of_N c) :: scalars (d :: s).
Proof. done. Qed.

(** A string of code units *)
Definition is_string (s : jsstr) : Prop := Forall (fun c => c < 65536)%N s.

(** The one shape the encoder does not get right: two high surrogates at the end *)
Fixpoint two_high_end (s : jsstr) : bool :=
  match s with
  | [c; d] => high c && high d
  | _ :: s' => two_high_end s'
  | [] => false
  end.

(** What it writes then: all but the last *)
Fixpoint written (s : jsstr) : jsstr :=
  match s with
  | [c; d] => if high c && high d then [c] else s
  | c :: s' => c :: written s'
  | [] => []
  end.

Lemma written_all s : two_high_end s = false -> written s = s.
Proof.
  induction s as [|c [|d [|e s]] IH]; intros H; [done|done| |].
  - cbn in H |- *. by rewrite H.
  - change (written (c :: d :: e :: s)) with (c :: written (d :: e :: s)). by rewrite IH.
Qed.

Lemma written_cons c d s : high d = false \/ s <> [] -> written (c :: d :: s) = c :: written (d :: s).
Proof. intros H. destruct s; [|done]. destruct H as [H|]; [|done]. cbn. by rewrite H, andb_false_r. Qed.

Lemma written_not_high c s : high c = false -> written (c :: s) = c :: written s.
Proof. intros H. destruct s as [|d [|e s]]; [done| |done]. cbn. by rewrite H. Qed.

Lemma written_head c s : exists r, written (c :: s) = c :: r.
Proof. destruct s as [|d [|e s]]; cbn; eauto. destruct (_ && _); eauto. Qed.

Lemma written_removes s : written s = if two_high_end s then removelast s else s.
Proof.
  induction s as [|c [|d [|e s]] IH]; [done|done|cbn; by destruct (_ && _)|].
  change (written (c :: d :: e :: s)) with (c :: written (d :: e :: s)). rewrite IH.
  change (two_high_end (c :: d :: e :: s)) with (two_high_end (d :: e :: s)). by destruct (two_high_end _).
Qed.

Lemma written_string s : is_string s -> is_string (written s).
Proof.
  unfold is_string. induction s as [|c [|d [|e s]] IH]; intros H; [done|done| |].
  - cbn. destruct (_ && _); [|done]. by inversion_clear H; constructor.
  - change (written (c :: d :: e :: s)) with (c :: written (d :: e :: s)). inversion_clear H. constructor; auto.
Qed.

Lemma string_induction (P : jsstr -> Prop) :
  P [] -> (forall c, P [c]) -> (forall c d s, P s -> P (d :: s) -> P (c :: d :: s)) -> forall s, P s.
Proof.
  intros H0 H1 H2 s. assert (P s /\ forall c, P (c :: s)) as [H _]; [|done].
  induction s as [|d s [IH1 IH2]]; [by split|]. split; [apply IH2|]. intros c. apply H2; [done|apply IH2].
Qed.

Lemma scalars_scalar s : is_string s -> Forall scalar (scalars s).
Proof.
  induction s as [|c|c d s IH1 IH2] using string_induction; intros Hs; [constructor| |].
  - inversion_clear Hs as [|? ? Hc]. cbn [scalars]. destruct (high_spec c), (low_spec c); (constructor; [|done]); unfold scalar; lia.
  - inversion_clear Hs as [|? ? Hc Hs']. inversion_clear Hs' as [|? ? Hd Hs''].
    assert (is_string (d :: s)) as Hds by (by constructor). specialize (IH1 Hs''). specialize (IH2 Hds).
    rewrite scalars_cons. destruct (high_spec c); [destruct (low_spec d)|destruct (low_spec c)]; (constructor; [|done]); unfold scalar, pair; lia.
Qed.

(** ** The encoder *)

Lemma utf8_replacement : utf8_bytes 65533 = replacement.
Proof. done. Qed.

Lemma surrogate_spec c : ((55295 <? Z.of_N c)%Z && (Z.of_N c <? 57344)%Z) = high c || low c.
Proof. destruct (high_spec c), (low_spec c); cbn [orb]; lia. Qed.
Lemma is_low c : high c || low c = true -> (56319 <? Z.of_N c)%Z = low c.
Proof. destruct (high_spec c), (low_spec c); cbn [orb]; intros; lia. Qed.
Lemma not_low c : high c || low c = true -> (Z.of_N c <? 56320)%Z = negb (low c).
Proof. destruct (high_spec c), (low_spec c); cbn [orb negb]; intros; lia. Qed.

Lemma pair_spec c d : high c = true -> low d = true ->
  (65536 + Z.lor (Z.shiftl (Z.of_N c - 55296) 10) (Z.of_N d - 56320))%Z = pair c d.
Proof.
  intros Hc Hd. destruct (high_spec c), (low_spec d); try done. rewrite Z.shiftl_mul_pow2 by lia.
  rewrite lor_high by (change (2 ^ 10)%Z with 1024%Z; lia). unfold pair. change (2 ^ 10)%Z with 1024%Z. lia.
Qed.

Lemma scalars_not_high c s : high c = false -> scalars (c :: s) = (if low c then 65533%Z else Z.of_N c) :: scalars s.
Proof. intros H. cbn [scalars]. by rewrite H. Qed.

(** The scalar values at the start whose bytes fit *)
Fixpoint fitting (units : option Z) (ns : list Z) : list Z :=
  match ns with
  | n :: ns' => let u := spend (zlen (utf8_bytes n)) units in if left_over u then n :: fitting u ns' else []
  | [] => []
  end.

Lemma left_over_spent n units : (0 <= n)%Z -> left_over units = false -> left_over (spend n units) = false.
Proof. destruct units; cbn; [|done]. rewrite !Z.ltb_ge. lia. Qed.

Lemma utf8_loop_spent s lead units : left_over units = false -> utf8_loop s lead units = [].
Proof.
  revert lead units. induction s as [|c s IH]; intros lead units H; [done|]. cbn [utf8_loop].
  assert (left_over (spend 3 units) = false) as H3 by (apply left_over_spent; [lia|done]).
  assert (forall n u, left_over u = false -> left_over (spend (zlen (utf8_bytes n)) u) = false) as Hn by (intros; apply left_over_spent; [unfold zlen; lia|done]).
  rewrite H3. destruct (_ && _); destruct lead; rewrite ?Hn by done; [destruct (_ <? _)%Z|destruct (_ <? _)%Z; [|destruct (bool_decide _)]|..];
    rewrite ?Hn by done; rewrite ?IH by done; done.
Qed.

(** A character, and a replacement, before the rest *)
Lemma put_fitting n ns units rest : rest (spend (zlen (utf8_bytes n)) units) = flat_map utf8_bytes (fitting (spend (zlen (utf8_bytes n)) units) ns) ->
  (if left_over (spend (zlen (utf8_bytes n)) units) then utf8_bytes n ++ rest (spend (zlen (utf8_bytes n)) units) else []) =
  flat_map utf8_bytes (fitting units (n :: ns)).
Proof. intros H. cbn [fitting]. destruct (left_over _); [|done]. cbn [flat_map]. by rewrite H. Qed.

Lemma lost_fitting ns units rest : (left_over (spend 3 units) = false -> rest (spend 3 units) = []) ->
  rest (spend 3 units) = flat_map utf8_bytes (fitting (spend 3 units) ns) ->
  (if left_over (spend 3 units) then replacement else []) ++ rest (spend 3 units) = flat_map utf8_bytes (fitting units (65533%Z :: ns)).
Proof.
  intros Hs H. cbn [fitting]. change (zlen (utf8_bytes 65533)) with 3%Z. destruct (left_over _); [|by rewrite Hs].
  cbn [flat_map]. by rewrite H.
Qed.

(** The encoder writes the scalar values that fit of what it keeps of a string;
    one that waits for a low surrogate is the high one before it. *)
Lemma utf8_loop_spec s :
  (forall units, utf8_loop s None units = flat_map utf8_bytes (fitting units (scalars (written s)))) /\
  (forall c units, s <> [] -> high c = true ->
    utf8_loop s (Some (Z.of_N c)) units = flat_map utf8_bytes (fitting units (scalars (written (c :: s))))).
Proof.
  induction s as [|d s [IH1 IH2]]; [by split|]. split.
  - intros units. cbn [utf8_loop]. rewrite surrogate_spec. destruct (high d || low d) eqn:Ed; cbn iota.
    + rewrite is_low by done. destruct (low d) eqn:El.
      * assert (high d = false) as Eh by (destruct (high_spec d), (low_spec d); done || lia).
        rewrite written_not_high, scalars_not_high, El by done.
        apply (lost_fitting (scalars (written s)) units (utf8_loop s None)); [apply utf8_loop_spent|apply IH1].
      * rewrite orb_false_r in Ed. case_bool_decide as Es; [|by apply IH2]. subst s. cbn [written scalars]. rewrite Ed.
        by apply (lost_fitting [] units (utf8_loop [] None)).
    + apply orb_false_iff in Ed as [Eh El]. rewrite written_not_high, scalars_not_high, El by done.
      apply (put_fitting _ _ _ (utf8_loop s None)), IH1.
  - intros c units _ Hc. cbn [utf8_loop]. rewrite surrogate_spec. destruct (high d || low d) eqn:Ed; cbn iota.
    + rewrite not_low by done. destruct (low d) eqn:El; cbn [negb].
      * assert (high d = false) as Eh by (destruct (high_spec d), (low_spec d); done || lia).
        rewrite written_cons, written_not_high, scalars_cons, Hc, El, pair_spec by auto.
        apply (put_fitting _ _ _ (utf8_loop s None)), IH1.
      * rewrite orb_false_r in Ed. destruct (decide (s = [])) as [->|Hs].
        { cbn [written]. rewrite Hc, Ed. cbn [andb scalars]. rewrite Hc. by apply (lost_fitting [] units (utf8_loop [] (Some (Z.of_N d)))). }
        rewrite written_cons by auto. destruct (written_head d s) as [r Er]. rewrite Er, scalars_cons, Hc, El, <- Er.
        apply (lost_fitting (scalars (written (d :: s))) units (utf8_loop s (Some (Z.of_N d)))); [apply utf8_loop_spent|by apply IH2].
    + apply orb_false_iff in Ed as [Eh El].
      rewrite written_cons, written_not_high, scalars_cons, Hc, El, scalars_not_high, El by auto.
      apply (lost_fitting (Z.of_N d :: scalars (written s)) units (fun u =>
        if left_over (spend (zlen (utf8_bytes (Z.of_N d))) u) then utf8_bytes (Z.of_N d) ++ utf8_loop s None (spend (zlen (utf8_bytes (Z.of_N d))) u) else [])).
      * intros H. by rewrite left_over_spent by (unfold zlen; done || lia).
      * apply (put_fitting _ _ _ (utf8_loop s None)), IH1.
Qed.

(** The code units of the scalar values of a string: the string with its lone
    surrogates replaced *)
Lemma utf16_pair c d : high c = true -> low d = true -> utf16_units (pair c d) = [c; d].
Proof.
  intros Hc Hd. destruct (high_spec c), (low_spec d); try done. unfold utf16_units. rewrite (proj2 (Z.ltb_lt _ _)) by (unfold pair; lia).
  set (v := (pair c d - 65536)%Z). cbv zeta. rewrite land_1023, (Z.land_comm 1023), land_1023, Z.shiftr_div_pow2 by lia. change (2 ^ 10)%Z with 1024%Z.
  rewrite Z.lor_comm, (lor_high 54 _ 10), (lor_high 55 _ 10) by (try change (2 ^ 10)%Z with 1024%Z; lia). change (2 ^ 10)%Z with 1024%Z.
  f_equal; [|f_equal]; unfold v, pair; lia.
Qed.

Lemma utf16_single c : (c < 65536)%N -> utf16_units (Z.of_N c) = [c].
Proof. intros H. unfold utf16_units. rewrite (proj2 (Z.ltb_ge _ _)) by lia. by rewrite N2Z.id. Qed.

(** No surrogate is alone *)
Fixpoint paired (s : jsstr) : bool :=
  match s with
  | [] => true
  | c :: s' => if high c then match s' with d :: s'' => low d && paired s'' | [] => false end else negb (low c) && paired s'
  end.

Lemma paired_spec s : is_string s -> paired s = true -> flat_map utf16_units (scalars s) = s.
Proof.
  induction s as [|c|c d s IH1 IH2] using string_induction; intros Hs Hp; [done| |]; inversion_clear Hs as [|? ? Hc Hs'].
  - cbn in Hp |- *. destruct (high c); [done|]. apply andb_true_iff in Hp as [Hl _]. apply negb_true_iff in Hl as ->. cbn. by rewrite utf16_single.
  - inversion_clear Hs' as [|? ? Hd Hs'']. change (paired (c :: d :: s)) with (if high c then low d && paired s else negb (low c) && paired (d :: s)) in Hp.
    rewrite scalars_cons. destruct (high c) eqn:Ec; apply andb_true_iff in Hp as [Hl Hp].
    + rewrite Hl. cbn [flat_map]. by rewrite utf16_pair, IH1.
    + apply negb_true_iff in Hl. rewrite Hl. cbn [flat_map]. rewrite utf16_single, IH2; try done. by constructor.
Qed.

Lemma paired_two_high s : paired s = true -> two_high_end s = false.
Proof.
  induction s as [|c|c d s IH1 IH2] using string_induction; intros Hp; [done..|].
  change (paired (c :: d :: s)) with (if high c then low d && paired s else negb (low c) && paired (d :: s)) in Hp.
  destruct (high c) eqn:Ec; apply andb_true_iff in Hp as [Hl Hp].
  - destruct s as [|e s]; [cbn; rewrite Ec; destruct (high_spec d), (low_spec d); done || lia|]. destruct s as [|f s]; [|by apply IH1].
    cbn in Hp |- *. destruct (high_spec d), (low_spec d); done || lia || by destruct (high e).
  - destruct s as [|e s]; [cbn; by rewrite Ec|]. by apply IH2.
Qed.

Lemma fitting_all ns : fitting None ns = ns.
Proof. induction ns as [|n ns IH]; [done|]. cbn. by rewrite IH. Qed.

Lemma fitting_longest u ns : (0 <= u)%Z -> let fs := fitting (Some u) ns in
  exists rest, ns = fs ++ rest /\ (zlen (flat_map utf8_bytes fs) <= u)%Z /\
  forall n rest', rest = n :: rest' -> (u < zlen (flat_map utf8_bytes fs) + zlen (utf8_bytes n))%Z.
Proof.
  revert u. induction ns as [|n ns IH]; intros u Hu; cbn [fitting]; [by exists []|].
  change (spend (zlen (utf8_bytes n)) (Some u)) with (Some (u - zlen (utf8_bytes n))%Z). cbn [left_over].
  destruct (Z.ltb_spec (-1) (u - zlen (utf8_bytes n))) as [H|H].
  - destruct (IH (u - zlen (utf8_bytes n))%Z ltac:(lia)) as (rest & E & Hl & Hr). exists rest. cbn [app flat_map]. rewrite <- E.
    assert (forall l, zlen (utf8_bytes n ++ l) = zlen (utf8_bytes n) + zlen l)%Z as Ha by (intros; unfold zlen; rewrite length_app; lia).
    rewrite Ha. split_and!; [done|lia|]. intros m rest' Em. specialize (Hr m rest' Em). lia.
  - exists (n :: ns). split_and!; [done|done|]. intros m rest' [= <- <-]. change (zlen (flat_map utf8_bytes [])) with 0%Z. lia.
Qed.

(** C12: every string is written in UTF-8 as its scalar values, U+FFFD for a
    surrogate that is alone, but without its last code unit when it ends in two
    high surrogates; within a number of bytes, as many of them as fit, whole.
    Reading the bytes back gives what was written with its lone surrogates
    replaced, hence the string itself when all its surrogates are paired. *)
Theorem utf8_roundtrip s : is_string s ->
  utf8ToBytes s None = flat_map utf8_bytes (scalars (written s)) /\
  utf8Slice (z2b <$> utf8ToBytes s None) = flat_map utf16_units (scalars (written s)) /\
  written s = (if two_high_end s then removelast s else s) /\
  (paired s = true -> utf8Slice (z2b <$> utf8ToBytes s None) = s) /\
  forall u, (0 < u)%Z -> exists fs rest, utf8ToBytes s (Some u) = flat_map utf8_bytes fs /\ scalars (written s) = fs ++ rest /\
    (zlen (flat_map utf8_bytes fs) <= u)%Z /\
    forall n rest', rest = n :: rest' -> (u < zlen (flat_map utf8_bytes fs) + zlen (utf8_bytes n))%Z.
Proof.
  intros Hs. destruct (utf8_loop_spec s) as [H _].
  assert (utf8ToBytes s None = flat_map utf8_bytes (scalars (written s))) as E by (unfold utf8ToBytes; by rewrite H, fitting_all).
  assert (utf8Slice (z2b <$> utf8ToBytes s None) = flat_map utf16_units (scalars (written s))) as Ed.
  { rewrite E. unfold utf8Slice. apply utf8_decode_scalars; [by apply scalars_scalar, written_string|by rewrite length_fmap]. }
  split_and!; [done|done|apply written_removes|intros Hp; by rewrite Ed, written_all, paired_spec by auto using paired_two_high|].
  intros u Hu. destruct (fitting_longest u (scalars (written s)) ltac:(lia)) as (rest & Er & Hl & Hr).
  exists (fitting (Some u) (scalars (written s))), rest.
  split_and!; [|done..]. unfold utf8ToBytes. destruct u; [lia|by apply H|lia].
Qed.

Lemma utf8_roundtrip_witness :
  let s := [104; 233; 8364; 55357; 56832; 56320; 55357; 55357]%N in
  utf8Slice (z2b <$> utf8ToBytes s None) = [104; 233; 8364; 55357; 56832; 65533; 65533]%N /\
  exists fs rest, utf8ToBytes s (Some 7%Z) = flat_map utf8_bytes fs /\ scalars (written s) = fs ++ rest.
Proof.
  intros s. destruct (utf8_roundtrip s) as (_ & E & _ & _ & H); [repeat constructor|]. split; [rewrite E; by vm_compute|].
  destruct (H 7%Z eq_refl) as (fs & rest & E1 & E2 & _). by exists fs, rest.
Defined.

(** Of two high surrogates at the end of a string only the first is
    replaced, and the last is written as nothing. *)
Theorem utf8_drops_last_surrogate : utf8ToBytes [97; 55357; 55357]%N None = utf8_bytes 97 ++ replacement /\
  scalars [97; 55357; 55357]%N = [97; 65533; 65533]%Z.
Proof. done. Qed.

(** ** The other encodings *)

Lemma utf16le_unlimited s u : (2 * js_length s <= u)%Z ->
  utf16leToBytes s u = flat_map (fun c => [Z.of_N c mod 256; Z.shiftr (Z.of_N c) 8]%Z) s.
Proof.
  revert u. induction s as [|c s IH]; intros u H; [done|]. unfold js_length in *. cbn [length] in H. cbn [utf16leToBytes flat_map].
  rewrite (proj2 (Z.ltb_ge _ _)) by lia. cbn [app]. do 2 f_equal. apply IH. lia.
Qed.

Lemma hex_pair b : parseInt16 (toHex b) = Some (ub b).
Proof. by destruct b. Qed.
Lemma toHex_two b : exists x y, toHex b = [x; y].
Proof. unfold toHex. destruct (_ <? _)%Z; eauto. Qed.

Lemma bytes_of_numbers {A} (f : A -> Z) (g : A -> byte) (l : list A) : (forall x, z2b (f x) = g x) -> z2b <$> (f <$> l) = g <$> l.
Proof. intros H. rewrite <- list_fmap_compose. apply list_fmap_ext. intros i x _. apply H. Qed.

Lemma latin1_byte b : Z.land 255 (Z.of_N (fromCharCode (ub b))) = ub b.
Proof. by destruct b. Qed.
Lemma ascii_byte b : Z.land 255 (Z.of_N (fromCharCode (Z.land 127 (ub b)))) = (ub b mod 128)%Z.
Proof. by destruct b. Qed.

Lemma utf16le_read s : is_string s -> utf16leSlice (z2b <$> flat_map (fun c => [Z.of_N c mod 256; Z.shiftr (Z.of_N c) 8]%Z) s) = s.
Proof.
  induction 1 as [|c s Hc _ IH]; [done|]. cbn [flat_map fmap list_fmap app utf16leSlice]. f_equal; [|exact IH].
  rewrite Z.shiftr_div_pow2 by lia. change (2 ^ 8)%Z with 256%Z. rewrite !ub_small by lia. unfold fromCharCode.
  change (2 ^ 16)%Z with 65536%Z. rewrite Z.mod_small by lia. lia.
Qed.

Lemma hex_read bs : hexNumbers (hexSlice bs) (length bs) = ub <$> bs.
Proof.
  induction bs as [|b bs IH]; [done|]. cbn [length hexSlice flat_map hexNumbers fmap list_fmap]. fold (hexSlice bs).
  destruct (toHex_two b) as (x & y & E). pose proof (hex_pair b) as Hp. rewrite E in Hp |- *. change (take 2 ([x; y] ++ hexSlice bs)) with [x; y]. change (drop 2 ([x; y] ++ hexSlice bs)) with (hexSlice bs). by rewrite Hp, IH.
Qed.

(** ** base 64 as the module cleans it *)

Lemma digits_kept :
  forallb (fun k => base64_char (lookup64 (Z.of_nat k)) && negb (is_space (lookup64 (Z.of_nat k)))) (seq 0 64) = true.
Proof. by vm_compute. Qed.

Lemma filter_nothing {A} (P : A -> Prop) `{!forall x, Decision (P x)} (l : list A) : Forall (fun x => ~ P x) l -> filter P l = [].
Proof. induction 1 as [|x l Hx _ IH]; [done|]. by rewrite filter_cons_False. Qed.

(** What base64clean keeps, and trim does not remove *)
Definition kept (c : N) : Prop := base64_char c = true /\ is_space c = false.

Lemma digit_kept x : (0 <= x < 64)%Z -> kept (lookup64 x).
Proof.
  revert x. apply digit_cases. intros k Hk. pose proof digits_kept as H. rewrite forallb_forall in H. specialize (H k).
  rewrite andb_true_iff, negb_true_iff in H. apply H, in_seq. lia.
Qed.

Lemma encode3_shape bs : exists Q p, encode3 bs = Q ++ replicate p 61%N /\ p < 4 /\ ((zlen Q + Z.of_nat p) mod 4 = 0)%Z /\
  Forall kept Q /\ (Q = [] /\ p = 0 \/ 2 <= length Q).
Proof.
  destruct (split3 bs) as (full & tail & m & -> & Hf & Ht). rewrite (encode3_app _ _ _ Hf).
  assert (Forall kept (encode3 full)) as HD.
  { revert full m Hf. refine (three_induction _ _ _); [constructor|]. intros a b c bs IH. cbn [encode3].
    pose proof (ub_range a). pose proof (ub_range b). pose proof (ub_range c). repeat (constructor; [apply digit_kept; lia|]). done. }
  pose proof (encode3_length _ _ Hf) as Hl. destruct tail as [|a [|b [|]]]; cbn [length] in Ht; try lia; cbn [encode3].
  - exists (encode3 full), 0. split_and!; [done|lia|unfold zlen; lia|done|]. destruct m; [left|right; lia]. by destruct (encode3 full).
  - pose proof (ub_range a). exists (encode3 full ++ [lookup64 (ub a / 4); lookup64 (ub a mod 4 * 16)]), 2.
    rewrite <- app_assoc. split_and!; [done|lia|unfold zlen; rewrite length_app; cbn [length]; lia| |right; rewrite length_app; cbn [length]; lia].
    apply Forall_app. split; [done|]. repeat (constructor; [apply digit_kept; lia|]). constructor.
  - pose proof (ub_range a). pose proof (ub_range b). exists (encode3 full ++ [lookup64 (ub a / 4); lookup64 (ub a mod 4 * 16 + ub b / 16); lookup64 (ub b mod 16 * 4)]), 1.
    rewrite <- app_assoc. split_and!; [done|lia|unfold zlen; rewrite length_app; cbn [length]; lia| |right; rewrite length_app; cbn [length]; lia].
    apply Forall_app. split; [done|]. repeat (constructor; [apply digit_kept; lia|]). constructor.
Qed.

Lemma base64clean_encoded bs : base64clean (encode3 bs) = encode3 bs.
Proof.
  destruct (encode3_shape bs) as (Q & p & E & Hp & Hm & HQ & Hlen). unfold base64clean.
  assert (forall x, x ∈ encode3 bs -> is_space x = false) as Hsp.
  { intros x. rewrite E, elem_of_app, elem_of_replicate. intros [Hx|[-> _]]; [|done]. by eapply Forall_forall in HQ as [_ ?]. }
  rewrite trim_id; [|intros c Hc; apply Hsp; by apply head_Some_elem_of in Hc|intros c Hc; apply Hsp; by apply last_Some_elem_of in Hc].
  assert (filter (fun c => base64_char c = true) (encode3 bs) = Q) as ->.
  { rewrite E, filter_app. rewrite (filter_all _ Q) by (by eapply Forall_impl; [exact HQ|intros x []]).
    rewrite filter_nothing; [by rewrite app_nil_r|]. apply Forall_forall. intros x Hx. by apply elem_of_replicate in Hx as [-> _]. }
  unfold js_length. destruct Hlen as [[-> ->]|Hlen]; [by rewrite E|]. rewrite (proj2 (Z.ltb_ge _ _)) by lia. rewrite E. f_equal. f_equal.
  unfold zlen in Hm. lia.
Qed.

(** What the module writes as a string in utf16le, latin1, hexadecimal or
    base 64 it reads back: strings of any code units in utf16le, any bytes in
    the others; and ascii drops the high bit. *)
Theorem codecs_roundtrip :
  (forall s u, is_string s -> (2 * js_length s <= u)%Z -> utf16leSlice (z2b <$> utf16leToBytes s u) = s) /\
  (forall bs, z2b <$> asciiToBytes (latin1Slice bs) = bs) /\
  (forall bs, z2b <$> asciiToBytes (asciiSlice bs) = (fun b => z2b (ub b mod 128)) <$> bs) /\
  (forall bs, z2b <$> hexNumbers (hexSlice bs) (length bs) = bs) /\
  (forall bs, base64ToBytes (fromByteArray bs) = Success bs).
Proof.
  split_and!.
  - intros s u Hs Hu. by rewrite utf16le_unlimited, utf16le_read.
  - intros bs. unfold asciiToBytes, latin1Slice. rewrite <- !list_fmap_compose.
    etransitivity; [|apply list_fmap_id]. apply list_fmap_ext. intros i b _. cbn. by rewrite latin1_byte, z2b_ub.
  - intros bs. unfold asciiToBytes, asciiSlice. rewrite <- !list_fmap_compose. apply list_fmap_ext.
    intros i b _. cbn. by rewrite ascii_byte.
  - intros bs. rewrite hex_read, (bytes_of_numbers _ id); [apply list_fmap_id|apply z2b_ub].
  - intros bs. unfold base64ToBytes. rewrite fromByteArray_spec, base64clean_encoded. apply decode_encode3.
Qed.

(** A pair of characters whose second is no digit is not refused: it is
    written as the number of its first. *)
Theorem hex_accepts_half_digits : hexNumbers (js "agff") 2 = [10; 255]%Z /\ hexNumbers (js "gaff") 2 = [].
Proof. done. Qed.
