(* ===== verification/JsBuffer.v ===== *)
(** * JsBuffer: the module buffer of the Swagger UI bundle

    src/main/resources/swagger-ui/swagger-ui-bundle.js, lines 45-51, where typed
    arrays are there (TYPED_ARRAY_SUPPORT): a buffer is a view of a part of the
    memory of an array buffer, and [slice] makes another view of the same
    memory.  Numbers that are offsets and lengths are integers.  Arguments that
    may be left out are options.  Not modelled: the readers and writers of
    floating point numbers, the search for a buffer in utf16le, inspect, and
    the argument noAssert, which skips the range checks. *)

From S2P Require Import Prelude JsCore Base64Js BufferCodec.

(** ** Memory *)

Record Memory := Mem { arrays : gmap N bytes; fresh : N }.
Abbreviation BF := (Eff Memory).

(** A Buffer object: its identity and the part of an ArrayBuffer it views *)
Record Buffer := Buf { b_obj : N; b_mem : N; b_off : Z; b_len : Z }.

Definition RangeError : exn := Raised "RangeError".
Definition TypeError : exn := Raised "TypeError".

(** The elements of a buffer *)
Definition view (b : Buffer) (m : Memory) : bytes :=
  take (Z.to_nat (b_len b)) (drop (Z.to_nat (b_off b)) (default [] (arrays m !! b_mem b))).
Definition contents (b : Buffer) : BF bytes := gets (view b).

(** this[i] as a number, and this[i] = v, which out of range does nothing *)
Definition get (b : Buffer) (i : Z) : BF Z :=
  gets (fun m => if (i <? 0)%Z then 0%Z else element (view b m) i).
Definition set (b : Buffer) (i v : Z) : BF unit :=
  modify (fun m =>
    if (0 <=? i)%Z && (i <? b_len b)%Z
    then Mem (<[b_mem b := <[Z.to_nat (b_off b + i) := z2b v]> (default [] (arrays m !! b_mem b))]> (arrays m)) (fresh m)
    else m).

(** Assignments, in order *)
Fixpoint set_all (b : Buffer) (l : list (Z * Z)) : BF unit :=
  match l with [] => ret tt | (i, v) :: l' => set b i v ;! set_all b l' end.

(** new Uint8Array(...): of a length, or on an array buffer *)
Definition new_view (mem : N) (off len : Z) : BF Buffer :=
  let! i := gets fresh in modify (fun m => Mem (arrays m) (fresh m + 1)) ;! ret (Buf i mem off len).
Definition new_array (len : Z) : BF Buffer :=
  let! i := gets fresh in
  modify (fun m => Mem (<[i := replicate (Z.to_nat len) (z2b 0)]> (arrays m)) (fresh m + 1)) ;!
  new_view i 0 len.

(** a: kMaxLength *)
Definition kMaxLength : Z := 2147483647.

(** s: createBuffer *)
Definition createBuffer (len : Z) : BF Buffer :=
  guard RangeError (negb (kMaxLength <? len)%Z) ;! guard RangeError (0 <=? len)%Z ;! new_array len.
(** l, h: assertSize, checked *)
Definition assertSize (size : Z) : BF unit := guard RangeError (0 <=? size)%Z.
Definition checked (len : Z) : BF Z := guard RangeError (len <? kMaxLength)%Z ;! ret len.
(** f: allocUnsafe *)
Definition allocUnsafe (size : Z) : BF Buffer :=
  assertSize size ;! let! n := checked size in createBuffer n.

(** ** Encodings *)

Inductive Encoding := Hex | Utf8 | Ascii | Latin1 | Base64 | Utf16le.

Definition encoding_names : list (jsstr * Encoding) :=
  [(js "hex", Hex); (js "utf8", Utf8); (js "utf-8", Utf8); (js "ascii", Ascii); (js "latin1", Latin1); (js "binary", Latin1);
   (js "base64", Base64); (js "ucs2", Utf16le); (js "ucs-2", Utf16le); (js "utf16le", Utf16le); (js "utf-16le", Utf16le)].
Definition encoding_of (s : jsstr) : option Encoding :=
  match list_find (fun p => p.1 = to_lower s) encoding_names with Some (_, (_, e)) => Some e | None => None end.
Definition isEncoding (s : jsstr) : bool := bool_decide (is_Some (encoding_of s)).

(** d: byteLength of a string *)
Definition byteLength (s : jsstr) (enc : option jsstr) : Try Z :=
  if (js_length s =? 0)%Z then Success 0%Z else
  match enc ≫= encoding_of with
  | Some Ascii | Some Latin1 => Success (js_length s)
  | Some Utf8 | None => Success (zlen (utf8ToBytes s None))
  | Some Utf16le => Success (2 * js_length s)%Z
  | Some Hex => Success (js_length s / 2)%Z
  | Some Base64 => try_map zlen (base64ToBytes s)
  end.

(** m, toString: the string of a part of a buffer *)
Definition slice_string (enc : Encoding) (l : bytes) : jsstr :=
  match enc with
  | Hex => hexSlice l
  | Utf8 => utf8Slice l
  | Ascii => asciiSlice l
  | Latin1 => latin1Slice l
  | Base64 => fromByteArray l
  | Utf16le => utf16leSlice l
  end.

Definition toString (enc : option jsstr) (start end_ : option Z) (l : bytes) : Try jsstr :=
  let t := match start with Some t => if (t <? 0)%Z then 0%Z else t | None => 0%Z end in
  if (zlen l <? t)%Z then Success [] else
  let n := match end_ with Some n => if (zlen l <? n)%Z then zlen l else n | None => zlen l end in
  if (n <=? 0)%Z then Success [] else
  if (n <=? t)%Z then Success [] else
  match encoding_of (match enc with Some (x :: s) => x :: s | _ => js "utf8" end) with
  | Some e => Success (slice_string e (take (Z.to_nat (n - t)) (drop (Z.to_nat t) l)))
  | None => Failure TypeError
  end.

(** V: blitBuffer *)
Definition blitBuffer (src : list Z) (b : Buffer) (offset length : Z) : BF Z :=
  let n := Z.max 0 (Z.min length (Z.min (b_len b - offset) (zlen src))) in
  set_all b (imap (fun i v => (Z.of_nat i + offset, v)%Z) (take (Z.to_nat n) src)) ;! ret n.

(** b: hexWrite; a length of 0 is the whole rest of the buffer *)
Definition hexWrite (b : Buffer) (s : jsstr) (offset length : Z) : BF Z :=
  let o := (b_len b - offset)%Z in
  let r := if (length =? 0)%Z then o else if (o <? length)%Z then o else length in
  guard TypeError (js_length s mod 2 =? 0)%Z ;!
  let r := if (js_length s / 2 <? r)%Z then (js_length s / 2)%Z else r in
  let numbers := hexNumbers s (Z.to_nat r) in
  set_all b (imap (fun i v => (Z.of_nat i + offset, v)%Z) numbers) ;! ret (zlen numbers).

(** write(s, offset, length, enc), also with offset and length, or length alone, left
    out of the call: with an offset that is undefined the rest is not looked at. *)
Definition write (b : Buffer) (s : jsstr) (offset length : option Z) (enc : option jsstr) : BF Z :=
  let t := match offset with Some t => toInt t | None => 0%Z end in
  let n := match offset, length with Some _, Some n => Some (toInt n) | Some _, None => None | None, _ => Some (b_len b) end in
  let o := (b_len b - t)%Z in
  let n := match n with Some n => if (o <? n)%Z then o else n | None => o end in
  guard RangeError (negb (((0 <? js_length s) && ((n <? 0) || (t <? 0))) || (b_len b <? t))%Z) ;!
  let enc := match offset, length with None, Some _ => None | _, _ => enc end in
  match encoding_of (match enc with Some (x :: e) => x :: e | _ => js "utf8" end) with
  | Some Hex => hexWrite b s t n
  | Some Utf8 => blitBuffer (utf8ToBytes s (Some (b_len b - t)%Z)) b t n
  | Some Ascii | Some Latin1 => blitBuffer (asciiToBytes s) b t n
  | Some Base64 => let! bs := lift_try (base64ToBytes s) in blitBuffer (ub <$> bs) b t n
  | Some Utf16le => blitBuffer (utf16leToBytes s (b_len b - t)) b t n
  | None => throw TypeError
  end.

(** ** slice, copy, fill *)

(** slice *)
Definition clamp (x len : Z) : Z :=
  (if x <? 0 then (if x + len <? 0 then 0 else x + len) else if len <? x then len else x)%Z.
Definition slice (b : Buffer) (start end_ : option Z) : BF Buffer :=
  let e := clamp (toInt (default 0%Z start)) (b_len b) in
  let t := match end_ with Some t => clamp (toInt t) (b_len b) | None => b_len b end in
  let t := if (t <? e)%Z then e else t in
  new_view (b_mem b) (b_off b + e) (t - e).

(** The bytes of a range are read and written one by one, upwards or downwards. *)
Fixpoint copy_each (src dst : Buffer) (from to : Z) (indices : list Z) : BF unit :=
  match indices with
  | [] => ret tt
  | i :: rest => let! v := get src (i + from) in set dst (i + to) v ;! copy_each src dst from to rest
  end.

(** copy *)
Definition copy (this target : Buffer) (targetStart start end_ : option Z) : BF Z :=
  let n := default 0%Z start in
  let r := default (b_len this) end_ in
  let t := default 0%Z targetStart in
  let t := if (b_len target <=? t)%Z then b_len target else t in
  let r := if (0 <? r)%Z && (r <? n)%Z then n else r in
  if (r =? n)%Z then ret 0%Z else
  if (b_len target =? 0)%Z || (b_len this =? 0)%Z then ret 0%Z else
  guard RangeError (0 <=? t)%Z ;!
  guard RangeError ((0 <=? n) && (n <? b_len this))%Z ;!
  guard RangeError (0 <=? r)%Z ;!
  let r := if (b_len this <? r)%Z then b_len this else r in
  let r := if (b_len target - t <? r - n)%Z then (b_len target - t + n)%Z else r in
  let i := (r - n)%Z in
  (if (b_obj this =? b_obj target)%N && (n <? t)%Z && (t <? r)%Z
   then copy_each this target n t (reverse (seqZ 0 i))
   else if (i <? 1000)%Z then copy_each this target n t (seqZ 0 i)
   else let! l := contents this in
        set_all target (imap (fun k v => (Z.of_nat k + t, v)%Z) (ub <$> take (Z.to_nat i) (drop (Z.to_nat n) l)))) ;!
  ret i.

(** ** Making buffers *)

Inductive FromValue :=
| FromNumber
| FromString (s : jsstr) (enc : option jsstr)
| FromBuffer (b : Buffer)
| FromArray (l : list Z)                             (* array-like, or the data of a JSON buffer *)
| FromArrayBuffer (mem : N) (byteOffset length : option Z)
| FromOther.

(** c, u.from *)
Definition from (v : FromValue) : BF Buffer :=
  match v with
  | FromNumber | FromOther => throw TypeError
  | FromString s enc =>
      let enc := match enc with Some (x :: e) => x :: e | _ => js "utf8" end in
      guard TypeError (isEncoding enc) ;!
      let! r := lift_try (byteLength s (Some enc)) in
      let! e := createBuffer r in
      let! o := write e s None None (Some enc) in
      if (o =? r)%Z then ret e else slice e (Some 0%Z) (Some o)
  | FromBuffer t =>
      let! n := checked (b_len t) in
      let! e := createBuffer n in
      if (n =? 0)%Z then ret e else copy t e (Some 0%Z) (Some 0%Z) (Some n) ;! ret e
  | FromArray l =>
      let! n := checked (zlen l) in
      let! e := createBuffer n in
      set_all e (imap (fun i x => (Z.of_nat i, Z.land 255 x)) l) ;! ret e
  | FromArrayBuffer mem byteOffset length =>
      let! total := gets (fun m => zlen (default [] (arrays m !! mem))) in
      let n := default 0%Z byteOffset in
      guard RangeError ((0 <=? n) && (n <=? total))%Z ;!
      guard RangeError (n + default 0 length <=? total)%Z ;!
      guard RangeError (0 <=? default 0 length)%Z ;!
      new_view mem n (default (total - n)%Z length)
  end.

(** fill *)
Inductive FillValue := FillNumber (x : Z) | FillString (s : jsstr) | FillBuffer (b : Buffer).

(** The bytes of a buffer are read as they are when it is their turn: it may view
    the memory that is filled.  Past the end of an empty one there are zeros. *)
Fixpoint fill_each (b a : Buffer) (t : Z) (indices : list Z) : BF unit :=
  match indices with
  | [] => ret tt
  | i :: rest => let! v := get a (i mod b_len a) in set b (i + t) v ;! fill_each b a t rest
  end.

Definition fill (b : Buffer) (v : FillValue) (start end_ : option Z) (enc : option jsstr) : BF unit :=
  let! v :=
    match v with
    | FillString s =>
        guard TypeError (match enc with Some e => isEncoding e | None => true end) ;!
        ret (match s with [c] => if (c <? 256)%N then FillNumber (Z.of_N c) else v | [] => FillNumber 0 | _ => v end)
    | FillNumber x => ret (FillNumber (Z.land x 255))
    | FillBuffer _ => ret v
    end in
  let t := default 0%Z start in
  guard RangeError ((0 <=? t) && (t <=? b_len b) && match end_ with Some n => n <=? b_len b | None => true end)%Z ;!
  if match start, end_ with Some t, Some n => (n <=? t)%Z | _, _ => false end then ret tt else
  let n := match end_ with Some n => ushr32 n 0 | None => b_len b end in
  match v with
  | FillNumber x => set_all b ((fun i => (i, x)) <$> seqZ t (n - t))
  | FillBuffer a => fill_each b a t (seqZ 0 (n - t))
  | FillString s =>
      let! x := from (FromString s enc) in
      let! l := contents x in
      let! str := lift_try (toString None None None l) in
      let pattern := utf8ToBytes str None in
      set_all b ((fun i => (i + t, nth (Z.to_nat (i mod zlen pattern)) pattern 0)%Z) <$> seqZ 0 (n - t))
  end.

(** alloc *)
Definition alloc (size : Z) (value : option FillValue) (enc : option jsstr) : BF Buffer :=
  assertSize size ;!
  let! b := createBuffer size in
  match value with
  | Some v => if (size <=? 0)%Z then ret b else fill b v None None (match v with FillString _ => enc | _ => None end) ;! ret b
  | None => ret b
  end.

(** concat *)
Fixpoint concat_copy (l : list Buffer) (r : Buffer) (o : Z) : BF unit :=
  match l with
  | [] => ret tt
  | a :: l' => copy a r (Some o) None None ;! concat_copy l' r (o + b_len a)
  end.
Definition concat (l : list Buffer) (total : option Z) : BF Buffer :=
  match l with
  | [] => alloc 0 None None
  | _ =>
      let t := default (foldl (fun n a => n + b_len a) 0 l)%Z total in
      let! r := allocUnsafe t in
      concat_copy l r 0 ;! ret r
  end.
