(* ===== verification/JsBufferNumbers.v ===== *)
(** * JsBufferNumbers: comparison, search, and integers of the module buffer

    src/main/resources/swagger-ui/swagger-ui-bundle.js, lines 45-51.  The
    readers and searches are functions of the elements of a buffer; the writers
    change it.  Numbers are exact while they are below 2^53, which holds for
    integers of up to 6 bytes, the range the module documents. *)

From S2P Require Import Prelude JsCore Base64Js BufferCodec JsBuffer.

(** ** compare, equals *)

(** The first elements that differ, else the lengths *)
Fixpoint compare_loop (a b : bytes) (n r : Z) : Z :=
  match a, b with
  | x :: a', y :: b' => if bool_decide (x = y) then compare_loop a' b' n r else
      (if ub x <? ub y then -1 else if ub y <? ub x then 1 else 0)%Z
  | _, _ => (if n <? r then -1 else if r <? n then 1 else 0)%Z
  end.

(** u.compare, of two buffers *)
Definition compare (this that : Buffer) : BF Z :=
  if (b_obj this =? b_obj that)%N then ret 0%Z else
  let! a := contents this in let! b := contents that in ret (compare_loop a b (zlen a) (zlen b)).
Definition equals (this that : Buffer) : BF bool :=
  if (b_obj this =? b_obj that)%N then ret true else let! c := compare this that in ret (c =? 0)%Z.

(** compare, of parts of two buffers *)
Definition compare_parts (this target : Buffer) (targetStart targetEnd thisStart thisEnd : option Z) : BF Z :=
  let t := default 0%Z targetStart in let n := default (b_len target) targetEnd in
  let r := default 0%Z thisStart in let o := default (b_len this) thisEnd in
  guard RangeError ((0 <=? t) && (n <=? b_len target) && (0 <=? r) && (o <=? b_len this))%Z ;!
  if (o <=? r)%Z && (n <=? t)%Z then ret 0%Z else
  if (o <=? r)%Z then ret (-1)%Z else
  if (n <=? t)%Z then ret 1%Z else
  if (b_obj this =? b_obj target)%N then ret 0%Z else
  let! a := contents this in let! b := contents target in
  ret (compare_loop (take (Z.to_nat (o - r)) (drop (Z.to_nat r) a)) (take (Z.to_nat (n - t)) (drop (Z.to_nat t) b)) (o - r) (n - t)).

(** ** indexOf, lastIndexOf, includes *)

(** y, forwards: [l] is where the match that is being made began, -1 for none *)
Fixpoint search_forward (fuel : nat) (e t : bytes) (i l : Z) : option Z :=
  match fuel with
  | O => None
  | S fuel' =>
      if (i <? zlen e)%Z then
        if (element e i =? element t (if l =? -1 then 0 else i - l))%Z then
          let l := if (l =? -1)%Z then i else l in
          if (i - l + 1 =? zlen t)%Z then Some l else search_forward fuel' e t (i + 1) l
        else
          let i := if (l =? -1)%Z then i else l in
          search_forward fuel' e t (i + 1) (-1)
      else Some (-1)%Z
  end.

(** y, backwards *)
Definition match_at (e t : bytes) (i : Z) : bool :=
  forallb (fun p => (element e (i + p) =? element t p)%Z) (seqZ 0 (zlen t)).
Definition search_backward (e t : bytes) (n : Z) : Z :=
  let s := zlen e in let u := zlen t in
  let n := if (s <? n + u)%Z then (s - u)%Z else n in
  match list_find (fun i => match_at e t i = true) (reverse (seqZ 0 (n + 1))) with Some (_, i) => i | None => (-1)%Z end.

(** g: bidirectionalIndexOf of the bytes of a value, from a byte offset *)
Definition search_fuel (e t : bytes) : nat := S (length e) * S (length t).
Definition bidirectionalIndexOf (e t : bytes) (byteOffset : option Z) (forward : bool) : option Z :=
  if (zlen e =? 0)%Z then Some (-1)%Z else
  let n := match byteOffset with
           | Some n => if (2147483647 <? n)%Z then 2147483647%Z else if (n <? -2147483648)%Z then (-2147483648)%Z else n
           | None => if forward then 0%Z else (zlen e - 1)%Z
           end in
  let n := if (n <? 0)%Z then (zlen e + n)%Z else n in
  if (zlen e <=? n)%Z && forward then Some (-1)%Z else
  if negb (zlen e <=? n)%Z && (n <? 0)%Z && negb forward then Some (-1)%Z else
  let n := if (zlen e <=? n)%Z then (zlen e - 1)%Z else if (n <? 0)%Z then 0%Z else n in
  if (zlen t =? 0)%Z then Some (-1)%Z else
  if forward then search_forward (search_fuel e t) e t n (-1) else Some (search_backward e t n).

(** includes *)
Definition includes (e t : bytes) (byteOffset : option Z) : option bool :=
  (fun i => negb (i =? -1)%Z) <$> bidirectionalIndexOf e t byteOffset true.

(** ** swap16, swap32, swap64 *)

(** v *)
Definition swap (b : Buffer) (n m : Z) : BF unit :=
  let! r := get b n in let! x := get b m in set b n x ;! set b m r.
Fixpoint for_steps (indices : list Z) (body : Z -> BF unit) : BF unit :=
  match indices with [] => ret tt | i :: rest => body i ;! for_steps rest body end.
Definition swap16 (b : Buffer) : BF unit :=
  guard RangeError (b_len b mod 2 =? 0)%Z ;!
  for_steps (steps 0 (b_len b) 2) (fun t => swap b t (t + 1)).
Definition swap32 (b : Buffer) : BF unit :=
  guard RangeError (b_len b mod 4 =? 0)%Z ;!
  for_steps (steps 0 (b_len b) 4) (fun t => swap b t (t + 3) ;! swap b (t + 1) (t + 2)).
Definition swap64 (b : Buffer) : BF unit :=
  guard RangeError (b_len b mod 8 =? 0)%Z ;!
  for_steps (steps 0 (b_len b) 8) (fun t =>
    swap b t (t + 7) ;! swap b (t + 1) (t + 6) ;! swap b (t + 2) (t + 5) ;! swap b (t + 3) (t + 4)).

(** ** Reading integers *)

(** I: checkOffset *)
Definition checkOffset (offset ext length : Z) : Try unit :=
  if (offset <? 0)%Z then Failure RangeError else
  if (length <? offset + ext)%Z then Failure RangeError else Success tt.

(** The loops of the readers: the bytes at some indices, the first one counting least *)
Fixpoint weigh (l : bytes) (indices : list Z) (o : Z) : Z :=
  match indices with [] => 0 | i :: rest => element l i * o + weigh l rest (o * 256) end%Z.

Definition readUIntLE (l : bytes) (offset byteLength : Z) : Try Z :=
  let e := toInt offset in let t := toInt byteLength in
  let? _ := checkOffset e t (zlen l) in
  Success (weigh l (e :: ((fun i => e + i)%Z <$> seqZ 1 (t - 1))) 1).
Definition readUIntBE (l : bytes) (offset byteLength : Z) : Try Z :=
  let e := toInt offset in let t := toInt byteLength in
  let? _ := checkOffset e t (zlen l) in
  Success (weigh l ((e + (t - 1))%Z :: ((fun i => e + i)%Z <$> reverse (seqZ 0 (t - 1)))) 1).

(** The sign bit has the weight of the last byte times 128. *)
Definition signed (r t : Z) : Z := (if 256 ^ Z.max 0 (t - 1) * 128 <=? r then r - 2 ^ (8 * t) else r)%Z.
Definition readIntLE (l : bytes) (offset byteLength : Z) : Try Z :=
  let? r := readUIntLE l offset byteLength in Success (signed r (toInt byteLength)).
Definition readIntBE (l : bytes) (offset byteLength : Z) : Try Z :=
  let? r := readUIntBE l offset byteLength in Success (signed r (toInt byteLength)).

Definition readUInt8 (l : bytes) (e : Z) : Try Z := let? _ := checkOffset e 1 (zlen l) in Success (element l e).
Definition readUInt16LE (l : bytes) (e : Z) : Try Z :=
  let? _ := checkOffset e 2 (zlen l) in Success (Z.lor (element l e) (Z.shiftl (element l (e + 1)) 8)).
Definition readUInt16BE (l : bytes) (e : Z) : Try Z :=
  let? _ := checkOffset e 2 (zlen l) in Success (Z.lor (Z.shiftl (element l e) 8) (element l (e + 1))).
Definition readUInt32LE (l : bytes) (e : Z) : Try Z :=
  let? _ := checkOffset e 4 (zlen l) in
  Success (Z.lor (Z.lor (element l e) (Z.shiftl (element l (e + 1)) 8)) (Z.shiftl (element l (e + 2)) 16)
           + 16777216 * element l (e + 3))%Z.
Definition readUInt32BE (l : bytes) (e : Z) : Try Z :=
  let? _ := checkOffset e 4 (zlen l) in
  Success (16777216 * element l e
           + Z.lor (Z.lor (Z.shiftl (element l (e + 1)) 16) (Z.shiftl (element l (e + 2)) 8)) (element l (e + 3)))%Z.
Definition readInt8 (l : bytes) (e : Z) : Try Z :=
  let? _ := checkOffset e 1 (zlen l) in
  let x := element l e in Success (if (Z.land 128 x =? 0)%Z then x else -1 * (255 - x + 1))%Z.
Definition sign16 (n : Z) : Z := if (Z.land 32768 n =? 0)%Z then n else toInt (Z.lor 4294901760 n).
Definition readInt16LE (l : bytes) (e : Z) : Try Z := let? n := readUInt16LE l e in Success (sign16 n).
Definition readInt16BE (l : bytes) (e : Z) : Try Z := let? n := readUInt16BE l e in Success (sign16 n).
Definition readInt32LE (l : bytes) (e : Z) : Try Z :=
  let? _ := checkOffset e 4 (zlen l) in
  Success (toInt (Z.lor (Z.lor (Z.lor (element l e) (Z.shiftl (element l (e + 1)) 8)) (Z.shiftl (element l (e + 2)) 16))
                        (Z.shiftl (element l (e + 3)) 24))).
Definition readInt32BE (l : bytes) (e : Z) : Try Z :=
  let? _ := checkOffset e 4 (zlen l) in
  Success (toInt (Z.lor (Z.lor (Z.lor (Z.shiftl (element l e) 24) (Z.shiftl (element l (e + 1)) 16)) (Z.shiftl (element l (e + 2)) 8))
                        (element l (e + 3)))).

(** ** Writing integers *)

(** M: checkInt; a negative offset passes it *)
Definition checkInt (b : Buffer) (value offset ext max min : Z) : BF unit :=
  guard RangeError (negb ((max <? value) || (value <? min)))%Z ;!
  guard RangeError (negb (b_len b <? offset + ext))%Z.

Definition writeUIntLE (b : Buffer) (value offset byteLength : Z) : BF Z :=
  let t := toInt offset in let n := toInt byteLength in
  checkInt b value t n (2 ^ (8 * n) - 1) 0 ;!
  set b t (Z.land 255 value) ;!
  set_all b ((fun i => (t + i, Z.land (toInt (Z.quot value (256 ^ i))) 255)%Z) <$> seqZ 1 (n - 1)) ;!
  ret (t + n)%Z.
Definition writeUIntBE (b : Buffer) (value offset byteLength : Z) : BF Z :=
  let t := toInt offset in let n := toInt byteLength in
  checkInt b value t n (2 ^ (8 * n) - 1) 0 ;!
  set b (t + (n - 1)) (Z.land 255 value) ;!
  set_all b ((fun k => (t + (n - 1 - k), Z.land (toInt (Z.quot value (256 ^ k))) 255)%Z) <$> seqZ 1 (n - 1)) ;!
  ret (t + n)%Z.

(** The loops of the writers of signed integers: [at_] gives the index of the
    byte of weight 256^i; s is 1 from the first byte after one that is not 0. *)
Fixpoint write_signed (b : Buffer) (value : Z) (at_ : Z -> Z) (indices : list Z) (s : Z) : BF unit :=
  match indices with
  | [] => ret tt
  | i :: rest =>
      let! prev := get b (at_ (i - 1)%Z) in
      let s := if (value <? 0)%Z && (s =? 0)%Z && negb (prev =? 0)%Z then 1%Z else s in
      set b (at_ i) (Z.land (toInt (Z.quot value (256 ^ i)) - s) 255) ;!
      write_signed b value at_ rest s
  end.
Definition writeIntLE (b : Buffer) (value offset byteLength : Z) : BF Z :=
  let t := toInt offset in let n := byteLength in
  let o := (2 ^ (8 * n - 1))%Z in
  checkInt b value t n (o - 1) (- o) ;!
  set b t (Z.land 255 value) ;!
  write_signed b value (fun i => t + i)%Z (seqZ 1 (n - 1)) 0 ;! ret (t + n)%Z.
Definition writeIntBE (b : Buffer) (value offset byteLength : Z) : BF Z :=
  let t := toInt offset in let n := byteLength in
  let o := (2 ^ (8 * n - 1))%Z in
  checkInt b value t n (o - 1) (- o) ;!
  set b (t + (n - 1)) (Z.land 255 value) ;!
  write_signed b value (fun i => t + (n - 1 - i))%Z (seqZ 1 (n - 1)) 0 ;! ret (t + n)%Z.

(** The writers of a fixed width: 255 & e and e >>> 0 are one byte, and adding 2^8
    or 2^32 to a negative e leaves the bytes as they are. *)
Definition write_bytes (b : Buffer) (value offset max min : Z) (shifts : list Z) : BF Z :=
  let t := toInt offset in
  checkInt b value t (zlen shifts) max min ;!
  set_all b (imap (fun i k => (t + Z.of_nat i, ushr32 value k)%Z) shifts) ;! ret (t + zlen shifts)%Z.
Definition writeUInt8 (b : Buffer) (value offset : Z) : BF Z := write_bytes b value offset 255 0 [0]%Z.
Definition writeUInt16LE (b : Buffer) (value offset : Z) : BF Z := write_bytes b value offset 65535 0 [0; 8]%Z.
Definition writeUInt16BE (b : Buffer) (value offset : Z) : BF Z := write_bytes b value offset 65535 0 [8; 0]%Z.
Definition writeUInt32LE (b : Buffer) (value offset : Z) : BF Z := write_bytes b value offset 4294967295 0 [0; 8; 16; 24]%Z.
Definition writeUInt32BE (b : Buffer) (value offset : Z) : BF Z := write_bytes b value offset 4294967295 0 [24; 16; 8; 0]%Z.
Definition writeInt8 (b : Buffer) (value offset : Z) : BF Z := write_bytes b value offset 127 (-128) [0]%Z.
Definition writeInt16LE (b : Buffer) (value offset : Z) : BF Z := write_bytes b value offset 32767 (-32768) [0; 8]%Z.
Definition writeInt16BE (b : Buffer) (value offset : Z) : BF Z := write_bytes b value offset 32767 (-32768) [8; 0]%Z.
Definition writeInt32LE (b : Buffer) (value offset : Z) : BF Z := write_bytes b value offset 2147483647 (-2147483648) [0; 8; 16; 24]%Z.
Definition writeInt32BE (b : Buffer) (value offset : Z) : BF Z := write_bytes b value offset 2147483647 (-2147483648) [24; 16; 8; 0]%Z.
