(* ===== verification/JsBufferThms.v ===== *)
(** * JsBufferThms: what the operations on buffers do to the memory they view *)

From S2P Require Import Prelude JsCore Base64Js BufferCodec JsBuffer JsBufferNumbers.

#[local] Ltac Zify.zify_post_hook ::= Z.to_euclidean_division_equations.

(** ** Views *)

(** A buffer that views a part of an array there is *)
Definition valid (b : Buffer) (m : Memory) : Prop :=
  (0 <= b_off b)%Z /\ (0 <= b_len b)%Z /\
  exists arr, arrays m !! b_mem b = Some arr /\ (b_off b + b_len b <= zlen arr)%Z.

(** l[i] = v on the elements themselves *)
Definition assign (l : bytes) (i v : Z) : bytes :=
  if (0 <=? i)%Z && (i <? zlen l)%Z then <[Z.to_nat i := z2b v]> l else l.
Definition assign_all (l : bytes) (ws : list (Z * Z)) : bytes := foldl (fun l w => assign l w.1 w.2) l ws.

Lemma view_length b m : valid b m -> zlen (view b m) = b_len b.
Proof.
  intros (Ho & Hl & arr & E & Ha). unfold view, zlen. rewrite E. cbn [from_option]. rewrite length_take, length_drop.
  unfold zlen, id in *. lia.
Qed.

Lemma view_lookup b m i : valid b m -> (0 <= i < b_len b)%Z ->
  view b m !! Z.to_nat i = default [] (arrays m !! b_mem b) !! Z.to_nat (b_off b + i).
Proof.
  intros (Ho & Hl & arr & E & Ha) Hi. unfold view. rewrite lookup_take_lt, lookup_drop by lia. f_equal. lia.
Qed.

(** A view is determined by its elements. *)
Lemma view_ext b m l : valid b m -> zlen l = b_len b -> (forall i, (0 <= i < b_len b)%Z -> view b m !! Z.to_nat i = l !! Z.to_nat i) -> view b m = l.
Proof.
  intros Hv Hl H. pose proof (view_length b m Hv) as Hvl. apply list_eq. intros j.
  destruct (Z.lt_ge_cases (Z.of_nat j) (b_len b)) as [Hj|Hj].
  - rewrite <- (Nat2Z.id j). apply H. lia.
  - rewrite !lookup_ge_None_2; [done|unfold zlen in Hl; lia|unfold zlen in Hvl; lia].
Qed.

Lemma assign_length l i v : zlen (assign l i v) = zlen l.
Proof. unfold assign, zlen. destruct (_ && _); [by rewrite length_insert|done]. Qed.

Lemma assign_lookup l i v j : (0 <= j < zlen l)%Z -> assign l i v !! Z.to_nat j = if (i =? j)%Z then Some (z2b v) else l !! Z.to_nat j.
Proof.
  intros Hj. unfold assign. destruct (Z.eqb_spec i j) as [->|Hne].
  - rewrite (proj2 (Z.leb_le _ _)), (proj2 (Z.ltb_lt _ _)) by lia. cbn [andb]. apply list_lookup_insert_eq. unfold zlen in Hj. lia.
  - destruct (_ && _) eqn:E; [|done]. apply list_lookup_insert_ne. apply andb_true_iff in E as [E1%Z.leb_le _]. lia.
Qed.

(** Where a view of the same memory sees an assignment *)
Lemma set_view b b' i v m : valid b m -> valid b' m ->
  let m' := fst (set b i v m) in
  valid b' m' /\
  view b' m' = (if bool_decide (b_mem b = b_mem b') && (0 <=? i)%Z && (i <? b_len b)%Z
                then assign (view b' m) (b_off b + i - b_off b') v else view b' m).
Proof.
  intros Hv Hv' m'. unfold m', set, modify. cbn [fst]. destruct ((0 <=? i)%Z && (i <? b_len b)%Z) eqn:Ei.
  2: { rewrite <- andb_assoc, Ei, andb_false_r. done. }
  pose proof Hv as (Ho & Hl & arr & E & Ha). pose proof Hv' as (Ho' & Hl' & arr' & E' & Ha').
  apply andb_true_iff in Ei as [Ei1 Ei2]. rewrite <- andb_assoc, Ei1, Ei2, andb_true_r. apply Z.leb_le in Ei1. apply Z.ltb_lt in Ei2. rewrite E. cbn [from_option].
  set (m1 := Mem _ _). assert (valid b' m1) as V1.
  { split_and!; [done..|]. cbn [m1 arrays]. destruct (decide (b_mem b = b_mem b')) as [Heq|Hne].
    - rewrite <- Heq, lookup_insert_eq. eexists. split; [done|]. rewrite <- Heq, E in E'. injection E' as <-. unfold zlen in *. by rewrite length_insert.
    - rewrite lookup_insert_ne by done. eauto. }
  split; [done|]. case_bool_decide as Hm; cbn [andb].
  - apply view_ext; [done|by rewrite assign_length, view_length|]. intros j Hj.
    rewrite assign_lookup by (by rewrite view_length). rewrite !view_lookup by done. cbn [m1 arrays]. rewrite <- Hm, lookup_insert_eq, E. cbn [from_option].
    rewrite <- Hm, E in E'. injection E' as <-. destruct (Z.eqb_spec (b_off b + i - b_off b') j) as [Hj'|Hj'].
    + replace (b_off b' + j)%Z with (b_off b + i)%Z by lia. apply list_lookup_insert_eq.
      unfold zlen, id in *. lia.
    + apply list_lookup_insert_ne. lia.
  - unfold view, m1. cbn [arrays]. by rewrite lookup_insert_ne.
Qed.

Lemma set_self b i v m : valid b m -> let m' := fst (set b i v m) in valid b m' /\ view b m' = assign (view b m) i v.
Proof.
  intros Hv m'. destruct (set_view b b i v m Hv Hv) as [V E]. split; [exact V|]. etransitivity; [exact E|].
  rewrite bool_decide_true by done. rewrite andb_true_l. replace (b_off b + i - b_off b)%Z with i by lia.
  unfold assign. rewrite (view_length b m Hv). destruct ((0 <=? i)%Z && (i <? b_len b)%Z); reflexivity.
Qed.

Lemma set_all_run b ws m : valid b m -> exists m', set_all b ws m = (m', Success tt) /\ valid b m' /\ view b m' = assign_all (view b m) ws.
Proof.
  revert m. induction ws as [|[i v] ws IH]; intros m Hv; [by exists m|]. cbn [set_all]. destruct (set_self b i v m Hv) as [V1 E1].
  destruct (IH _ V1) as (m' & E & V & Ev). exists m'. unfold bind. unfold set at 1, modify at 1. cbn [fst] in E.
  unfold set, modify in V1, E1, Ev, E. cbn [fst] in V1, E1, Ev, E. rewrite E. split_and!; [done..|]. by rewrite Ev, E1.
Qed.

(** ** Assignments to different places *)

Lemma assign_all_length l ws : zlen (assign_all l ws) = zlen l.
Proof. revert l. induction ws as [|w ws IH]; intros l; [done|]. cbn. rewrite IH. apply assign_length. Qed.

Lemma assign_all_miss l ws j : (0 <= j < zlen l)%Z -> Forall (fun w => w.1 <> j) ws -> assign_all l ws !! Z.to_nat j = l !! Z.to_nat j.
Proof.
  revert l. induction ws as [|w ws IH]; intros l Hj Hw; [done|]. inversion_clear Hw as [|? ? H1 H2]. cbn.
  rewrite IH by (rewrite ?assign_length; done). rewrite assign_lookup by done. by rewrite (proj2 (Z.eqb_neq _ _) H1).
Qed.

Lemma assign_all_hit l (f g : Z -> Z) ks k : (0 <= f k < zlen l)%Z -> k ∈ ks ->
  (forall k', k' ∈ ks -> f k' = f k -> g k' = g k) -> assign_all l ((fun k => (f k, g k)) <$> ks) !! Z.to_nat (f k) = Some (z2b (g k)).
Proof.
  intros Hk Hin Hinj. revert l Hk. induction ks as [|k0 ks IH] using rev_ind; intros l Hk; [by apply elem_of_nil in Hin|].
  unfold assign_all. rewrite fmap_app, foldl_app. cbn [fmap list_fmap foldl fst snd]. fold (assign_all l ((fun k => (f k, g k)) <$> ks)).
  rewrite assign_lookup by (by rewrite assign_all_length). destruct (Z.eqb_spec (f k0) (f k)) as [E|E].
  - do 2 f_equal. apply Hinj; [|done]. apply elem_of_app. right. by left.
  - apply IH; [|intros k' Hk'; apply Hinj; apply elem_of_app; by left|done]. apply elem_of_app in Hin as [|Hin]; [done|].
    apply list_elem_of_singleton in Hin as ->. done.
Qed.

(** ** Numbers by their bytes of weight 256^k *)

Definition byte_of (v k : Z) : Z := ((v / 256 ^ k) mod 256)%Z.

Lemma pow256 k : (0 <= k)%Z -> (256 ^ (k + 1) = 256 * 256 ^ k)%Z.
Proof. intros H. rewrite Z.pow_add_r by lia. change (256 ^ 1)%Z with 256%Z. lia. Qed.

(** The readers' loop over the places of the bytes of a number *)
Lemma weigh_bytes l (h : Z -> Z) v (n : nat) a o : (0 <= a)%Z ->
  (forall k, (a <= k < a + Z.of_nat n)%Z -> element l (h k) = byte_of v k) ->
  weigh l (h <$> seqZ a (Z.of_nat n)) o = (o * ((v / 256 ^ a) mod 256 ^ Z.of_nat n))%Z.
Proof.
  intros Ha. revert a o Ha. induction n as [|n IH]; intros a o Ha H; [change (256 ^ Z.of_nat 0)%Z with 1%Z; by rewrite Z.mod_1_r, Z.mul_0_r|].
  rewrite seqZ_cons by lia. replace (Z.pred (Z.of_nat (S n))) with (Z.of_nat n) by lia. cbn [fmap list_fmap weigh].
  change (Z.succ a) with (a + 1)%Z. rewrite IH by (try lia; intros k Hk; apply H; lia). rewrite H by lia. unfold byte_of.
  rewrite (pow256 a) by lia. rewrite (Z.mul_comm 256), <- Z.div_div by lia. set (x := (v / 256 ^ a)%Z).
  replace (Z.of_nat (S n)) with (Z.of_nat n + 1)%Z by lia. rewrite (pow256 (Z.of_nat n)) by lia.
  rewrite (Z.rem_mul_r x 256) by lia. lia.
Qed.

Lemma byte_of_range v k : (0 <= byte_of v k < 256)%Z.
Proof. unfold byte_of. lia. Qed.

(** What an integer of n bytes at an offset is written as: [place] gives the
    index of the byte of weight 256^k, upwards or downwards. *)
Definition upwards (off n k : Z) : Z := (off + k)%Z.
Definition downwards (off n k : Z) : Z := (off + (n - 1 - k))%Z.

Record holds (place : Z -> Z -> Z -> Z) (l0 l : bytes) (off n v : Z) : Prop := {
  holds_length : zlen l = zlen l0;
  holds_bytes k : (0 <= k < n)%Z -> element l (place off n k) = byte_of v k;
  holds_rest j : (0 <= j < off \/ off + n <= j < zlen l0)%Z -> l !! Z.to_nat j = l0 !! Z.to_nat j
}.

Definition is_place (place : Z -> Z -> Z -> Z) : Prop := place = upwards \/ place = downwards.

Lemma place_range place off n k : is_place place -> (0 <= k < n)%Z -> (off <= place off n k < off + n)%Z.
Proof. intros [-> | ->]; unfold upwards, downwards; lia. Qed.
Lemma place_inj place off n k k' : is_place place -> place off n k = place off n k' -> k = k'.
Proof. intros [-> | ->]; unfold upwards, downwards; lia. Qed.

Lemma element_Some l i b : l !! Z.to_nat i = Some b -> element l i = ub b.
Proof. intros H. unfold element. by rewrite H. Qed.

(** Writing the bytes one by one, in any order *)
Lemma assign_holds place l (g : Z -> Z) ks off n v : is_place place -> (0 <= off)%Z -> (off + n <= zlen l)%Z ->
  (forall k, k ∈ ks <-> (0 <= k < n)%Z) -> (forall k, (0 <= k < n)%Z -> (g k mod 256 = byte_of v k)%Z) ->
  holds place l (assign_all l ((fun k => (place off n k, g k)) <$> ks)) off n v.
Proof.
  intros Hp Ho Hn Hks Hg. split; [apply assign_all_length| |].
  - intros k Hk. pose proof (place_range place off n k Hp Hk). erewrite element_Some; [|apply (assign_all_hit l (place off n) g ks k)].
    + rewrite ub_z2b. by apply Hg.
    + lia.
    + by apply Hks.
    + intros k' _ E. by rewrite (place_inj _ _ _ _ _ Hp E).
  - intros j Hj. assert (0 <= n \/ n < 0)%Z as [Hn0|Hn0] by lia.
    + apply assign_all_miss; [lia|]. apply Forall_fmap, Forall_forall. intros k Hk%Hks. pose proof (place_range place off n k Hp Hk). cbn. lia.
    + replace ks with (@nil Z); [done|]. destruct ks as [|k ks]; [done|]. exfalso. pose proof (proj1 (Hks k) ltac:(left)). lia.
Qed.

(** ** Reading them back *)

Lemma checkOffset_ok off n len : (0 <= off)%Z -> (off + n <= len)%Z -> checkOffset off n len = Success tt.
Proof. intros H1 H2. unfold checkOffset. by rewrite !(proj2 (Z.ltb_ge _ _)) by lia. Qed.

Lemma toInt_exact z : (-2147483648 <= z <= 2147483647)%Z -> toInt z = z.
Proof. intros H. apply toInt_small. unfold MinInt, MaxInt. change (2 ^ 31)%Z with 2147483648%Z. lia. Qed.

Lemma reverse_seqZ n : (0 <= n)%Z -> reverse (seqZ 0 n) = (fun k => (n - 1 - k)%Z) <$> seqZ 0 n.
Proof.
  intros Hn. apply list_eq. intros i. destruct (Z.lt_ge_cases (Z.of_nat i) n) as [Hi|Hi].
  - rewrite list_lookup_fmap, lookup_seqZ_lt by done. cbn. rewrite reverse_lookup_Some. rewrite length_seqZ. split; [|lia]. apply lookup_seqZ. lia.
  - rewrite !lookup_ge_None_2; [done|rewrite length_fmap, length_seqZ; lia|rewrite length_reverse, length_seqZ; lia].
Qed.

(** An integer of at most 6 bytes somewhere in a buffer *)
Definition in_bounds (len off n : Z) : Prop := (1 <= n <= 6 /\ 0 <= off /\ off + n <= len <= 2147483647)%Z.

Lemma seqZ_head n : (0 < n)%Z -> seqZ 0 n = 0%Z :: seqZ 1 (n - 1).
Proof. intros H. rewrite seqZ_cons by done. do 2 f_equal. Qed.

Lemma weigh_holds l (h : Z -> Z) v n : (0 <= n)%Z -> (forall k, (0 <= k < n)%Z -> element l (h k) = byte_of v k) ->
  weigh l (h <$> seqZ 0 n) 1 = (v mod 256 ^ n)%Z.
Proof.
  intros Hn Hb. pose proof (weigh_bytes l h v (Z.to_nat n) 0 1 ltac:(lia)) as H. rewrite !Z2Nat.id in H by lia. rewrite H by done.
  change (256 ^ 0)%Z with 1%Z. rewrite Z.div_1_r. lia.
Qed.

Lemma readLE_holds l0 l off n v : in_bounds (zlen l0) off n -> holds upwards l0 l off n v -> readUIntLE l off n = Success (v mod 256 ^ n)%Z.
Proof.
  intros (Hn & Ho & Hl) [Hlen Hb _]. unfold readUIntLE. rewrite !toInt_exact by lia. rewrite checkOffset_ok by lia. cbn [try_bind]. f_equal.
  replace (off :: ((fun i => off + i)%Z <$> seqZ 1 (n - 1))) with (upwards off n <$> seqZ 0 n).
  2: { rewrite seqZ_head by lia. cbn [fmap list_fmap]. f_equal. unfold upwards. lia. }
  apply weigh_holds; [lia|done].
Qed.

Lemma readBE_holds l0 l off n v : in_bounds (zlen l0) off n -> holds downwards l0 l off n v -> readUIntBE l off n = Success (v mod 256 ^ n)%Z.
Proof.
  intros (Hn & Ho & Hl) [Hlen Hb _]. unfold readUIntBE. rewrite !toInt_exact by lia. rewrite checkOffset_ok by lia. cbn [try_bind]. f_equal.
  replace ((off + (n - 1))%Z :: ((fun i => off + i)%Z <$> reverse (seqZ 0 (n - 1)))) with (downwards off n <$> seqZ 0 n).
  2: { rewrite reverse_seqZ, <- list_fmap_compose, seqZ_head by lia. cbn [fmap list_fmap]. f_equal; [unfold downwards; lia|].
       assert (seqZ 1 (n - 1) = Z.add 1 <$> seqZ 0 (n - 1)) as -> by (by rewrite fmap_add_seqZ). rewrite <- list_fmap_compose.
       apply list_fmap_ext. intros i x _. cbn. unfold downwards. lia. }
  apply weigh_holds; [lia|done].
Qed.

(** Two's complement *)
Lemma signed_mod v n : (1 <= n)%Z -> (- 2 ^ (8 * n - 1) <= v < 2 ^ (8 * n - 1))%Z -> signed (v mod 256 ^ n) n = v.
Proof.
  intros Hn Hv. unfold signed. rewrite Z.max_r by lia.
  assert (256 ^ (n - 1) * 128 = 2 ^ (8 * n - 1))%Z as E1.
  { change 256%Z with (2 ^ 8)%Z. change 128%Z with (2 ^ 7)%Z. rewrite <- Z.pow_mul_r, <- Z.pow_add_r by lia. f_equal. lia. }
  assert (2 ^ (8 * n) = 2 * 2 ^ (8 * n - 1))%Z as E2.
  { rewrite <- (Z.pow_succ_r 2) by lia. f_equal. lia. }
  assert (256 ^ n = 2 ^ (8 * n))%Z as E3.
  { change 256%Z with (2 ^ 8)%Z. by rewrite <- Z.pow_mul_r by lia. }
  rewrite E1, E3, E2. set (h := (2 ^ (8 * n - 1))%Z) in *. destruct (Z.lt_ge_cases v 0) as [Hneg|Hpos].
  - assert (v mod (2 * h) = v + 2 * h)%Z as -> by (symmetry; apply Z.mod_unique with (-1)%Z; lia).
    rewrite (proj2 (Z.leb_le _ _)) by lia. lia.
  - rewrite Z.mod_small by lia. by rewrite (proj2 (Z.leb_gt _ _)) by lia.
Qed.

(** ** Writing them *)

Lemma toInt_mod256 z : (toInt z mod 256 = z mod 256)%Z.
Proof. unfold toInt, wrap. change (2 ^ (32 - 1))%Z with 2147483648%Z. change (2 ^ 32)%Z with 4294967296%Z. lia. Qed.

Lemma quot_floor v p : (0 < p)%Z -> (v / p = Z.quot v p - (if (v <? 0) && negb (v mod p =? 0) then 1 else 0))%Z.
Proof.
  intros Hp. destruct (Z.ltb_spec v 0) as [Hv|Hv]; cbn [andb]; [|rewrite Z.quot_div_nonneg by lia; lia].
  replace v with (- - v)%Z at 1 2 by lia. rewrite Z.quot_opp_l, Z.quot_div_nonneg by lia.
  destruct (Z.eqb_spec (v mod p) 0) as [E|E]; cbn [negb].
  - rewrite Z.div_opp_l_z; [lia|lia|]. rewrite Z.mod_opp_l_z by lia. lia.
  - rewrite Z.div_opp_l_nz; [lia|lia|]. rewrite Z.mod_opp_l_nz by lia. pose proof (Z.mod_pos_bound v p Hp). lia.
Qed.

Lemma pow256_pos k : (0 <= k)%Z -> (0 < 256 ^ k)%Z.
Proof. intros. by apply Z.pow_pos_nonneg. Qed.

(** The borrow of the writers of signed integers, and the bytes they write *)
Definition borrow (v k : Z) : Z := (if (v <? 0) && negb (v mod 256 ^ k =? 0) then 1 else 0)%Z.

Lemma borrow_step v k : (1 <= k)%Z ->
  borrow v k = (if (v <? 0) && (borrow v (k - 1) =? 0) && negb (byte_of v (k - 1) =? 0) then 1 else borrow v (k - 1))%Z.
Proof.
  intros Hk. unfold borrow, byte_of. destruct (v <? 0)%Z; [|done]. cbn [andb].
  pose proof (pow256_pos (k - 1) ltac:(lia)) as Hp. set (p := (256 ^ (k - 1))%Z) in *.
  assert (256 ^ k = p * 256)%Z as -> by (unfold p; rewrite Z.mul_comm, <- pow256 by lia; f_equal; lia).
  rewrite Z.rem_mul_r by lia. pose proof (Z.mod_pos_bound v p Hp). pose proof (Z.mod_pos_bound (v / p) 256 ltac:(lia)).
  destruct (Z.eqb_spec (v mod p) 0), (Z.eqb_spec ((v / p) mod 256) 0); cbn [negb Z.eqb andb];
    destruct (Z.eqb_spec (v mod p + p * ((v / p) mod 256)) 0); cbn [negb]; try done; nia.
Qed.

Definition signed_byte (v k : Z) : Z := Z.land (toInt (Z.quot v (256 ^ k)) - borrow v k) 255.

Lemma signed_byte_spec v k : (0 <= k)%Z -> (signed_byte v k mod 256 = byte_of v k)%Z.
Proof.
  intros Hk. unfold signed_byte, byte_of. rewrite land_255, Z.mod_mod by lia. rewrite <- Zminus_mod_idemp_l, toInt_mod256, Zminus_mod_idemp_l.
  by rewrite (quot_floor v (256 ^ k)) by (by apply pow256_pos).
Qed.

Lemma get_run b i m : (0 <= i)%Z -> get b i m = (m, Success (element (view b m) i)).
Proof. intros Hi. unfold get, gets. by rewrite (proj2 (Z.ltb_ge _ _)) by lia. Qed.

Lemma set_run b i v m : set b i v m = (fst (set b i v m), Success tt).
Proof. done. Qed.

(** The loop of the writers of signed integers writes these bytes. *)
Lemma write_signed_run place b v off n count a m : is_place place -> valid b m -> (0 <= off)%Z -> (off + n <= b_len b)%Z ->
  (1 <= a)%Z -> (a + Z.of_nat count = n)%Z -> element (view b m) (place off n (a - 1)%Z) = byte_of v (a - 1) ->
  write_signed b v (place off n) (seqZ a (Z.of_nat count)) (borrow v (a - 1)) m =
  set_all b ((fun k => (place off n k, signed_byte v k)) <$> seqZ a (Z.of_nat count)) m.
Proof.
  intros Hp Hv Ho Hb. revert a m Hv. induction count as [|count IH]; intros a m Hv Ha Hn He; [done|].
  rewrite seqZ_cons by lia. replace (Z.pred (Z.of_nat (S count))) with (Z.of_nat count) by lia. cbn [fmap list_fmap write_signed set_all].
  pose proof (place_range place off n (a - 1) Hp ltac:(lia)) as Hr1. pose proof (place_range place off n a Hp ltac:(lia)) as Hr.
  rewrite (bind_run _ _ _ _ _ (get_run b (place off n (a - 1)%Z) m ltac:(lia))). rewrite He, <- borrow_step by done.
  fold (signed_byte v a). rewrite (bind_run _ _ _ _ _ (set_run _ _ _ m)), (bind_run _ _ _ _ _ (set_run _ _ _ m)).
  destruct (set_self b (place off n a) (signed_byte v a) m Hv) as [V E].
  change (Z.succ a) with (a + 1)%Z. replace (borrow v a) with (borrow v (a + 1 - 1)) by (f_equal; lia). apply IH; [done|lia|lia|].
  replace (a + 1 - 1)%Z with a by lia. rewrite E. rewrite (element_Some _ _ (z2b (signed_byte v a))).
  - rewrite ub_z2b. apply signed_byte_spec. lia.
  - rewrite assign_lookup by (rewrite view_length by done; lia). by rewrite Z.eqb_refl.
Qed.

(** A writer stores v: it succeeds, and the buffer holds the bytes of v. *)
Definition stores (place : Z -> Z -> Z -> Z) (b : Buffer) (m : Memory) (w : BF Z) (off n v : Z) : Prop :=
  exists m', w m = (m', Success (off + n)%Z) /\ valid b m' /\ holds place (view b m) (view b m') off n v.

Lemma checkInt_ok b v off n max min m : (min <= v <= max)%Z -> (off + n <= b_len b)%Z -> checkInt b v off n max min m = (m, Success tt).
Proof.
  intros Hv Hn. unfold checkInt, bind, guard. rewrite !(proj2 (Z.ltb_ge _ _)) by lia. done.
Qed.

Lemma set_all_stores place b m g ks off n v : is_place place -> valid b m -> (0 <= off)%Z -> (off + n <= b_len b)%Z ->
  (forall k, k ∈ ks <-> (0 <= k < n)%Z) -> (forall k, (0 <= k < n)%Z -> (g k mod 256 = byte_of v k)%Z) ->
  stores place b m (set_all b ((fun k => (place off n k, g k)) <$> ks) ;! ret (off + n)%Z) off n v.
Proof.
  intros Hp Hv Ho Hn Hks Hg. destruct (set_all_run b ((fun k => (place off n k, g k)) <$> ks) m Hv) as (m' & E & V & Ev).
  exists m'. rewrite (bind_run _ _ _ _ _ E). split_and!; [done..|]. rewrite Ev. apply assign_holds; try done. by rewrite view_length.
Qed.

Lemma set_then b i v ws m {A} (k : BF A) : (set b i v ;! set_all b ws ;! k) m = (set_all b ((i, v) :: ws) ;! k) m.
Proof. done. Qed.

Lemma elem_of_upto n k : (0 < n)%Z -> k ∈ 0%Z :: seqZ 1 (n - 1) <-> (0 <= k < n)%Z.
Proof. intros H. rewrite <- seqZ_head by done. rewrite elem_of_seqZ. lia. Qed.

Lemma in_bounds_toInt len off n : in_bounds len off n -> toInt off = off /\ toInt n = n.
Proof. intros (H1 & H2 & H3). split; apply toInt_exact; lia. Qed.

Lemma unsigned_byte v k : (0 <= v)%Z -> (0 <= k)%Z -> (Z.land (toInt (Z.quot v (256 ^ k))) 255 mod 256 = byte_of v k)%Z.
Proof.
  intros Hv Hk. pose proof (pow256_pos k Hk). rewrite land_255, Z.mod_mod, toInt_mod256, Z.quot_div_nonneg by lia. done.
Qed.
Lemma low_byte v : (Z.land 255 v mod 256 = byte_of v 0)%Z.
Proof. unfold byte_of. rewrite Z.land_comm, land_255, Z.mod_mod by lia. by rewrite Z.div_1_r. Qed.

(** The loop of the unsigned writers: the byte of weight 1, then the others *)
Lemma unsigned_stores place b m off n v : is_place place -> valid b m -> in_bounds (b_len b) off n -> (0 <= v)%Z ->
  stores place b m (set b (place off n 0%Z) (Z.land 255 v) ;!
    set_all b ((fun k => (place off n k, Z.land (toInt (Z.quot v (256 ^ k))) 255)%Z) <$> seqZ 1 (n - 1)) ;! ret (off + n)%Z) off n v.
Proof.
  intros Hp Hv (Hn & Ho & Hl) H0.
  pose proof (set_all_stores place b m (fun k => if (k =? 0)%Z then Z.land 255 v else Z.land (toInt (Z.quot v (256 ^ k))) 255) (0%Z :: seqZ 1 (n - 1)) off n v
    Hp Hv Ho ltac:(lia) ltac:(intros; apply elem_of_upto; lia)) as H. cbn [fmap list_fmap] in H.
  assert (((fun k => (place off n k, if (k =? 0)%Z then Z.land 255 v else Z.land (toInt (Z.quot v (256 ^ k))) 255)) <$> seqZ 1 (n - 1)) =
          ((fun k => (place off n k, Z.land (toInt (Z.quot v (256 ^ k))) 255)) <$> seqZ 1 (n - 1))) as E.
  { apply list_fmap_ext. intros i k Hk%lookup_seqZ. by rewrite (proj2 (Z.eqb_neq _ _)) by lia. }
  rewrite E in H. destruct H as (m' & Em & V & Hh); [|exists m'; split; [by rewrite set_then|done]].
  intros k Hk. destruct (Z.eqb_spec k 0) as [->|]; [apply low_byte|apply unsigned_byte; lia].
Qed.

Lemma signed_stores place b m off n v : is_place place -> valid b m -> in_bounds (b_len b) off n ->
  stores place b m (set b (place off n 0%Z) (Z.land 255 v) ;!
    write_signed b v (place off n) (seqZ 1 (n - 1)) 0 ;! ret (off + n)%Z) off n v.
Proof.
  intros Hp Hv (Hn & Ho & Hl).
  pose proof (set_all_stores place b m (fun k => if (k =? 0)%Z then Z.land 255 v else signed_byte v k) (0%Z :: seqZ 1 (n - 1)) off n v
    Hp Hv Ho ltac:(lia) ltac:(intros; apply elem_of_upto; lia)) as H. cbn [fmap list_fmap] in H.
  assert (((fun k => (place off n k, if (k =? 0)%Z then Z.land 255 v else signed_byte v k)) <$> seqZ 1 (n - 1)) =
          ((fun k => (place off n k, signed_byte v k)) <$> seqZ 1 (n - 1))) as E.
  { apply list_fmap_ext. intros i k Hk%lookup_seqZ. by rewrite (proj2 (Z.eqb_neq _ _)) by lia. }
  rewrite E in H. destruct H as (m' & Em & V & Hh).
  { intros k Hk. destruct (Z.eqb_spec k 0) as [->|]; [apply low_byte|apply signed_byte_spec; lia]. }
  exists m'. split; [|done]. rewrite <- Em, <- set_then.
  rewrite !(bind_run _ _ _ _ _ (set_run b (place off n 0%Z) (Z.land 255 v) m)). change (0 =? 0)%Z with true. cbn iota.
  destruct (set_self b (place off n 0%Z) (Z.land 255 v) m Hv) as [V1 E1]. pose proof (place_range place off n 0 Hp ltac:(lia)) as Hr.
  pose proof (write_signed_run place b v off n (Z.to_nat (n - 1)) 1 _ Hp V1 Ho ltac:(lia) ltac:(lia) ltac:(lia)) as Hw.
  rewrite !Z2Nat.id in Hw by lia. change (1 - 1)%Z with 0%Z in Hw.
  assert (borrow v 0 = 0)%Z as Hb0 by (unfold borrow; change (256 ^ 0)%Z with 1%Z; rewrite Z.mod_1_r, andb_false_r; done). rewrite Hb0 in Hw.
  unfold bind at 1. rewrite Hw; [done|]. rewrite E1, (element_Some _ _ (z2b (Z.land 255 v))); [rewrite ub_z2b; apply low_byte|].
  rewrite assign_lookup by (rewrite view_length by done; lia). by rewrite Z.eqb_refl.
Qed.

(** C13: an integer of one to six bytes in its range, written at an offset where it
    fits, upwards or downwards, unsigned or signed, is read back as it was; the
    writer returns the offset after it, and no other byte of the buffer changes. *)
Theorem integers_roundtrip b m off n v : valid b m -> in_bounds (b_len b) off n ->
  ((0 <= v < 256 ^ n)%Z ->
    stores upwards b m (writeUIntLE b v off n) off n v /\ stores downwards b m (writeUIntBE b v off n) off n v) /\
  ((- 2 ^ (8 * n - 1) <= v < 2 ^ (8 * n - 1))%Z ->
    stores upwards b m (writeIntLE b v off n) off n v /\ stores downwards b m (writeIntBE b v off n) off n v) /\
  forall l, (holds upwards (view b m) l off n v ->
      ((0 <= v < 256 ^ n)%Z -> readUIntLE l off n = Success v) /\ ((- 2 ^ (8 * n - 1) <= v < 2 ^ (8 * n - 1))%Z -> readIntLE l off n = Success v)) /\
    (holds downwards (view b m) l off n v ->
      ((0 <= v < 256 ^ n)%Z -> readUIntBE l off n = Success v) /\ ((- 2 ^ (8 * n - 1) <= v < 2 ^ (8 * n - 1))%Z -> readIntBE l off n = Success v)).
Proof.
  intros Hv Hb. destruct (in_bounds_toInt _ _ _ Hb) as [To Tn]. pose proof Hb as (Hn & Ho & Hl).
  assert (256 ^ n = 2 ^ (8 * n))%Z as E3 by (change 256%Z with (2 ^ 8)%Z; by rewrite <- Z.pow_mul_r by lia). split_and!.
  - intros Hr. unfold writeUIntLE, writeUIntBE. rewrite To, Tn. split.
    + destruct (unsigned_stores upwards b m off n v) as (m' & E & H); [by left|done..|lia|]. exists m'. split; [|done].
      rewrite (bind_run _ _ _ _ _ (checkInt_ok b v off n (2 ^ (8 * n) - 1) 0 m ltac:(lia) ltac:(lia))). rewrite <- E. unfold upwards. by rewrite Z.add_0_r.
    + destruct (unsigned_stores downwards b m off n v) as (m' & E & H); [by right|done..|lia|]. exists m'. split; [|done].
      rewrite (bind_run _ _ _ _ _ (checkInt_ok b v off n (2 ^ (8 * n) - 1) 0 m ltac:(lia) ltac:(lia))). rewrite <- E. unfold downwards. by rewrite Z.sub_0_r.
  - intros Hr. unfold writeIntLE, writeIntBE. rewrite To. split.
    + destruct (signed_stores upwards b m off n v) as (m' & E & H); [by left|done..|]. exists m'. split; [|done].
      rewrite (bind_run _ _ _ _ _ (checkInt_ok b v off n (2 ^ (8 * n - 1) - 1) (- 2 ^ (8 * n - 1)) m ltac:(lia) ltac:(lia))). rewrite <- E. unfold upwards. by rewrite Z.add_0_r.
    + destruct (signed_stores downwards b m off n v) as (m' & E & H); [by right|done..|]. exists m'. split; [|done].
      rewrite (bind_run _ _ _ _ _ (checkInt_ok b v off n (2 ^ (8 * n - 1) - 1) (- 2 ^ (8 * n - 1)) m ltac:(lia) ltac:(lia))). rewrite <- E. unfold downwards. by rewrite Z.sub_0_r.
  - intros l. rewrite <- (view_length b m Hv) in Hb. unfold readIntLE, readIntBE. split; intros Hh.
    + rewrite (readLE_holds _ _ _ _ _ Hb Hh). split; intros Hr; [by rewrite Z.mod_small|]. cbn [try_bind]. by rewrite Tn, signed_mod by (done || lia).
    + rewrite (readBE_holds _ _ _ _ _ Hb Hh). split; intros Hr; [by rewrite Z.mod_small|]. cbn [try_bind]. by rewrite Tn, signed_mod by (done || lia).
Qed.

Lemma integers_roundtrip_witness :
  let b := Buf 1 0 1 6 in let m := Mem {[ 0%N := replicate 8 (z2b 0) ]} 2 in
  exists m1 m2, writeIntBE b (-70000) 1 3 m = (m1, Success 4%Z) /\ readIntBE (view b m1) 1 3 = Success (-70000)%Z /\
    writeUIntLE b 281474976710655 0 6 m = (m2, Success 6%Z) /\ readUIntLE (view b m2) 0 6 = Success 281474976710655%Z.
Proof.
  intros b m. assert (valid b m) as Hv by (split_and!; [done|done|]; eexists; split; [by vm_compute|by vm_compute]).
  destruct (integers_roundtrip b m 1 3 (-70000) Hv) as (_ & H1 & R1); [done|].
  destruct (integers_roundtrip b m 0 6 281474976710655 Hv) as (H2 & _ & R2); [done|].
  destruct H1 as (_ & m1 & E1 & _ & S1); [by vm_compute|]. destruct H2 as ((m2 & E2 & _ & S2) & _); [by vm_compute|]. exists m1, m2. split_and!.
  - exact E1.
  - apply (R1 (view b m1)); [exact S1|by vm_compute].
  - exact E2.
  - apply (R2 (view b m2)); [exact S2|by vm_compute].
Defined.

(** ** The readers and writers of a fixed width *)

Lemma element_range l i : (0 <= element l i < 256)%Z.
Proof. unfold element. destruct (l !! _); [apply ub_range|lia]. Qed.

Lemma lor_low a b k : (0 <= k)%Z -> (0 <= a < 2 ^ k)%Z -> Z.lor a (Z.shiftl b k) = (a + b * 2 ^ k)%Z.
Proof. intros Hk Ha. rewrite Z.lor_comm, Z.shiftl_mul_pow2, lor_high by done. lia. Qed.

Lemma lor2 a b : (0 <= a < 256)%Z -> Z.lor a (Z.shiftl b 8) = (a + b * 256)%Z.
Proof. intros H. exact (lor_low a b 8 ltac:(lia) H). Qed.
Lemma lor3 a b c : (0 <= a < 256)%Z -> (0 <= b < 256)%Z -> Z.lor (Z.lor a (Z.shiftl b 8)) (Z.shiftl c 16) = (a + b * 256 + c * 65536)%Z.
Proof. intros Ha Hb. rewrite lor2 by done. apply (lor_low _ c 16); [lia|]. change (2 ^ 16)%Z with 65536%Z. lia. Qed.
Lemma lor4 a b c d : (0 <= a < 256)%Z -> (0 <= b < 256)%Z -> (0 <= c < 256)%Z ->
  Z.lor (Z.lor (Z.lor a (Z.shiftl b 8)) (Z.shiftl c 16)) (Z.shiftl d 24) = (a + b * 256 + c * 65536 + d * 16777216)%Z.
Proof. intros Ha Hb Hc. rewrite lor3 by done. apply (lor_low _ d 24); [lia|]. change (2 ^ 24)%Z with 16777216%Z. lia. Qed.

Lemma bit7 x : (0 <= x < 256)%Z -> (Z.land 128 x =? 0)%Z = (x <? 128)%Z.
Proof. intros H. rewrite <- (Z.mod_small x 256), <- ub_z2b by done. by destruct (z2b x). Qed.

Lemma land_high a b k : (0 <= k)%Z -> (0 <= b < 2 ^ k)%Z -> Z.land (a * 2 ^ k) b = 0%Z.
Proof. intros Hk Hb. pose proof (lor_high a b k Hk Hb). pose proof (Z.add_lor_land (a * 2 ^ k) b). lia. Qed.

Lemma sign16_spec n : (0 <= n < 65536)%Z -> sign16 n = (if n <? 32768 then n else n - 65536)%Z.
Proof.
  intros H. unfold sign16. destruct (Z.ltb_spec n 32768).
  - change 32768%Z with (1 * 2 ^ 15)%Z at 1. rewrite land_high by (change (2 ^ 15)%Z with 32768%Z; lia). done.
  - assert (Z.land 32768 n = 32768)%Z as ->.
    { replace n with (Z.lor (1 * 2 ^ 15) (n - 32768)) by (rewrite lor_high by (change (2 ^ 15)%Z with 32768%Z; lia); change (2 ^ 15)%Z with 32768%Z; lia).
      pose proof (land_high 1 (n - 32768) 15 ltac:(lia) ltac:(change (2 ^ 15)%Z with 32768%Z; lia)) as E.
      change (1 * 2 ^ 15)%Z with 32768%Z in *. by rewrite Z.land_lor_distr_r, Z.land_diag, E, Z.lor_0_r. }
    change (32768 =? 0)%Z with false. cbn iota. change 4294901760%Z with (65535 * 2 ^ 16)%Z. rewrite lor_high by (change (2 ^ 16)%Z with 65536%Z; lia).
    change (2 ^ 16)%Z with 65536%Z. unfold toInt, wrap. change (2 ^ (32 - 1))%Z with 2147483648%Z. change (2 ^ 32)%Z with 4294967296%Z. lia.
Qed.

(** Each of them reads what the reader of its number of bytes reads. *)
Definition unsigned_reads (r : bytes -> Z -> Try Z) (rn : bytes -> Z -> Z -> Try Z) (n : Z) : Prop :=
  forall l off, in_bounds (zlen l) off n -> r l off = rn l off n.

Ltac read_bytes l off :=
  intros l off Hb; destruct (in_bounds_toInt _ _ _ Hb) as [To Tn]; pose proof Hb as (_ & Ho & Hl);
  pose proof (element_range l); 
  unfold readUInt8, readUInt16LE, readUInt16BE, readUInt32LE, readUInt32BE, readInt8, readInt16LE, readInt16BE, readInt32LE, readInt32BE,
    readIntLE, readIntBE, readUInt16LE, readUInt16BE, readUIntLE, readUIntBE; rewrite To, ?Tn, checkOffset_ok by lia;
  cbn [try_bind]; f_equal.

Lemma reads8 : unsigned_reads readUInt8 readUIntLE 1.
Proof. read_bytes l off. change (seqZ 1 (1 - 1)) with (@nil Z). cbn [fmap list_fmap weigh]. lia. Qed.
Lemma reads16LE : unsigned_reads readUInt16LE readUIntLE 2.
Proof. read_bytes l off. change (seqZ 1 (2 - 1)) with [1%Z]. cbn [fmap list_fmap weigh]. rewrite lor2 by done. lia. Qed.
Lemma reads16BE : unsigned_reads readUInt16BE readUIntBE 2.
Proof.
  read_bytes l off. change (reverse (seqZ 0 (2 - 1))) with [0%Z]. cbn [fmap list_fmap weigh]. change (2 - 1)%Z with 1%Z.
  rewrite Z.lor_comm, lor2, !Z.add_0_r by done. lia.
Qed.
Lemma reads32LE : unsigned_reads readUInt32LE readUIntLE 4.
Proof. read_bytes l off. change (seqZ 1 (4 - 1)) with [1; 2; 3]%Z. cbn [fmap list_fmap weigh]. rewrite lor3 by done. lia. Qed.
Lemma lor3_down a b c : (0 <= b < 256)%Z -> (0 <= c < 256)%Z -> Z.lor (Z.lor (Z.shiftl a 16) (Z.shiftl b 8)) c = (c + b * 256 + a * 65536)%Z.
Proof. intros Hb Hc. rewrite (Z.lor_comm _ c), (Z.lor_comm (Z.shiftl a 16)), Z.lor_assoc. by apply lor3. Qed.
Lemma reads32BE : unsigned_reads readUInt32BE readUIntBE 4.
Proof.
  read_bytes l off. change (reverse (seqZ 0 (4 - 1))) with [2; 1; 0]%Z. cbn [fmap list_fmap weigh]. change (4 - 1)%Z with 3%Z.
  rewrite lor3_down, !Z.add_0_r by done. lia.
Qed.

Lemma wrap32 r : (0 <= r < 4294967296)%Z -> toInt r = signed r 4.
Proof.
  intros H. unfold signed. change (256 ^ Z.max 0 (4 - 1) * 128)%Z with 2147483648%Z. change (2 ^ (8 * 4))%Z with 4294967296%Z.
  unfold toInt, wrap. change (2 ^ (32 - 1))%Z with 2147483648%Z. change (2 ^ 32)%Z with 4294967296%Z.
  destruct (Z.leb_spec 2147483648 r); lia.
Qed.

Lemma reads_signed8 : unsigned_reads readInt8 readIntLE 1.
Proof.
  read_bytes l off. change (seqZ 1 (1 - 1)) with (@nil Z). cbn [fmap list_fmap weigh]. rewrite Z.mul_1_r, Z.add_0_r.
  unfold signed. rewrite bit7 by done. change (256 ^ Z.max 0 (1 - 1) * 128)%Z with 128%Z. change (2 ^ (8 * 1))%Z with 256%Z.
  destruct (Z.ltb_spec (element l off) 128); [rewrite (proj2 (Z.leb_gt _ _)) by lia; done|rewrite (proj2 (Z.leb_le _ _)) by lia; lia].
Qed.

Lemma weigh_range l ixs o : (0 < o)%Z -> (0 <= weigh l ixs o <= o * (256 ^ zlen ixs - 1))%Z.
Proof.
  revert o. induction ixs as [|i ixs IH]; intros o Ho; [cbn [weigh]; change (256 ^ zlen [])%Z with 1%Z; lia|].
  cbn [weigh]. specialize (IH (o * 256)%Z ltac:(lia)). pose proof (element_range l i).
  replace (zlen (i :: ixs)) with (zlen ixs + 1)%Z by (unfold zlen; cbn [length]; lia).
  rewrite pow256 by (apply Nat2Z.is_nonneg). set (p := (256 ^ zlen ixs)%Z) in *. nia.
Qed.

(** The numbers of two and of four bytes *)
Lemma weigh2 l i j : (0 <= weigh l [i; j] 1 < 65536)%Z.
Proof. pose proof (weigh_range l [i; j] 1 ltac:(lia)) as H. change (256 ^ zlen [i; j])%Z with 65536%Z in H. lia. Qed.
Lemma weigh4 l i j k h : (0 <= weigh l [i; j; k; h] 1 < 4294967296)%Z.
Proof. pose proof (weigh_range l [i; j; k; h] 1 ltac:(lia)) as H. change (256 ^ zlen [i; j; k; h])%Z with 4294967296%Z in H. lia. Qed.

Lemma signed16 r rn : unsigned_reads r rn 2 -> (forall l off x, rn l off 2%Z = Success x -> (0 <= x < 65536)%Z) ->
  unsigned_reads (fun l e => let? n := r l e in Success (sign16 n)) (fun l off n => let? x := rn l off n in Success (signed x (toInt n))) 2.
Proof.
  intros H Hx l off Hb. rewrite (H l off Hb). destruct (rn l off 2%Z) as [x|] eqn:E; [|done]. cbn [try_bind]. f_equal.
  rewrite sign16_spec by (by eapply Hx). change (toInt 2) with 2%Z. unfold signed.
  change (256 ^ Z.max 0 (2 - 1) * 128)%Z with 32768%Z. change (2 ^ (8 * 2))%Z with 65536%Z.
  destruct (Z.ltb_spec x 32768); [by rewrite (proj2 (Z.leb_gt _ _)) by lia|by rewrite (proj2 (Z.leb_le _ _)) by lia].
Qed.

Lemma unsigned_range_LE l off x : readUIntLE l off 2 = Success x -> (0 <= x < 65536)%Z.
Proof. unfold readUIntLE. destruct (checkOffset _ _ _); [|done]. intros [= <-]. apply weigh2. Qed.
Lemma unsigned_range_BE l off x : readUIntBE l off 2 = Success x -> (0 <= x < 65536)%Z.
Proof. unfold readUIntBE. destruct (checkOffset _ _ _); [|done]. intros [= <-]. apply weigh2. Qed.

Lemma reads_signed16LE : unsigned_reads readInt16LE readIntLE 2.
Proof. exact (signed16 _ _ reads16LE unsigned_range_LE). Qed.
Lemma reads_signed16BE : unsigned_reads readInt16BE readIntBE 2.
Proof. exact (signed16 _ _ reads16BE unsigned_range_BE). Qed.

Lemma reads_signed32LE : unsigned_reads readInt32LE readIntLE 4.
Proof.
  read_bytes l off. change (seqZ 1 (4 - 1)) with [1; 2; 3]%Z. cbn [fmap list_fmap]. rewrite lor4 by done.
  pose proof (weigh4 l off (off + 1)%Z (off + 2)%Z (off + 3)%Z) as Hw.
  rewrite <- wrap32 by lia. f_equal. cbn [weigh]. lia.
Qed.
Lemma lor4_down a b c d : (0 <= b < 256)%Z -> (0 <= c < 256)%Z -> (0 <= d < 256)%Z ->
  Z.lor (Z.lor (Z.lor (Z.shiftl a 24) (Z.shiftl b 16)) (Z.shiftl c 8)) d = (d + c * 256 + b * 65536 + a * 16777216)%Z.
Proof.
  intros Hb Hc Hd. rewrite <- lor4 by done. rewrite (Z.lor_comm (Z.lor _ _) d), (Z.lor_comm (Z.lor _ _) (Z.shiftl c 8)), (Z.lor_comm (Z.shiftl a 24)).
  by rewrite !Z.lor_assoc.
Qed.
Lemma reads_signed32BE : unsigned_reads readInt32BE readIntBE 4.
Proof.
  read_bytes l off. change (reverse (seqZ 0 (4 - 1))) with [2; 1; 0]%Z. cbn [fmap list_fmap]. change (4 - 1)%Z with 3%Z. rewrite lor4_down, Z.add_0_r by done.
  pose proof (weigh4 l (off + 3)%Z (off + 2)%Z (off + 1)%Z off) as Hw.
  rewrite <- wrap32 by lia. f_equal. cbn [weigh]. lia.
Qed.

(** The writers of a fixed width *)
Lemma shift_byte v k : (0 <= k <= 3)%Z -> (ushr32 v (8 * k) mod 256 = byte_of v k)%Z.
Proof.
  intros Hk. unfold ushr32, byte_of. rewrite Z.shiftr_div_pow2 by lia.
  assert (k = 0 \/ k = 1 \/ k = 2 \/ k = 3)%Z as [-> |[-> |[-> | ->]]] by lia; change (2 ^ 32)%Z with 4294967296%Z;
    [change (2 ^ (8 * 0))%Z with 1%Z; change (256 ^ 0)%Z with 1%Z|change (2 ^ (8 * 1))%Z with 256%Z; change (256 ^ 1)%Z with 256%Z
    |change (2 ^ (8 * 2))%Z with 65536%Z; change (256 ^ 2)%Z with 65536%Z|change (2 ^ (8 * 3))%Z with 16777216%Z; change (256 ^ 3)%Z with 16777216%Z]; lia.
Qed.

Lemma fixed_stores place b m off v (n : Z) max min ks shifts : is_place place -> valid b m -> in_bounds (b_len b) off n -> (n <= 4)%Z ->
  (min <= v <= max)%Z -> (forall k, k ∈ ks <-> (0 <= k < n)%Z) -> zlen shifts = n ->
  imap (fun i k => (off + Z.of_nat i, ushr32 v k)%Z) shifts = ((fun k => (place off n k, ushr32 v (8 * k))%Z) <$> ks) ->
  stores place b m (write_bytes b v off max min shifts) off n v.
Proof.
  intros Hp Hv Hb Hn4 Hr Hks Hlen E. destruct (in_bounds_toInt _ _ _ Hb) as [To _]. pose proof Hb as (Hn & Ho & Hl). unfold write_bytes. rewrite To, Hlen, E.
  destruct (set_all_stores place b m (fun k => ushr32 v (8 * k)) ks off n v Hp Hv Ho ltac:(lia) Hks) as (m' & Em & H); [intros; apply shift_byte; lia|].
  exists m'. split; [|done]. by rewrite (bind_run _ _ _ _ _ (checkInt_ok b v off n max min m Hr ltac:(lia))).
Qed.

(** The readers and writers of a fixed width, with where the byte of weight 256^k
    goes, the number of bytes and the range *)
Record FixedWidth := Fixed {
  fw_write : Buffer -> Z -> Z -> BF Z; fw_read : bytes -> Z -> Try Z;
  fw_place : Z -> Z -> Z -> Z; fw_bytes : Z; fw_min : Z; fw_max : Z
}.
Definition fixed_width : list FixedWidth :=
  [Fixed writeUInt8 readUInt8 upwards 1 0 255; Fixed writeInt8 readInt8 upwards 1 (-128) 127;
   Fixed writeUInt16LE readUInt16LE upwards 2 0 65535; Fixed writeInt16LE readInt16LE upwards 2 (-32768) 32767;
   Fixed writeUInt32LE readUInt32LE upwards 4 0 4294967295; Fixed writeInt32LE readInt32LE upwards 4 (-2147483648) 2147483647;
   Fixed writeUInt16BE readUInt16BE downwards 2 0 65535; Fixed writeInt16BE readInt16BE downwards 2 (-32768) 32767;
   Fixed writeUInt32BE readUInt32BE downwards 4 0 4294967295; Fixed writeInt32BE readInt32BE downwards 4 (-2147483648) 2147483647]%Z.

Lemma unsigned_read_LE r n v l0 l off : unsigned_reads r readUIntLE n -> in_bounds (zlen l0) off n -> (0 <= v < 256 ^ n)%Z ->
  holds upwards l0 l off n v -> r l off = Success v.
Proof.
  intros H Hb Hv Hh. pose proof (holds_length _ _ _ _ _ _ Hh) as Hlen. rewrite (H l off) by (by rewrite Hlen).
  rewrite (readLE_holds _ _ _ _ _ Hb Hh). by rewrite Z.mod_small.
Qed.
Lemma unsigned_read_BE r n v l0 l off : unsigned_reads r readUIntBE n -> in_bounds (zlen l0) off n -> (0 <= v < 256 ^ n)%Z ->
  holds downwards l0 l off n v -> r l off = Success v.
Proof.
  intros H Hb Hv Hh. pose proof (holds_length _ _ _ _ _ _ Hh) as Hlen. rewrite (H l off) by (by rewrite Hlen).
  rewrite (readBE_holds _ _ _ _ _ Hb Hh). by rewrite Z.mod_small.
Qed.
Lemma signed_read_LE r n v l0 l off : unsigned_reads r readIntLE n -> in_bounds (zlen l0) off n -> (- 2 ^ (8 * n - 1) <= v < 2 ^ (8 * n - 1))%Z ->
  holds upwards l0 l off n v -> r l off = Success v.
Proof.
  intros H Hb Hv Hh. pose proof (holds_length _ _ _ _ _ _ Hh) as Hlen. rewrite (H l off) by (by rewrite Hlen). unfold readIntLE.
  destruct (in_bounds_toInt _ _ _ Hb) as [_ Tn]. pose proof Hb as (Hn & _). rewrite (readLE_holds _ _ _ _ _ Hb Hh). cbn [try_bind]. by rewrite Tn, signed_mod by (done || lia).
Qed.
Lemma signed_read_BE r n v l0 l off : unsigned_reads r readIntBE n -> in_bounds (zlen l0) off n -> (- 2 ^ (8 * n - 1) <= v < 2 ^ (8 * n - 1))%Z ->
  holds downwards l0 l off n v -> r l off = Success v.
Proof.
  intros H Hb Hv Hh. pose proof (holds_length _ _ _ _ _ _ Hh) as Hlen. rewrite (H l off) by (by rewrite Hlen). unfold readIntBE.
  destruct (in_bounds_toInt _ _ _ Hb) as [_ Tn]. pose proof Hb as (Hn & _). rewrite (readBE_holds _ _ _ _ _ Hb Hh). cbn [try_bind]. by rewrite Tn, signed_mod by (done || lia).
Qed.

Ltac small_set := let k := fresh in intros k; rewrite ?elem_of_cons, ?elem_of_nil; lia.

(** Each of the ten writers of a fixed width stores a number in its range where
    it fits, and its reader reads that number back. *)
Theorem fixed_width_roundtrip : Forall (fun f => forall b m off v,
  valid b m -> in_bounds (b_len b) off (fw_bytes f) -> (fw_min f <= v <= fw_max f)%Z ->
  stores (fw_place f) b m (fw_write f b v off) off (fw_bytes f) v /\
  forall l, holds (fw_place f) (view b m) l off (fw_bytes f) v -> fw_read f l off = Success v) fixed_width.
Proof.
  unfold fixed_width. repeat apply Forall_cons_2; try apply Forall_nil_2; intros b m off v Hv Hb Hr;
    cbn [fw_bytes fw_min fw_max fw_place fw_write fw_read] in *;
    (split; [|intros l; rewrite <- (view_length b m Hv) in Hb]).
  all: try solve [apply (unsigned_read_LE _ _ _ _ _ _ reads8 Hb); lia | apply (signed_read_LE _ _ _ _ _ _ reads_signed8 Hb); lia
    | apply (unsigned_read_LE _ _ _ _ _ _ reads16LE Hb); lia | apply (signed_read_LE _ _ _ _ _ _ reads_signed16LE Hb); lia
    | apply (unsigned_read_LE _ _ _ _ _ _ reads32LE Hb); lia | apply (signed_read_LE _ _ _ _ _ _ reads_signed32LE Hb); lia
    | apply (unsigned_read_BE _ _ _ _ _ _ reads16BE Hb); lia | apply (signed_read_BE _ _ _ _ _ _ reads_signed16BE Hb); lia
    | apply (unsigned_read_BE _ _ _ _ _ _ reads32BE Hb); lia | apply (signed_read_BE _ _ _ _ _ _ reads_signed32BE Hb); lia].
  1, 2: apply (fixed_stores _ _ _ _ _ 1 _ _ [0]%Z); [by left|done..|small_set|done|done].
  1, 2: apply (fixed_stores _ _ _ _ _ 2 _ _ [0; 1]%Z); [by left|done..|small_set|done|done].
  1, 2: apply (fixed_stores _ _ _ _ _ 4 _ _ [0; 1; 2; 3]%Z); [by left|done..|small_set|done|done].
  1, 2: apply (fixed_stores _ _ _ _ _ 2 _ _ [1; 0]%Z); [by right|done..|small_set|done|done].
  1, 2: apply (fixed_stores _ _ _ _ _ 4 _ _ [3; 2; 1; 0]%Z); [by right|done..|small_set|done|done].
Qed.
