(* ===== verification/JsBufferSearch.v ===== *)
(** * JsBufferSearch: order and search of buffers *)

From S2P Require Import Prelude JsCore Base64Js BufferCodec JsBuffer JsBufferNumbers.

(** ** The order of buffers *)

(** Bytes compared as in a dictionary *)
Fixpoint lexico (a b : bytes) : comparison :=
  match a, b with
  | [], [] => Eq
  | [], _ => Lt
  | _, [] => Gt
  | x :: a', y :: b' => match (ub x ?= ub y)%Z with Eq => lexico a' b' | c => c end
  end.
Definition sign (c : comparison) : Z := match c with Lt => -1 | Eq => 0 | Gt => 1 end.

Lemma compare_loop_spec a b k : compare_loop a b (k + zlen a) (k + zlen b) = sign (lexico a b).
Proof.
  revert b k. induction a as [|x a IH]; intros [|y b] k; unfold zlen in *; cbn [compare_loop lexico length sign].
  - by rewrite Z.ltb_irrefl.
  - by rewrite (proj2 (Z.ltb_lt _ _)) by lia.
  - rewrite (proj2 (Z.ltb_ge _ _)), (proj2 (Z.ltb_lt _ _)) by lia. done.
  - case_bool_decide as E.
    + subst y. rewrite Z.compare_refl. rewrite <- (IH b (k + 1)%Z). f_equal; lia.
    + destruct (Z.compare_spec (ub x) (ub y)) as [H|H|H]; [by apply ub_inj in H|by rewrite (proj2 (Z.ltb_lt _ _))|].
      rewrite (proj2 (Z.ltb_ge _ _)), (proj2 (Z.ltb_lt (ub y) _)) by lia. done.
Qed.

Lemma lexico_refl a : lexico a a = Eq.
Proof. induction a as [|x a IH]; [done|]. cbn. by rewrite Z.compare_refl. Qed.

Lemma lexico_eq a b : lexico a b = Eq <-> a = b.
Proof.
  split; [|intros ->; apply lexico_refl]. revert b. induction a as [|x a IH]; intros [|y b] H; try done. cbn in H.
  destruct (Z.compare_spec (ub x) (ub y)) as [E|E|E]; try done. apply ub_inj in E as ->. f_equal. by apply IH.
Qed.

Lemma lexico_opp a b : lexico b a = CompOpp (lexico a b).
Proof.
  revert b. induction a as [|x a IH]; intros [|y b]; try done. cbn. rewrite (Z.compare_antisym (ub x)).
  destruct (ub x ?= ub y)%Z; cbn; [apply IH|done|done].
Qed.

Lemma lexico_trans a b c : lexico a b <> Gt -> lexico b c <> Gt -> lexico a c <> Gt.
Proof.
  revert b c. induction a as [|x a IH]; intros [|y b] [|z c] H1 H2; try done. cbn in *.
  destruct (Z.compare_spec (ub x) (ub y)) as [E1|E1|E1], (Z.compare_spec (ub y) (ub z)) as [E2|E2|E2]; try done;
    destruct (Z.compare_spec (ub x) (ub z)) as [E3|E3|E3]; try done; try lia. by apply (IH b c).
Qed.

(** Buffer.compare is the order of a dictionary: it gives 0 for the same bytes
    only, the opposite for its arguments exchanged, and it is transitive; and
    buf.equals is that it gives 0. *)
Theorem compare_order (m : Memory) :
  let c x y := compare x y m in
  (forall x y, (b_obj x = b_obj y -> x = y) -> c x y = (m, Success (sign (lexico (view x m) (view y m)))) /\
     equals x y m = (m, Success (bool_decide (view x m = view y m)))) /\
  (forall s t u : bytes, lexico t s = CompOpp (lexico s t) /\ (lexico s t = Eq <-> s = t) /\
     (lexico s t <> Gt -> lexico t u <> Gt -> lexico s u <> Gt)).
Proof.
  intros c. split; [|intros s t u; split_and!; [apply lexico_opp|apply lexico_eq|apply lexico_trans|..]; apply lexico_eq].
  intros x y Hobj. unfold c, equals, compare. destruct (N.eqb_spec (b_obj x) (b_obj y)) as [E|E].
  - rewrite (Hobj E), lexico_refl, bool_decide_true by done. done.
  - cbn. pose proof (compare_loop_spec (view x m) (view y m) 0) as H. rewrite !Z.add_0_l in H. unfold bind, contents, gets, ret. rewrite H.
    split; [done|]. do 2 f_equal. destruct (lexico (view x m) (view y m)) eqn:El; cbn.
    + apply lexico_eq in El. by rewrite bool_decide_true.
    + rewrite bool_decide_false; [done|]. intros H'. apply lexico_eq in H'. congruence.
    + rewrite bool_decide_false; [done|]. intros H'. apply lexico_eq in H'. congruence.
Qed.

(** ** Searching *)

(** t stands in e at i *)
Definition occurs (e t : bytes) (i : Z) : Prop :=
  (0 <= i /\ i + zlen t <= zlen e)%Z /\ forall p, (0 <= p < zlen t)%Z -> element e (i + p) = element t p.

(** What the loop has found out: no occurrence from n up to where it stands, or
    up to where the match that it is making began *)
Definition scanned (e t : bytes) (n i l : Z) : Prop :=
  (l = -1 /\ n <= i /\ (forall k, n <= k < i -> ~ occurs e t k) \/
   0 <= n <= l /\ l < i < l + zlen t /\ (forall k, n <= k < l -> ~ occurs e t k) /\
     (forall p, 0 <= p < i - l -> element e (l + p) = element t p))%Z.

Definition found (e t : bytes) (n r : Z) : Prop :=
  (r = -1 /\ (forall k, n <= k -> ~ occurs e t k) \/ n <= r /\ occurs e t r /\ (forall k, n <= k < r -> ~ occurs e t k))%Z.

Definition measure (e t : bytes) (i l : Z) : Z :=
  (let p := if l =? -1 then i else l in (zlen e - p) * (zlen t + 1) + (zlen t - (i - p)))%Z.

Lemma search_forward_spec fuel e t n i l : (0 < zlen t)%Z -> (0 <= n)%Z -> (i <= zlen e)%Z -> scanned e t n i l ->
  (measure e t i l < Z.of_nat fuel)%Z -> exists r, search_forward fuel e t i l = Some r /\ found e t n r.
Proof.
  intros Ht Hn. revert i l. induction fuel as [|fuel IH]; intros i l Hi Hs Hf.
  { exfalso. unfold measure in Hf. destruct Hs as [(-> & H1 & _)|(H1 & H2 & _)]; [cbn in Hf; nia|].
    rewrite (proj2 (Z.eqb_neq l (-1))) in Hf by lia. nia. }
  cbn [search_forward]. destruct (Z.ltb_spec i (zlen e)) as [Hie|Hie].
  2: { exists (-1)%Z. split; [done|]. left. split; [done|]. intros k Hk Ho. pose proof (proj1 Ho) as Hr.
       destruct Hs as [(-> & H1 & H2)|(H1 & H2 & H3 & H4)].
       - destruct (Z.lt_ge_cases k i); [by apply (H2 k)|lia].
       - destruct (Z.lt_ge_cases k l); [by apply (H3 k)|lia]. }
  destruct Hs as [(-> & H1 & H2)|(H1 & H2 & H3 & H4)].
  - change (-1 =? -1)%Z with true. cbn iota. destruct (Z.eqb_spec (element e i) (element t 0)) as [E|E].
    + destruct (Z.eqb_spec (i - i + 1) (zlen t)) as [Eu|Eu].
      * exists i. split; [done|]. right. split_and!; [done| |done]. split; [lia|]. intros p Hp. replace p with 0%Z by lia. by rewrite Z.add_0_r.
      * apply IH; [lia| |unfold measure in *; rewrite (proj2 (Z.eqb_neq i (-1))) by lia; change (-1 =? -1)%Z with true in Hf; cbn iota in Hf; nia].
        right. split_and!; try lia; [done|]. intros p Hp. replace p with 0%Z by lia. by rewrite Z.add_0_r.
    + apply IH; [lia| |unfold measure in *; change (-1 =? -1)%Z with true in *; cbn iota in *; nia].
      left. split_and!; [done|lia|]. intros k Hk Ho. destruct (decide (k = i)) as [->|]; [|apply (H2 k); [lia|done]].
      apply E. destruct Ho as [_ Ho]. specialize (Ho 0%Z ltac:(lia)). by rewrite Z.add_0_r in Ho.
  - rewrite (proj2 (Z.eqb_neq l (-1))) by lia. destruct (Z.eqb_spec (element e i) (element t (i - l))) as [E|E].
    + destruct (Z.eqb_spec (i - l + 1) (zlen t)) as [Eu|Eu].
      * exists l. split; [done|]. right. split_and!; [lia| |done]. split; [lia|]. intros p Hp.
        destruct (decide (p = i - l)%Z) as [->|]; [|apply H4; lia]. by replace (l + (i - l))%Z with i by lia.
      * apply IH; [lia| |unfold measure in *; rewrite (proj2 (Z.eqb_neq l (-1))) in * by lia; nia].
        right. split_and!; try lia; [done|]. intros p Hp. destruct (decide (p = i - l)%Z) as [->|]; [|apply H4; lia]. by replace (l + (i - l))%Z with i by lia.
    + apply IH; [lia| |unfold measure in *; rewrite (proj2 (Z.eqb_neq l (-1))) in Hf by lia; change (-1 =? -1)%Z with true; cbn iota; nia].
      left. split_and!; [done|lia|]. intros k Hk Ho. destruct (decide (k = l)) as [->|]; [|apply (H3 k); [lia|done]].
      apply E. destruct Ho as [_ Ho]. specialize (Ho (i - l)%Z ltac:(lia)). by replace (l + (i - l))%Z with i in Ho by lia.
Qed.

(** Backwards *)
Lemma match_at_spec e t i : match_at e t i = true <-> (forall p, (0 <= p < zlen t)%Z -> element e (i + p) = element t p).
Proof.
  unfold match_at. rewrite forallb_forall. split.
  - intros H p Hp. apply Z.eqb_eq, H, list_elem_of_In, elem_of_seqZ. lia.
  - intros H p Hp. apply Z.eqb_eq, H. apply list_elem_of_In, elem_of_seqZ in Hp. lia.
Qed.

Lemma lookup_reverse_seqZ n i x : reverse (seqZ 0 n) !! i = Some x <-> (0 <= x < n /\ x = n - 1 - Z.of_nat i)%Z.
Proof. rewrite reverse_lookup_Some, length_seqZ. rewrite lookup_seqZ. lia. Qed.

(** The last place not after n, where there is one *)
Definition found_last (e t : bytes) (n r : Z) : Prop :=
  (r = -1 /\ (forall k, k <= n -> ~ occurs e t k) \/ r <= n /\ occurs e t r /\ (forall k, r < k <= n -> ~ occurs e t k))%Z.

Lemma search_backward_spec e t n : found_last e t n (search_backward e t n).
Proof.
  unfold search_backward. set (n' := if (zlen e <? n + zlen t)%Z then (zlen e - zlen t)%Z else n).
  assert (n' <= n /\ n' + zlen t <= zlen e)%Z as [Hn1 Hn2] by (unfold n'; destruct (Z.ltb_spec (zlen e) (n + zlen t)); lia).
  assert (forall k, (n' < k <= n)%Z -> ~ occurs e t k) as Hbig.
  { intros k Hk [Hr _]. unfold n' in Hk. destruct (Z.ltb_spec (zlen e) (n + zlen t)); lia. }
  destruct (list_find _ _) as [[j i]|] eqn:E.
  - apply list_find_Some in E as (Hj & Hm & Hfirst). apply lookup_reverse_seqZ in Hj as [Hi Hji]. right. split_and!; [lia| |].
    + split; [lia|]. by apply match_at_spec.
    + intros k Hk Ho. destruct (Z.lt_ge_cases n' k); [apply (Hbig k); [lia|done]|].
      apply (Hfirst (Z.to_nat (n' - k)) k); [apply lookup_reverse_seqZ; lia|lia|]. apply match_at_spec. by destruct Ho.
  - apply list_find_None in E. left. split; [done|]. intros k Hk Ho. destruct (Z.lt_ge_cases n' k); [apply (Hbig k); [lia|done]|].
    pose proof (proj1 Ho). apply (proj1 (Forall_forall _ _) E k); [|apply match_at_spec; by destruct Ho].
    apply elem_of_reverse, elem_of_seqZ. lia.
Qed.

(** IndexOf from an offset (from the end when it is negative) finds the first
    place at or after it where the searched bytes stand, and lastIndexOf the last
    place at or before it; each gives -1 when there is none. *)
Theorem search_finds e t n : (-2147483648 <= n <= 2147483647)%Z -> (0 < zlen t)%Z ->
  let at_ := (if n <? 0 then zlen e + n else n)%Z in
  (exists r, bidirectionalIndexOf e t (Some n) true = Some r /\ found e t (Z.max 0 at_) r /\
     includes e t (Some n) = Some (negb (r =? -1)%Z)) /\
  (exists r, bidirectionalIndexOf e t (Some n) false = Some r /\ found_last e t at_ r).
Proof.
  intros Hn Ht at_. unfold includes, bidirectionalIndexOf.
  rewrite (proj2 (Z.ltb_ge 2147483647 n)), (proj2 (Z.ltb_ge n (-2147483648))) by lia. fold at_.
  assert (forall k, (zlen e <= k)%Z -> ~ occurs e t k) as Hbig by (intros k Hk [Hr _]; lia).
  assert (forall k, (k < 0)%Z -> ~ occurs e t k) as Hneg by (intros k Hk [Hr _]; lia).
  destruct (Z.eqb_spec (zlen e) 0) as [He|He].
  { split; exists (-1)%Z; split_and!; try done; left; (split; [done|]); intros k Hk [Hr _]; lia. }
  assert (0 < zlen e)%Z as Hpos by (unfold zlen in *; lia).
  rewrite (proj2 (Z.eqb_neq (zlen t) 0)) by lia. split.
  - destruct (Z.leb_spec (zlen e) at_) as [H1|H1]; cbn [andb negb].
    + exists (-1)%Z. split_and!; [done| |done]. left. split; [done|]. intros k Hk. apply Hbig. lia.
    + rewrite andb_false_r. set (k0 := if (at_ <? 0)%Z then 0%Z else at_).
      assert (k0 = Z.max 0 at_) as Ek by (unfold k0; destruct (Z.ltb_spec at_ 0); lia). rewrite Ek.
      destruct (search_forward_spec (search_fuel e t) e t (Z.max 0 at_) (Z.max 0 at_) (-1) Ht ltac:(lia) ltac:(lia)) as (r & Er & Hr).
      * left. split_and!; [done|lia|]. intros k Hk. lia.
      * unfold measure, search_fuel. change (-1 =? -1)%Z with true. cbn iota. unfold zlen in *. nia.
      * exists r. rewrite Er. split_and!; done.
  - destruct (Z.leb_spec (zlen e) at_) as [H1|H1]; cbn [andb negb].
    + eexists. split; [done|]. pose proof (search_backward_spec e t (zlen e - 1)) as H.
      destruct H as [(-> & H)|(Ha & Ho & H)]; [left|right].
      * split; [done|]. intros k Hk. destruct (Z.lt_ge_cases k (zlen e)); [apply H; lia|by apply Hbig].
      * split_and!; [lia|done|]. intros k Hk. destruct (Z.lt_ge_cases k (zlen e)); [apply H; lia|by apply Hbig].
    + rewrite andb_true_r. destruct (Z.ltb_spec at_ 0) as [H2|H2].
      * exists (-1)%Z. split; [done|]. left. split; [done|]. intros k Hk. apply Hneg. lia.
      * eexists. split; [done|]. apply search_backward_spec.
Qed.

Lemma search_finds_witness :
  let e := z2b <$> [1; 2; 1; 2; 1; 3; 1; 2; 1; 3]%Z in let t := z2b <$> [1; 2; 1; 3]%Z in
  (0 < zlen t)%Z /\ exists r, bidirectionalIndexOf e t (Some 0%Z) true = Some r /\ found e t 0 r /\ r = 2%Z.
Proof.
  intros e t. split; [done|]. destruct (search_finds e t 0) as [(r & E & Hf & _) _]; [done|done|]. exists r. split_and!; [done|done|].
  vm_compute in E. by injection E as <-.
Defined.
