(* ===== verification/JsBufferCopy.v ===== *)
(** * JsBufferCopy: slices share memory, copies move it, and strings survive *)

From S2P Require Import Prelude JsCore Base64Js BufferCodec BufferCodecThms JsBuffer JsBufferNumbers JsBufferThms.

#[local] Ltac Zify.zify_post_hook ::= Z.to_euclidean_division_equations.

(** ** slice *)

Lemma clamp_range x len : (0 <= len)%Z -> (0 <= clamp x len <= len)%Z.
Proof. intros H. unfold clamp. repeat case_match; lia. Qed.

Lemma view_part b b' m m' from : valid b m -> arrays m' = arrays m -> b_mem b' = b_mem b -> b_off b' = (b_off b + from)%Z ->
  (0 <= from)%Z -> (0 <= b_len b')%Z -> (from + b_len b' <= b_len b)%Z ->
  valid b' m' /\ view b' m' = take (Z.to_nat (b_len b')) (drop (Z.to_nat from) (view b m)).
Proof.
  intros (Ho & Hl & arr & E & Ha) Em Ebm Eo Hf Hl' Hle. split.
  - split_and!; [lia|done|]. exists arr. rewrite Em, Ebm. split; [done|lia].
  - unfold view. rewrite Em, Ebm, Eo, E. cbn [from_option id]. rewrite skipn_firstn_comm, drop_drop, take_take. f_equal; [lia|f_equal; lia].
Qed.

(** A slice, its ends counted from the end of the buffer when negative, holds
    that part of the buffer in the same memory: nothing is copied, and what is
    written to the slice is written to the buffer. *)
Theorem slice_shares b m x y : valid b m -> (-2147483648 <= x <= 2147483647)%Z -> (-2147483648 <= y <= 2147483647)%Z ->
  let from := clamp x (b_len b) in let to := Z.max from (clamp y (b_len b)) in
  exists b' m', slice b (Some x) (Some y) m = (m', Success b') /\ arrays m' = arrays m /\ valid b' m' /\
    view b' m' = take (Z.to_nat (to - from)) (drop (Z.to_nat from) (view b m)) /\
    forall i v, (0 <= i < to - from)%Z -> view b (fst (set b' i v m')) = assign (view b m) (from + i) v.
Proof.
  intros Hv Hx Hy from to. unfold slice, new_view, bind, gets, modify, ret. cbn [default from_option id]. rewrite !toInt_exact by lia. fold from.
  assert ((if (clamp y (b_len b) <? from)%Z then from else clamp y (b_len b)) = to) as -> by (unfold to; destruct (Z.ltb_spec (clamp y (b_len b)) from); lia).
  pose proof Hv as (Ho & Hl & _). pose proof (clamp_range x (b_len b) Hl) as Hcx. pose proof (clamp_range y (b_len b) Hl) as Hcy. fold from in Hcx.
  assert (from <= to <= b_len b)%Z as Hto by (unfold to; lia).
  set (m1 := Mem _ _). set (b1 := Buf _ _ _ _). exists b1, m1.
  destruct (view_part b b1 m m1 from Hv eq_refl eq_refl eq_refl ltac:(lia) ltac:(cbn; lia) ltac:(cbn; lia)) as [V1 E1]. split_and!; [done..|].
  intros i v Hi. assert (valid b m1) as Vb by (destruct Hv as (? & ? & arr & ? & ?); split_and!; [done..|by exists arr]).
  destruct (set_view b1 b i v m1 V1 Vb) as [_ ->]. rewrite bool_decide_true by done. cbn [b1 b_off b_len andb].
  rewrite (proj2 (Z.leb_le _ _)), (proj2 (Z.ltb_lt _ _)) by lia. cbn [andb]. f_equal. lia.
Qed.

Lemma slice_shares_witness :
  let b := Buf 1 0 1 6 in let m := Mem {[ 0%N := z2b <$> [9; 10; 11; 12; 13; 14; 15; 16]%Z ]} 2 in
  exists b' m', slice b (Some (-4)%Z) (Some 5%Z) m = (m', Success b') /\ view b' m' = z2b <$> [12; 13; 14]%Z /\
    view b (fst (set b' 1 0 m')) = z2b <$> [10; 11; 12; 0; 14; 15]%Z.
Proof.
  intros b m. assert (valid b m) as Hv by (split_and!; [done|done|]; eexists; split; [by vm_compute|by vm_compute]).
  destruct (slice_shares b m (-4) 5 Hv) as (b' & m' & E & _ & _ & Hview & Hset); [done|done|]. exists b', m'. split_and!; [exact E| |].
  - rewrite Hview. by vm_compute.
  - rewrite Hset; [by vm_compute|by vm_compute].
Defined.

(** ** copy *)

Lemma element_nth l i : (0 <= i < zlen l)%Z -> l !! Z.to_nat i = Some (z2b (element l i)).
Proof.
  intros Hi. destruct (lookup_lt_is_Some_2 l (Z.to_nat i)) as [b Hb]; [unfold zlen in Hi; lia|]. by rewrite (element_Some _ _ _ Hb), z2b_ub.
Qed.

(** Copying byte by byte reads what was there before, if no byte is read after it
    was overwritten. *)
Lemma copy_each_run src dst from to ks m : valid src m -> valid dst m ->
  (forall k, k ∈ ks -> 0 <= k + from < b_len src /\ 0 <= k + to < b_len dst)%Z ->
  (b_mem src = b_mem dst -> forall i j k k', ks !! i = Some k' -> ks !! j = Some k -> i < j -> (b_off dst + (k' + to) <> b_off src + (k + from))%Z) ->
  exists m', copy_each src dst from to ks m = (m', Success tt) /\ valid dst m' /\
    view dst m' = assign_all (view dst m) ((fun k => (k + to, element (view src m) (k + from))%Z) <$> ks).
Proof.
  revert m. induction ks as [|k ks IH]; intros m Vs Vd Hr Hsafe; [by exists m|]. cbn [copy_each].
  destruct (Hr k ltac:(left)) as [Hk1 Hk2]. rewrite (bind_run _ _ _ _ _ (get_run src (k + from)%Z m ltac:(lia))).
  set (v := element (view src m) (k + from)). rewrite (bind_run _ _ _ _ _ (set_run dst (k + to) v m)).
  destruct (set_self dst (k + to) v m Vd) as [Vd1 Ed1]. destruct (set_view dst src (k + to) v m Vd Vs) as [Vs1 Es1].
  destruct (IH _ Vs1 Vd1) as (m' & E & V & Ev).
  - intros k' Hk'. apply Hr. by right.
  - intros Hm i j k1 k2 Hi Hj Hij. apply (Hsafe Hm (S i) (S j)); [done|done|lia].
  - exists m'. split_and!; [done..|]. rewrite Ev, Ed1. unfold assign_all. cbn [fmap list_fmap foldl fst snd]. f_equal.
    apply list_fmap_ext. intros i k' Hi. f_equal. rewrite Es1. case_bool_decide as Hm; [|done]. cbn [andb].
    destruct ((0 <=? k + to)%Z && _); [|done]. destruct (Hr k' ltac:(right; by eapply list_elem_of_lookup_2)) as [Hk1' _].
    assert (b_off dst + (k + to) <> b_off src + (k' + from))%Z as Hne by (apply (Hsafe (eq_sym Hm) 0 (S i)); [done|done|lia]).
    unfold element. rewrite assign_lookup by (rewrite view_length by done; lia). by rewrite (proj2 (Z.eqb_neq _ _)) by lia.
Qed.

(** What was moved: the elements from t on are those of the source from n on *)
Definition moved (l l0 src : bytes) (t n i : Z) : Prop :=
  zlen l = zlen l0 /\ forall j, (0 <= j < zlen l0)%Z ->
  l !! Z.to_nat j = if (t <=? j)%Z && (j <? t + i)%Z then src !! Z.to_nat (n + (j - t)) else l0 !! Z.to_nat j.

Lemma assign_moved l0 src t n i ks : (0 <= t)%Z -> (0 <= n)%Z -> (t + i <= zlen l0)%Z -> (n + i <= zlen src)%Z -> (forall k, k ∈ ks <-> (0 <= k < i)%Z) ->
  moved (assign_all l0 ((fun k => (k + t, element src (k + n))%Z) <$> ks)) l0 src t n i.
Proof.
  intros Ht Hn Hl Hs Hks. split; [apply assign_all_length|]. intros j Hj. destruct ((t <=? j)%Z && (j <? t + i)%Z) eqn:E.
  - apply andb_true_iff in E as [E1%Z.leb_le E2%Z.ltb_lt].
    pose proof (assign_all_hit l0 (fun k => k + t)%Z (fun k => element src (k + n)) ks (j - t)) as H. cbn beta in H.
    replace (j - t + t)%Z with j in H by lia. rewrite H; [|done|apply Hks; lia|intros k' _ Hk'; by replace k' with (j - t)%Z by lia].
    replace (n + (j - t))%Z with (j - t + n)%Z by lia. by rewrite element_nth by lia.
  - apply assign_all_miss; [done|]. apply Forall_fmap, Forall_forall. intros k Hk%Hks. cbn. apply andb_false_iff in E as [E%Z.leb_gt|E%Z.ltb_ge]; lia.
Qed.

(** The three loops of copy, each on what it can meet *)
Lemma imap_seqZ {A B} (f : Z -> A -> B) (g : Z -> B) (l : list A) : (forall i a, l !! i = Some a -> f (Z.of_nat i) a = g (Z.of_nat i)) ->
  imap (fun i a => f (Z.of_nat i) a) l = g <$> seqZ 0 (zlen l).
Proof.
  intros H. apply list_eq. intros i. rewrite list_lookup_imap, list_lookup_fmap. destruct (l !! i) as [a|] eqn:E.
  - assert (seqZ 0 (zlen l) !! i = Some (Z.of_nat i)) as ->; [|cbn; by rewrite H].
    apply lookup_seqZ. apply lookup_lt_Some in E. unfold zlen. lia.
  - cbn. apply lookup_ge_None in E. assert (seqZ 0 (zlen l) !! i = None) as ->; [|done]. apply lookup_seqZ_ge. unfold zlen. lia.
Qed.

Definition same_object (a b : Buffer) : Prop := b_obj a = b_obj b -> a = b.

(** The copy loops of a range that is in both buffers *)
Lemma copy_loops_run src dst t n i m : valid src m -> valid dst m -> same_object src dst ->
  (0 <= t)%Z -> (0 <= n)%Z -> (0 < i)%Z -> (t + i <= b_len dst)%Z -> (n + i <= b_len src)%Z ->
  (b_obj src = b_obj dst \/ b_mem src <> b_mem dst \/ 1000 <= i)%Z -> exists m',
  (if (b_obj src =? b_obj dst)%N && (n <? t)%Z && (t <? n + i)%Z
   then copy_each src dst n t (reverse (seqZ 0 i))
   else if (i <? 1000)%Z then copy_each src dst n t (seqZ 0 i)
   else let! l := contents src in
        set_all dst (imap (fun k v => (Z.of_nat k + t, v)%Z) (ub <$> take (Z.to_nat i) (drop (Z.to_nat n) l)))) m = (m', Success tt) /\
  valid dst m' /\ moved (view dst m') (view dst m) (view src m) t n i.
Proof.
  intros Vs Vd Hobj Ht Hn Hi Hti Hni Hcase. pose proof (view_length _ _ Vs) as Ls. pose proof (view_length _ _ Vd) as Ld.
  assert (forall ks, (forall k, k ∈ ks <-> (0 <= k < i)%Z) ->
    moved (assign_all (view dst m) ((fun k => (k + t, element (view src m) (k + n))%Z) <$> ks)) (view dst m) (view src m) t n i) as Hmoved.
  { intros ks Hks. apply assign_moved; lia || done. }
  assert (forall ks : list Z, (forall k : Z, k ∈ ks <-> (0 <= k < i)%Z) -> forall k, k ∈ ks -> (0 <= k + n < b_len src /\ 0 <= k + t < b_len dst)%Z) as Hin.
  { intros ks Hks k Hk%Hks. lia. }
  destruct ((b_obj src =? b_obj dst)%N && (n <? t)%Z && (t <? n + i)%Z) eqn:Eo; [|destruct (Z.ltb_spec i 1000) as [Hsm|Hbig]].
  - apply andb_true_iff in Eo as [[Eo Ent%Z.ltb_lt]%andb_true_iff _]. apply N.eqb_eq, Hobj in Eo. subst dst.
    assert (forall k, k ∈ reverse (seqZ 0 i) <-> (0 <= k < i)%Z) as Hks by (intros k; rewrite elem_of_reverse, elem_of_seqZ; lia).
    destruct (copy_each_run src src n t (reverse (seqZ 0 i)) m Vs Vd (Hin _ Hks)) as (m' & E & V & Ev).
    + intros _ a b k k' Ha Hb Hab. rewrite reverse_seqZ, list_lookup_fmap in Ha, Hb by lia.
      destruct (seqZ 0 i !! a) as [xa|] eqn:Ea; [|done]. destruct (seqZ 0 i !! b) as [xb|] eqn:Eb; [|done].
      apply lookup_seqZ in Ea, Eb. injection Ha as <-. injection Hb as <-. lia.
    + exists m'. split_and!; [done..|]. rewrite Ev. by apply Hmoved.
  - assert (forall k, k ∈ seqZ 0 i <-> (0 <= k < i)%Z) as Hks by (intros k; rewrite elem_of_seqZ; lia).
    destruct (copy_each_run src dst n t (seqZ 0 i) m Vs Vd (Hin _ Hks)) as (m' & E & V & Ev).
    + intros Hm a b k k' Ha Hb Hab. apply lookup_seqZ in Ha as [-> Ha], Hb as [-> Hb].
      destruct Hcase as [Hc|[Hc|Hc]]; [|done|lia]. apply Hobj in Hc as <-. rewrite N.eqb_refl in Eo. cbn [andb] in Eo.
      apply andb_false_iff in Eo as [Eo%Z.ltb_ge|Eo%Z.ltb_ge]; lia.
    + exists m'. split_and!; [done..|]. rewrite Ev. by apply Hmoved.
  - unfold bind at 1, contents, gets. set (part := ub <$> take (Z.to_nat i) (drop (Z.to_nat n) (view src m))).
    assert (zlen part = i) as Elen by (unfold part, zlen in *; rewrite length_fmap, length_take, length_drop; lia).
    rewrite (imap_seqZ (fun k v => (k + t, v)%Z) (fun k => (k + t, element (view src m) (k + n))%Z)).
    + rewrite Elen. destruct (set_all_run dst ((fun k => (k + t, element (view src m) (k + n))%Z) <$> seqZ 0 i) m Vd) as (m' & E & V & Ev).
      exists m'. split_and!; [done..|]. rewrite Ev. apply Hmoved. intros k. rewrite elem_of_seqZ. lia.
    + intros k x Hx. f_equal. unfold part in Hx. rewrite list_lookup_fmap in Hx. apply fmap_Some in Hx as (bt & Hbt & ->).
      apply lookup_take_Some in Hbt as [Hbt _]. rewrite lookup_drop in Hbt. symmetry. apply element_Some. rewrite <- Hbt. f_equal. lia.
Qed.

(** ** The memory outside of the target *)

(** No byte has changed but those a buffer views. *)
Record only_view (b : Buffer) (m m' : Memory) : Prop := {
  ov_fresh : fresh m' = fresh m;
  ov_other k : k <> b_mem b -> arrays m' !! k = arrays m !! k;
  ov_same arr : arrays m !! b_mem b = Some arr -> exists arr', arrays m' !! b_mem b = Some arr' /\ length arr' = length arr /\
    forall j, ~ (b_off b <= Z.of_nat j < b_off b + b_len b)%Z -> arr' !! j = arr !! j
}.

#[local] Instance only_view_refl b : Reflexive (only_view b).
Proof. split; eauto. Qed.

#[local] Instance only_view_trans b : Transitive (only_view b).
Proof.
  intros m1 m2 m3 [F1 O1 S1] [F2 O2 S2]. split; [congruence|intros k Hk; by rewrite O2, O1|].
  intros arr E. destruct (S1 arr E) as (arr1 & E1 & L1 & H1). destruct (S2 arr1 E1) as (arr2 & E2 & L2 & H2).
  exists arr2. split_and!; [done|congruence|]. intros j Hj. by rewrite H2, H1.
Qed.

Lemma set_only b i v m : (0 <= b_off b)%Z -> only_view b m (fst (set b i v m)).
Proof.
  intros Ho. unfold set, modify. cbn [fst]. destruct (_ && _) eqn:Ei; [|done].
  apply andb_true_iff in Ei as [Ei1%Z.leb_le Ei2%Z.ltb_lt]. split; cbn [fresh arrays].
  - done.
  - intros k Hk. by rewrite lookup_insert_ne.
  - intros arr E. rewrite lookup_insert_eq, E. cbn [default from_option id]. eexists. split_and!; [done|by rewrite length_insert|].
    intros j Hj. apply list_lookup_insert_ne. lia.
Qed.

Lemma set_all_only b ws m : (0 <= b_off b)%Z -> only_view b m (fst (set_all b ws m)).
Proof.
  intros Ho. revert m. induction ws as [|[i v] ws IH]; intros m; [done|]. cbn [set_all].
  rewrite (bind_run _ _ _ _ _ (set_run b i v m)). etransitivity; [by apply set_only|apply IH].
Qed.

Lemma copy_each_only src dst from to ks m : (0 <= b_off dst)%Z -> only_view dst m (fst (copy_each src dst from to ks m)).
Proof.
  intros Ho. revert m. induction ks as [|k ks IH]; intros m; [done|]. cbn [copy_each].
  unfold bind at 1, get, gets. rewrite (bind_run _ _ _ _ _ (set_run dst _ _ m)). etransitivity; [by apply set_only|apply IH].
Qed.

(** C14: copy moves the part of the source from n up to r, as much of it as fits,
    to the target from t on, as if through a temporary copy, when the two share
    no memory or are the same buffer (or the part is 1000 bytes or more); nothing
    else in the target changes, nor any memory the target does not view, and the
    number of bytes is returned. *)
Theorem copy_moves src dst m t n r : valid src m -> valid dst m -> same_object src dst ->
  (0 <= t < b_len dst)%Z -> (0 <= n < r)%Z -> (r <= b_len src)%Z ->
  let i := Z.min (r - n) (b_len dst - t) in
  (b_obj src = b_obj dst \/ b_mem src <> b_mem dst \/ 1000 <= i)%Z -> exists m',
  copy src dst (Some t) (Some n) (Some r) m = (m', Success i) /\ valid dst m' /\
  moved (view dst m') (view dst m) (view src m) t n i /\ only_view dst m m'.
Proof.
  intros Vs Vd Hobj Ht Hn Hr i Hcase.
  destruct (copy_loops_run src dst t n i m Vs Vd Hobj) as (m' & E & V & H); [unfold i; lia..|done|].
  assert (only_view dst m m') as Ho.
  { change m' with (fst (m', Success tt)). rewrite <- E. destruct Vd as [Ho _].
    destruct (_ && _); [by apply copy_each_only|]. destruct (_ <? _)%Z; [by apply copy_each_only|by apply set_all_only]. }
  exists m'. split_and!; [|done..].
  unfold copy. cbn [default from_option id].
  rewrite (proj2 (Z.leb_gt (b_len dst) t)), (proj2 (Z.ltb_ge r n)), andb_false_r, (proj2 (Z.eqb_neq r n)) by lia.
  rewrite (proj2 (Z.eqb_neq (b_len dst) 0)), (proj2 (Z.eqb_neq (b_len src) 0)) by lia. cbn [orb].
  rewrite (proj2 (Z.leb_le 0 t)), (proj2 (Z.leb_le 0 n)), (proj2 (Z.ltb_lt n (b_len src))), (proj2 (Z.leb_le 0 r)), (proj2 (Z.ltb_ge (b_len src) r)) by lia.
  cbn [andb guard]. rewrite !(bind_run (ret tt) _ m m tt) by done.
  assert ((if (b_len dst - t <? r - n)%Z then (b_len dst - t + n)%Z else r) = (n + i)%Z) as -> by (unfold i; destruct (Z.ltb_spec (b_len dst - t) (r - n)); lia).
  replace (n + i - n)%Z with i by lia. by rewrite (bind_run _ _ _ _ _ E).
Qed.

Lemma copy_moves_witness :
  let b := Buf 1 0 1 6 in let m := Mem {[ 0%N := z2b <$> [9; 10; 11; 12; 13; 14; 15; 16]%Z ]} 2 in
  exists m', copy b b (Some 2%Z) (Some 0%Z) (Some 5%Z) m = (m', Success 4%Z) /\ moved (view b m') (view b m) (view b m) 2 0 4 /\
    only_view b m m'.
Proof.
  intros b m. assert (valid b m) as Hv by (split_and!; [done|done|]; eexists; split; [by vm_compute|by vm_compute]).
  destruct (copy_moves b b m 2 0 5 Hv Hv) as (m' & E & _ & H & Ho); [done|done|done|done|by left|]. by exists m'.
Defined.

(** Two views of one memory that overlap *)
Definition overlap_memory : Memory := Mem {[ 0%N := z2b <$> [1; 2; 3; 4]%Z ]} 3.
Definition left_view : Buffer := Buf 1 0 0 3.
Definition right_view : Buffer := Buf 2 0 1 3.

(** Between two slices of one memory that overlap a short copy is not a move:
    it reads bytes it has already overwritten. *)
Theorem overlapping_copy_corrupts :
  view right_view overlap_memory = z2b <$> [2; 3; 4]%Z /\
  (let '(m', r) := copy left_view right_view (Some 0%Z) (Some 0%Z) (Some 3%Z) overlap_memory in
   r = Success 3%Z /\ view right_view m' = z2b <$> [1; 1; 1]%Z) /\
  ~ moved (z2b <$> [1; 1; 1]%Z) (view right_view overlap_memory) (view left_view overlap_memory) 0 0 3.
Proof.
  split; [done|]. split; [by vm_compute|]. intros [_ H]. specialize (H 1%Z ltac:(by vm_compute)). by vm_compute in H.
Qed.

(** ** New buffers *)

(** The numbers of the arrays that are there are all used up. *)
Definition allocated (m : Memory) : Prop := forall k, is_Some (arrays m !! k) -> (k < fresh m)%N.

Definition created (m : Memory) (len : Z) : Memory :=
  Mem (<[fresh m := replicate (Z.to_nat len) (z2b 0)]> (arrays m)) (fresh m + 1 + 1).
Definition created_buffer (m : Memory) (len : Z) : Buffer := Buf (fresh m + 1) (fresh m) 0 len.

Lemma createBuffer_run len m : (0 <= len <= kMaxLength)%Z -> createBuffer len m = (created m len, Success (created_buffer m len)).
Proof.
  intros [H1 H2]. unfold createBuffer. rewrite (proj2 (Z.ltb_ge kMaxLength len)), (proj2 (Z.leb_le 0 len)) by lia. done.
Qed.

Lemma created_valid len m : (0 <= len)%Z -> allocated m -> let b := created_buffer m len in
  valid b (created m len) /\ allocated (created m len) /\
  (forall b', valid b' m -> valid b' (created m len) /\ view b' (created m len) = view b' m /\ b_mem b' <> b_mem b).
Proof.
  intros Hl Ha b. split_and!.
  - split_and!; [done|done|]. eexists. split; [apply lookup_insert_eq|]. unfold zlen. rewrite length_replicate. cbn. lia.
  - intros k Hk. cbn in *. destruct (decide (k = fresh m)) as [->|Hne]; [lia|]. rewrite lookup_insert_ne in Hk by done. specialize (Ha k Hk). lia.
  - intros b' (Ho & Hl' & arr & E & Hr). assert (b_mem b' <> fresh m) as Hne by (intros Eq; specialize (Ha (b_mem b') ltac:(by exists arr)); lia).
    split; [|split; [unfold view; cbn; by rewrite lookup_insert_ne|done]].
    split_and!; [done|done|]. exists arr. cbn. by rewrite lookup_insert_ne.
Qed.

(** ** Strings *)

Lemma blit_whole src b m : valid b m -> zlen src = b_len b -> exists m',
  blitBuffer src b 0 (b_len b) m = (m', Success (b_len b)) /\ valid b m' /\ view b m' = z2b <$> src.
Proof.
  intros Hv Hl. unfold blitBuffer. assert (Z.max 0 (Z.min (b_len b) (Z.min (b_len b - 0) (zlen src))) = b_len b) as -> by (unfold zlen in *; lia).
  rewrite firstn_all2 by (unfold zlen in Hl; lia).
  rewrite (imap_seqZ (fun i v => (i + 0, v)%Z) (fun i => (i, nth (Z.to_nat i) src 0)%Z)).
  2: { intros i v Hi. rewrite Nat2Z.id, Z.add_0_r. f_equal. symmetry. by apply nth_lookup_Some. }
  destruct (set_all_run b ((fun i => (i, nth (Z.to_nat i) src 0)%Z) <$> seqZ 0 (zlen src)) m Hv) as (m' & E & V & Ev).
  exists m'. rewrite (bind_run _ _ _ _ _ E). split_and!; [done..|]. apply view_ext; [done|unfold zlen in *; by rewrite length_fmap|].
  intros i Hi. rewrite Ev. pose proof (assign_all_hit (view b m) (fun i => i) (fun i => nth (Z.to_nat i) src 0%Z) (seqZ 0 (zlen src)) i) as H.
  cbn beta in H. rewrite H; [|by rewrite view_length|apply elem_of_seqZ; lia|by intros k' _ ->].
  rewrite list_lookup_fmap. destruct (lookup_lt_is_Some_2 src (Z.to_nat i)) as [x Hx]; [unfold zlen in Hl; lia|].
  rewrite Hx. cbn. by rewrite (nth_lookup_Some _ _ _ _ Hx).
Qed.

Lemma fitting_total ns u : (zlen (flat_map utf8_bytes ns) <= u)%Z -> fitting (Some u) ns = ns.
Proof.
  revert u. induction ns as [|n ns IH]; intros u H; [done|]. cbn [fitting flat_map] in *.
  change (spend (zlen (utf8_bytes n)) (Some u)) with (Some (u - zlen (utf8_bytes n))%Z). cbn [left_over].
  unfold zlen in *. rewrite length_app in H. rewrite (proj2 (Z.ltb_lt _ _)) by lia. f_equal. apply IH. lia.
Qed.

(** A limit that is the length of the whole does not cut. *)
Lemma utf8_enough s u : zlen (utf8ToBytes s None) = u -> utf8ToBytes s (Some u) = utf8ToBytes s None.
Proof.
  intros Hu. destruct (utf8_loop_spec s) as [Hloop _].
  assert (utf8ToBytes s None = flat_map utf8_bytes (scalars (written s))) as E by (unfold utf8ToBytes; by rewrite Hloop, fitting_all).
  destruct u as [|p|p]; [done| |unfold zlen in Hu; lia].
  rewrite E in *. unfold utf8ToBytes. by rewrite Hloop, fitting_total by (try rewrite Hu; done).
Qed.

(** A string whose surrogates are paired, made a buffer and read back, is the
    same string. *)
Theorem string_survives s m : allocated m -> is_string s -> paired s = true -> (zlen (utf8ToBytes s None) <= kMaxLength)%Z ->
  exists b m', from (FromString s None) m = (m', Success b) /\ valid b m' /\ view b m' = z2b <$> utf8ToBytes s None /\
    toString None None None (view b m') = Success s.
Proof.
  intros Ha Hs Hp Hk. pose proof (paired_two_high s Hp) as Ht. destruct (utf8_loop_spec s) as [Hloop _].
  assert (utf8ToBytes s None = flat_map utf8_bytes (scalars s)) as Ebytes by (unfold utf8ToBytes; by rewrite Hloop, fitting_all, written_all).
  set (bs := utf8ToBytes s None) in *. set (r := zlen bs) in *. assert (0 <= r)%Z as H0 by (unfold r, zlen; lia).
  pose proof (utf8_enough s r eq_refl : utf8ToBytes s (Some r) = bs) as Elim.
  assert (byteLength s (Some (js "utf8")) = Success r) as Elen.
  { unfold byteLength. destruct (Z.eqb_spec (js_length s) 0) as [E|E]; [|done]. destruct s; [done|by unfold js_length in E]. }
  destruct (created_valid r m H0 Ha) as (V & _). set (b := created_buffer m r) in *.
  destruct (blit_whole bs b (created m r) V eq_refl) as (m' & Eb & V' & Ev). exists b, m'. split_and!; [|done..|].
  - unfold from. change (isEncoding (js "utf8")) with true. rewrite (bind_run _ _ m m tt) by done. rewrite Elen, (bind_run _ _ m m r) by done.
    rewrite (bind_run _ _ _ _ _ (createBuffer_run r m (conj H0 Hk))). fold b. unfold write. change (b_len b) with r. rewrite Z.sub_0_r, Z.ltb_irrefl.
    rewrite (proj2 (Z.ltb_ge r 0)) by lia. rewrite andb_false_r. cbn [orb negb].
    unfold bind at 1. rewrite (bind_run _ _ (created m r) (created m r) tt) by done.
    match goal with |- context [encoding_of ?e] => change (encoding_of e) with (Some Utf8) end. cbn iota. rewrite Elim. change (blitBuffer bs b 0 r) with (blitBuffer bs b 0 (b_len b)). rewrite Eb. change (b_len b) with r. by rewrite Z.eqb_refl.
  - rewrite Ev. assert (utf8Slice (z2b <$> bs) = s) as Es.
    { rewrite Ebytes. unfold utf8Slice. rewrite utf8_decode_scalars; [by apply paired_spec|by apply scalars_scalar|by rewrite length_fmap]. }
    unfold toString. assert (zlen (z2b <$> bs) = r) as -> by (unfold r, zlen; by rewrite length_fmap). rewrite (proj2 (Z.ltb_ge r 0)) by lia.
    destruct (Z.leb_spec r 0) as [Hr|Hr]; [|].
    + replace bs with (@nil Z) in Es by (destruct bs; [done|unfold r, zlen in Hr; cbn in Hr; lia]). by rewrite <- Es.
    + rewrite Z.sub_0_r. change (Z.to_nat 0) with 0. rewrite drop_0, firstn_all2 by (rewrite length_fmap; unfold r, zlen; lia). match goal with |- context [encoding_of ?e] => change (encoding_of e) with (Some Utf8) end. cbn iota. cbn [slice_string]. by rewrite Es.
Qed.

Lemma string_survives_witness : let s := [104; 233; 55357; 56832]%N in
  exists b m', from (FromString s None) (Mem ∅ 0) = (m', Success b) /\ toString None None None (view b m') = Success s.
Proof.
  intros s. destruct (string_survives s (Mem ∅ 0)) as (b & m' & E & _ & _ & H); [|repeat constructor|done|by vm_compute|by exists b, m'].
  intros k [x Hx]. cbn in Hx. by rewrite lookup_empty in Hx.
Defined.

(** ** concat *)

Lemma moved_app l l0 src pre : moved l l0 src (zlen pre) 0 (zlen src) -> (zlen pre + zlen src <= zlen l0)%Z -> take (length pre) l0 = pre ->
  take (length (pre ++ src)) l = pre ++ src.
Proof.
  intros [Hl H] Hle Hpre. unfold zlen in *. rewrite length_app. apply list_eq. intros j. destruct (Nat.lt_ge_cases j (length pre + length src)) as [Hj|Hj].
  - rewrite lookup_take_lt by lia. specialize (H (Z.of_nat j) ltac:(lia)). rewrite Nat2Z.id in H. rewrite H.
    destruct (Nat.lt_ge_cases j (length pre)) as [Hp|Hp].
    + rewrite (proj2 (Z.leb_gt _ _)) by lia. cbn [andb]. rewrite lookup_app_l by done.
      transitivity (take (length pre) l0 !! j); [by rewrite lookup_take_lt|by rewrite Hpre].
    + rewrite (proj2 (Z.leb_le _ _)), (proj2 (Z.ltb_lt _ _)) by lia. cbn [andb]. rewrite lookup_app_r by done. f_equal. lia.
  - rewrite !lookup_ge_None_2; [done|rewrite length_app; lia|rewrite length_take; lia].
Qed.

(** Only the memory of the target is written. *)
Definition elsewhere (k : N) (m m' : Memory) : Prop := forall k', k' <> k -> arrays m' !! k' = arrays m !! k'.

Lemma elsewhere_refl k m : elsewhere k m m.
Proof. by intros k' _. Qed.
Lemma elsewhere_trans k m1 m2 m3 : elsewhere k m1 m2 -> elsewhere k m2 m3 -> elsewhere k m1 m3.
Proof. intros H1 H2 k' Hk. by rewrite (H2 k' Hk), (H1 k' Hk). Qed.
#[local] Hint Resolve elsewhere_refl : core.

Lemma set_elsewhere b i v m : elsewhere (b_mem b) m (fst (set b i v m)).
Proof. unfold set, modify. cbn. destruct (_ && _); [|done]. intros k Hk. cbn. by rewrite lookup_insert_ne. Qed.
Lemma set_all_elsewhere b ws m : elsewhere (b_mem b) m (fst (set_all b ws m)).
Proof.
  revert m. induction ws as [|[i v] ws IH]; intros m; [done|]. cbn [set_all].
  rewrite (bind_run _ _ _ _ _ (set_run b i v m)). eapply elsewhere_trans; [apply set_elsewhere|apply IH].
Qed.
Lemma copy_each_elsewhere src dst from to ks m : elsewhere (b_mem dst) m (fst (copy_each src dst from to ks m)).
Proof.
  revert m. induction ks as [|k ks IH]; intros m; [done|]. cbn [copy_each]. unfold bind at 1, get, gets.
  rewrite (bind_run _ _ _ _ _ (set_run dst _ _ m)). eapply elsewhere_trans; [apply set_elsewhere|apply IH].
Qed.

Lemma elsewhere_view k b m m' : elsewhere k m m' -> b_mem b <> k -> view b m' = view b m /\ (valid b m -> valid b m').
Proof. intros H Hb. unfold view, valid. by rewrite (H _ Hb). Qed.

(** The whole of a buffer, copied to another memory from t on *)
Lemma copy_whole a r t m : valid a m -> valid r m -> b_mem a <> b_mem r -> b_obj a <> b_obj r -> (0 <= t)%Z -> (t + b_len a <= b_len r)%Z -> exists m',
  copy a r (Some t) None None m = (m', Success (b_len a)) /\ valid r m' /\ elsewhere (b_mem r) m m' /\
  moved (view r m') (view r m) (view a m) t 0 (b_len a).
Proof.
  intros Va Vr Hmem Hobj Ht Hfit. pose proof Va as (_ & Hla & _). pose proof (view_length r m Vr) as Lr. unfold copy. cbn [default from_option id].
  destruct (Z.eqb_spec (b_len a) 0) as [E|E].
  - exists m. rewrite E. cbn. split_and!; [done..|]. split; [done|]. intros j Hj. destruct (Z.leb_spec t j), (Z.ltb_spec j (t + 0)); (lia || done).
  - destruct (copy_loops_run a r t 0 (b_len a) m Va Vr) as (m' & Em & V & Hmoved); [by intros Eo|lia..|by right; left|].
    exists m'. split_and!; [|done| |done].
    + rewrite (proj2 (Z.leb_gt (b_len r) t)), (proj2 (Z.ltb_ge (b_len a) 0)), andb_false_r, (proj2 (Z.eqb_neq (b_len a) 0)), (proj2 (Z.eqb_neq (b_len r) 0)) by lia.
      cbn [orb]. rewrite (proj2 (Z.leb_le 0 t)), (proj2 (Z.ltb_lt 0 (b_len a))), (proj2 (Z.leb_le 0 (b_len a))), Z.ltb_irrefl by lia.
      cbn [Z.leb Z.compare andb guard]. rewrite !(bind_run (ret tt) _ m m tt) by done.
      rewrite Z.sub_0_r, (proj2 (Z.ltb_ge (b_len r - t) (b_len a))), Z.sub_0_r by lia. rewrite Z.add_0_l in Em. by rewrite (bind_run _ _ _ _ _ Em).
    + replace m' with (fst (m', Success tt : Try unit)) by done. rewrite <- Em.
      destruct (_ && _); [apply copy_each_elsewhere|]. destruct (_ <? _)%Z; [apply copy_each_elsewhere|]. apply set_all_elsewhere.
Qed.

Definition total_length (l : list Buffer) : Z := foldr (fun a n => (b_len a + n)%Z) 0%Z l.
Definition apart (r a : Buffer) (m : Memory) : Prop := valid a m /\ b_mem a <> b_mem r /\ b_obj a <> b_obj r.

(** Each buffer is copied behind those before it. *)
Lemma concat_copy_run l r m pre : valid r m -> Forall (fun a => apart r a m) l ->
  take (length pre) (view r m) = pre -> (zlen pre + total_length l <= b_len r)%Z -> exists m',
  concat_copy l r (zlen pre) m = (m', Success tt) /\ valid r m' /\
  take (length (pre ++ flat_map (fun a => view a m) l)) (view r m') = pre ++ flat_map (fun a => view a m) l.
Proof.
  revert m pre. induction l as [|a l IH]; intros m pre Vr Hl Hpre Hlen.
  { exists m. cbn. rewrite app_nil_r. done. }
  inversion_clear Hl as [|? ? (Va & Hmem & Hobj) Hl']. cbn [total_length foldr] in Hlen. fold (total_length l) in Hlen. cbn [concat_copy flat_map].
  pose proof (view_length a m Va) as Ea. pose proof (view_length r m Vr) as Er.
  assert (0 <= total_length l)%Z as Hrest.
  { clear -Hl'. unfold total_length. induction Hl' as [|b l ((_ & ? & _) & _) _ IH]; cbn; lia. }
  destruct (copy_whole a r (zlen pre) m Va Vr Hmem Hobj ltac:(unfold zlen; lia) ltac:(lia)) as (m1 & Ec & V1 & He & Hm).
  rewrite (bind_run _ _ _ _ _ Ec). rewrite <- Ea in Hm. pose proof (moved_app _ _ _ _ Hm ltac:(lia) Hpre) as Hp1.
  assert (zlen (pre ++ view a m) = zlen pre + b_len a)%Z as Elen by (rewrite <- Ea; unfold zlen; rewrite length_app; lia).
  destruct (IH m1 (pre ++ view a m) V1) as (m' & E & V & Ev); [|done|lia|].
  { eapply Forall_impl; [exact Hl'|]. intros b (Vb & Hb & Hob). split; [|done]. by apply (elsewhere_view _ _ _ _ He Hb). }
  assert (flat_map (fun b => view b m1) l = flat_map (fun b => view b m) l) as Eviews.
  { apply flat_map_Forall. eapply Forall_impl; [exact Hl'|]. intros b (_ & Hb & _). by apply (elsewhere_view _ _ _ _ He Hb). }
  rewrite Elen in E. exists m'. split_and!; [done..|]. rewrite Eviews in Ev. by rewrite <- app_assoc in Ev.
Qed.

Lemma foldl_total l n : foldl (fun n a => (n + b_len a)%Z) n l = (n + total_length l)%Z.
Proof. revert n. induction l as [|a l IH]; intros n; cbn; [lia|]. rewrite IH. unfold total_length. lia. Qed.

(** No object of the program has a number that is not used up. *)
Definition known (m : Memory) (b : Buffer) : Prop := valid b m /\ (b_obj b < fresh m)%N.

Lemma total_views l m : Forall (known m) l -> zlen (flat_map (fun a => view a m) l) = total_length l.
Proof.
  induction 1 as [|a l [Va _] _ IH]; [done|]. cbn [flat_map total_length foldr]. fold (total_length l).
  pose proof (view_length a m Va). unfold zlen in *. rewrite length_app. lia.
Qed.

(** Concat of some buffers is a new buffer, in memory of its own, that holds
    their bytes one after the other. *)
Theorem concat_joins l m : allocated m -> Forall (known m) l -> l <> [] -> (total_length l < kMaxLength)%Z ->
  exists r m', concat l None m = (m', Success r) /\ valid r m' /\ Forall (fun a => b_mem a <> b_mem r) l /\
    view r m' = flat_map (fun a => view a m) l.
Proof.
  intros Ha Hl Hne Hk. assert (0 <= total_length l)%Z as H0 by (rewrite <- (total_views l m Hl); unfold zlen; lia).
  set (t := total_length l) in *. destruct (created_valid t m H0 Ha) as (V & _ & Hold).
  set (r := created_buffer m t) in *.
  assert (Forall (fun a => apart r a (created m t) /\ view a (created m t) = view a m) l) as Hap.
  { eapply Forall_impl; [exact Hl|]. intros a [Va Hobj]. destruct (Hold a Va) as (V' & E & Hm). split; [|done]. split_and!; [done..|]. cbn. lia. }
  destruct (concat_copy_run l r (created m t) [] V) as (m' & E & V' & Ev).
  - eapply Forall_impl; [exact Hap|]. by intros a [? _].
  - done.
  - change (0 + t <= t)%Z. lia.
  - assert (flat_map (fun b => view b (created m t)) l = flat_map (fun b => view b m) l) as Eviews.
    { apply flat_map_Forall. eapply Forall_impl; [exact Hap|]. by intros a [_ ?]. }
    cbn [app] in Ev. rewrite Eviews in Ev. exists r, m'. split_and!; [|done| |].
    + unfold concat. destruct l as [|a l]; [done|]. cbn [default from_option id]. rewrite foldl_total, Z.add_0_l. fold t.
      unfold allocUnsafe, assertSize, checked. rewrite (proj2 (Z.leb_le 0 t)), (proj2 (Z.ltb_lt t kMaxLength)) by lia. cbn [guard].
      unfold bind at 1. rewrite (bind_run (ret tt) _ m m tt) by done. unfold bind at 1. rewrite (bind_run (ret tt) _ m m tt) by done. cbn [ret].
      rewrite (createBuffer_run t m) by lia. fold r. change 0%Z with (zlen (@nil byte)). by rewrite (bind_run _ _ _ _ _ E).
    + eapply Forall_impl; [exact Hap|]. by intros a [(_ & ? & _) _].
    + rewrite <- Ev. rewrite firstn_all2; [done|].
      pose proof (view_length r m' V') as Lr. pose proof (total_views l m Hl) as Lt. unfold zlen in Lr, Lt. cbn in Lr. lia.
Qed.

Lemma concat_joins_witness :
  let m := Mem {[ 0%N := z2b <$> [9; 10; 11; 12]%Z ]} 3 in
  exists r m', concat [Buf 1 0 0 2; Buf 2 0 1 3; Buf 1 0 0 2] None m = (m', Success r) /\
    view r m' = z2b <$> [9; 10; 10; 11; 12; 9; 10]%Z.
Proof.
  intros m. assert (forall o off len, (o < 3)%N -> (0 <= off)%Z -> (0 <= len)%Z -> (off + len <= 4)%Z -> known m (Buf o 0 off len)) as Hk.
  { intros o off len Ho Hoff Hlen Hfit. split; [|done]. split_and!; [done|done|]. eexists. split; [by vm_compute|done]. }
  destruct (concat_joins [Buf 1 0 0 2; Buf 2 0 1 3; Buf 1 0 0 2] m) as (r & m' & E & _ & _ & Hview).
  - intros k [x Hx]. cbn in Hx. destruct (decide (k = 0%N)) as [->|Hne]; [done|]. by rewrite lookup_singleton_ne in Hx.
  - repeat apply Forall_cons_2; try apply Forall_nil_2; by apply Hk.
  - done.
  - by vm_compute.
  - exists r, m'. split; [exact E|]. rewrite Hview. by vm_compute.
Defined.
