(* ===== verification/JsBufferTypes.v ===== *)
(** * JsBufferTypes: every program that uses buffers keeps them well formed

    A typing judgement for the operations of JsBuffer and JsBufferNumbers, in
    the manner of a Hoare logic: an operation that is given valid buffers
    neither removes an array nor changes its length, also when it throws, and
    the buffers it makes are valid and new. *)

From S2P Require Import Prelude JsCore Base64Js BufferCodec JsBuffer JsBufferNumbers JsBufferThms JsBufferCopy.

(** ** How the memory may change *)

Record grows (m m' : Memory) : Prop := {
  grows_arrays k arr : arrays m !! k = Some arr -> exists arr', arrays m' !! k = Some arr' /\ zlen arr' = zlen arr;
  grows_fresh : (fresh m <= fresh m')%N;
  grows_allocated : allocated m -> allocated m'
}.

#[export] Instance grows_preorder : PreOrder grows.
Proof.
  split.
  - intros m. split; [by eauto|done|done].
  - intros m1 m2 m3 [A1 F1 L1] [A2 F2 L2]. split; [|lia|by eauto]. intros k arr E.
    destruct (A1 k arr E) as (arr2 & E2 & Z2). destruct (A2 k arr2 E2) as (arr3 & E3 & Z3). exists arr3. split; [done|congruence].
Qed.

(** What stays true of a memory that changes so *)
Class Stable (P : Memory -> Prop) : Prop := stable m m' : grows m m' -> P m -> P m'.

#[export] Instance stable_valid b : Stable (valid b).
Proof.
  intros m m' [Ha _ _] (Ho & Hl & arr & E & Hle). destruct (Ha _ _ E) as (arr' & E' & Z). split_and!; [done..|]. exists arr'. split; [done|lia].
Qed.
#[export] Instance stable_const (p : Prop) : Stable (fun _ => p).
Proof. by intros m m' _. Qed.
#[export] Instance stable_and P Q : Stable P -> Stable Q -> Stable (fun m => P m /\ Q m).
Proof. intros HP HQ m m' G [? ?]. split; [by eapply HP|by eapply HQ]. Qed.

(** A buffer that was made since the object numbers had come to n *)
Definition new (n : N) (b : Buffer) (m : Memory) : Prop := valid b m /\ (n <= b_obj b < fresh m)%N.
#[export] Instance stable_new n b : Stable (new n b).
Proof. intros m m' G [V H]. split; [by eapply stable_valid|]. pose proof (grows_fresh _ _ G). lia. Qed.

(** The buffer is valid wherever P holds. *)
Definition knows (P : Memory -> Prop) (b : Buffer) : Prop := forall m, P m -> valid b m.

(** ** The judgement *)

Definition typed {A} (n : N) (P : Memory -> Prop) (act : BF A) (R : A -> Memory -> Prop) : Prop :=
  forall m, allocated m -> (n <= fresh m)%N -> P m ->
  wp act m (fun r m' => grows m m' /\ match r with Success x => R x m' | Failure _ => True end).

Definition anything {A} : A -> Memory -> Prop := fun _ _ => True.

Section Rules.
Context (n : N) (P : Memory -> Prop).

Lemma typed_ret {A} (x : A) (R : A -> Memory -> Prop) : (forall m, P m -> R x m) -> typed n P (ret x) R.
Proof. intros H m _ _ HP. apply wp_ret. split; [done|by apply H]. Qed.
Lemma typed_throw {A} e (R : A -> Memory -> Prop) : typed n P (throw e) R.
Proof. intros m _ _ _. by apply wp_throw. Qed.
Lemma typed_guard e c : typed n P (guard e c) anything.
Proof. destruct c; [by apply typed_ret|apply typed_throw]. Qed.
Lemma typed_gets {A} (f : Memory -> A) : typed n P (gets f) anything.
Proof. intros m _ _ _. by apply wp_gets. Qed.
Lemma typed_lift {A} (t : Try A) : typed n P (lift_try t) anything.
Proof. intros m _ _ _. apply wp_lift. by destruct t. Qed.
Lemma typed_bind {A B} (act : BF A) (k : A -> BF B) Q R : Stable P -> typed n P act Q ->
  (forall x, typed n (fun m => P m /\ Q x m) (k x) R) -> typed n P (bind act k) R.
Proof.
  intros SP H1 H2 m Ha Hn HP. apply wp_bind. eapply wp_mono; [exact (H1 m Ha Hn HP)|]. intros [x|e] m1 [G1 HQ]; [|done].
  eapply wp_mono; [apply (H2 x m1); [by apply (grows_allocated _ _ G1)|pose proof (grows_fresh _ _ G1); lia|split; [by eapply SP|done]]|].
  intros r m2 [G2 HR]. split; [by etransitivity|done].
Qed.
Lemma typed_set b i v : knows P b -> typed n P (set b i v) anything.
Proof.
  intros H m Ha _ HP. destruct (H m HP) as (Ho & Hl & arr & E & Hle). unfold set. apply wp_modify. split; [|done].
  destruct (_ && _); [|done]. rewrite E. cbn [from_option default id]. split; cbn [arrays fresh]; [|done|].
  - intros k arr' E'. destruct (decide (k = b_mem b)) as [->|Hne].
    + rewrite lookup_insert_eq. eexists. split; [done|]. replace arr' with arr by congruence. unfold zlen. by rewrite length_insert.
    + rewrite lookup_insert_ne by done. by eauto.
  - intros _ k Hk. cbn [arrays fresh] in *. destruct (decide (k = b_mem b)) as [->|Hne]; [apply Ha; by eexists|]. rewrite lookup_insert_ne in Hk by done. by apply Ha.
Qed.
End Rules.

Lemma typed_weaken {A} n (P P' : Memory -> Prop) (act : BF A) (R R' : A -> Memory -> Prop) :
  (forall m, P m -> P' m) -> (forall x m, R' x m -> R x m) -> typed n P' act R' -> typed n P act R.
Proof. intros HP HR H m Ha Hn Hm. eapply wp_mono; [by apply H; [..|apply HP]|]. intros [x|e] m' [G Hx]; (split; [done|]); [by apply HR|done]. Qed.
Lemma typed_anything {A} n P (act : BF A) R : typed n P act R -> typed n P act anything.
Proof. apply typed_weaken; done. Qed.

#[export] Instance stable_anything {A} (x : A) : Stable (anything x).
Proof. done. Qed.

(** The rules, by the shape of an operation; calls are typed by the hints. *)
Create HintDb typing.
#[export] Hint Resolve typed_throw typed_guard typed_gets typed_lift : typing.
#[export] Hint Extern 1 (Stable _) => solve [apply _] : typing.
#[export] Hint Extern 3 (knows _ _) => solve [unfold knows, new in *; intros ?; intuition eauto] : typing.
#[export] Hint Extern 4 (typed _ _ _ anything) => (eapply typed_anything) : typing.

Ltac typing :=
  repeat first
    [ solve [eauto 4 with typing]
    | match goal with
      | |- typed _ _ (ret _) _ => apply typed_ret; solve [unfold anything, new; intuition eauto]
      | |- typed _ _ (bind _ _) _ => eapply typed_bind; [apply _|solve [eauto 3 with typing nocore]|intros ?]
      | |- typed _ _ (bind _ _) _ => eapply (typed_bind _ _ _ _ anything); [apply _| |intros ?]
      end
    | lazymatch goal with |- context [if ?c then _ else _] => destruct c end
    | case_match ].

(** ** The operations *)

#[export] Hint Resolve typed_set : typing.

Lemma typed_set_all n P `{SP : !Stable P} b ws : knows P b -> typed n P (set_all b ws) anything.
Proof.
  induction ws as [|[i v] ws IH] in P, SP |- *; intros H; cbn [set_all]; [by apply typed_ret|].
  eapply typed_bind; [done|by apply typed_set|]. intros ?. apply IH; [apply _|]. intros m [? _]. by apply H.
Qed.

Lemma typed_createBuffer n P `{SP : !Stable P} len : typed n P (createBuffer len) (new n).
Proof.
  unfold createBuffer. eapply typed_bind; [done|apply typed_guard|]. intros _ m Ha Hn _. apply wp_bind.
  destruct (Z.leb_spec 0 len) as [H0|H0]; [|by apply wp_throw]. apply wp_ret.
  destruct (created_valid len m H0 Ha) as (V & Ha' & _).
  unfold wp, new_array, new_view, bind, gets, modify, ret. cbn [fst snd arrays fresh]. split.
  - split; cbn [arrays fresh]; [|lia|done]. intros k arr E. rewrite lookup_insert_ne; [by eauto|]. intros <-.
    pose proof (Ha (fresh m) ltac:(by eexists)). lia.
  - split; [exact V|]. cbn. lia.
Qed.
#[export] Hint Resolve typed_set_all typed_createBuffer : typing.

Lemma typed_allocUnsafe n P `{SP : !Stable P} size : typed n P (allocUnsafe size) (new n).
Proof. unfold allocUnsafe, assertSize, checked. typing. Qed.
Lemma typed_blitBuffer n P `{SP : !Stable P} src b offset length : knows P b -> typed n P (blitBuffer src b offset length) anything.
Proof. intros H. unfold blitBuffer. typing. Qed.
Lemma typed_hexWrite n P `{SP : !Stable P} b s offset length : knows P b -> typed n P (hexWrite b s offset length) anything.
Proof. intros H. unfold hexWrite. typing. Qed.
#[export] Hint Resolve typed_allocUnsafe typed_blitBuffer typed_hexWrite : typing.
Lemma typed_write n P `{SP : !Stable P} b s offset length enc : knows P b -> typed n P (write b s offset length enc) anything.
Proof. intros H. unfold write. typing. Qed.
#[export] Hint Resolve typed_write : typing.

(** A view of a part of an array there is *)
Lemma typed_new_view n (P : Memory -> Prop) mem off len :
  (forall m, P m -> exists arr, arrays m !! mem = Some arr /\ 0 <= off /\ 0 <= len /\ off + len <= zlen arr)%Z ->
  typed n P (new_view mem off len) (new n).
Proof.
  intros H m Ha Hn HP. destruct (H m HP) as (arr & E & Ho & Hl & Hle). unfold wp, new_view, bind, gets, modify, ret. cbn [fst snd]. split.
  - split; cbn [arrays fresh]; [by eauto|lia|]. intros _ k Hk. cbn in *. specialize (Ha k Hk). lia.
  - split; [|cbn; lia]. split_and!; [done|done|]. by exists arr.
Qed.

Lemma typed_slice n P `{SP : !Stable P} b x y : knows P b -> typed n P (slice b x y) (new n).
Proof.
  intros H. apply typed_new_view. intros m HP. destruct (H m HP) as (Ho & Hl & arr & E & Hle). exists arr. split; [done|].
  set (e := clamp _ _). set (t := match y with Some _ => _ | None => _ end).
  pose proof (clamp_range (toInt (default 0%Z x)) (b_len b) Hl : (0 <= e <= b_len b)%Z) as He.
  assert (0 <= t <= b_len b)%Z as Ht by (unfold t; destruct y; [by apply clamp_range|lia]).
  destruct (Z.ltb_spec t e); lia.
Qed.
#[export] Hint Resolve typed_slice : typing.

Lemma typed_copy_each n P `{SP : !Stable P} src dst from to ks : knows P dst -> typed n P (copy_each src dst from to ks) anything.
Proof.
  induction ks as [|k ks IH] in P, SP |- *; intros H; cbn [copy_each]; [by apply typed_ret|].
  eapply typed_bind; [done|by apply typed_gets|]. intros v. eapply typed_bind; [apply _|apply typed_set; by intros m [? _]; apply H|].
  intros ?. apply IH; [apply _|]. intros m [[? _] _]. by apply H.
Qed.
#[export] Hint Resolve typed_copy_each : typing.
Lemma typed_copy n P `{SP : !Stable P} src dst t s e : knows P dst -> typed n P (copy src dst t s e) anything.
Proof. intros H. unfold copy, contents. typing. Qed.
#[export] Hint Resolve typed_copy : typing.

(** The ArrayBuffer a buffer is made on is there. *)
Definition from_ok (P : Memory -> Prop) (v : FromValue) : Prop :=
  match v with FromArrayBuffer mem _ _ => forall m, P m -> is_Some (arrays m !! mem) | _ => True end.

Lemma typed_from_array_buffer n (P : Memory -> Prop) mem off length : (forall m, P m -> is_Some (arrays m !! mem)) ->
  typed n P (from (FromArrayBuffer mem off length)) (new n).
Proof.
  intros H m Ha Hn HP. destruct (H m HP) as [arr E]. unfold from. apply wp_bind, wp_gets. rewrite E. cbn [from_option default id].
  set (o := default 0%Z off). destruct ((0 <=? o) && (o <=? zlen arr))%Z eqn:E1; [|by apply wp_bind, wp_throw].
  apply wp_bind, wp_ret. destruct (Z.leb_spec (o + default 0%Z length)%Z (zlen arr)) as [E2|]; [|by apply wp_bind, wp_throw].
  apply wp_bind, wp_ret. destruct (Z.leb_spec 0 (default 0%Z length)) as [E3|]; [|by apply wp_bind, wp_throw].
  apply wp_bind, wp_ret. apply andb_true_iff in E1 as [E1%Z.leb_le E1'%Z.leb_le].
  apply (typed_new_view n (fun m' => arrays m' = arrays m)); [|done|done|done].
  intros m' ->. exists arr. split; [done|]. destruct length; cbn in *; lia.
Qed.

Lemma typed_from n P `{SP : !Stable P} v : from_ok P v -> typed n P (from v) (new n).
Proof.
  intros H. destruct v as [|s enc|b|l|mem off length|]; [| | | |by apply typed_from_array_buffer|]; cbn [from].
  all: unfold checked; typing.
Qed.
#[export] Hint Resolve typed_from : typing.
#[export] Hint Extern 1 (from_ok _ _) => exact I : typing.
Lemma typed_fill_each n P `{SP : !Stable P} b a t ks : knows P b -> typed n P (fill_each b a t ks) anything.
Proof.
  induction ks as [|k ks IH] in P, SP |- *; intros H; cbn [fill_each]; [by apply typed_ret|].
  eapply typed_bind; [done|by apply typed_gets|]. intros v. eapply typed_bind; [apply _|apply typed_set; by intros m [? _]; apply H|].
  intros ?. apply IH; [apply _|]. intros m [[? _] _]. by apply H.
Qed.
#[export] Hint Resolve typed_fill_each : typing.
Lemma typed_fill n P `{SP : !Stable P} b v s e enc : knows P b -> typed n P (fill b v s e enc) anything.
Proof. intros H. unfold fill, contents. typing. Qed.
#[export] Hint Resolve typed_fill : typing.
Lemma typed_alloc n P `{SP : !Stable P} size v enc : typed n P (alloc size v enc) (new n).
Proof. unfold alloc, assertSize. typing. Qed.
Lemma typed_concat_copy n P `{SP : !Stable P} l r o : knows P r -> typed n P (concat_copy l r o) anything.
Proof.
  induction l as [|a l IH] in P, SP, o |- *; intros H; cbn [concat_copy]; [by apply typed_ret|].
  eapply typed_bind; [done|apply typed_copy; done|]. intros x. apply IH; [apply _|]. intros m [? _]. by apply H.
Qed.
#[export] Hint Resolve typed_alloc typed_concat_copy : typing.
Lemma typed_concat n P `{SP : !Stable P} l total : typed n P (concat l total) (new n).
Proof. unfold concat. typing. Qed.
#[export] Hint Resolve typed_concat : typing.

Lemma typed_for_steps n P `{SP : !Stable P} ks body :
  (forall k P', Stable P' -> (forall m, P' m -> P m) -> typed n P' (body k) anything) -> typed n P (for_steps ks body) anything.
Proof.
  intros H. assert (forall P', Stable P' -> (forall m, P' m -> P m) -> typed n P' (for_steps ks body) anything) as HP; [|by apply HP].
  induction ks as [|k ks IH]; intros P' SP' HPP; cbn [for_steps]; [by apply typed_ret|].
  eapply typed_bind; [done|by apply H|]. intros x. apply IH; [apply _|]. intros m [? _]. by apply HPP.
Qed.
Lemma typed_swap n P `{SP : !Stable P} b i j : knows P b -> typed n P (swap b i j) anything.
Proof. intros H. unfold swap, get. typing. Qed.
#[export] Hint Resolve typed_swap : typing.
#[export] Hint Extern 2 (typed _ _ (get _ _) _) => (apply typed_gets) : typing.

Lemma typed_swaps n P `{SP : !Stable P} b : knows P b -> typed n P (swap16 b) anything /\ typed n P (swap32 b) anything /\ typed n P (swap64 b) anything.
Proof.
  intros H. split_and!; unfold swap16, swap32, swap64; (eapply typed_bind; [done|apply typed_guard|intros ?]);
    (apply typed_for_steps; [apply _|]; intros k P' SP' HP'; assert (knows P' b) by (intros m Hm; by apply H, HP')); typing.
Qed.

Lemma typed_write_signed n P `{SP : !Stable P} b v at_ ks s : knows P b -> typed n P (write_signed b v at_ ks s) anything.
Proof.
  induction ks as [|k ks IH] in P, SP, s |- *; intros H; cbn [write_signed]; [by apply typed_ret|].
  eapply typed_bind; [done|by apply typed_gets|]. intros x. eapply typed_bind; [apply _|apply typed_set; by intros m [? _]; apply H|].
  intros ?. apply IH; [apply _|]. intros m [[? _] _]. by apply H.
Qed.
#[export] Hint Resolve typed_write_signed : typing.

(** The writers of integers, by name *)
Inductive Writer := WUIntLE (bytes : Z) | WUIntBE (bytes : Z) | WIntLE (bytes : Z) | WIntBE (bytes : Z)
  | WUInt8 | WUInt16LE | WUInt16BE | WUInt32LE | WUInt32BE | WInt8 | WInt16LE | WInt16BE | WInt32LE | WInt32BE.
Definition write_int (w : Writer) (b : Buffer) (value offset : Z) : BF Z :=
  match w with
  | WUIntLE k => writeUIntLE b value offset k | WUIntBE k => writeUIntBE b value offset k
  | WIntLE k => writeIntLE b value offset k | WIntBE k => writeIntBE b value offset k
  | WUInt8 => writeUInt8 b value offset | WInt8 => writeInt8 b value offset
  | WUInt16LE => writeUInt16LE b value offset | WUInt16BE => writeUInt16BE b value offset
  | WUInt32LE => writeUInt32LE b value offset | WUInt32BE => writeUInt32BE b value offset
  | WInt16LE => writeInt16LE b value offset | WInt16BE => writeInt16BE b value offset
  | WInt32LE => writeInt32LE b value offset | WInt32BE => writeInt32BE b value offset
  end.
Lemma typed_write_int n P `{SP : !Stable P} w b v off : knows P b -> typed n P (write_int w b v off) anything.
Proof.
  intros H. destruct w; cbn [write_int];
    unfold writeUIntLE, writeUIntBE, writeIntLE, writeIntBE, writeUInt8, writeUInt16LE, writeUInt16BE, writeUInt32LE, writeUInt32BE,
      writeInt8, writeInt16LE, writeInt16BE, writeInt32LE, writeInt32BE, write_bytes, checkInt; typing.
Qed.
#[export] Hint Resolve typed_write_int : typing.

(** ** Programs *)

Inductive Command :=
| CFrom (v : FromValue) | CAlloc (size : Z) (v : option FillValue) (enc : option jsstr) | CAllocUnsafe (size : Z)
| CBuffer (b : Buffer) (byteOffset length : option Z)         (* Buffer.from(b.buffer, byteOffset, length) *)
| CSlice (b : Buffer) (s e : option Z) | CConcat (l : list Buffer) (total : option Z)
| CSet (b : Buffer) (i v : Z) | CFill (b : Buffer) (v : FillValue) (s e : option Z) (enc : option jsstr)
| CCopy (b target : Buffer) (t s e : option Z) | CWrite (b : Buffer) (s : jsstr) (offset length : option Z) (enc : option jsstr)
| CSwap16 (b : Buffer) | CSwap32 (b : Buffer) | CSwap64 (b : Buffer) | CWriteInt (w : Writer) (b : Buffer) (value offset : Z).

(** A command is done; the buffer it makes, if any *)
Definition perform (c : Command) : BF (option Buffer) :=
  let made act := let! b := act in ret (Some b) in
  match c with
  | CFrom v => made (from v)
  | CAlloc size v enc => made (alloc size v enc)
  | CAllocUnsafe size => made (allocUnsafe size)
  | CBuffer b off len => made (from (FromArrayBuffer (b_mem b) off len))
  | CSlice b s e => made (slice b s e)
  | CConcat l total => made (concat l total)
  | CSet b i v => set b i v ;! ret None
  | CFill b v s e enc => fill b v s e enc ;! ret None
  | CCopy b target t s e => copy b target t s e ;! ret None
  | CWrite b s off len enc => write b s off len enc ;! ret None
  | CSwap16 b => swap16 b ;! ret None
  | CSwap32 b => swap32 b ;! ret None
  | CSwap64 b => swap64 b ;! ret None
  | CWriteInt w b v off => write_int w b v off ;! ret None
  end.

(** The buffers whose memory a command writes or shares; an array buffer the
    program has is that of one of its buffers *)
Definition writes (c : Command) : list Buffer :=
  match c with
  | CFrom _ | CAlloc _ _ _ | CAllocUnsafe _ | CConcat _ _ => []
  | CBuffer b _ _ | CSlice b _ _ | CSet b _ _ | CFill b _ _ _ _ | CWrite b _ _ _ _ | CWriteInt _ b _ _ => [b]
  | CSwap16 b | CSwap32 b | CSwap64 b => [b]
  | CCopy _ target _ _ _ => [target]
  end.
Definition array_buffers_known (c : Command) : Prop := match c with CFrom (FromArrayBuffer _ _ _) => False | _ => True end.

Definition made (r : Try (option Buffer)) : list Buffer := match r with Success (Some b) => [b] | _ => [] end.

(** The buffers a program has and its memory, after some commands, each of which
    may have thrown *)
Inductive reachable : list Buffer -> Memory -> Prop :=
| reach_start : reachable [] (Mem ∅ 0)
| reach_step known_ m c m' r : reachable known_ m -> array_buffers_known c -> writes c ⊆ known_ -> perform c m = (m', r) ->
    reachable (made r ++ known_) m'.

Lemma typed_made n P `{SP : !Stable P} (act : BF Buffer) : typed n P act (new n) ->
  typed n P (let! b := act in ret (Some b)) (fun o m => match o with Some b => new n b m | None => True end).
Proof. intros H. eapply typed_bind; [done|exact H|]. intros b. apply typed_ret. by intros m [_ ?]. Qed.
Lemma typed_done {A} n P `{SP : !Stable P} (act : BF A) : typed n P act anything ->
  typed n P (act ;! ret None) (fun o m => match o with Some b => new n b m | None => True end).
Proof. intros H. eapply typed_bind; [done|exact H|]. intros x. by apply typed_ret. Qed.

Lemma perform_typed n P `{SP : !Stable P} c : array_buffers_known c -> (forall b, b ∈ writes c -> knows P b) ->
  typed n P (perform c) (fun o m => match o with Some b => new n b m | None => True end).
Proof.
  intros Hab Hw. destruct c; cbn [perform]; (apply typed_made || apply typed_done); try done;
    try (match goal with b : Buffer |- _ => assert (knows P b) as Hk by (apply Hw; cbn [writes]; left) end);
    try (destruct (typed_swaps n P b Hk) as (? & ? & ?)); eauto 3 with typing.
  - apply typed_from; [done|]. by destruct v.
  - apply typed_from_array_buffer. intros m HP. destruct (Hk m HP) as (_ & _ & arr & E & _). by eexists.
Qed.

Definition all_valid (bs : list Buffer) (m : Memory) : Prop := forall b, b ∈ bs -> valid b m.
#[export] Instance stable_all_valid bs : Stable (all_valid bs).
Proof. intros m m' G H b Hb. eapply stable_valid; [exact G|by apply H]. Qed.

Lemma perform_grows bs m c m' r : allocated m -> all_valid bs m -> array_buffers_known c -> writes c ⊆ bs -> perform c m = (m', r) ->
  grows m m' /\ forall b, b ∈ made r -> new (fresh m) b m'.
Proof.
  intros Ha Hv Hab Hw E.
  assert (forall b, b ∈ writes c -> knows (all_valid bs) b) as Hk by (intros b Hb m0 Hm; by apply Hm, Hw).
  pose proof (wp_run _ _ _ _ _ E (perform_typed (fresh m) (all_valid bs) c Hab Hk m Ha ltac:(lia) Hv)) as [G HR]. split; [done|].
  intros b Hb. destruct r as [[b'|]|]; cbn [made] in Hb; try by apply elem_of_nil in Hb. by apply list_elem_of_singleton in Hb as ->.
Qed.

(** What a program has *)
Record well_formed (bs : list Buffer) (m : Memory) : Prop := {
  wf_allocated : allocated m;
  wf_known b : b ∈ bs -> known m b;
  wf_objects a b : a ∈ bs -> b ∈ bs -> same_object a b
}.

Lemma reachable_well_formed bs m : reachable bs m -> well_formed bs m.
Proof.
  induction 1 as [|bs m c m' r _ [Ha Hk Hs] Hab Hw E].
  - split; [intros k [x Hx]; cbn in Hx; by rewrite lookup_empty in Hx|intros b Hb; by apply elem_of_nil in Hb|intros a b Ha; by apply elem_of_nil in Ha].
  - destruct (perform_grows bs m c m' r Ha (fun b Hb => proj1 (Hk b Hb)) Hab Hw E) as [G Hnew]. split; [by apply (grows_allocated _ _ G)|..].
    + intros b [Hb|Hb]%elem_of_app; [destruct (Hnew b Hb) as [V Ho]; split; [done|lia]|].
      destruct (Hk b Hb) as [V Ho]. split; [by eapply stable_valid|]. pose proof (grows_fresh _ _ G). lia.
    + assert (forall a b, a ∈ made r -> b ∈ bs -> b_obj a <> b_obj b) as Hdiff by (intros a b Hma Hb; destruct (Hnew a Hma) as [_ ?], (Hk b Hb) as [_ ?]; lia).
      intros a b [Hma|Hma]%elem_of_app [Hb|Hb]%elem_of_app Eo; [|by destruct (Hdiff a b)|by destruct (Hdiff b a)|by apply Hs].
      destruct r as [[x|]|]; cbn [made] in Hma, Hb; try by apply elem_of_nil in Hb. apply list_elem_of_singleton in Hma, Hb. congruence.
Qed.

(** C10: whatever commands a program gives, and whichever throw, every buffer it has
    views a part of an array that is there, of the length it says; no command
    changes the length of a buffer or of its memory, and each new buffer is an
    object of its own. *)
Theorem buffers_well_formed bs m : reachable bs m ->
  well_formed bs m /\ (forall b, b ∈ bs -> zlen (view b m) = b_len b) /\
  forall c m' r, array_buffers_known c -> writes c ⊆ bs -> perform c m = (m', r) ->
    (forall k arr, arrays m !! k = Some arr -> exists arr', arrays m' !! k = Some arr' /\ zlen arr' = zlen arr) /\
    (forall b, b ∈ bs -> valid b m') /\ (forall b, b ∈ made r -> valid b m' /\ forall a, a ∈ bs -> b_obj a <> b_obj b).
Proof.
  intros H. pose proof (reachable_well_formed bs m H) as Hwf. pose proof Hwf as [Ha Hk _]. split_and!; [done|intros b Hb; by apply view_length, Hk|].
  intros c m' r Hab Hw E. destruct (perform_grows bs m c m' r Ha (fun b Hb => proj1 (Hk b Hb)) Hab Hw E) as [G Hnew]. split_and!.
  - apply (grows_arrays _ _ G).
  - intros b Hb. eapply stable_valid; [exact G|by apply Hk].
  - intros b Hb. destruct (Hnew b Hb) as [V Ho]. split; [done|]. intros a Hma. destruct (Hk a Hma) as [_ ?]. lia.
Qed.

Lemma buffers_well_formed_witness : exists a b m,
  reachable [b; a] m /\ view a m = z2b <$> [104; 0; 0; 1; 0]%Z /\ zlen (view b m) = b_len b.
Proof.
  pose (c1 := CFrom (FromString (js "hello") None)). pose (a := Buf 1 0 0 5). pose (b := Buf 2 0 1 3).
  pose (c2 := CSlice a (Some 1%Z) (Some 4%Z)). pose (c3 := CWriteInt WUInt32BE b 1 0). pose (c5 := CFill b (FillNumber 0) None (Some 2%Z) None).
  pose (c6 := CWriteInt WUInt8 b 1 2). pose (c7 := CSet a 4 256). pose (start := Mem ∅ 0).
  pose (m1 := fst (perform c1 start)). pose (m2 := fst (perform c2 m1)). pose (m3 := fst (perform c3 m2)). pose (m5 := fst (perform c5 m3)).
  pose (m6 := fst (perform c6 m5)). pose (m7 := fst (perform c7 m6)). exists a, b, m7.
  assert (reachable [b; a] m7) as H.
  { apply (reach_step [b; a] m6 c7 m7 (Success None)); [|exact I|first [apply list_subseteq_nil|intros x ->%list_elem_of_singleton; repeat constructor]|by vm_compute].
    apply (reach_step [b; a] m5 c6 m6 (Success None)); [|exact I|first [apply list_subseteq_nil|intros x ->%list_elem_of_singleton; repeat constructor]|by vm_compute].
    apply (reach_step [b; a] m3 c5 m5 (Success None)); [|exact I|first [apply list_subseteq_nil|intros x ->%list_elem_of_singleton; repeat constructor]|by vm_compute].
    apply (reach_step [b; a] m2 c3 m3 (Failure RangeError)); [|exact I|first [apply list_subseteq_nil|intros x ->%list_elem_of_singleton; repeat constructor]|by vm_compute].
    apply (reach_step [a] m1 c2 m2 (Success (Some b))); [|exact I|first [apply list_subseteq_nil|intros x ->%list_elem_of_singleton; repeat constructor]|by vm_compute].
    apply (reach_step [] start c1 m1 (Success (Some a))); [apply reach_start|exact I|apply list_subseteq_nil|by vm_compute]. }
  split_and!; [exact H|by vm_compute|]. destruct (buffers_well_formed [b; a] m7 H) as (_ & Hlen & _). apply Hlen. left.
Defined.
