(* ===== verification/RepeatString.v ===== *)
(** * RepeatString: the module repeat-string of the Swagger UI bundle

    src/main/resources/swagger-ui/swagger-ui-bundle.js, lines 92-97: repetition
    by doubling, with the last result kept in the module's variables. *)

From S2P Require Import Prelude JsCore.

(** The module's variables: [r], undefined at first, and [o] *)
Record RepeatCache := Cache { cached : option jsstr; res : jsstr }.

Definition empty_cache : RepeatCache := Cache None [].

(** for (; n > o.length && t > 1;) 1 & t && (o += e), t >>= 1, e += e *)
Fixpoint repeat_loop (fuel : nat) (n : Z) (o : jsstr) (t : Z) (e : jsstr) : Try (jsstr * jsstr) :=
  match fuel with
  | O => Failure NoFuel
  | S fuel' =>
      if (js_length o <? n)%Z && (1 <? t)%Z then
        let o' := if Z.testbit (toInt t) 0 then o ++ e else o in
        repeat_loop fuel' n o' (Z.shiftr (toInt t) 1) (e ++ e)
      else Success (o, e)
  end.

(** The exported function; an argument that is no string is [None].  The
    counter halves, so 32 rounds are enough for an Int. *)
Definition repeat (arg : option jsstr) (t : Z) : Eff RepeatCache jsstr :=
  match arg with
  | None => throw (Raised "TypeError: expected a string")
  | Some e =>
      if (t =? 1)%Z then ret e
      else if (t =? 2)%Z then ret (e ++ e)
      else
        let n := (js_length e * t)%Z in
        let! st := gets id in
        if bool_decide (cached st = Some e) && (n <=? js_length (res st))%Z then ret (substr (res st) 0 n)
        else
          let st1 := if bool_decide (cached st = Some e) then st else Cache (Some e) [] in
          modify (fun _ => st1) ;!
          let! oe := lift_try (repeat_loop 33 n (res st1) t e) in
          let o := substr (oe.1 ++ oe.2) 0 n in
          modify (fun _ => Cache (cached st1) o) ;! ret o
  end.

(** ** The cache holds copies of its string *)

Definition cache_ok (st : RepeatCache) : Prop := forall s, cached st = Some s -> exists k, res st = copies k s.

Fixpoint repeats (calls : list (option jsstr * Z)) (st : RepeatCache) : RepeatCache :=
  match calls with [] => st | (e, t) :: calls' => repeats calls' (fst (repeat e t st)) end.

Lemma copies_double a s : copies a s ++ copies a s = copies (2 * a) s.
Proof. rewrite <- copies_add. f_equal. lia. Qed.

Lemma repeat_loop_spec fuel e0 num : e0 <> [] -> forall t a b, (0 <= t < 2 ^ Z.of_nat fuel)%Z -> (t < 2 ^ 31)%Z ->
  (Z.of_nat num <= Z.of_nat b + Z.of_nat a * t)%Z ->
  exists a' b', num <= b' + a' /\
    repeat_loop (S fuel) (js_length e0 * Z.of_nat num) (copies b e0) t (copies a e0) = Success (copies b' e0, copies a' e0).
Proof.
  intros He. assert (0 < length e0) as Hl by (destruct e0; simpl; [done|lia]).
  induction fuel as [|fuel IH]; intros t a b Ht H31 Hn; cbn [repeat_loop].
  - simpl in Ht. replace t with 0%Z in * by lia. exists a, b. split; [lia|]. by rewrite andb_false_r.
  - unfold js_length at 1. rewrite copies_length.
    destruct (Z.ltb_spec (Z.of_nat (b * length e0)) (js_length e0 * Z.of_nat num)) as [Hlt|Hge]; cbn [andb].
    + destruct (Z.ltb_spec 1 t) as [H1|H1]; [|exists a, b; split; [nia|done]].
      assert (toInt t = t) as -> by (apply toInt_small; unfold MinInt, MaxInt; lia).
      rewrite Z.bit0_odd, Z.shiftr_div_pow2, copies_double by lia. change (2 ^ 1)%Z with 2%Z.
      rewrite Nat2Z.inj_succ, Z.pow_succ_r in Ht by lia.
      pose proof (Z.div_mod t 2) as H. rewrite Zmod_odd in H.
      destruct (Z.odd t).
      * rewrite <- copies_add. apply IH; lia || nia.
      * apply IH; lia || nia.
    + exists a, b. split; [|done]. unfold js_length in Hge. nia.
Qed.

Lemma substr_copies a num e : num <= a -> substr (copies a e) 0 (js_length e * Z.of_nat num) = copies num e.
Proof.
  intros H. unfold substr, js_length. change (drop (Z.to_nat 0) _) with (copies a e).
  replace (Z.to_nat (Z.of_nat (length e) * Z.of_nat num)) with (num * length e) by lia. by apply take_copies.
Qed.

(** The loop and the cut give the copies, from any cached copies. *)
Lemma repeat_rounds e num b : (Z.of_nat num < 2 ^ 31)%Z ->
  exists oe, repeat_loop 33 (js_length e * Z.of_nat num) (copies b e) (Z.of_nat num) e = Success oe /\
    substr (oe.1 ++ oe.2) 0 (js_length e * Z.of_nat num) = copies num e.
Proof.
  intros H. destruct (decide (e = [])) as [->|He].
  - exists (copies b [], []). split; [by rewrite copies_nil|]. by rewrite !copies_nil.
  - destruct (repeat_loop_spec 32 e num He (Z.of_nat num) 1 b) as (a' & b' & Hn & E); [lia..|].
    replace (copies 1 e) with e in E by (unfold copies; simpl; by rewrite app_nil_r).
    exists (copies b' e, copies a' e). split; [exact E|]. cbn [fst snd]. rewrite <- copies_add. by apply substr_copies.
Qed.

Lemma repeat_spec st e num : cache_ok st -> (Z.of_nat num < 2 ^ 31)%Z ->
  snd (repeat (Some e) (Z.of_nat num) st) = Success (copies num e) /\ cache_ok (fst (repeat (Some e) (Z.of_nat num) st)).
Proof.
  intros Hok Hn. unfold repeat.
  destruct (Z.eqb_spec (Z.of_nat num) 1) as [E1|_].
  { replace num with 1 by lia. split; [|done]. simpl. unfold copies. simpl. by rewrite app_nil_r. }
  destruct (Z.eqb_spec (Z.of_nat num) 2) as [E2|_].
  { replace num with 2 by lia. split; [|done]. simpl. unfold copies. simpl. by rewrite app_nil_r. }
  unfold bind at 1 5, gets, id. cbn [fst snd].
  set (hit := bool_decide (cached st = Some e)).
  set (st1 := if hit then st else Cache (Some e) []).
  assert (exists b, res st1 = copies b e /\ cached st1 = Some e) as (b & Eb & Ec).
  { unfold st1, hit. case_bool_decide as Hc; [|by exists 0]. destruct (Hok e Hc) as [b Hb]. eauto. }
  destruct (hit && _) eqn:Eh.
  - apply andb_true_iff in Eh as [Eh Hl]. apply Z.leb_le in Hl. split; [|done]. cbn.
    unfold hit in *. apply bool_decide_eq_true in Eh. destruct (Hok e Eh) as [k Hk]. rewrite Hk in *.
    unfold js_length in Hl. rewrite copies_length in Hl.
    destruct (decide (e = [])) as [->|He]; [by rewrite !copies_nil|].
    assert (0 < length e) by (destruct e; simpl; [done|lia]). rewrite substr_copies by nia. done.
  - fold st1. destruct (repeat_rounds e num b Hn) as (oe & Er & Es).
    unfold bind, modify, lift_try, ret. rewrite Eb, Er. cbn [fst snd]. rewrite Es, Ec. split; [done|].
    intros s [= <-]. by exists num.
Qed.

Lemma repeats_ok calls st : Forall (fun c => 0 <= c.2 < 2 ^ 31)%Z calls -> cache_ok st -> cache_ok (repeats calls st).
Proof.
  intros H. revert st. induction H as [|[e t] calls Ht Hall IH]; intros st Hok; cbn [repeats]; [done|]. apply IH.
  destruct e as [e|]; [|done]. cbn in Ht. rewrite <- (Z2Nat.id t) by lia. by apply repeat_spec; [|lia].
Qed.

(** Whatever was repeated before, with whatever the module has cached from
    it, repeating a string a number of times gives that many copies of it, and
    an argument that is no string throws without touching the cache. *)
Theorem repeat_copies calls e num : Forall (fun c => 0 <= c.2 < 2 ^ 31)%Z calls -> (Z.of_nat num < 2 ^ 31)%Z ->
  let st := repeats calls empty_cache in
  snd (repeat (Some e) (Z.of_nat num) st) = Success (copies num e) /\
  repeat None (Z.of_nat num) st = (st, Failure (Raised "TypeError: expected a string")).
Proof.
  intros Hc Hn st. split; [|done]. apply repeat_spec; [|done]. apply repeats_ok; [done|]. by intros s [=].
Qed.

(** Three copies, then seven from the cached three *)
Lemma repeat_copies_witness :
  snd (repeat (Some (js "ab")) 7 (repeats [(Some (js "ab"), 3%Z)] empty_cache)) = Success (js "ababababababab").
Proof.
  destruct (repeat_copies [(Some (js "ab"), 3%Z)] (js "ab") 7) as [H _].
  - constructor; [cbn; lia|constructor].
  - lia.
  - exact H.
Defined.
