(* ===== verification/Cookie.v ===== *)
(** * Cookie: the module cookie of the Swagger UI bundle

    src/main/resources/swagger-ui/swagger-ui-bundle.js, lines 86-91: the
    parser of a Cookie header and the writer of a Set-Cookie header.  The
    object the parser fills is a map; reading a name that is not its own finds
    the members of Object.prototype.  encodeURIComponent and
    decodeURIComponent, the defaults of the codec options, are arguments. *)

From stdpp Require Import pretty.
From S2P Require Import Prelude JsCore.

Definition TypeError : exn := Raised "TypeError".
Definition Error : exn := Raised "Error".

Definition c_semi : N := 59.
Definition c_eq : N := 61.
Definition c_space : N := 32.
Definition c_quote : N := 34.

(** e.split(/; */): a semicolon with the spaces after it separates. *)
Fixpoint split_fields (skip : bool) (s : jsstr) : list jsstr :=
  match s with
  | [] => [[]]
  | c :: s' =>
      if skip && (c =? c_space)%N then split_fields true s'
      else if (c =? c_semi)%N then [] :: split_fields true s'
      else match split_fields false s' with
           | f :: fs => (c :: f) :: fs
           | [] => [[c]]
           end
  end.

(** A value that starts with a quote loses its first and last characters. *)
Definition unquote (h : jsstr) : jsstr :=
  match h with
  | c :: h' => if (c =? c_quote)%N then take (length h - 2) h' else h
  | [] => []
  end.

(** The names an empty object inherits: the members of Object.prototype *)
Definition inherited (p : jsstr) : bool :=
  bool_decide (p ∈ js <$> ["constructor"; "__defineGetter__"; "__defineSetter__"; "hasOwnProperty"; "__lookupGetter__";
    "__lookupSetter__"; "isPrototypeOf"; "propertyIsEnumerable"; "toString"; "valueOf"; "__proto__"; "toLocaleString"]).

(** tryDecode *)
Definition tryDecode (e : jsstr) (decode : jsstr -> Try jsstr) : jsstr :=
  match decode e with Success v => v | Failure _ => e end.

Section Cookie.
Context (decodeURIComponent encodeURIComponent : jsstr -> Try jsstr).

(** The body of parse's loop *)
Definition parse_field (decode : jsstr -> Try jsstr) (n : gmap jsstr jsstr) (l : jsstr) : gmap jsstr jsstr :=
  let f := indexOf c_eq l in
  if (f <? 0)%Z then n
  else
    let p := trim (substr l 0 f) in
    let h := unquote (trim (substr l (f + 1) (js_length l))) in
    if negb (inherited p) && bool_decide (n !! p = None) then <[p := tryDecode h decode]> n else n.

(** parse; an argument that is no string is [None], and so is a missing option. *)
Definition parse (str : option jsstr) (decodeOption : option (jsstr -> Try jsstr)) : Try (gmap jsstr jsstr) :=
  match str with
  | None => Failure TypeError
  | Some e =>
      let decode := default decodeURIComponent decodeOption in
      Success (foldl (parse_field decode) ∅ (split_fields false e))
  end.

(** /^[\u0009\u0020-\u007e\u0080-\u00ff]+$/ *)
Definition field_char (c : N) : bool :=
  (c =? 9)%N || ((32 <=? c)%N && (c <=? 126)%N) || ((128 <=? c)%N && (c <=? 255)%N).
Definition field_content (s : jsstr) : bool := negb (bool_decide (s = [])) && forallb field_char s.

(** An option that is falsy, not what is expected, or given *)
Inductive Opt (A : Type) := Absent | Wrong | Given (a : A).
#[global] Arguments Absent {A}.
#[global] Arguments Wrong {A}.
#[global] Arguments Given {A} a.

Inductive SameSite := SameSiteAbsent | SameSiteTrue | SameSiteString (s : jsstr) | SameSiteOther.

Record Options := {
  o_encode : Opt (jsstr -> Try jsstr);      (* wrong: no function *)
  o_maxAge : Opt Z;                         (* wrong: not a number; given: its floor *)
  o_domain : jsstr;                         (* [] when absent *)
  o_path : jsstr;
  o_expires : Opt jsstr;                    (* wrong: no toUTCString; given: its result *)
  o_httpOnly : bool;
  o_secure : bool;
  o_sameSite : SameSite
}.

(** An attribute whose content must be field content *)
Definition attribute (name value : jsstr) : Try jsstr :=
  if bool_decide (value = []) then Success []
  else if field_content value then Success (name ++ value) else Failure TypeError.

Definition sameSite_attribute (o : SameSite) : Try jsstr :=
  match o with
  | SameSiteAbsent => Success []
  | SameSiteTrue => Success (js "; SameSite=Strict")
  | SameSiteString s =>
      if bool_decide (s = []) then Success []
      else if bool_decide (to_lower s = js "lax") then Success (js "; SameSite=Lax")
      else if bool_decide (to_lower s = js "strict") then Success (js "; SameSite=Strict")
      else Failure TypeError
  | SameSiteOther => Failure TypeError
  end.

(** serialize *)
Definition serialize (name val : jsstr) (r : Options) : Try jsstr :=
  let? enc := match o_encode r with
              | Absent => Success encodeURIComponent
              | Given f => Success f
              | Wrong => Failure TypeError
              end in
  if negb (field_content name) then Failure TypeError else
  let? s := enc val in
  if negb (bool_decide (s = [])) && negb (field_content s) then Failure TypeError else
  let u := name ++ [c_eq] ++ s in
  let? a1 := match o_maxAge r with
             | Absent => Success []
             | Wrong => Failure Error
             | Given c => Success (js "; Max-Age=" ++ js (pretty c))
             end in
  let? a2 := attribute (js "; Domain=") (o_domain r) in
  let? a3 := attribute (js "; Path=") (o_path r) in
  let? a4 := match o_expires r with
             | Absent => Success []
             | Wrong => Failure TypeError
             | Given utc => Success (js "; Expires=" ++ utc)
             end in
  let a5 := if o_httpOnly r then js "; HttpOnly" else [] in
  let a6 := if o_secure r then js "; Secure" else [] in
  let? a7 := sameSite_attribute (o_sameSite r) in
  Success (u ++ a1 ++ a2 ++ a3 ++ a4 ++ a5 ++ a6 ++ a7).
End Cookie.

(** ** What is parsed back, and what serialize refuses *)


(** ** Splitting *)

(** Text without separators, that does not start with a space after one *)
Definition plain (s : jsstr) : Prop := c_semi ∉ s.
Definition no_lead (s : jsstr) : Prop := head s <> Some c_space.

Lemma split_plain skip s rest : plain s -> (skip = true -> no_lead s) ->
  split_fields skip (s ++ c_semi :: rest) = s :: split_fields true rest.
Proof.
  revert skip. induction s as [|c s IH]; intros skip Hp Hl.
  - by destruct skip.
  - cbn [split_fields app]. assert (c <> c_semi) as Hc by (intros ->; apply Hp; set_solver).
    assert (skip && (c =? c_space)%N = false) as ->.
    { destruct skip; [|done]. cbn [andb]. apply N.eqb_neq. intros ->. by destruct (Hl eq_refl). }
    rewrite (proj2 (N.eqb_neq _ _)) by done.
    rewrite IH; [done| |done]. intros Hin. apply Hp. set_solver.
Qed.

Lemma split_last skip s : plain s -> (skip = true -> no_lead s) -> split_fields skip s = [s].
Proof.
  revert skip. induction s as [|c s IH]; intros skip Hp Hl; [done|].
  cbn [split_fields]. assert (c <> c_semi) as Hc by (intros ->; apply Hp; set_solver).
  assert (skip && (c =? c_space)%N = false) as ->.
  { destruct skip; [|done]. cbn [andb]. apply N.eqb_neq. intros ->. by destruct (Hl eq_refl). }
  rewrite (proj2 (N.eqb_neq _ _)) by done.
  rewrite IH; [done| |done]. intros Hin. apply Hp. set_solver.
Qed.

Lemma split_spaces k s : split_fields true (replicate k c_space ++ s) = split_fields true s.
Proof. by induction k. Qed.

(** ** Headers of pairs *)

(** A name and a value as they stand between two separators *)
Record pair_ok (p : jsstr * jsstr) : Prop := {
  po_plain : c_semi ∉ p.1 /\ c_semi ∉ p.2;
  po_name : c_eq ∉ p.1 /\ trim p.1 = p.1;
  po_value : trim p.2 = p.2
}.

Definition pair_text (p : jsstr * jsstr) : jsstr := p.1 ++ c_eq :: p.2.

Lemma trim_no_lead s : trim s = s -> no_lead s.
Proof.
  unfold no_lead, trim. destruct s as [|c s]; [done|]. intros H [= ->]. cbn [trim_start] in H.
  change (is_space c_space) with true in H. cbn iota in H. apply (f_equal length) in H.
  assert (forall l, length (trim_start l) <= length l) as Hl.
  { induction l as [|x l IH]; simpl; [lia|]. destruct (is_space x); simpl in *; lia. }
  rewrite length_reverse in H. pose proof (Hl (reverse (trim_start s))) as H1. rewrite length_reverse in H1.
  pose proof (Hl s). simpl in H. lia.
Qed.

Lemma pair_text_plain p : pair_ok p -> plain (pair_text p).
Proof. intros [[H1 H2] _ _]. unfold plain, pair_text. unfold c_semi, c_eq in *. set_solver. Qed.

Lemma pair_text_lead p : pair_ok p -> no_lead (pair_text p).
Proof. intros [_ [_ Ht] _]. apply trim_no_lead in Ht. unfold no_lead, pair_text in *. by destruct p.1. Qed.

Lemma split_header ps : ps <> [] -> Forall pair_ok ps ->
  forall skip, split_fields skip (join (js "; ") (pair_text <$> ps)) = pair_text <$> ps.
Proof.
  intros Hne Hall. induction Hall as [|p ps Hp Hall IH]; [done|]. intros skip.
  destruct ps as [|q ps].
  - cbn [fmap list_fmap join]. apply split_last; [by apply pair_text_plain|]. intros _. by apply pair_text_lead.
  - assert (join (js "; ") (pair_text <$> p :: q :: ps) =
      pair_text p ++ c_semi :: (replicate 1 c_space ++ join (js "; ") (pair_text <$> q :: ps))) as -> by done.
    rewrite split_plain; [|by apply pair_text_plain|intros _; by apply pair_text_lead].
    rewrite split_spaces, IH by done. done.
Qed.

Lemma parse_field_pair decode m p : pair_ok p -> parse_field decode m (pair_text p) =
  if negb (inherited p.1) && bool_decide (m !! p.1 = None) then <[p.1 := tryDecode (unquote p.2) decode]> m else m.
Proof.
  intros [_ [Hn Ht] Hv]. unfold parse_field, pair_text, substr, js_length. rewrite indexOf_app by done.
  rewrite (proj2 (Z.ltb_ge _ _)) by lia. change (Z.to_nat 0) with 0. rewrite drop_0, Nat2Z.id, take_app_length, Ht.
  replace (Z.to_nat (Z.of_nat (length p.1) + 1)) with (length (p.1 ++ [c_eq])) by (rewrite length_app; simpl; lia).
  replace (p.1 ++ c_eq :: p.2) with ((p.1 ++ [c_eq]) ++ p.2) by (by rewrite <- app_assoc).
  rewrite drop_app_length, Nat2Z.id, take_ge, Hv by (rewrite length_app; lia). done.
Qed.

(** The value of the first pair of a name *)
Fixpoint first_value (n : jsstr) (ps : list (jsstr * jsstr)) : option jsstr :=
  match ps with [] => None | p :: ps' => if bool_decide (p.1 = n) then Some p.2 else first_value n ps' end.

Lemma fold_fields decode ps m n : Forall pair_ok ps ->
  foldl (parse_field decode) m (pair_text <$> ps) !! n =
    match m !! n with
    | Some v => Some v
    | None => if inherited n then None else (fun v => tryDecode (unquote v) decode) <$> first_value n ps
    end.
Proof.
  intros Hall. revert m. induction Hall as [|p ps Hp Hall IH]; intros m; cbn [foldl fmap list_fmap first_value].
  - destruct (m !! n); [done|by destruct (inherited n)].
  - change (pair_text <$> ps) with (list_fmap _ _ pair_text ps) in IH. rewrite IH, parse_field_pair by done.
    destruct (bool_decide_reflect (p.1 = n)) as [<-|Hn].
    + destruct (inherited p.1); cbn [negb andb]; [done|].
      case_bool_decide as E; [|by destruct (m !! p.1)]. by rewrite lookup_insert_eq, E.
    + destruct (negb _ && _); [by rewrite lookup_insert_ne|done].
Qed.

Section Codec.
Context (decodeURIComponent encodeURIComponent : jsstr -> Try jsstr).

(** A Cookie header of pairs is read as the map of the first value of each
    name, unquoted and decoded, or as it stands when it does not decode; but a
    name that an empty object inherits has no value whatever the header says. *)
Theorem parse_header decodeOption ps : ps <> [] -> Forall pair_ok ps -> exists m,
  parse decodeURIComponent (Some (join (js "; ") (pair_text <$> ps))) decodeOption = Success m /\
  forall n, m !! n = if inherited n then None
    else (fun v => tryDecode (unquote v) (default decodeURIComponent decodeOption)) <$> first_value n ps.
Proof.
  intros Hne Hall. unfold parse. rewrite split_header by done. eexists. split; [done|].
  intros n. rewrite fold_fields by done. by rewrite lookup_empty.
Qed.

(** ** Writing *)

(** encodeURIComponent writes unreserved characters and percent signs; these
    are the characters a value must not hold. *)
Definition uri_safe (s : jsstr) : Prop :=
  forall c, c ∈ s -> c <> c_semi /\ c <> c_quote /\ is_space c = false /\ field_char c = true.

Lemma uri_safe_trim s : uri_safe s -> trim s = s.
Proof.
  intros H. apply trim_id; intros c Hc; apply H.
  - destruct s; [done|]. injection Hc as ->. set_solver.
  - apply last_Some in Hc as [l ->]. set_solver.
Qed.

Lemma unquote_safe s : uri_safe s -> unquote s = s.
Proof.
  intros H. destruct s as [|c s]; [done|]. unfold unquote.
  rewrite (proj2 (N.eqb_neq _ _)); [done|]. intros ->. destruct (H c_quote) as (_ & Hq & _); [set_solver|done].
Qed.

Definition no_options : Options :=
  {| o_encode := Absent; o_maxAge := Absent; o_domain := []; o_path := []; o_expires := Absent;
     o_httpOnly := false; o_secure := false; o_sameSite := SameSiteAbsent |}.

(** A cookie that is written is read back, when its name has no separator,
    equals sign or outer space and is not one an object inherits, given that
    the codec is one: it decodes what it encodes, and encodes to characters
    that are safe in a cookie. *)
Theorem cookie_roundtrip name val :
  (forall v s, encodeURIComponent v = Success s -> decodeURIComponent s = Success v /\ uri_safe s) ->
  isSuccess (encodeURIComponent val) = true -> field_content name = true ->
  c_semi ∉ name -> c_eq ∉ name -> trim name = name -> inherited name = false ->
  exists s m, serialize encodeURIComponent name val no_options = Success s /\
    parse decodeURIComponent (Some s) None = Success m /\ m = {[name := val]}.
Proof.
  intros Hcodec He Hname Hsemi Heq Htrim Hinh. destruct (encodeURIComponent val) as [w|] eqn:Ew; [|done].
  destruct (Hcodec _ _ Ew) as [Hd Hs]. pose proof (uri_safe_trim w Hs) as Hw. pose proof (unquote_safe w Hs) as Hu.
  exists (pair_text (name, w)), {[name := val]}. split_and!; [| |done].
  - unfold serialize. cbn. rewrite Hname, Ew. cbn [negb try_bind].
    assert (negb (bool_decide (w = [])) && negb (field_content w) = false) as ->.
    { destruct w as [|c w]; [done|]. unfold field_content. cbn [negb andb]. rewrite bool_decide_false by done.
      cbn [negb andb]. apply negb_false_iff, forallb_forall. intros x Hx. apply Hs. by apply list_elem_of_In. }
    unfold pair_text. cbn. by rewrite app_nil_r.
  - assert (pair_ok (name, w)) as Hp.
    { split; [split; [done|]|done|done]. intros Hin. by destruct (Hs c_semi Hin). }
    unfold parse. rewrite (split_last false) by (by apply pair_text_plain || done). cbn [foldl default].
    f_equal. rewrite parse_field_pair by done. cbn [fst snd]. rewrite Hinh, lookup_empty. cbn [negb andb].
    rewrite bool_decide_true by done. unfold tryDecode. by rewrite Hu, Hd.
Qed.
End Codec.

Lemma decimal_chars z : forallb field_char (js (pretty (z : Z))) = true.
Proof.
  assert (forall n s, forallb field_char (js s) = true -> forallb field_char (js (pretty_N_go n s)) = true) as Hgo.
  { intros n. induction (N.lt_wf_0 n) as [n _ IH]. intros s Hs. destruct (decide (n = 0%N)) as [->|Hn].
    - by rewrite pretty_N_go_0.
    - rewrite pretty_N_go_step by lia. apply IH; [apply N.div_lt; lia|].
      unfold js. cbn. apply andb_true_iff. split; [|done].
      unfold pretty_N_char. by repeat case_match. }
  assert (forall n, forallb field_char (js (pretty (n : N))) = true) as HN.
  { intros n. unfold pretty, pretty_N. case_decide; [done|]. by apply Hgo. }
  destruct z; [apply (HN 0%N)|apply (HN (Npos p))|apply (HN (Npos p))].
Qed.

(** The options [serialize] takes *)
Record options_ok (enc : jsstr -> Try jsstr) (val : jsstr) (r : Options) : Prop := {
  oo_encode : exists f w, (o_encode r = Given f \/ (o_encode r = Absent /\ f = enc)) /\ f val = Success w /\
    (w = [] \/ field_content w = true);
  oo_maxAge : o_maxAge r <> Wrong;
  oo_domain : o_domain r = [] \/ field_content (o_domain r) = true;
  oo_path : o_path r = [] \/ field_content (o_path r) = true;
  oo_expires : o_expires r <> Wrong;
  oo_sameSite : match o_sameSite r with
    | SameSiteString s => s = [] \/ to_lower s ∈ [js "lax"; js "strict"]
    | SameSiteOther => False
    | _ => True
    end
}.

Lemma attribute_spec n v : forallb field_char n = true ->
  (isSuccess (attribute n v) = true <-> v = [] \/ field_content v = true) /\
  (forall a, attribute n v = Success a -> forallb field_char a = true).
Proof.
  intros Hn. unfold attribute. destruct (bool_decide_reflect (v = [])) as [E|E]; [split; [naive_solver|by intros a [= <-]]|].
  destruct (field_content v) eqn:Ec; (split; [naive_solver|]); [|done].
  intros a [= <-]. rewrite forallb_app, Hn. by apply andb_true_iff in Ec as [_ ->].
Qed.

Lemma sameSite_spec o :
  (isSuccess (sameSite_attribute o) = true <-> match o with
    | SameSiteString s => s = [] \/ to_lower s ∈ [js "lax"; js "strict"]
    | SameSiteOther => False
    | _ => True
    end) /\
  (forall a, sameSite_attribute o = Success a -> forallb field_char a = true).
Proof.
  destruct o as [| |s|]; cbn [sameSite_attribute]; [split; [done|by intros a [= <-]]..| |done].
  repeat (case_bool_decide; [split; [set_solver|by intros a [= <-]]|]). split; [|done]. split; [done|].
  intros [->|Hin]; [done|]. rewrite !elem_of_cons in Hin. by destruct Hin as [?|[?|?%elem_of_nil]].
Qed.

Lemma try_bind_inv {A B} (t : Try A) (f : A -> Try B) b :
  try_bind t f = Success b <-> exists a, t = Success a /\ f a = Success b.
Proof. destruct t; simpl; naive_solver. Qed.

Lemma guarded_inv {A} (b : bool) e (k : Try A) a : (if b then Failure e else k) = Success a <-> b = false /\ k = Success a.
Proof. destruct b; naive_solver. Qed.

Lemma isSuccess_iff {A} (t : Try A) : isSuccess t = true <-> exists a, t = Success a.
Proof. destruct t; simpl; naive_solver. Qed.

(** The writer of the attributes, and the pieces of its result *)
Lemma serialize_inv enc name val r s : serialize enc name val r = Success s <->
  exists f w a1 a2 a3 a4 a7,
    (o_encode r = Given f \/ (o_encode r = Absent /\ f = enc)) /\ field_content name = true /\ f val = Success w /\
    (w = [] \/ field_content w = true) /\
    match o_maxAge r with Absent => a1 = [] | Wrong => False | Given c => a1 = js "; Max-Age=" ++ js (pretty c) end /\
    attribute (js "; Domain=") (o_domain r) = Success a2 /\ attribute (js "; Path=") (o_path r) = Success a3 /\
    match o_expires r with Absent => a4 = [] | Wrong => False | Given utc => a4 = js "; Expires=" ++ utc end /\
    sameSite_attribute (o_sameSite r) = Success a7 /\
    s = (name ++ [c_eq] ++ w) ++ a1 ++ a2 ++ a3 ++ a4 ++ (if o_httpOnly r then js "; HttpOnly" else []) ++
      (if o_secure r then js "; Secure" else []) ++ a7.
Proof.
  unfold serialize. rewrite try_bind_inv. split.
  - intros (f & Hf & [Hn H]%guarded_inv). apply try_bind_inv in H as (w & Hw & [Hc H]%guarded_inv).
    apply try_bind_inv in H as (a1 & H1 & H). apply try_bind_inv in H as (a2 & H2 & H).
    apply try_bind_inv in H as (a3 & H3 & H). apply try_bind_inv in H as (a4 & H4 & H).
    apply try_bind_inv in H as (a7 & H7 & [= <-]).
    exists f, w, a1, a2, a3, a4, a7. split_and!; try done.
    + destruct (o_encode r); naive_solver.
    + by apply negb_false_iff.
    + destruct (bool_decide_reflect (w = [])); [by left|right]. by apply negb_false_iff.
    + destruct (o_maxAge r); naive_solver.
    + destruct (o_expires r); naive_solver.
  - intros (f & w & a1 & a2 & a3 & a4 & a7 & Hf & Hn & Hw & Hc & H1 & H2 & H3 & H4 & H7 & ->).
    exists f. split; [destruct Hf as [->|[-> ->]]; done|]. apply guarded_inv. split; [by apply negb_false_iff|].
    rewrite Hw. cbn [try_bind]. apply guarded_inv. split.
    { destruct Hc as [->|Hc]; [done|]. rewrite Hc. by rewrite andb_false_r. }
    apply try_bind_inv. exists a1. split; [destruct (o_maxAge r); naive_solver|]. rewrite H2, H3. cbn [try_bind].
    apply try_bind_inv. exists a4. split; [destruct (o_expires r); naive_solver|]. by rewrite H7.
Qed.

(** [serialize] succeeds exactly on a valid name and options, and what it
    writes holds no character a header field must not hold: no name, value,
    domain or path can start a new header line. *)
Theorem serialize_safe enc name val r :
  (isSuccess (serialize enc name val r) = true <-> field_content name = true /\ options_ok enc val r) /\
  (forall s, serialize enc name val r = Success s -> (forall utc, o_expires r = Given utc -> forallb field_char utc = true) ->
    forallb field_char s = true).
Proof.
  destruct (attribute_spec (js "; Domain=") (o_domain r) eq_refl) as [D1 D2].
  destruct (attribute_spec (js "; Path=") (o_path r) eq_refl) as [P1 P2].
  destruct (sameSite_spec (o_sameSite r)) as [S1 S2]. split.
  - rewrite isSuccess_iff. setoid_rewrite serialize_inv. split.
    + intros (s & f & w & a1 & a2 & a3 & a4 & a7 & Hf & Hn & Hw & Hc & H1 & H2 & H3 & H4 & H7 & _). split; [done|]. split.
      * eauto.
      * by intros E; rewrite E in H1.
      * apply D1. by rewrite H2.
      * apply P1. by rewrite H3.
      * by intros E; rewrite E in H4.
      * apply S1. by rewrite H7.
    + intros [Hn [(f & w & Hf & Hw & Hc) H1 H2 H3 H4 H7]]. apply D1, isSuccess_iff in H2 as [a2 H2].
      apply P1, isSuccess_iff in H3 as [a3 H3]. apply S1, isSuccess_iff in H7 as [a7 H7].
      eexists _, f, w, (match o_maxAge r with Given c => js "; Max-Age=" ++ js (pretty c) | _ => [] end), a2, a3,
        (match o_expires r with Given utc => js "; Expires=" ++ utc | _ => [] end), a7.
      split_and!; try done; [by destruct (o_maxAge r)|by destruct (o_expires r)].
  - intros s (f & w & a1 & a2 & a3 & a4 & a7 & Hf & Hn & Hw & Hc & H1 & H2 & H3 & H4 & H7 & ->)%serialize_inv Hutc.
    apply andb_true_iff in Hn as [_ Hn]. rewrite !forallb_app, Hn, (D2 _ H2), (P2 _ H3), (S2 _ H7).
    assert (forallb field_char w = true) as -> by (destruct Hc as [->|[_ ?]%andb_true_iff]; done).
    assert (forallb field_char a1 = true) as ->.
    { destruct (o_maxAge r); [by subst..|]. subst a1. by rewrite forallb_app, decimal_chars. }
    assert (forallb field_char a4 = true) as ->.
    { destruct (o_expires r) as [| |utc]; [by subst..|]. subst a4. by rewrite forallb_app, (Hutc utc). }
    by destruct (o_httpOnly r), (o_secure r).
Qed.

(** ** Witnesses *)

(** A codec on strings without special characters *)
Definition toy_encode (s : jsstr) : Try jsstr :=
  if forallb (fun c => (97 <=? c)%N && (c <=? 122)%N) s then Success s else Failure (Raised "URIError").

Lemma parse_header_witness : exists m,
  parse Success (Some (js "a=1; b=" ++ [c_quote] ++ js "2" ++ [c_quote] ++ js "; a=3; toString=4")) None = Success m /\
  m !! js "a" = Some (js "1") /\ m !! js "b" = Some (js "2") /\ m !! js "toString" = None.
Proof.
  destruct (parse_header Success None [(js "a", js "1"); (js "b", [c_quote] ++ js "2" ++ [c_quote]); (js "a", js "3"); (js "toString", js "4")])
    as (m & Hm & Hv); [done| |].
  - repeat apply Forall_cons_2; try apply Forall_nil_2;
      (split; [split; apply (bool_decide_unpack _); by vm_compute|split; [apply (bool_decide_unpack _); by vm_compute|by vm_compute]|by vm_compute]).
  - exists m. split; [exact Hm|]. rewrite !Hv. by vm_compute.
Defined.

Lemma cookie_roundtrip_witness : exists s m,
  serialize toy_encode (js "id") (js "abc") no_options = Success s /\ parse Success (Some s) None = Success m /\
  m = {[js "id" := js "abc"]}.
Proof.
  apply (cookie_roundtrip Success toy_encode (js "id") (js "abc")).
  - intros v s. unfold toy_encode. destruct (forallb _ v) eqn:E; [|done]. intros [= <-]. split; [done|].
    intros c Hc. rewrite forallb_forall in E. specialize (E c). rewrite <- list_elem_of_In in E. specialize (E Hc).
    apply andb_true_iff in E as [E1 E2]. apply N.leb_le in E1, E2. unfold c_semi, c_quote. split; [lia|]. split; [lia|].
    unfold is_space, field_char. rewrite bool_decide_false; [|intros Hin; rewrite !elem_of_cons in Hin; set_solver by lia].
    rewrite (proj2 (N.leb_gt 8192 c)), (proj2 (N.leb_le 32 c)), (proj2 (N.leb_le c 126)) by lia.
    cbn [andb orb]. by rewrite orb_true_r.
  - done.
  - done.
  - apply (bool_decide_unpack _). by vm_compute.
  - apply (bool_decide_unpack _). by vm_compute.
  - by vm_compute.
  - by vm_compute.
Defined.

Lemma serialize_safe_witness : exists s,
  serialize toy_encode (js "id") (js "abc") no_options = Success s /\ forallb field_char s = true.
Proof.
  eexists. split; [by vm_compute|].
  destruct (serialize_safe toy_encode (js "id") (js "abc") no_options) as [_ H]. by apply H; [vm_compute|].
Defined.
