(* ===== verification/JsHeap.v ===== *)
(** * JsHeap: JavaScript objects in a shared store

    Values, objects with their prototype and own data properties, and the
    store the bundled modules read and write, so that aliasing is visible.
    Accessors other than [__proto__], frozen objects and proxies are left out.
    Strings, numbers and other primitives are told apart only as far as the
    modules tell them apart. *)

From S2P Require Import Prelude JsCore.

Abbreviation loc := N.

(** Property keys: strings, and symbols by number *)
Inductive key := KStr (s : jsstr) | KSym (n : N).

#[export] Instance key_eq_dec : EqDecision key.
Proof. solve_decision. Defined.

Inductive val :=
| VUndef
| VNull
| VStr (s : jsstr)
| VPrim (n : N)          (* a number, a boolean or a symbol *)
| VRef (l : loc).

#[export] Instance val_eq_dec : EqDecision val.
Proof. solve_decision. Defined.

(** What a module can find out about an object besides its properties *)
Inductive class :=
| CObject
| CFunction
| CArray
| CBuffer (data : list N)
| CDate (time : Z)
| CRegExp (pattern : jsstr).

#[export] Instance class_eq_dec : EqDecision class.
Proof. solve_decision. Defined.

Record property := Prop_ { p_key : key; p_value : val; p_enumerable : bool }.

Record obj := Obj { o_class : class; o_proto : option loc; o_props : list property }.

Record Heap := Store { objs : gmap loc obj; next : loc }.

Abbreviation JS := (Eff Heap).

(** Object.prototype and Array.prototype *)
Definition objectPrototype : loc := 0.
Definition arrayPrototype : loc := 1.

Definition proto_key : jsstr := js "__proto__".

(** ** Properties *)

Fixpoint own (ps : list property) (k : key) : option property :=
  match ps with
  | [] => None
  | p :: ps' => if bool_decide (p_key p = k) then Some p else own ps' k
  end.

(** An assignment keeps the place and the attribute of a property. *)
Fixpoint put (ps : list property) (k : key) (v : val) : list property :=
  match ps with
  | [] => [Prop_ k v true]
  | p :: ps' => if bool_decide (p_key p = k) then Prop_ k v (p_enumerable p) :: ps' else p :: put ps' k v
  end.

(** The array index a string is: its decimal digits, without a leading zero *)
Definition digits_value (s : jsstr) : option N :=
  foldl (fun acc c =>
    match acc with
    | Some n => if (48 <=? c)%N && (c <=? 57)%N then Some (10 * n + (c - 48))%N else None
    | None => None
    end) (Some 0%N) s.

Definition index_of (s : jsstr) : option N :=
  match s with
  | [] => None
  | c :: s' =>
      if (c =? 48)%N && negb (bool_decide (s' = [])) then None
      else match digits_value s with
           | Some n => if (n <? 2 ^ 32 - 1)%N then Some n else None
           | None => None
           end
  end.

Fixpoint insert_index (n : N) (s : jsstr) (l : list (N * jsstr)) : list (N * jsstr) :=
  match l with
  | [] => [(n, s)]
  | (m, t) :: l' => if (n <? m)%N then (n, s) :: l else (m, t) :: insert_index n s l'
  end.

Definition string_keys (ps : list property) : list jsstr :=
  omap (fun p => match p_key p with KStr s => if p_enumerable p then Some s else None | KSym _ => None end) ps.

(** The enumerable own string keys, in order: the indices, then the others *)
Definition index_keys (ps : list property) : list jsstr :=
  snd <$> foldr (fun s l => match index_of s with Some n => insert_index n s l | None => l end) [] (string_keys ps).
Definition enum_keys (ps : list property) : list jsstr :=
  index_keys ps ++ filter (fun s => index_of s = None) (string_keys ps).

(** The own symbols, enumerable or not *)
Definition symbol_keys (ps : list property) : list N :=
  omap (fun p => match p_key p with KSym n => Some n | KStr _ => None end) ps.

(** ** Store operations *)

Definition alloc (o : obj) : JS loc :=
  let! l := gets next in
  modify (fun h => Store (<[l := o]> (objs h)) (l + 1)%N) ;! ret l.

Definition fetch (l : loc) : JS obj :=
  let! o := gets (fun h => objs h !! l) in lift_try (of_option (Raised "dangling reference") o).

Definition own_props (h : Heap) (l : loc) : list property :=
  match objs h !! l with Some o => o_props o | None => [] end.

(** [l[k]] for a string other than [__proto__]: own, or up the prototype chain *)
Fixpoint lookup_chain (fuel : nat) (h : Heap) (l : loc) (k : jsstr) : val :=
  match objs h !! l with
  | None => VUndef
  | Some o =>
      match own (o_props o) (KStr k) with
      | Some p => p_value p
      | None => match fuel, o_proto o with
                | S fuel', Some l' => lookup_chain fuel' h l' k
                | _, _ => VUndef
                end
      end
  end.

(** A prototype chain has no cycle; [depth] bounds its length. *)
Definition get (depth : nat) (h : Heap) (l : loc) (k : jsstr) : val := lookup_chain depth h l k.

(** [l[k] = v]: own, the setter of [__proto__], or a new property *)
Definition set_prop (l : loc) (k : key) (v : val) : JS unit :=
  let! o := fetch l in
  let store o' := modify (fun h => Store (<[l := o']> (objs h)) (next h)) in
  match own (o_props o) k with
  | Some _ => store (Obj (o_class o) (o_proto o) (put (o_props o) k v))
  | None =>
      if bool_decide (k = KStr proto_key) then
        match v with
        | VRef l' => store (Obj (o_class o) (Some l') (o_props o))
        | VNull => store (Obj (o_class o) None (o_props o))
        | _ => ret tt
        end
      else store (Obj (o_class o) (o_proto o) (put (o_props o) k v))
  end.

Fixpoint each {A} (f : A -> JS unit) (l : list A) : JS unit :=
  match l with [] => ret tt | x :: l' => f x ;! each f l' end.

(** The boxed characters of a string *)
Definition char_props (s : jsstr) : list property :=
  imap (fun i c => Prop_ (KStr (js (pretty.pretty (N.of_nat i)))) (VStr [c]) true) s.

(** ** Laws of properties *)

Lemma own_put ps k v k' : p_value <$> own (put ps k v) k' = if decide (k' = k) then Some v else p_value <$> own ps k'.
Proof.
  induction ps as [|p ps IH]; cbn [put own].
  - destruct (decide (k' = k)) as [->|]; [by rewrite bool_decide_true|by rewrite bool_decide_false].
  - destruct (bool_decide_reflect (p_key p = k)) as [Ek|Ek]; cbn [own p_key].
    + destruct (decide (k' = k)) as [->|]; [by rewrite bool_decide_true|].
      rewrite bool_decide_false by done. by rewrite bool_decide_false by (by rewrite Ek).
    + destruct (bool_decide_reflect (p_key p = k')) as [<-|]; [by rewrite decide_False|done].
Qed.

Lemma own_is_some ps k : is_Some (own ps k) <-> k ∈ p_key <$> ps.
Proof.
  induction ps as [|p ps IH]; cbn [own fmap list_fmap].
  - split; [by intros [? [=]]|by intros ?%elem_of_nil].
  - rewrite elem_of_cons. case_bool_decide as E; [split; eauto|]. rewrite IH. split; [auto|intros [->|]; done].
Qed.

Lemma string_keys_own ps s : s ∈ string_keys ps -> exists p, p ∈ ps /\ p_key p = KStr s /\ p_enumerable p = true.
Proof.
  unfold string_keys. rewrite list_elem_of_omap. intros (p & Hp & E). exists p. split; [done|].
  destruct (p_key p); [|done]. by destruct (p_enumerable p); simplify_eq.
Qed.

Lemma insert_index_elem n s l x : x ∈ insert_index n s l <-> x = (n, s) \/ x ∈ l.
Proof. induction l as [|[m t] l IH]; cbn; [set_solver|]. destruct (n <? m)%N; set_solver. Qed.

Lemma index_keys_elem ps s : s ∈ index_keys ps <-> s ∈ string_keys ps /\ is_Some (index_of s).
Proof.
  unfold index_keys. generalize (string_keys ps) as l. intros l.
  assert (forall x, x ∈ foldr (fun s l => match index_of s with Some n => insert_index n s l | None => l end) [] l <->
    x.2 ∈ l /\ index_of x.2 = Some x.1) as H.
  { induction l as [|t l IH]; intros [n u]; cbn; [set_solver|].
    destruct (index_of t) as [m|] eqn:E; [rewrite insert_index_elem|]; rewrite IH, elem_of_cons; cbn;
      naive_solver congruence. }
  rewrite list_elem_of_fmap. split.
  - intros ([n u] & -> & Hx%H). cbn in *. destruct Hx as [? ->]. eauto.
  - intros [Hl [n E]]. exists (n, s). split; [done|]. by apply H.
Qed.

Lemma enum_keys_elem ps s : s ∈ enum_keys ps <-> s ∈ string_keys ps.
Proof.
  unfold enum_keys. rewrite elem_of_app, index_keys_elem, list_elem_of_filter.
  destruct (index_of s) as [n|]; split; [intros [[? _]|[? _]]; done| |intros [[? _]|[_ ?]]; done|].
  - intros H. left. eauto.
  - intros H. by right.
Qed.

Lemma insert_index_perm n s l : insert_index n s l ≡ₚ (n, s) :: l.
Proof. induction l as [|[m t] l IH]; cbn; [done|]. destruct (n <? m)%N; [done|]. rewrite IH. apply Permutation_swap. Qed.

Lemma index_keys_perm ps : index_keys ps ≡ₚ filter (fun s => index_of s <> None) (string_keys ps).
Proof.
  unfold index_keys. induction (string_keys ps) as [|s l IH]; cbn [foldr]; [done|]. rewrite filter_cons.
  destruct (index_of s) as [n|] eqn:E; case_decide; try done; try congruence. by rewrite insert_index_perm, fmap_cons, IH.
Qed.

Lemma enum_keys_perm ps : enum_keys ps ≡ₚ string_keys ps.
Proof.
  unfold enum_keys. rewrite index_keys_perm. induction (string_keys ps) as [|s l IH]; [done|]. rewrite !filter_cons.
  destruct (decide (index_of s = None)) as [E|E].
  - rewrite decide_False by (intros H; by apply H). by rewrite <- Permutation_middle, IH.
  - rewrite decide_True by done. cbn. by rewrite IH.
Qed.
