(* ===== verification/ObjectAssign.v ===== *)
(** * ObjectAssign: the module object-assign of the Swagger UI bundle

    src/main/resources/swagger-ui/swagger-ui-bundle.js, lines 2-6 (and lines 2-6
    of swagger-ui-standalone-preset.js): the function the module exports where
    Object.assign is missing or broken. *)

From S2P Require Import Prelude JsCore JsHeap.

(** Object(e) *)
Definition box (v : val) : JS loc :=
  match v with
  | VRef l => ret l
  | VStr s => alloc (Obj CObject (Some objectPrototype) (char_props s))
  | VUndef | VNull | VPrim _ => alloc (Obj CObject (Some objectPrototype) [])
  end.

(** toObject *)
Definition toObject (v : val) : JS loc :=
  match v with
  | VUndef | VNull => throw (Raised "TypeError: Object.assign cannot be called with null or undefined")
  | _ => box v
  end.

Section Assign.
Context (hasSymbols : bool).     (* Object.getOwnPropertySymbols exists *)

(** u[k] = n[k], for an own enumerable [k] of [n] *)
Definition copy_property (u n : loc) (k : key) : JS unit :=
  let! o := gets (fun h => own (own_props h n) k) in
  match o with
  | Some p => if p_enumerable p then set_prop u k (p_value p) else ret tt
  | None => ret tt
  end.

Definition assign_from (u n : loc) : JS unit :=
  let! strings := gets (fun h => enum_keys (own_props h n)) in
  each (fun s => copy_property u n (KStr s)) strings ;!
  if hasSymbols then
    let! symbols := gets (fun h => symbol_keys (own_props h n)) in
    each (fun s => copy_property u n (KSym s)) symbols
  else ret tt.

(** The exported function; a call without arguments has an undefined target. *)
Definition assign (args : list val) : JS val :=
  let! u := toObject (default VUndef (head args)) in
  each (fun v => let! n := box v in assign_from u n) (tail args) ;!
  ret (VRef u).

(** ** What it assigns *)

Record heap_ok (h : Heap) : Prop := {
  ho_fresh l : is_Some (objs h !! l) -> (l < next h)%N;
  ho_keys l o : objs h !! l = Some o -> NoDup (p_key <$> o_props o)
}.

(** The value of an own property *)
Definition value_at (h : Heap) (l : loc) (k : key) : option val := p_value <$> own (own_props h l) k.

(** The keys of an object in the order they were added; a new one comes last. *)
Definition keys_at (h : Heap) (l : loc) : list key := p_key <$> own_props h l.
Definition add_key (ks : list key) (k : key) : list key := if decide (k ∈ ks) then ks else ks ++ [k].

(** What a source has to give under a key *)
Definition given (ps : list property) (k : key) : option val :=
  match own ps k with Some p => if p_enumerable p then Some (p_value p) else None | None => None end.

Definition source_props (h : Heap) (v : val) : list property :=
  match v with VRef l => own_props h l | VStr s => char_props s | _ => [] end.

(** [h'] is [h] with other values in [u], and maybe new objects *)
Record only_changes (u : loc) (h h' : Heap) : Prop := {
  oc_other l : l <> u -> is_Some (objs h !! l) -> objs h' !! l = objs h !! l;
  oc_self o : objs h !! u = Some o -> exists o', objs h' !! u = Some o' /\ o_class o' = o_class o /\ o_proto o' = o_proto o;
  oc_next : (next h <= next h')%N
}.

Lemma only_changes_refl u h : only_changes u h h.
Proof. split; [done| |done]. intros o E. eauto. Qed.

Lemma only_changes_trans u h1 h2 h3 : only_changes u h1 h2 -> only_changes u h2 h3 -> only_changes u h1 h3.
Proof.
  intros [A1 A2 A3] [B1 B2 B3]. split; [| |lia].
  - intros l Hl Hs. rewrite B1; [by apply A1|done|by rewrite A1].
  - intros o (o' & E & E1 & E2)%A2. destruct (B2 _ E) as (o'' & F & F1 & F2). exists o''. by rewrite F1, F2.
Qed.

Lemma put_keys ps k v : p_key <$> put ps k v = if decide (k ∈ p_key <$> ps) then p_key <$> ps else (p_key <$> ps) ++ [k].
Proof.
  induction ps as [|p ps IH]; [by rewrite decide_False by apply not_elem_of_nil|]. cbn [put].
  case_bool_decide as E; rewrite !fmap_cons.
  - rewrite decide_True by set_solver. cbn [p_key]. by rewrite E.
  - rewrite IH. destruct (decide (k ∈ p_key <$> ps)); [rewrite decide_True by set_solver|rewrite decide_False by set_solver]; done.
Qed.

Lemma value_at_key h l k : is_Some (value_at h l k) -> k ∈ keys_at h l.
Proof. unfold value_at, keys_at. intros [v E]. apply own_is_some. apply fmap_Some in E as (p & E & _). by eexists. Qed.

(** An assignment, but to the prototype of an object without such a property *)
Lemma set_prop_run u k v h o : heap_ok h -> objs h !! u = Some o -> k <> KStr proto_key ->
  exists h', set_prop u k v h = (h', Success tt) /\ heap_ok h' /\ only_changes u h h' /\ next h' = next h /\
    keys_at h' u = add_key (keys_at h u) k /\
    forall k', value_at h' u k' = if decide (k' = k) then Some v else value_at h u k'.
Proof.
  intros [F K] Eo Hk. set (o' := Obj (o_class o) (o_proto o) (put (o_props o) k v)).
  exists (Store (<[u := o']> (objs h)) (next h)). split_and!.
  - unfold set_prop, fetch, bind, gets, lift_try, modify. rewrite Eo. cbn [of_option].
    rewrite bool_decide_false by done. by destruct (own (o_props o) k).
  - split; cbn [objs next].
    + intros l [x E]. apply F. destruct (decide (l = u)) as [->|]; [by rewrite Eo|]. rewrite lookup_insert_ne in E by done. by eexists.
    + intros l x. destruct (decide (l = u)) as [->|]; [rewrite lookup_insert_eq|rewrite lookup_insert_ne by done; eauto].
      intros [= <-]. cbn [o_props o']. rewrite put_keys. pose proof (K _ _ Eo). case_decide; [done|].
      apply NoDup_app. split_and!; [done|set_solver|apply NoDup_singleton].
  - split; cbn [objs next]; [|intros x Ex; rewrite Eo in Ex; injection Ex as <-; exists o'; by rewrite lookup_insert_eq|done].
    intros l Hl _. by rewrite lookup_insert_ne.
  - done.
  - unfold keys_at, own_props. cbn [objs]. rewrite lookup_insert_eq, Eo. apply put_keys.
  - intros k'. unfold value_at, own_props. cbn [objs]. rewrite lookup_insert_eq, Eo. cbn [o_props o']. apply own_put.
Qed.

Lemma copy_property_run u n k h o : heap_ok h -> objs h !! u = Some o -> k <> KStr proto_key ->
  exists h', copy_property u n k h = (h', Success tt) /\ heap_ok h' /\ only_changes u h h' /\ next h' = next h /\
    keys_at h' u = (if given (own_props h n) k then add_key (keys_at h u) k else keys_at h u) /\
    forall k', value_at h' u k' = if decide (k' = k)
      then match given (own_props h n) k with Some v => Some v | None => value_at h u k end else value_at h u k'.
Proof.
  intros Hok Eo Hk. unfold copy_property, bind at 1, gets, given.
  assert (forall k', value_at h u k' = if decide (k' = k) then value_at h u k else value_at h u k') as Hself.
  { intros k'. by destruct (decide (k' = k)) as [->|]. }
  destruct (own (own_props h n) k) as [p|]; [destruct (p_enumerable p)|].
  - by apply (set_prop_run u k (p_value p) h o).
  - exists h. split_and!; auto using only_changes_refl.
  - exists h. split_and!; auto using only_changes_refl.
Qed.

(** Those of a list of keys under which a source gives something *)
Definition given_keys (ps : list property) (ks : list key) : list key := filter (fun k => given ps k <> None) ks.

(** Copying a list of keys: the source gives, or the target keeps.  A source
    that is the target gives what the target has. *)
Lemma copies_run u n ks h o : heap_ok h -> objs h !! u = Some o -> KStr proto_key ∉ ks ->
  exists h', each (copy_property u n) ks h = (h', Success tt) /\ heap_ok h' /\ only_changes u h h' /\ next h' = next h /\
    keys_at h' u = (if decide (n = u) then keys_at h u else foldl add_key (keys_at h u) (given_keys (own_props h n) ks)) /\
    forall k, value_at h' u k = if decide (k ∈ ks /\ n <> u)
      then match given (own_props h n) k with Some v => Some v | None => value_at h u k end else value_at h u k.
Proof.
  revert h o. induction ks as [|k ks IH]; intros h o Hok Eo Hks; cbn [each].
  - exists h. split_and!; auto using only_changes_refl. by destruct (decide _).
  - destruct (copy_property_run u n k h o Hok Eo) as (h1 & E1 & Hok1 & Hoc1 & N1 & K1 & V1); [set_solver|].
    destruct (oc_self _ _ _ Hoc1 o Eo) as (o1 & Eo1 & _).
    destruct (IH h1 o1 Hok1 Eo1) as (h2 & E2 & Hok2 & Hoc2 & N2 & K2 & V2); [set_solver|].
    assert (n <> u -> own_props h1 n = own_props h n) as Hsame.
    { intros Hn. unfold own_props. destruct (objs h !! n) as [on|] eqn:En; [by rewrite (oc_other _ _ _ Hoc1 n Hn), En|].
      destruct (objs h1 !! n) as [on|] eqn:En1; [|done]. exfalso. unfold copy_property, bind, gets, own_props in E1.
      rewrite En in E1. cbn in E1. injection E1 as <-. congruence. }
    exists h2. split_and!; [by rewrite (bind_run _ _ _ _ _ E1)|done|by eapply only_changes_trans|by rewrite N2| |].
    { rewrite K2, K1. unfold given_keys. destruct (decide (n = u)) as [->|Hn].
      - unfold given. destruct (own (own_props h u) k) as [p|] eqn:Ep; [|done]. destruct (p_enumerable p); [|done].
        unfold add_key. rewrite decide_True; [done|]. apply value_at_key. unfold value_at. rewrite Ep. by eexists.
      - rewrite Hsame, filter_cons by done. destruct (given (own_props h n) k).
        + by rewrite decide_True by done.
        + by rewrite decide_False by (intros H; by apply H). }
    intros k'. rewrite V2, V1. destruct (decide (n = u)) as [->|Hn].
    + rewrite !(decide_False (P := _ /\ u <> u)) by tauto. destruct (decide (k' = k)) as [->|]; [|done].
      unfold given, value_at. destruct (own (own_props h u) k) as [p|]; [by destruct (p_enumerable p)|done].
    + rewrite Hsame by done.
      destruct (decide (k' = k)) as [->|Hk].
      * rewrite (decide_True (P := k ∈ k :: ks /\ n <> u)) by (split; [set_solver|done]).
        destruct (given (own_props h n) k); by destruct (decide _).
      * destruct (decide (k' ∈ ks)); [rewrite !decide_True by (split; [set_solver|done])|
          rewrite !decide_False by (intros [? _]; set_solver)]; done.
Qed.

Lemma each_fmap {A B} (g : A -> B) (f : B -> JS unit) l h : each f (g <$> l) h = each (fun x => f (g x)) l h.
Proof. revert h. induction l as [|x l IH]; intros h; [done|]. cbn. unfold bind. destruct (f (g x) h) as [h1 [[]|]]; [apply IH|done]. Qed.

(** The keys that are copied *)
Definition copied_keys (ps : list property) : list key :=
  (KStr <$> enum_keys ps) ++ (if hasSymbols then KSym <$> symbol_keys ps else []).

Lemma given_copied ps k v : (forall n, k <> KSym n) \/ hasSymbols = true -> given ps k = Some v -> k ∈ copied_keys ps.
Proof.
  unfold given, copied_keys. destruct (own ps k) as [p|] eqn:E; [|done]. destruct (p_enumerable p) eqn:En; [|done]. intros Hk _.
  assert (p ∈ ps /\ p_key p = k) as [Hp Ek].
  { clear -E. induction ps as [|q ps IH]; [done|]. cbn in E. case_bool_decide; [injection E as ->; split; [set_solver|done]|].
    destruct (IH E). split; [set_solver|done]. }
  rewrite elem_of_app. destruct k as [s|n].
  - left. apply list_elem_of_fmap. exists s. split; [done|]. apply enum_keys_elem. unfold string_keys.
    apply list_elem_of_omap. exists p. by rewrite Ek, En.
  - right. destruct Hk as [Hk| ->]; [by destruct (Hk n)|]. apply list_elem_of_fmap. exists n. split; [done|].
    unfold symbol_keys. apply list_elem_of_omap. exists p. by rewrite Ek.
Qed.

(** What a source offers: its enumerable own properties, without the symbols
    in an engine that cannot list them *)
Definition offered (ps : list property) (k : key) : option val :=
  match k with
  | KSym _ => if hasSymbols then given ps k else None
  | KStr _ => given ps k
  end.

Lemma offered_copied ps k v : offered ps k = Some v -> k ∈ copied_keys ps.
Proof.
  destruct k as [s|n]; cbn.
  - apply given_copied. by left.
  - destruct hasSymbols eqn:E; [|done]. apply given_copied. by right.
Qed.

Lemma offered_given ps k : k ∈ copied_keys ps -> offered ps k = given ps k.
Proof.
  unfold copied_keys. destruct k as [s|n]; [done|]. cbn. destruct hasSymbols; [done|].
  rewrite app_nil_r. by intros (x & [=] & _)%list_elem_of_fmap.
Qed.

(** Its keys: the strings in the order of the engine, then the symbols *)
Definition offered_keys (ps : list property) : list key := given_keys ps (copied_keys ps).

Lemma assign_from_run u n h o : heap_ok h -> objs h !! u = Some o -> is_Some (objs h !! n) ->
  KStr proto_key ∉ copied_keys (own_props h n) ->
  exists h', assign_from u n h = (h', Success tt) /\ heap_ok h' /\ only_changes u h h' /\ next h' = next h /\
    keys_at h' u = (if decide (n = u) then keys_at h u else foldl add_key (keys_at h u) (offered_keys (own_props h n))) /\
    forall k, value_at h' u k = if decide (n = u) then value_at h u k
      else match offered (own_props h n) k with Some v => Some v | None => value_at h u k end.
Proof.
  intros Hok Eo Hn Hp. unfold assign_from, bind at 1. unfold gets at 1.
  set (ks1 := KStr <$> enum_keys (own_props h n)).
  destruct (copies_run u n ks1 h o Hok Eo) as (h1 & E1 & Hok1 & Hoc1 & N1 & K1 & V1).
  { intros Hin. apply Hp. unfold copied_keys. set_solver. }
  unfold ks1 in E1. rewrite each_fmap in E1. rewrite (bind_run _ _ _ _ _ E1).
  destruct (oc_self _ _ _ Hoc1 o Eo) as (o1 & Eo1 & _).
  assert (n <> u -> own_props h1 n = own_props h n) as Hsame.
  { intros Hne. unfold own_props. by rewrite (oc_other _ _ _ Hoc1 n Hne Hn). }
  set (ks2 := if hasSymbols then KSym <$> symbol_keys (own_props h1 n) else []).
  assert ((if hasSymbols then (let! symbols := gets (fun h => symbol_keys (own_props h n)) in
      each (fun s => copy_property u n (KSym s)) symbols) else ret tt) h1 = each (copy_property u n) ks2 h1) as ->.
  { unfold ks2. destruct hasSymbols; [|done]. by rewrite each_fmap. }
  destruct (copies_run u n ks2 h1 o1 Hok1 Eo1) as (h2 & E2 & Hok2 & Hoc2 & N2 & K2 & V2).
  { unfold ks2. destruct hasSymbols; [|by apply not_elem_of_nil]. by intros (x & [=] & _)%list_elem_of_fmap. }
  exists h2. split_and!; [done|done|by eapply only_changes_trans|by rewrite N2| |].
  { rewrite K2, K1. destruct (decide (n = u)) as [|Hne]; [done|]. unfold offered_keys, copied_keys, given_keys.
    rewrite filter_app, foldl_app. unfold ks2. by rewrite Hsame by done. }
  intros k. rewrite V2, V1. destruct (decide (n = u)) as [->|Hne].
  { by rewrite !decide_False by tauto. }
  rewrite Hsame by done.
  assert (k ∈ copied_keys (own_props h n) <-> k ∈ ks1 \/ k ∈ ks2) as Hk.
  { unfold copied_keys, ks1, ks2. by rewrite elem_of_app, Hsame. }
  destruct (offered (own_props h n) k) as [v|] eqn:Eof.
  - pose proof (offered_copied _ _ _ Eof) as Hin. rewrite (offered_given _ _ Hin) in Eof. rewrite Eof.
    apply Hk in Hin as [Hin|Hin].
    + rewrite (decide_True (P := k ∈ ks1 /\ n <> u)) by done. by destruct (decide _).
    + by rewrite (decide_True (P := k ∈ ks2 /\ n <> u)) by done.
  - assert (k ∈ copied_keys (own_props h n) -> given (own_props h n) k = None) as Hg.
    { intros Hin. by rewrite <- (offered_given _ _ Hin). }
    destruct (decide (k ∈ ks2 /\ n <> u)) as [[Hin _]|_]; [rewrite Hg by tauto|];
      (destruct (decide (k ∈ ks1 /\ n <> u)) as [[Hin' _]|_]; [by rewrite ?Hg by tauto|done]).
Qed.

(** The value [u] ends with under a key: that of the last source that offers
    one, else its own.  [u] itself, as a source, has nothing new to offer. *)
Definition assigned (h : Heap) (u : loc) (sources : list val) (k : key) : option val :=
  foldl (fun acc v =>
    if decide (v = VRef u) then acc
    else match offered (source_props h v) k with Some x => Some x | None => acc end) (value_at h u k) sources.

(** Its keys: those it had, then those the sources add in their order *)
Definition assigned_keys (h : Heap) (u : loc) (sources : list val) : list key :=
  foldl (fun acc v => if decide (v = VRef u) then acc else foldl add_key acc (offered_keys (source_props h v)))
    (keys_at h u) sources.

(** A source whose properties are all plain data under other keys than [__proto__] *)
Definition source_ok (h : Heap) (v : val) : Prop :=
  (forall l, v = VRef l -> is_Some (objs h !! l)) /\ KStr proto_key ∉ copied_keys (source_props h v).

Lemma char_props_keys s : NoDup (p_key <$> char_props s).
Proof.
  assert (forall (l : jsstr) off, (forall k, k ∈ p_key <$> imap (fun i c => Prop_ (KStr (js (pretty.pretty (N.of_nat (off + i))))) (VStr [c]) true) l ->
    exists i, off <= i /\ k = KStr (js (pretty.pretty (N.of_nat i)))) /\
    NoDup (p_key <$> imap (fun i c => Prop_ (KStr (js (pretty.pretty (N.of_nat (off + i))))) (VStr [c]) true) l)) as H.
  { induction l as [|c l IH]; intros off; [split; [by intros ? ?%elem_of_nil|constructor]|].
    cbn [imap]. rewrite fmap_cons. cbn [p_key].
    rewrite (imap_ext _ (fun i c => Prop_ (KStr (js (pretty.pretty (N.of_nat (S off + i))))) (VStr [c]) true)).
    2:{ intros i x _. simpl. by rewrite Nat.add_succ_r. }
    destruct (IH (S off)) as [H1 H2]. split.
    - intros k [->|(i & Hi & ->)%H1]%elem_of_cons; [exists off; split; [lia|by rewrite Nat.add_0_r]|]. exists i. split; [lia|done].
    - apply NoDup_cons. split; [|done]. intros (i & Hi & E)%H1. rewrite Nat.add_0_r in E.
      injection E as E. apply (inj js), (inj pretty.pretty) in E. lia. }
  apply (H s 0).
Qed.

Lemma alloc_run o u h : heap_ok h -> NoDup (p_key <$> o_props o) -> is_Some (objs h !! u) ->
  let h1 := Store (<[next h := o]> (objs h)) (next h + 1)%N in
  alloc o h = (h1, Success (next h)) /\ heap_ok h1 /\ next h <> u /\
  (forall l, is_Some (objs h !! l) -> objs h1 !! l = objs h !! l) /\ own_props h1 (next h) = o_props o /\
  is_Some (objs h1 !! next h).
Proof.
  intros [F K] Hn Hu h1. assert (forall l, is_Some (objs h !! l) -> next h <> l) as Hne by (intros l Hl; apply F in Hl; lia).
  split_and!; [done| |by apply Hne| | |].
  - split; cbn.
    + intros l Hl. destruct (decide (next h = l)) as [<-|]; [lia|]. rewrite lookup_insert_ne in Hl by done. apply F in Hl. lia.
    + intros l x. destruct (decide (next h = l)) as [<-|]; [rewrite lookup_insert_eq; by intros [= <-]|].
      rewrite lookup_insert_ne by done. apply K.
  - intros l Hl. cbn. by rewrite lookup_insert_ne by auto.
  - unfold own_props. cbn. by rewrite lookup_insert_eq.
  - cbn. rewrite lookup_insert_eq. eauto.
Qed.

Lemma box_run v u h : heap_ok h -> is_Some (objs h !! u) -> source_ok h v ->
  exists h1 n, box v h = (h1, Success n) /\ heap_ok h1 /\ (forall l, is_Some (objs h !! l) -> objs h1 !! l = objs h !! l) /\
    (next h <= next h1)%N /\ own_props h1 n = source_props h v /\ is_Some (objs h1 !! n) /\ (n = u <-> v = VRef u).
Proof.
  intros Hok Hu [Hl _].
  assert (forall ps, NoDup (p_key <$> ps) -> (forall l, v <> VRef l) -> exists h1 n,
    alloc (Obj CObject (Some objectPrototype) ps) h = (h1, Success n) /\ heap_ok h1 /\
    (forall l, is_Some (objs h !! l) -> objs h1 !! l = objs h !! l) /\
    (next h <= next h1)%N /\ own_props h1 n = ps /\ is_Some (objs h1 !! n) /\ (n = u <-> v = VRef u)) as Ha.
  { intros ps Hps Hv. destruct (alloc_run (Obj CObject (Some objectPrototype) ps) u h Hok Hps Hu) as (E & H1 & H2 & H3 & H4 & H5).
    eexists _, _. split; [exact E|]. split_and!; [done|done|cbn; lia|done|done|]. split; [by intros ?|by intros ?%Hv]. }
  destruct v as [| |s|n|l]; cbn [box source_props]; try (apply Ha; [try constructor|done]).
  - apply char_props_keys.
  - exists h, l. split_and!; [done|done|done|lia|done|by apply Hl|]. split; [by intros ->|by intros [= ->]].
Qed.

Lemma no_own_not_copied ps k : own ps k = None -> k ∉ copied_keys ps.
Proof.
  intros E Hin. assert (k ∈ p_key <$> ps) as Hk; [|by apply own_is_some in Hk as [p Hp]; rewrite E in Hp].
  unfold copied_keys in Hin. apply elem_of_app in Hin as [Hin|Hin].
  - apply list_elem_of_fmap in Hin as (s & -> & Hs). apply enum_keys_elem, string_keys_own in Hs as (p & Hp & <- & _).
    by apply list_elem_of_fmap_2.
  - destruct hasSymbols; [|by apply elem_of_nil in Hin]. apply list_elem_of_fmap in Hin as (n & -> & Hn).
    unfold symbol_keys in Hn. apply list_elem_of_omap in Hn as (p & Hp & E1). apply list_elem_of_fmap. exists p.
    destruct (p_key p); [done|]. by injection E1 as ->.
Qed.

Lemma assigned_ext h h' u acc sources :
  (forall v, v ∈ sources -> v <> VRef u -> source_props h' v = source_props h v) -> forall k,
  foldl (fun acc v => if decide (v = VRef u) then acc
    else match offered (source_props h' v) k with Some x => Some x | None => acc end) acc sources =
  foldl (fun acc v => if decide (v = VRef u) then acc
    else match offered (source_props h v) k with Some x => Some x | None => acc end) acc sources.
Proof.
  intros H k. revert acc. induction sources as [|v sources IH]; intros acc; [done|]. cbn [foldl].
  rewrite IH by (intros w Hw; apply H; set_solver). f_equal. destruct (decide (v = VRef u)); [done|].
  by rewrite H by (done || set_solver).
Qed.

Lemma assigned_keys_ext h h' u sources acc :
  (forall v, v ∈ sources -> v <> VRef u -> source_props h' v = source_props h v) ->
  foldl (fun acc v => if decide (v = VRef u) then acc else foldl add_key acc (offered_keys (source_props h' v))) acc sources =
  foldl (fun acc v => if decide (v = VRef u) then acc else foldl add_key acc (offered_keys (source_props h v))) acc sources.
Proof.
  intros H. revert acc. induction sources as [|v sources IH]; intros acc; [done|]. cbn [foldl].
  rewrite IH by (intros w Hw; apply H; set_solver). f_equal. destruct (decide (v = VRef u)); [done|].
  by rewrite H by (done || set_solver).
Qed.

Lemma assign_sources u : forall sources h o, heap_ok h -> objs h !! u = Some o ->
  value_at h u (KStr proto_key) = None -> Forall (source_ok h) sources ->
  exists h', each (fun v => let! n := box v in assign_from u n) sources h = (h', Success tt) /\ heap_ok h' /\
    only_changes u h h' /\ keys_at h' u = assigned_keys h u sources /\
    forall k, value_at h' u k = assigned h u sources k.
Proof.
  induction sources as [|v sources IH]; intros h o Hok Eo Hpu Hall; cbn [each].
  - exists h. split_and!; auto using only_changes_refl.
  - apply Forall_cons in Hall as [Hv Hall].
    destruct (box_run v u h Hok ltac:(eauto) Hv) as (h1 & n & E1 & Hok1 & Hsame1 & N1 & P1 & S1 & U1).
    assert (objs h1 !! u = Some o) as Eo1 by (rewrite Hsame1; eauto).
    assert (forall k, value_at h1 u k = value_at h u k) as V1 by (intros k; unfold value_at, own_props; by rewrite Eo, Eo1).
    destruct (assign_from_run u n h1 o Hok1 Eo1 S1) as (h2 & E2 & Hok2 & Hoc2 & N2 & K2 & V2).
    { rewrite P1. apply Hv. }
    assert (only_changes u h h1) as Hoc1.
    { split; [auto| |done]. intros x Ex. rewrite Ex in Eo. injection Eo as ->. eauto. }
    pose proof (only_changes_trans _ _ _ _ Hoc1 Hoc2) as Hoc.
    destruct (oc_self _ _ _ Hoc o Eo) as (o2 & Eo2 & _).
    assert (forall w, source_ok h w -> w <> VRef u -> source_props h2 w = source_props h w) as Hsp.
    { intros w [Hw _] Hne. destruct w as [| |s|x|l]; try done. cbn. unfold own_props.
      rewrite (oc_other _ _ _ Hoc l); [done|congruence|by apply Hw]. }
    assert (value_at h2 u (KStr proto_key) = None) as Hpu2.
    { rewrite V2, V1, P1, Hpu. destruct (decide (n = u)); [done|].
      destruct (offered (source_props h v) (KStr proto_key)) as [x|] eqn:E; [|done]. by apply offered_copied, Hv in E. }
    destruct (IH h2 o2 Hok2 Eo2 Hpu2) as (h3 & E3 & Hok3 & Hoc3 & K3 & V3).
    { eapply Forall_impl; [exact Hall|]. intros w Hw. destruct (decide (w = VRef u)) as [->|Hne].
      - split; [intros l [= <-]; eauto|]. cbn. apply no_own_not_copied. by apply fmap_None in Hpu2.
      - split; [|rewrite Hsp by done; apply Hw]. intros l ->. rewrite (oc_other _ _ _ Hoc l); [by apply Hw|congruence|by apply Hw]. }
    exists h3. split; [|split; [done|split; [by eapply only_changes_trans|split]]].
    + unfold bind at 1. rewrite (bind_run _ _ _ _ _ E1), E2. exact E3.
    + rewrite K3. unfold assigned_keys. cbn [foldl]. rewrite K2, P1.
      rewrite (assigned_keys_ext h h2) by (intros w Hw; apply Hsp; by eapply Forall_forall).
      f_equal. assert (keys_at h1 u = keys_at h u) as -> by (unfold keys_at, own_props; by rewrite Eo, Eo1).
      destruct (decide (n = u)) as [Hn|Hn]; [by rewrite decide_True by tauto|by rewrite decide_False by tauto].
    + intros k. rewrite V3. unfold assigned. cbn [foldl]. rewrite V2, V1, P1.
      rewrite (assigned_ext h h2) by (intros w Hw; apply Hsp; by eapply Forall_forall).
      f_equal. destruct (decide (n = u)) as [Hn|Hn]; [by rewrite decide_True by tauto|by rewrite decide_False by tauto].
Qed.

(** C22: assigning to an object without an own __proto__, from sources that offer
    none, returns that object, with, under every key, the value of the last source
    that has it as an enumerable own property, or else the value it had; its keys
    are those it had, in their places, and then the new ones in the order in which
    the sources list them; a source that is the target itself, a primitive, null or
    undefined is as harmless as documented; no other object changes, nor does
    the prototype of the target.  Without a target it throws. *)
Theorem object_assign u sources h o : heap_ok h -> objs h !! u = Some o ->
  value_at h u (KStr proto_key) = None -> Forall (source_ok h) sources ->
  (exists h', assign (VRef u :: sources) h = (h', Success (VRef u)) /\ only_changes u h h' /\
     keys_at h' u = assigned_keys h u sources /\
     forall k, value_at h' u k = assigned h u sources k) /\
  forall args, default VUndef (head args) = VUndef \/ head args = Some VNull ->
    assign args h = (h, Failure (Raised "TypeError: Object.assign cannot be called with null or undefined")).
Proof.
  intros Hok Eo Hp Hall. split.
  - destruct (assign_sources u sources h o Hok Eo Hp Hall) as (h' & E & _ & Hoc & V). exists h'. split; [|done].
    unfold assign. cbn [head tail default toObject box]. rewrite (bind_run _ _ h h u) by done.
    by rewrite (bind_run _ _ _ _ _ E).
  - intros args H. unfold assign, bind, throw. destruct args as [|[] args]; cbn in *; naive_solver.
Qed.
End Assign.

(** ** Witness *)

Definition sample_heap : Heap :=
  let plain ps := Obj CObject (Some objectPrototype) ps in
  let prop k v := Prop_ (KStr (js k)) v true in
  Store {[ 5%N := plain [prop "a" (VPrim 1); prop "b" (VPrim 2)];
           6%N := plain [prop "b" (VPrim 3); Prop_ (KSym 0) VNull true; Prop_ (KStr (js "hidden")) VNull false] ]} 7.

Lemma sample_heap_ok : heap_ok sample_heap.
Proof.
  split.
  - intros l [o Hl]. unfold sample_heap in Hl. cbn in Hl. apply lookup_insert_Some in Hl as [[<- _]|[_ Hl]]; [cbn; lia|].
    apply lookup_singleton_Some in Hl as [<- _]. cbn. lia.
  - intros l o Hl. unfold sample_heap in Hl. cbn in Hl. apply lookup_insert_Some in Hl as [[<- <-]|[_ Hl]];
      [|apply lookup_singleton_Some in Hl as [<- <-]]; apply (bool_decide_unpack _); by vm_compute.
Qed.

Lemma object_assign_witness : exists h',
  assign true [VRef 5; VRef 6; VUndef; VRef 5] sample_heap = (h', Success (VRef 5)) /\
  value_at h' 5 (KStr (js "a")) = Some (VPrim 1) /\ value_at h' 5 (KStr (js "b")) = Some (VPrim 3) /\
  value_at h' 5 (KSym 0) = Some VNull /\ value_at h' 5 (KStr (js "hidden")) = None /\
  keys_at h' 5 = [KStr (js "a"); KStr (js "b"); KSym 0].
Proof.
  destruct (object_assign true 5 [VRef 6; VUndef; VRef 5] sample_heap
    (Obj CObject (Some objectPrototype) [Prop_ (KStr (js "a")) (VPrim 1) true; Prop_ (KStr (js "b")) (VPrim 2) true]))
    as [(h' & E & _ & K & V) _].
  - exact sample_heap_ok.
  - by vm_compute.
  - by vm_compute.
  - repeat apply Forall_cons_2; try apply Forall_nil_2;
      (split; [try (intros l [= <-]; apply (bool_decide_unpack _); by vm_compute); by intros|apply (bool_decide_unpack _); by vm_compute]).
  - exists h'. split; [exact E|]. rewrite !V, K. by vm_compute.
Defined.
