(* ===== verification/DeepExtend.v ===== *)
(** * DeepExtend: the module deep-extend of the Swagger UI bundle

    src/main/resources/swagger-ui/swagger-ui-bundle.js, lines 18-44: recursive
    merging of objects into a target.  The recursion follows the sources, which
    may be cyclic, so it has fuel. *)

From S2P Require Import Prelude JsCore JsHeap.

(** typeof v == "object" && v !== null *)
Definition is_object (h : Heap) (v : val) : bool :=
  match v with
  | VRef l => match objs h !! l with Some o => negb (bool_decide (o_class o = CFunction)) | None => false end
  | _ => false
  end.

Definition class_of (h : Heap) (v : val) : option class :=
  match v with VRef l => o_class <$> objs h !! l | _ => None end.

(** Array.isArray *)
Definition isArray (h : Heap) (v : val) : bool := bool_decide (class_of h v = Some CArray).

Definition specific (c : class) : bool :=
  match c with CBuffer _ | CDate _ | CRegExp _ => true | _ => false end.

(** isSpecificValue: a Buffer, a Date or a RegExp *)
Definition isSpecificValue (h : Heap) (v : val) : bool :=
  match class_of h v with Some c => specific c | None => false end.

(** cloneSpecificValue: a new object of the same content, without the
    properties the value may have been given besides *)
Definition cloneSpecificValue (v : val) : JS val :=
  let! h := gets id in
  match v with
  | VRef l =>
      match objs h !! l with
      | Some o =>
          if specific (o_class o) then let! l' := alloc (Obj (o_class o) (o_proto o) []) in ret (VRef l')
          else throw (Raised "Error: Unexpected situation")
      | None => throw (Raised "Error: Unexpected situation")
      end
  | _ => throw (Raised "Error: Unexpected situation")
  end.

Section DeepExtend.
Context (depth : nat).    (* of the prototype chains *)

(** safeGetProperty *)
Definition safeGetProperty (h : Heap) (v : val) (k : jsstr) : Try val :=
  if bool_decide (k = proto_key) then Success VUndef
  else match v with
       | VRef l => Success (get depth h l k)
       | VUndef | VNull => Failure (Raised "TypeError")
       | _ => Success VUndef
       end.

(** s[k] = v *)
Definition assign_property (s : val) (k : jsstr) (v : val) : JS unit :=
  match s with VRef l => set_prop l (KStr k) v | _ => throw (Raised "TypeError") end.

Definition new_object : JS loc := alloc (Obj CObject (Some objectPrototype) []).

(** deepCloneArray and deepExtend.  The first argument of deepExtend is its
    target; the recursive calls have one source. *)
Fixpoint deepCloneArray (fuel : nat) (l : loc) {struct fuel} : JS loc :=
  match fuel with
  | O => throw NoFuel
  | S fuel' =>
      let! clone := alloc (Obj CArray (Some arrayPrototype) []) in
      let! ks := gets (fun h => index_keys (own_props h l)) in
      each (fun k =>
        let! h := gets id in
        let e := get depth h l k in
        if is_object h e then
          if isArray h e then
            match e with
            | VRef le => let! c := deepCloneArray fuel' le in set_prop clone (KStr k) (VRef c)
            | _ => ret tt
            end
          else if isSpecificValue h e then let! c := cloneSpecificValue e in set_prop clone (KStr k) c
          else let! c := new_object in deepExtend fuel' (VRef c) [e] ;! set_prop clone (KStr k) (VRef c)
        else set_prop clone (KStr k) e) ks ;!
      ret clone
  end
with deepExtend (fuel : nat) (s : val) (sources : list val) {struct fuel} : JS unit :=
  match fuel with
  | O => throw NoFuel
  | S fuel' =>
      each (fun u =>
        let! h := gets id in
        match u with
        | VRef lu =>
            if negb (is_object h u) || isArray h u then ret tt
            else
              each (fun k =>
                let! h := gets id in
                let! t := lift_try (safeGetProperty h s k) in
                let! e := lift_try (safeGetProperty h u k) in
                if bool_decide (e = s) then ret tt
                else if negb (is_object h e) then assign_property s k e
                else if isArray h e then
                  match e with
                  | VRef le => let! c := deepCloneArray fuel' le in assign_property s k (VRef c)
                  | _ => ret tt
                  end
                else if isSpecificValue h e then let! c := cloneSpecificValue e in assign_property s k c
                else if negb (is_object h t) || isArray h t then
                  let! c := new_object in deepExtend fuel' (VRef c) [e] ;! assign_property s k (VRef c)
                else deepExtend fuel' t [e] ;! assign_property s k t) (enum_keys (own_props h lu))
        | _ => ret tt
        end) sources
  end.

(** The exported function *)
Definition deep_extend (fuel : nat) (args : list val) : JS val :=
  let! h := gets id in
  match args with
  | [] => ret (VPrim 0)                                                  (* false *)
  | s :: sources =>
      if negb (is_object h s) && negb (bool_decide (s = VNull)) then ret (VPrim 0)
      else if bool_decide (sources = []) then ret s
      else deepExtend fuel s sources ;! ret s
  end.
End DeepExtend.

(** ** A merge changes its target only *)


Section Isolation.
Context (depth : nat).

(** ** Isolation

    [W] is a set of objects that contains the target and every object that can
    be read from one of its members; [h0] is the store at the call. *)
Context (h0 : Heap) (W : loc -> Prop).

(** The target's objects, and the new ones *)
Definition owned (l : loc) : Prop := W l \/ (next h0 <= l)%N.

(** A value that is no object of others *)
Definition val_owned (h : Heap) (v : val) : Prop := forall l, v = VRef l -> is_object h v = true -> owned l.

(** Nothing that can be read from [l] is an object of others. *)
Definition reads_owned (h : Heap) (l : loc) : Prop :=
  forall d k, d <= depth -> val_owned h (lookup_chain d h l k).

Record inv (h : Heap) : Prop := {
  i_fresh l : is_Some (objs h !! l) -> (l < next h)%N;
  i_next : (next h0 <= next h)%N;
  i_protos l o p : objs h !! l = Some o -> o_proto o = Some p -> is_Some (objs h !! p);
  i_frame l : ~ owned l -> objs h !! l = objs h0 !! l;
  i_skeleton l o : objs h0 !! l = Some o -> exists o', objs h !! l = Some o' /\ o_class o' = o_class o /\ o_proto o' = o_proto o;
  i_builtin l : l = objectPrototype \/ l = arrayPrototype -> is_Some (objs h !! l) /\ reads_owned h l;
  i_specific l o p : objs h !! l = Some o -> specific (o_class o) = true -> o_proto o = Some p -> reads_owned h p;
  i_owned l : owned l -> reads_owned h l
}.

(** A computation that keeps the invariant, and whose result satisfies [P] *)
Definition keeps {A} (m : JS A) (h : Heap) (P : A -> Prop) : Prop :=
  wp m h (fun r h' => inv h' /\ forall a, r = Success a -> P a).

Lemma keeps_ret {A} (a : A) h (P : A -> Prop) : inv h -> P a -> keeps (ret a) h P.
Proof. intros I Pa. split; [done|]. by intros a' [= <-]. Qed.

Lemma keeps_throw {A} e h (P : A -> Prop) : inv h -> keeps (throw e) h P.
Proof. intros I. by split. Qed.

Lemma keeps_bind {A B} (m : JS A) (f : A -> JS B) h P Q : keeps m h P ->
  (forall a h', inv h' -> P a -> keeps (f a) h' Q) -> keeps (bind m f) h Q.
Proof.
  intros [I HP] Hf. unfold keeps, wp, bind in *. destruct (m h) as [h' [a|e]]; cbn in *; [|by split].
  by apply Hf; [|apply HP].
Qed.

Lemma keeps_gets {A B} (g : Heap -> A) (f : A -> JS B) h (P : B -> Prop) : keeps (f (g h)) h P -> keeps (bind (gets g) f) h P.
Proof. done. Qed.

Lemma keeps_lift {A B} (t : Try A) (f : A -> JS B) h (P : B -> Prop) : inv h ->
  (forall a, t = Success a -> keeps (f a) h P) -> keeps (bind (lift_try t) f) h P.
Proof. intros I Hf. destruct t as [a|e]; [by apply Hf|by apply keeps_throw]. Qed.

Lemma keeps_each {A} (f : A -> JS unit) l h : (forall x h', inv h' -> keeps (f x) h' (fun _ => True)) -> inv h ->
  keeps (each f l) h (fun _ => True).
Proof.
  intros Hf. revert h. induction l as [|x l IH]; intros h I; cbn [each]; [by apply keeps_ret|].
  eapply keeps_bind; [by apply Hf|]. auto.
Qed.

Lemma is_object_same h h' v : (forall l, v = VRef l -> o_class <$> objs h' !! l = o_class <$> objs h !! l) ->
  is_object h' v = is_object h v.
Proof.
  intros H. destruct v; try done. specialize (H l eq_refl). unfold is_object.
  destruct (objs h !! l), (objs h' !! l); cbn in H; try done. injection H as ->. done.
Qed.

(** *** Allocation *)

Lemma lookup_chain_alloc h l0 o d l k : objs h !! l0 = None ->
  (forall l o p, objs h !! l = Some o -> o_proto o = Some p -> is_Some (objs h !! p)) -> l <> l0 ->
  is_Some (objs h !! l) ->
  lookup_chain d (Store (<[l0 := o]> (objs h)) (next h + 1)) l k = lookup_chain d h l k.
Proof.
  intros Hn Hp Hl [ol El]. revert l ol Hl El. induction d as [|d IH]; intros l ol Hl El; cbn [lookup_chain objs];
    rewrite lookup_insert_ne, El by done; destruct (own (o_props ol) (KStr k)); try done.
  destruct (o_proto ol) as [p|] eqn:Ep; [|done]. destruct (Hp _ _ _ El Ep) as [op Eop]. apply (IH p op); [|done].
  intros ->. congruence.
Qed.

Lemma lookup_chain_none d h l k : objs h !! l = None -> lookup_chain d h l k = VUndef.
Proof. intros E. destruct d; cbn; by rewrite E. Qed.

Lemma inv_alloc c po h : inv h ->
  (forall p, po = Some p -> is_Some (objs h !! p) /\ reads_owned h p) ->
  keeps (alloc (Obj c po [])) h (fun l => next h0 <= l)%N.
Proof.
  intros I Hpo. unfold keeps, wp. cbn. set (o := Obj c po []). set (h' := Store _ _).
  assert (objs h !! next h = None) as Hn.
  { destruct (objs h !! next h) as [x|] eqn:E; [|done]. pose proof (i_fresh h I (next h) ltac:(eauto)). lia. }
  pose proof (i_next h I) as HN.
  assert (forall v, is_object h' v = true -> is_object h v = true \/ v = VRef (next h)) as Hobj.
  { intros v Hv. destruct v; try done. destruct (decide (l = next h)) as [->|Hl]; [by right|left].
    unfold is_object, h' in Hv. cbn in Hv. by rewrite lookup_insert_ne in Hv. }
  assert (forall v, val_owned h v -> val_owned h' v) as Hval.
  { intros v Hv l -> Ho. apply Hobj in Ho as [Ho|[= ->]]; [by apply Hv|]. right. lia. }
  assert (forall l, is_Some (objs h !! l) -> reads_owned h l -> reads_owned h' l) as Hreads.
  { intros l Hs Hr d k Hd. unfold h'. rewrite lookup_chain_alloc; [by apply Hval, Hr|done|apply (i_protos h I)| |done].
    intros ->. rewrite Hn in Hs. by destruct Hs. }
  assert (reads_owned h' (next h)) as Hnew.
  { intros d k Hd. destruct d as [|d]; cbn [lookup_chain h' objs]; rewrite lookup_insert_eq; cbn [o_props o own o_proto].
    - by intros ? [=].
    - destruct po as [p|]; [|by intros ? [=]]. destruct (Hpo p eq_refl) as [Hs Hr]. apply (Hreads p Hs Hr). lia. }
  split; [split|].
  - intros l [x E]. cbn in *. apply lookup_insert_Some in E as [[<- _]|[_ E]]; [lia|].
    pose proof (i_fresh h I l ltac:(eauto)). lia.
  - cbn. lia.
  - cbn. intros l x p E Ep. apply lookup_insert_Some in E as [[<- <-]|[_ E]].
    + cbn in Ep. destruct (Hpo p Ep) as [[y Ey] _]. exists y. rewrite lookup_insert_ne; [done|]. intros <-. congruence.
    + destruct (i_protos h I _ _ _ E Ep) as [y Ey]. exists y. rewrite lookup_insert_ne; [done|]. intros <-. congruence.
  - intros l Hl. cbn. rewrite lookup_insert_ne; [by apply i_frame|]. intros <-. apply Hl. right. lia.
  - intros l x E. destruct (i_skeleton h I l x E) as (o' & E' & H1 & H2). exists o'. split; [|done]. cbn.
    rewrite lookup_insert_ne; [done|]. intros <-. congruence.
  - intros l Hl. destruct (i_builtin h I l Hl) as [Hs Hr]. split; [|by apply Hreads]. cbn.
    destruct Hs as [x E]. exists x. rewrite lookup_insert_ne; [done|]. intros <-. congruence.
  - intros l x p E Hx Hp. cbn in E. apply lookup_insert_Some in E as [[<- <-]|[_ E]].
    + cbn in Hp. destruct (Hpo p Hp) as [Hs Hr]. by apply Hreads.
    + apply Hreads; [by eapply (i_protos h I)|]. by eapply (i_specific h I).
  - intros l Hl. destruct (decide (l = next h)) as [->|Hne]; [done|].
    destruct (objs h !! l) as [x|] eqn:E; [apply Hreads; [eauto|by apply i_owned]|].
    intros d k _. rewrite lookup_chain_none; [by intros ? [=]|]. cbn. by rewrite lookup_insert_ne.
  - by intros l [= <-].
Qed.

(** *** Assignment *)

Lemma own_put_or ps k v k2 a b : a = v \/ a = b ->
  match own (put ps k v) k2 with Some p => p_value p | None => a end = v \/
  match own (put ps k v) k2 with Some p => p_value p | None => a end =
    match own ps k2 with Some p => p_value p | None => b end.
Proof.
  intros Hab. pose proof (own_put ps k v k2) as Hp.
  destruct (own (put ps k v) k2) as [p|], (own ps k2) as [q|], (decide (k2 = k)); cbn in Hp; try done;
    try (injection Hp as ->); auto.
Qed.

Lemma lookup_chain_set h l o k v d l2 k2 : objs h !! l = Some o ->
  let h' := Store (<[l := Obj (o_class o) (o_proto o) (put (o_props o) (KStr k) v)]> (objs h)) (next h) in
  lookup_chain d h' l2 k2 = v \/ lookup_chain d h' l2 k2 = lookup_chain d h l2 k2.
Proof.
  intros E h'. revert l2. induction d as [|d IH]; intros l2; cbn [lookup_chain h' objs];
    (destruct (decide (l2 = l)) as [->|Hl]; [rewrite lookup_insert_eq, E; cbn [o_props o_proto]|rewrite lookup_insert_ne by done]).
  - apply own_put_or. by right.
  - by right.
  - apply own_put_or. destruct (o_proto o); [apply IH|by right].
  - destruct (objs h !! l2) as [o2|]; [|by right]. destruct (own _ _); [by right|]. destruct (o_proto o2); [apply IH|by right].
Qed.

Lemma inv_put h l o k v : inv h -> objs h !! l = Some o -> owned l -> val_owned h v ->
  inv (Store (<[l := Obj (o_class o) (o_proto o) (put (o_props o) (KStr k) v)]> (objs h)) (next h)).
Proof.
  intros I E Hl Hv. set (h' := Store _ _).
  assert (forall w, is_object h' w = is_object h w) as Hobj.
  { intros w. apply is_object_same. intros l' _. cbn. destruct (decide (l' = l)) as [->|];
      [by rewrite lookup_insert_eq, E|by rewrite lookup_insert_ne]. }
  assert (forall w, val_owned h w -> val_owned h' w) as Hval by (intros w Hw l' Ew Ho; rewrite Hobj in Ho; by apply Hw).
  assert (forall l', reads_owned h l' -> reads_owned h' l') as Hreads.
  { intros l' Hr d k' Hd. apply Hval. destruct (lookup_chain_set h l o k v d l' k' E) as [Eq|Eq]; fold h' in Eq; rewrite Eq; [done|by apply Hr]. }
  assert (forall l' x, objs h' !! l' = Some x -> exists y, objs h !! l' = Some y /\ o_class y = o_class x /\ o_proto y = o_proto x) as Hback.
  { intros l' x E'. cbn in E'. apply lookup_insert_Some in E' as [[<- <-]|[_ E']]; eauto. }
  assert (forall l', is_Some (objs h !! l') -> is_Some (objs h' !! l')) as Hsome.
  { intros l' Hs. cbn. destruct (decide (l' = l)) as [->|]; [rewrite lookup_insert_eq; eauto|by rewrite lookup_insert_ne]. }
  split.
  - intros l' [x E']. apply Hback in E' as (y & E' & _). apply (i_fresh h I). eauto.
  - apply (i_next h I).
  - intros l' x p E' Ep. apply Hback in E' as (y & E' & _ & Eq). apply Hsome. eapply (i_protos h I); [exact E'|congruence].
  - intros l' Hn. cbn. rewrite lookup_insert_ne by (by intros ->). by apply (i_frame h I).
  - intros l' x E'. destruct (i_skeleton h I l' x E') as (y & Ey & H1 & H2). cbn.
    destruct (decide (l' = l)) as [->|]; [rewrite lookup_insert_eq|rewrite lookup_insert_ne by done; eauto].
    eexists. split; [done|]. cbn. rewrite E in Ey. by injection Ey as ->.
  - intros l' Hb. destruct (i_builtin h I l' Hb). auto.
  - intros l' x p E' Hx Hp. apply Hback in E' as (y & E' & Ec & Eq). apply Hreads. eapply (i_specific h I); [exact E'|congruence..].
  - intros l' Ho. by apply Hreads, (i_owned h I).
Qed.

Lemma inv_set l k v h : inv h -> owned l -> val_owned h v -> k <> proto_key \/ v = VUndef ->
  keeps (set_prop l (KStr k) v) h (fun _ => True).
Proof.
  intros I Hl Hv Hk. unfold keeps, wp, set_prop, fetch, bind, gets, lift_try, modify.
  destruct (objs h !! l) as [o|] eqn:E; cbn [of_option fst snd]; [|by split].
  pose proof (inv_put h l o k v I E Hl Hv) as Hi.
  destruct (own (o_props o) (KStr k)); [by split|]. case_bool_decide as Ek; [|by split].
  destruct Hk as [Hk| ->]; [congruence|by split].
Qed.

(** *** The merge *)

Lemma keeps_new_object h : inv h -> keeps new_object h (fun l => next h0 <= l)%N.
Proof. intros I. apply inv_alloc; [done|]. intros p [= <-]. apply (i_builtin h I). by left. Qed.

Lemma keeps_specific v h : inv h -> keeps (cloneSpecificValue v) h (fun w => forall l, w = VRef l -> owned l).
Proof.
  intros I. unfold cloneSpecificValue. apply keeps_gets. unfold id. destruct v as [| | | |l]; try by apply keeps_throw.
  destruct (objs h !! l) as [o|] eqn:E; [|by apply keeps_throw].
  destruct (specific (o_class o)) eqn:Es; [|by apply keeps_throw].
  eapply keeps_bind; [apply inv_alloc; [done|]|].
  - intros p Ep. split; [by eapply (i_protos h I)|by eapply (i_specific h I)].
  - intros l' h' I' Hl'. apply keeps_ret; [done|]. intros l1 [= <-]. by right.
Qed.

Lemma owned_val h v : (forall l, v = VRef l -> owned l) -> val_owned h v.
Proof. intros H l Ev _. by apply H. Qed.

Lemma other_val h v : is_object h v = false -> val_owned h v.
Proof. intros H l -> Ho. congruence. Qed.

(** What both functions keep, with one unit of fuel less *)
Definition clones (fuel : nat) : Prop :=
  (forall l h, inv h -> keeps (deepCloneArray depth fuel l) h (fun c => next h0 <= c)%N) /\
  (forall s sources h, inv h -> (forall l, s = VRef l -> owned l) ->
     keeps (deepExtend depth fuel s sources) h (fun _ => True)).

Lemma keeps_cloned fuel h e (f : loc -> JS unit) : clones fuel -> inv h ->
  (forall c h', inv h' -> (next h0 <= c)%N -> keeps (f c) h' (fun _ => True)) ->
  keeps (let! c := new_object in deepExtend depth fuel (VRef c) [e] ;! f c) h (fun _ => True).
Proof.
  intros [_ Hx] I Hf. eapply keeps_bind; [by apply keeps_new_object|]. intros c h1 I1 Hc.
  eapply keeps_bind; [apply Hx; [done|]|]. { intros l [= <-]. by right. }
  intros _ h2 I2 _. by apply Hf.
Qed.

Lemma keeps_array_element fuel l clone k h : clones fuel -> inv h -> (next h0 <= clone)%N -> index_of k <> None ->
  keeps (let! h := gets id in
        let e := get depth h l k in
        if is_object h e then
          if isArray h e then
            match e with
            | VRef le => let! c := deepCloneArray depth fuel le in set_prop clone (KStr k) (VRef c)
            | _ => ret tt
            end
          else if isSpecificValue h e then let! c := cloneSpecificValue e in set_prop clone (KStr k) c
          else let! c := new_object in deepExtend depth fuel (VRef c) [e] ;! set_prop clone (KStr k) (VRef c)
        else set_prop clone (KStr k) e) h (fun _ => True).
Proof.
  intros Hfuel I Hc Hk. apply keeps_gets. unfold id. set (e := get depth h l k).
  assert (k <> proto_key) as Hp by (intros ->; apply Hk; by vm_compute).
  assert (forall w h', inv h' -> (forall l', w = VRef l' -> owned l') -> keeps (set_prop clone (KStr k) w) h' (fun _ => True)) as Hset.
  { intros w h' I' Hw. apply inv_set; [done|by right|by apply owned_val|by left]. }
  destruct (is_object h e) eqn:Eo; [destruct (isArray h e); [|destruct (isSpecificValue h e)]|].
  - destruct e as [| | | |le]; try by apply keeps_ret. eapply keeps_bind; [by apply Hfuel|].
    intros c h1 I1 Hc1. apply Hset; [done|]. intros l' [= <-]. by right.
  - eapply keeps_bind; [by apply keeps_specific|]. intros w h1 I1 Hw. by apply Hset.
  - apply keeps_cloned; [done..|]. intros c h1 I1 Hc1. apply Hset; [done|]. intros l' [= <-]. by right.
  - apply inv_set; [done|by right|by apply other_val|by left].
Qed.

Lemma keeps_extend_key fuel s u k h : clones fuel -> inv h -> (forall l, s = VRef l -> owned l) ->
  keeps (let! h := gets id in
                let! t := lift_try (safeGetProperty depth h s k) in
                let! e := lift_try (safeGetProperty depth h u k) in
                if bool_decide (e = s) then ret tt
                else if negb (is_object h e) then assign_property s k e
                else if isArray h e then
                  match e with
                  | VRef le => let! c := deepCloneArray depth fuel le in assign_property s k (VRef c)
                  | _ => ret tt
                  end
                else if isSpecificValue h e then let! c := cloneSpecificValue e in assign_property s k c
                else if negb (is_object h t) || isArray h t then
                  let! c := new_object in deepExtend depth fuel (VRef c) [e] ;! assign_property s k (VRef c)
                else deepExtend depth fuel t [e] ;! assign_property s k t) h (fun _ => True).
Proof.
  intros Hfuel I Hs. apply keeps_gets. unfold id. apply keeps_lift; [done|]. intros t Et. apply keeps_lift; [done|]. intros e Ee.
  case_bool_decide; [by apply keeps_ret|].
  assert (k = proto_key -> e = VUndef) as Hk by (intros ->; unfold safeGetProperty in Ee; rewrite bool_decide_true in Ee by done; congruence).
  assert (forall w h', inv h' -> val_owned h' w -> k <> proto_key \/ w = VUndef -> keeps (assign_property s k w) h' (fun _ => True)) as Hset.
  { intros w h' I' Hw Hkw. unfold assign_property. destruct s as [| | | |ls]; try by apply keeps_throw. apply inv_set; auto. }
  destruct (is_object h e) eqn:Eo; cbn [negb]; [|apply Hset; [done|by apply other_val|destruct (decide (k = proto_key)); auto]].
  assert (k <> proto_key) as Hp by (intros ->; rewrite Hk in Eo by done; done).
  assert (forall w h', inv h' -> (forall l', w = VRef l' -> owned l') -> keeps (assign_property s k w) h' (fun _ => True)) as Hset'.
  { intros w h' I' Hw. apply Hset; [done|by apply owned_val|by left]. }
  destruct (isArray h e); [|destruct (isSpecificValue h e); [|destruct (negb (is_object h t) || isArray h t) eqn:Et']].
  - destruct e as [| | | |le]; try by apply keeps_ret. eapply keeps_bind; [by apply Hfuel|].
    intros c h1 I1 Hc1. apply Hset'; [done|]. intros l' [= <-]. by right.
  - eapply keeps_bind; [by apply keeps_specific|]. intros w h1 I1 Hw. by apply Hset'.
  - apply keeps_cloned; [done..|]. intros c h1 I1 Hc1. apply Hset'; [done|]. intros l' [= <-]. by right.
  - apply orb_false_iff in Et' as [Eto _]. apply negb_false_iff in Eto.
    assert (forall l, t = VRef l -> owned l) as Ht.
    { intros l ->. unfold safeGetProperty in Et. rewrite bool_decide_false in Et by done.
      destruct s as [| | | |ls]; try done. injection Et as Eg. eapply (i_owned h I ls (Hs ls eq_refl)); [reflexivity|exact Eg|]. fold (get depth h ls k). by rewrite Eg. }
    eapply keeps_bind; [by apply Hfuel|]. intros _ h1 I1 _. by apply Hset'.
Qed.

Lemma deepExtend_keeps fuel : clones fuel.
Proof.
  induction fuel as [|fuel IH]; split.
  - intros l h I. by apply keeps_throw.
  - intros s sources h I _. by apply keeps_throw.
  - intros l h I. cbn [deepCloneArray]. eapply keeps_bind.
    { apply inv_alloc; [done|]. intros p [= <-]. apply (i_builtin h I). by right. }
    intros clone h1 I1 Hc. apply keeps_gets. set (ks := index_keys _).
    eapply (keeps_bind _ _ _ (fun _ => True)); [|intros _ h2 I2 _; by apply keeps_ret].
    assert (Forall (fun k => index_of k <> None) ks) as Hks.
    { apply Forall_forall. intros k [_ [n ->]]%index_keys_elem. done. }
    clearbody ks. clear I. revert h1 I1. induction Hks as [|k ks Hk Hks IHks]; intros h1 I1; cbn [each]; [by apply keeps_ret|].
    eapply keeps_bind; [by apply keeps_array_element|]. intros _ h2 I2 _. by apply IHks.
  - intros s sources h I Hs. cbn [deepExtend]. apply keeps_each; [|done]. clear h I. intros u h I. apply keeps_gets. unfold id.
    destruct u as [| | | |lu]; try by apply keeps_ret. destruct (_ || _); [by apply keeps_ret|].
    apply keeps_each; [|done]. intros k h1 I1. by apply keeps_extend_key.
Qed.
End Isolation.

(** A store as an engine makes it: no dangling prototype, and the prototypes
    of the builtin classes give no objects but functions, unless they are
    among [W]. *)
Record store_ok (depth : nat) (W : loc -> Prop) (h : Heap) : Prop := {
  so_fresh l : is_Some (objs h !! l) -> (l < next h)%N;
  so_protos l o p : objs h !! l = Some o -> o_proto o = Some p -> is_Some (objs h !! p);
  so_builtin l : l = objectPrototype \/ l = arrayPrototype -> is_Some (objs h !! l) /\ reads_owned depth h W h l;
  so_specific l o p : objs h !! l = Some o -> specific (o_class o) = true -> o_proto o = Some p ->
    reads_owned depth h W h p;
  so_closed l : W l -> reads_owned depth h W h l
}.

Lemma store_inv depth W h : store_ok depth W h -> inv depth h W h.
Proof.
  intros [F P B S C]. split; [exact F|done|exact P|done|eauto|exact B|exact S|].
  intros l [Hl|Hl]; [by apply C|]. intros d k _. rewrite lookup_chain_none; [by intros ? [=]|].
  destruct (objs h !! l) as [o|] eqn:E; [|done]. pose proof (F l ltac:(eauto)). lia.
Qed.

(** C11: merging any sources into an object, cyclic or shared as they may be,
    and however far the merge gets, changes no object but those that can be
    read from the target and new ones: no source, no builtin.  No prototype is
    replaced, not even by a source's own [__proto__] key, and afterwards nothing
    that can be read from the target is an object of the sources. *)
Theorem deep_extend_isolated depth W fuel s sources h : store_ok depth W h -> W s ->
  let h' := fst (deep_extend depth fuel (VRef s :: sources) h) in
  (forall l, ~ W l -> is_Some (objs h !! l) -> objs h' !! l = objs h !! l) /\
  (forall l o, objs h !! l = Some o -> exists o', objs h' !! l = Some o' /\ o_class o' = o_class o /\ o_proto o' = o_proto o) /\
  (forall l k l', owned h W l -> get depth h' l k = VRef l' -> is_object h' (VRef l') = true -> owned h W l').
Proof.
  intros Hok Ws h'. pose proof (store_inv _ _ _ Hok) as I.
  assert (inv depth h W h') as I'.
  { unfold h', deep_extend. assert (keeps depth h W (deep_extend depth fuel (VRef s :: sources)) h (fun _ => True)) as [H _]; [|exact H].
    unfold deep_extend. apply keeps_gets. destruct (negb _ && _); [by apply keeps_ret|]. case_bool_decide; [by apply keeps_ret|].
    eapply (keeps_bind _ _ _ _ _ _ (fun _ => True)); [|intros _ h1 I1 _; by apply keeps_ret].
    apply deepExtend_keeps; [done|]. intros l [= <-]. by left. }
  split; [|split].
  - intros l Hl Hs. apply (i_frame _ _ _ _ I'). intros [?|Hn]; [done|]. apply (so_fresh _ _ _ Hok) in Hs. lia.
  - apply (i_skeleton _ _ _ _ I').
  - intros l k l' Hl Eg Ho. eapply (i_owned _ _ _ _ I' l Hl); [reflexivity|exact Eg|]. fold (get depth h' l k). by rewrite Eg.
Qed.

(** ** A store with a cycle among the sources *)

Lemma own_elem ps k p : own ps k = Some p -> p ∈ ps.
Proof.
  induction ps as [|q ps IH]; [done|]. cbn [own]. case_bool_decide; [intros [= <-]; by left|]. intros H1. right. by apply IH.
Qed.

(** A set of objects that is closed under prototypes, and whose members' own
    values are primitives, functions or owned objects *)
Definition closed_set (h : Heap) (W P : loc -> Prop) : Prop := forall l o, P l -> objs h !! l = Some o ->
  (forall p, p ∈ o_props o -> val_owned h W h (p_value p)) /\ (forall q, o_proto o = Some q -> P q).

Lemma closed_reads depth h W P l : closed_set h W P -> P l -> reads_owned depth h W h l.
Proof.
  intros HP Hl d k _. revert l Hl. induction d as [|d IH]; intros l Hl; cbn [lookup_chain];
    (destruct (objs h !! l) as [o|] eqn:E; [|by intros ? [=]]); destruct (HP l o Hl E) as [Hv Hq];
    (destruct (own (o_props o) (KStr k)) as [p|] eqn:Ep; [by eapply Hv, own_elem|]); [by intros ? [=]|].
  destruct (o_proto o) as [q|]; [|by intros ? [=]]. apply IH. by apply Hq.
Qed.

(** { a: {} } extended with the cyclic { a: { back: the source }, b: "x" } *)
Definition cyclic_store : Heap :=
  Store (list_to_map
    [(0, Obj CObject None []);
     (1, Obj CArray (Some 0) []);
     (2, Obj CObject (Some 0) [Prop_ (KStr (js "a")) (VRef 3) true]);
     (3, Obj CObject (Some 0) []);
     (4, Obj CObject (Some 0) [Prop_ (KStr (js "a")) (VRef 5) true; Prop_ (KStr (js "b")) (VStr (js "x")) true]);
     (5, Obj CObject (Some 0) [Prop_ (KStr (js "back")) (VRef 4) true])]%N) 6%N.

Ltac store_cases E :=
  unfold cyclic_store in E; cbn [objs] in E; apply elem_of_list_to_map_2 in E;
  repeat (apply elem_of_cons in E as [E|E]; [injection E as -> ->|]); [..|by apply elem_of_nil in E].

Lemma cyclic_store_ok depth : store_ok depth (fun l => l = 2 \/ l = 3)%N cyclic_store.
Proof.
  assert (closed_set cyclic_store (fun l => l = 2 \/ l = 3)%N (fun l => l <= 3)%N) as HP.
  { intros l o Hl E. store_cases E; cbn [o_props o_proto]; try (exfalso; cbn in Hl; lia); (split; [|by intros q [= <-]]);
      intros p Hp; [by apply elem_of_nil in Hp..| |by apply elem_of_nil in Hp].
    apply list_elem_of_singleton in Hp as ->. intros l [= <-] _. left. by right. }
  split.
  - intros l [o E]. store_cases E; done.
  - intros l o p E Ep. store_cases E; cbn in Ep; try done; injection Ep as <-; by eexists.
  - intros l [-> | ->]; (split; [by eexists|]); by apply (closed_reads _ _ _ _ _ HP).
  - intros l o p E. store_cases E; done.
  - intros l [-> | ->]; by apply (closed_reads _ _ _ _ _ HP).
Qed.

Lemma deep_extend_isolated_witness : let h' := fst (deep_extend 2 9 [VRef 2; VRef 4] cyclic_store) in
  objs h' !! 4%N = objs cyclic_store !! 4%N /\ objs h' !! 5%N = objs cyclic_store !! 5%N.
Proof.
  destruct (deep_extend_isolated 2 (fun l => l = 2 \/ l = 3)%N 9 2%N [VRef 4] cyclic_store
    (cyclic_store_ok 2) (or_introl eq_refl)) as [H _].
  split; apply H; [lia|by eexists|lia|by eexists].
Defined.
