(* ===== verification/DeepClone.v ===== *)
(** * DeepClone: merging into an empty object is a deep copy *)

From S2P Require Import Prelude JsCore JsHeap ObjectAssign DeepExtend.

(** ** The tree a value stands for *)

(** Leaves are primitives and functions; an object with its own enumerable
    properties is a node, and so are an array with its elements and the
    instances of the builtin classes that are copied as a whole. *)
Inductive tree :=
| TLeaf (v : val)
| TSpecific (c : class)
| TArray (ts : list (jsstr * tree))
| TObject (ts : list (jsstr * tree)).

Fixpoint tdepth (t : tree) : nat :=
  match t with
  | TLeaf _ | TSpecific _ => 0
  | TArray ts | TObject ts => S (foldr (fun (kt : jsstr * tree) n => Nat.max (tdepth kt.2) n) 0 ts)
  end.

Definition leaf_ok (h : Heap) (v : val) : Prop :=
  match v with VRef l => exists o, objs h !! l = Some o /\ o_class o = CFunction | _ => True end.

(** [v] stands for [t] in [h], with all its nodes in [S] *)
Inductive rep (S : loc -> Prop) (h : Heap) : val -> tree -> Prop :=
| rep_leaf v : leaf_ok h v -> rep S h v (TLeaf v)
| rep_specific l o : S l -> objs h !! l = Some o -> specific (o_class o) = true -> rep S h (VRef l) (TSpecific (o_class o))
| rep_array l o ts : S l -> objs h !! l = Some o -> o_class o = CArray ->
    index_keys (o_props o) ≡ₚ ts.*1 -> NoDup ts.*1 ->
    Forall (fun kt : jsstr * tree => exists p, own (o_props o) (KStr kt.1) = Some p /\ rep S h (p_value p) kt.2) ts ->
    rep S h (VRef l) (TArray ts)
| rep_object l o ts : S l -> objs h !! l = Some o -> o_class o = CObject ->
    enum_keys (o_props o) ≡ₚ ts.*1 -> NoDup ts.*1 -> proto_key ∉ ts.*1 ->
    Forall (fun kt : jsstr * tree => exists p, own (o_props o) (KStr kt.1) = Some p /\ rep S h (p_value p) kt.2) ts ->
    rep S h (VRef l) (TObject ts).

Lemma tdepth_child kt ts : kt ∈ ts -> tdepth kt.2 <= foldr (fun (kt : jsstr * tree) n => Nat.max (tdepth kt.2) n) 0 ts.
Proof.
  induction ts as [|kt' ts IH]; [by intros ?%elem_of_nil|]. intros [->|Hin]%elem_of_cons; cbn [foldr]; [lia|].
  specialize (IH Hin). lia.
Qed.

(** A representation survives in a store where its nodes and the functions are
    the same, and may be said to lie in any set its nodes lie in. *)
Lemma rep_change S S' h h' v t : rep S h v t -> (forall l o, S l -> objs h !! l = Some o -> S' l /\ objs h' !! l = Some o) ->
  (forall l o, objs h !! l = Some o -> o_class o = CFunction -> exists o', objs h' !! l = Some o' /\ o_class o' = CFunction) ->
  rep S' h' v t.
Proof.
  intros H HS HF. remember (tdepth t) as n eqn:En. assert (tdepth t <= n) as Hn by lia. clear En.
  revert v t H Hn. induction n as [|n IH]; intros v t H Hn; destruct H as [v Hv|l o Hl E Hc|l o ts Hl E Hc Hk Hnd Hall|l o ts Hl E Hc Hk Hnd Hp Hall].
  1,5: constructor; destruct v; try done; destruct Hv as (o & E & Ho); by eapply HF.
  1,4: destruct (HS _ _ Hl E); by constructor.
  1,2: cbn in Hn; lia.
  - destruct (HS _ _ Hl E). eapply rep_array; try done. cbn in Hn.
    apply Forall_forall. intros kt Hkt. rewrite Forall_forall in Hall. destruct (Hall kt Hkt) as (p & Ep & Hr).
    exists p. split; [done|]. apply IH; [done|]. pose proof (tdepth_child kt ts Hkt). lia.
  - destruct (HS _ _ Hl E). eapply rep_object; try done. cbn in Hn.
    apply Forall_forall. intros kt Hkt. rewrite Forall_forall in Hall. destruct (Hall kt Hkt) as (p & Ep & Hr).
    exists p. split; [done|]. apply IH; [done|]. pose proof (tdepth_child kt ts Hkt). lia.
Qed.

Section Clone.
Context (depth : nat).

(** A store whose builtin prototypes hold functions and primitives only *)
Record plain_store (h : Heap) : Prop := {
  ps_fresh l : is_Some (objs h !! l) -> (l < next h)%N;
  ps_object : exists o, objs h !! objectPrototype = Some o /\ o_proto o = None /\
    forall k p, own (o_props o) (KStr k) = Some p -> leaf_ok h (p_value p)
}.

(** [h'] has the objects of [h] as they were, but for [c] *)
Record grows (c : loc -> Prop) (h h' : Heap) : Prop := {
  g_same l o : ~ c l -> objs h !! l = Some o -> objs h' !! l = Some o;
  g_next : (next h <= next h')%N
}.

Lemma leaf_change h h' v : (forall l o, objs h !! l = Some o -> o_class o = CFunction -> objs h' !! l = Some o) ->
  leaf_ok h v -> leaf_ok h' v.
Proof. intros H. destruct v; try done. intros (o & E & Ho). exists o. split; [by apply H|done]. Qed.

Lemma leaf_no_object h v : leaf_ok h v -> is_object h v = false.
Proof. destruct v; try done. intros (o & E & Ho). unfold is_object. by rewrite E, Ho. Qed.

Lemma rep_is_object S h v t : rep S h v t -> is_object h v = match t with TLeaf _ => false | _ => true end.
Proof.
  intros H. destruct H as [v Hv|l o Hl E Hc|l o ts Hl E Hc|l o ts Hl E Hc]; [by apply leaf_no_object|..];
    unfold is_object; rewrite E; destruct (o_class o); done.
Qed.

Lemma rep_isArray S h v t : rep S h v t -> isArray h v = match t with TArray _ => true | _ => false end.
Proof.
  intros H. unfold isArray, class_of. destruct H as [v Hv|l o Hl E Hc|l o ts Hl E Hc|l o ts Hl E Hc]; try rewrite E; cbn.
  - destruct v; try done. destruct Hv as (o & -> & Ho). cbn. by rewrite Ho.
  - by destruct (o_class o).
  - by rewrite Hc.
  - by rewrite Hc.
Qed.

Lemma rep_isSpecific S h v t : rep S h v t -> isSpecificValue h v = match t with TSpecific _ => true | _ => false end.
Proof.
  intros H. unfold isSpecificValue, class_of. destruct H as [v Hv|l o Hl E Hc|l o ts Hl E Hc|l o ts Hl E Hc]; try rewrite E; cbn.
  - destruct v; try done. destruct Hv as (o & -> & Ho). cbn. by rewrite Ho.
  - done.
  - by rewrite Hc.
  - by rewrite Hc.
Qed.

Lemma get_own h l o k p : objs h !! l = Some o -> own (o_props o) (KStr k) = Some p -> get depth h l k = p_value p.
Proof. intros E Ep. unfold get. destruct depth; cbn; by rewrite E, Ep. Qed.

(** ** Copying a value *)

(** What both functions do with an element or a property they copy *)
Definition cloneValue (fuel : nat) (e : val) : JS val :=
  let! h := gets id in
  if is_object h e then
    if isArray h e then
      match e with VRef le => let! c := deepCloneArray depth fuel le in ret (VRef c) | _ => ret VUndef end
    else if isSpecificValue h e then cloneSpecificValue e
    else let! c := new_object in deepExtend depth fuel (VRef c) [e] ;! ret (VRef c)
  else ret e.

Definition cloned (g g' : Heap) (v : val) (t : tree) : Prop :=
  grows (fun _ => False) g g' /\ plain_store g' /\ rep (fun l => next g <= l)%N g' v t.

(** Both functions copy, with fuel for the depth of what they copy. *)
Definition copies_ok (fuel : nat) : Prop :=
  (forall g l ts, plain_store g -> rep (fun _ => True) g (VRef l) (TArray ts) -> tdepth (TArray ts) <= fuel ->
     exists g' c, deepCloneArray depth fuel l g = (g', Success c) /\ cloned g g' (VRef c) (TArray ts)) /\
  (forall g c l ts, plain_store g -> objs g !! c = Some (Obj CObject (Some objectPrototype) []) ->
     rep (fun x => x <> c) g (VRef l) (TObject ts) -> tdepth (TObject ts) <= fuel ->
     exists g', deepExtend depth fuel (VRef c) [VRef l] g = (g', Success tt) /\ grows (fun x => x = c) g g' /\
       plain_store g' /\ rep (fun x => x = c \/ (next g <= x)%N) g' (VRef c) (TObject ts)).

Lemma grows_refl c g : grows c g g.
Proof. by split. Qed.

Lemma grows_trans c1 c2 (c : loc -> Prop) g1 g2 g3 : grows c1 g1 g2 -> grows c2 g2 g3 ->
  (forall l o, objs g1 !! l = Some o -> ~ c l -> ~ c1 l /\ ~ c2 l) -> grows c g1 g3.
Proof.
  intros [A1 A2] [B1 B2] Hc. split; [|lia]. intros l o Hl E. destruct (Hc _ _ E Hl). auto.
Qed.

Lemma plain_grows (c : loc -> Prop) g g' : plain_store g -> grows c g g' ->
  (forall l o, c l -> objs g !! l = Some o -> l <> objectPrototype /\ o_class o <> CFunction) ->
  (forall l, is_Some (objs g' !! l) -> (l < next g')%N) -> (forall l, ~ c l \/ c l) -> plain_store g'.
Proof.
  intros [F (o & E & Ep & Hv)] [G1 G2] Hc F' Hdec. split; [done|]. exists o.
  assert (forall l x, objs g !! l = Some x -> o_class x = CFunction -> objs g' !! l = Some x) as Hf.
  { intros l x Ex Hx. destruct (Hdec l) as [Hl|Hl]; [by apply G1|]. by destruct (Hc _ _ Hl Ex). }
  split_and!; [|done|].
  - destruct (Hdec objectPrototype) as [Hl|Hl]; [by apply G1|]. by destruct (Hc _ _ Hl E).
  - intros k p Hp. eapply leaf_change; [apply Hf|eauto].
Qed.

Lemma alloc_plain c po g : plain_store g ->
  let g' := Store (<[next g := Obj c po []]> (objs g)) (next g + 1)%N in
  alloc (Obj c po []) g = (g', Success (next g)) /\ objs g' !! next g = Some (Obj c po []) /\
  grows (fun _ => False) g g' /\ plain_store g' /\ objs g !! next g = None.
Proof.
  intros Hp g'. assert (objs g !! next g = None) as Hn.
  { destruct (objs g !! next g) as [o|] eqn:E; [|done]. pose proof (ps_fresh g Hp (next g) ltac:(eauto)). lia. }
  assert (grows (fun _ => False) g g') as G.
  { split; [|cbn; lia]. intros l o _ E. cbn. rewrite lookup_insert_ne; [done|]. intros <-. congruence. }
  split_and!; [done|cbn; by rewrite lookup_insert_eq|done| |done].
  apply (plain_grows _ g g' Hp G); [done| |tauto].
  intros l [x E]. cbn in *. apply lookup_insert_Some in E as [[<- _]|[_ E]]; [lia|].
  pose proof (ps_fresh g Hp l ltac:(eauto)). lia.
Qed.

Lemma rep_grows S S' c g g' v t : rep S g v t -> grows c g g' -> (forall l, S l -> ~ c l /\ S' l) ->
  (forall l o, objs g !! l = Some o -> o_class o = CFunction -> ~ c l) -> rep S' g' v t.
Proof.
  intros H [G _] HS Hf. eapply rep_change; [exact H| |].
  - intros l o Hl E. destruct (HS l Hl). auto.
  - intros l o E Ho. exists o. split; [|done]. apply G; [by eapply Hf|done].
Qed.

Lemma rep_exists S S' g v t : rep S g v t -> (forall l, S l -> is_Some (objs g !! l) -> S' l) -> rep S' g v t.
Proof. intros H HS. eapply rep_change; [exact H| |eauto]. intros l o Hl E. split; [|done]. eauto. Qed.

Lemma cloneValue_ok fuel S g e t : copies_ok fuel -> plain_store g -> rep S g e t -> tdepth t <= fuel ->
  exists g' v, cloneValue fuel e g = (g', Success v) /\ cloned g g' v t.
Proof.
  intros [CA CO] Hp Hr Ht. unfold cloneValue. rewrite (bind_run _ _ g g g) by done.
  rewrite (rep_is_object _ _ _ _ Hr), (rep_isArray _ _ _ _ Hr), (rep_isSpecific _ _ _ _ Hr).
  destruct t as [v|c|ts|ts]; cbn iota.
  - exists g, e. split; [done|]. split; [apply grows_refl|]. split; [done|]. inversion Hr; subst. by constructor.
  - inversion Hr as [|l o Hl E Hc| |]; subst.
    destruct (alloc_plain (o_class o) (o_proto o) g Hp) as (Ea & En & G & Hp' & _).
    eexists _, (VRef (next g)). split; [|split; [exact G|split; [exact Hp'|]]].
    + unfold cloneSpecificValue. rewrite (bind_run _ _ g g g) by done. cbn [id]. rewrite E, Hc, (bind_run _ _ _ _ _ Ea). reflexivity.
    + exact (rep_specific _ _ (next g) _ (N.le_refl _) En Hc).
  - inversion Hr as [| |l o ts' Hl E Hc|]; subst.
    destruct (CA g l ts Hp) as (g' & c & Ec & Hcl); [by eapply rep_exists|done|].
    exists g', (VRef c). by rewrite (bind_run _ _ _ _ _ Ec).
  - inversion Hr as [| | |l o ts' Hl E Hc]; subst.
    destruct (alloc_plain CObject (Some objectPrototype) g Hp) as (Ea & En & G & Hp' & Hfresh).
    set (g1 := Store _ _) in *.
    destruct (CO g1 (next g) l ts Hp' En) as (g2 & E2 & G2 & Hp2 & Hr2); [|done|].
    { eapply rep_grows; [eapply (rep_exists _ (fun x => x <> next g)); [exact Hr|]|exact G| |intros ? ? _ _ []].
      - intros x _ [y Ey] ->. congruence.
      - intros x Hx. split; [intros []|done]. }
    exists g2, (VRef (next g)). split; [|split; [|split; [done|]]].
    + unfold new_object. rewrite (bind_run _ _ _ _ _ Ea), (bind_run _ _ _ _ _ E2). done.
    + eapply grows_trans; [exact G|exact G2|]. intros x y Ex _. split; [tauto|]. intros ->. congruence.
    + eapply rep_exists; [exact Hr2|]. intros x [->|Hx] _; [lia|]. cbn in Hx. lia.
Qed.

(** ** Copying the entries of an object into a new one *)

Lemma put_new ps k v : own ps k = None -> put ps k v = ps ++ [Prop_ k v true].
Proof.
  induction ps as [|p ps IH]; cbn [own put]; [done|]. case_bool_decide; [done|]. intros Ho. by rewrite IH.
Qed.

Lemma own_app ps qs k : own (ps ++ qs) k = match own ps k with Some p => Some p | None => own qs k end.
Proof. induction ps as [|p ps IH]; [done|]. cbn. by case_bool_decide. Qed.

Definition entry (k : jsstr) (v : val) : property := Prop_ (KStr k) v true.

Lemma set_new c k v g cc po qs : plain_store g -> objs g !! c = Some (Obj cc po qs) -> own qs (KStr k) = None ->
  k <> proto_key -> cc <> CFunction -> c <> objectPrototype -> exists g',
  set_prop c (KStr k) v g = (g', Success tt) /\ grows (fun x => x = c) g g' /\ plain_store g' /\ next g' = next g /\
  objs g' !! c = Some (Obj cc po (qs ++ [entry k v])).
Proof.
  intros Hp E Eo Hk Hcc Hc. set (g' := Store (<[c := Obj cc po (qs ++ [entry k v])]> (objs g)) (next g)).
  assert (grows (fun x => x = c) g g') as G.
  { split; [|done]. intros l o Hl Eq. cbn. by rewrite lookup_insert_ne. }
  exists g'. split_and!; [|done| |done|cbn; by rewrite lookup_insert_eq].
  - unfold set_prop, fetch, bind, gets, lift_try, modify. rewrite E. cbn [of_option o_props o_class o_proto].
    rewrite Eo, bool_decide_false by congruence. by rewrite put_new.
  - apply (plain_grows _ g g' Hp G).
    + intros l o -> Eq. rewrite E in Eq. injection Eq as <-. done.
    + intros l [x Ex]. cbn in *. apply lookup_insert_Some in Ex as [[<- _]|[_ Ex]]; apply (ps_fresh g Hp); eauto.
    + intros l. destruct (decide (l = c)); tauto.
Qed.

Section Loop.
Context (fuel : nat) (c : loc) (cc : class) (po : option loc) (l : loc) (body : jsstr -> JS unit).
Context (Hfuel : copies_ok fuel) (Hcc : cc <> CFunction) (Hc : c <> objectPrototype).
Context (Hbody : forall k g e t qs o p, plain_store g -> objs g !! c = Some (Obj cc po qs) -> own qs (KStr k) = None ->
  k <> proto_key -> rep (fun x => x <> c) g e t -> objs g !! l = Some o -> own (o_props o) (KStr k) = Some p -> p_value p = e ->
  body k g = bind (cloneValue fuel e) (set_prop c (KStr k)) g).

Lemma loop_ok : forall kts g qs o, plain_store g -> objs g !! c = Some (Obj cc po qs) -> l <> c -> objs g !! l = Some o ->
  NoDup kts.*1 -> (forall k, k ∈ kts.*1 -> k <> proto_key /\ own qs (KStr k) = None) ->
  Forall (fun kt : jsstr * tree => tdepth kt.2 <= fuel /\ exists p, own (o_props o) (KStr kt.1) = Some p /\
    rep (fun x => x <> c) g (p_value p) kt.2) kts ->
  exists g' vs, each body kts.*1 g = (g', Success tt) /\ grows (fun x => x = c) g g' /\ plain_store g' /\
    objs g' !! c = Some (Obj cc po (qs ++ zip_with entry kts.*1 vs)) /\
    Forall2 (fun kt v => rep (fun x => x <> c /\ (next g <= x)%N) g' v kt.2) kts vs.
Proof.
  induction kts as [|[k t] kts IH]; intros g qs o Hp E Hl El Hnd Hk Hall.
  - exists g, []. split_and!; [done|apply grows_refl|done|by rewrite app_nil_r|constructor].
  - rewrite fmap_cons in *. cbn [fst] in *. apply NoDup_cons in Hnd as [Hkn Hnd].
    apply Forall_cons in Hall as [[Ht (p & Eo & Hr)] Hall]. cbn [fst snd] in *.
    destruct (Hk k) as [Hkp Hkq]; [set_solver|].
    destruct (cloneValue_ok fuel _ g (p_value p) t Hfuel Hp Hr Ht) as (g1 & v & E1 & G1 & Hp1 & Hr1).
    assert (objs g1 !! c = Some (Obj cc po qs)) as Ec1 by (apply (g_same _ _ _ G1); [tauto|done]).
    destruct (set_new c k v g1 cc po qs Hp1 Ec1 Hkq Hkp Hcc Hc) as (g2 & E2 & G2 & Hp2 & N2 & Ec2).
    assert (grows (fun x => x = c) g g2) as G by (eapply grows_trans; [exact G1|exact G2|tauto]).
    pose proof (ps_fresh g Hp c ltac:(eauto)) as Hcn.
    assert (forall x y, objs g1 !! x = Some y -> o_class y = CFunction -> x <> c) as Hfun.
    { intros x y Ex Hy ->. rewrite Ec1 in Ex. injection Ex as <-. done. }
    destruct (IH g2 (qs ++ [entry k v]) o) as (g3 & vs & E3 & G3 & Hp3 & Ec3 & Hvs); [done..| | | | |].
    + by apply (g_same _ _ _ G).
    + done.
    + intros k' Hk'. destruct (Hk k') as [? Hq]; [set_solver|]. split; [done|]. rewrite own_app, Hq. cbn.
      rewrite bool_decide_false; [done|]. intros [= ->]. done.
    + eapply Forall_impl; [exact Hall|]. intros [k' t'] [Ht' (p' & Eo' & Hr')]. split; [done|]. exists p'. split; [done|].
      eapply rep_grows; [eapply rep_grows; [exact Hr'|exact G1| |]|exact G2| |exact Hfun].
      * intros x Hx. split; [tauto|exact Hx].
      * intros ? ? _ _ [].
      * intros x Hx. by split.
    + exists g3, (v :: vs). split_and!.
      * cbn [each]. assert (body k g = (g2, Success tt)) as Eb.
        { rewrite (Hbody k g _ t qs o p Hp E Hkq Hkp Hr El Eo eq_refl). by rewrite (bind_run _ _ _ _ _ E1). }
        by rewrite (bind_run _ _ _ _ _ Eb).
      * eapply grows_trans; [exact G|exact G3|]. tauto.
      * done.
      * cbn [zip_with]. by rewrite Ec3, <- app_assoc.
      * constructor.
        -- cbn [snd]. assert (grows (fun x => x = c) g1 g3) as G13 by (eapply grows_trans; [exact G2|exact G3|tauto]).
           eapply rep_grows; [exact Hr1|exact G13| |exact Hfun]. intros x Hx. cbn in Hx. assert (x <> c) by lia. tauto.
        -- eapply Forall2_impl; [exact Hvs|]. intros kt w Hw. eapply rep_exists; [exact Hw|].
           intros x [Hx Hn] _. split; [done|]. pose proof (g_next _ _ _ G). lia.
Qed.
End Loop.

(** ** Keys of the new object *)

Lemma string_keys_entries ks vs : length ks = length vs -> string_keys (zip_with entry ks vs) = ks.
Proof. revert vs. induction ks as [|k ks IH]; intros [|v vs] H; try done. cbn. f_equal. apply IH. by injection H. Qed.

Lemma own_entries ks vs k v : NoDup ks -> (k, v) ∈ zip ks vs -> own (zip_with entry ks vs) (KStr k) = Some (entry k v).
Proof.
  revert vs. induction ks as [|k' ks IH]; intros [|v' vs] Hnd Hin; try by apply elem_of_nil in Hin.
  apply NoDup_cons in Hnd as [Hn Hnd]. cbn in Hin |- *. apply elem_of_cons in Hin as [[= -> ->]|Hin].
  - by rewrite bool_decide_true.
  - rewrite bool_decide_false; [by apply IH|]. intros [= ->]. apply Hn. by eapply elem_of_zip_l.
Qed.

Lemma entries_children (kts : list (jsstr * tree)) vs (R : val -> tree -> Prop) : NoDup kts.*1 ->
  Forall2 (fun kt v => R v kt.2) kts vs ->
  Forall (fun kt : jsstr * tree => exists p, own (zip_with entry kts.*1 vs) (KStr kt.1) = Some p /\ R (p_value p) kt.2) kts.
Proof.
  intros Hnd Hvs. apply Forall_forall. intros [k t] Hin. apply list_elem_of_lookup in Hin as [i Hi].
  destruct (Forall2_lookup_l _ _ _ _ _ Hvs Hi) as (v & Hv & Hr). exists (entry k v). split; [|done].
  apply own_entries; [done|]. apply list_elem_of_lookup. exists i. rewrite lookup_zip_with, list_lookup_fmap, Hi, Hv. done.
Qed.

(** ** Both functions copy *)

Lemma bind_cloned {A B C} (m : JS A) (f : A -> B) (k : B -> JS C) g :
  bind (bind m (fun a => ret (f a))) k g = bind m (fun a => k (f a)) g.
Proof. unfold bind. by destruct (m g) as [g' [a|e]]. Qed.

Lemma bind_new {A C} (f : val -> JS A) (m : loc -> JS C) g :
  bind (let! c := new_object in m c ;! ret (VRef c)) f g = (let! c := new_object in m c ;! f (VRef c)) g.
Proof. unfold bind. destruct (new_object g) as [g' [c|e]]; [|done]. by destruct (m c g') as [? [?|?]]. Qed.

Lemma cloneValue_bind {A} fuel S g e t (f : val -> JS A) : rep S g e t ->
  bind (cloneValue fuel e) f g =
  match t, e with
  | TLeaf _, _ => f e g
  | TArray _, VRef le => (let! c := deepCloneArray depth fuel le in f (VRef c)) g
  | TArray _, _ => f VUndef g
  | TSpecific _, _ => (let! c := cloneSpecificValue e in f c) g
  | TObject _, _ => (let! c := new_object in deepExtend depth fuel (VRef c) [e] ;! f (VRef c)) g
  end.
Proof.
  intros Hr. transitivity (bind (if is_object g e then
    if isArray g e then
      match e with VRef le => let! c := deepCloneArray depth fuel le in ret (VRef c) | _ => ret VUndef end
    else if isSpecificValue g e then cloneSpecificValue e
    else let! c := new_object in deepExtend depth fuel (VRef c) [e] ;! ret (VRef c)
  else ret e) f g); [done|].
  rewrite (rep_is_object _ _ _ _ Hr), (rep_isArray _ _ _ _ Hr), (rep_isSpecific _ _ _ _ Hr).
  destruct t; cbn iota; [done|done| |apply bind_new]. destruct e; try done. apply bind_cloned.
Qed.

Lemma reorder (ts : list (jsstr * tree)) ks : ks ≡ₚ ts.*1 -> exists kts, kts.*1 = ks /\ kts ≡ₚ ts.
Proof. intros H. destruct (Permutation_map_inv fst ts H) as (kts & -> & Hp). by exists kts. Qed.

Lemma children_ready S S' fuel g g' o ts :
  Forall (fun kt : jsstr * tree => exists p, own (o_props o) (KStr kt.1) = Some p /\ rep S g (p_value p) kt.2) ts ->
  foldr (fun (kt : jsstr * tree) n => Nat.max (tdepth kt.2) n) 0 ts <= fuel ->
  (forall v t, rep S g v t -> rep S' g' v t) ->
  Forall (fun kt : jsstr * tree => tdepth kt.2 <= fuel /\ exists p, own (o_props o) (KStr kt.1) = Some p /\
    rep S' g' (p_value p) kt.2) ts.
Proof.
  intros Hall Hd Hr. apply Forall_forall. intros kt Hin. rewrite Forall_forall in Hall.
  destruct (Hall kt Hin) as (p & Ep & Hp). split; [pose proof (tdepth_child kt ts Hin); lia|]. eauto.
Qed.

Lemma rep_fresh (S : loc -> Prop) c g g' v t : rep S g v t -> grows (fun _ => False) g g' -> objs g !! c = None -> rep (fun x => x <> c) g' v t.
Proof.
  intros H G Hc. eapply (rep_grows (fun x => x <> c)); [eapply rep_exists; [exact H|]|exact G|tauto|tauto].
  intros x _ [y Ey] ->. congruence.
Qed.

Lemma array_body fuel cl l k g S e t o p : rep S g e t -> objs g !! l = Some o ->
  own (o_props o) (KStr k) = Some p -> p_value p = e ->
  (fun k =>
        let! h := gets id in
        let e := get depth h l k in
        if is_object h e then
          if isArray h e then
            match e with
            | VRef le => let! c := deepCloneArray depth fuel le in set_prop cl (KStr k) (VRef c)
            | _ => ret tt
            end
          else if isSpecificValue h e then let! c := cloneSpecificValue e in set_prop cl (KStr k) c
          else let! c := new_object in deepExtend depth fuel (VRef c) [e] ;! set_prop cl (KStr k) (VRef c)
        else set_prop cl (KStr k) e) k g = bind (cloneValue fuel e) (set_prop cl (KStr k)) g.
Proof.
  intros Hr El Ep Ee. rewrite (cloneValue_bind _ _ _ _ _ _ Hr), (bind_run _ _ _ g g) by done. cbn zeta. unfold id.
  rewrite (get_own _ _ _ _ _ El Ep), Ee, (rep_is_object _ _ _ _ Hr), (rep_isArray _ _ _ _ Hr), (rep_isSpecific _ _ _ _ Hr).
  destruct t; try done. by inversion Hr.
Qed.

Lemma copies_array fuel g l ts : copies_ok fuel -> plain_store g -> rep (fun _ => True) g (VRef l) (TArray ts) ->
  tdepth (TArray ts) <= S fuel ->
  exists g' c, deepCloneArray depth (S fuel) l g = (g', Success c) /\ cloned g g' (VRef c) (TArray ts).
Proof.
  intros Hfuel Hp Hr Ht. inversion Hr as [| |l' o ts' _ El Hcl Hks Hnd Hall|]; subst.
  destruct (alloc_plain CArray (Some arrayPrototype) g Hp) as (Ea & En & G & Hp1 & Hfresh). set (g1 := Store _ _) in *.
  destruct (reorder ts _ Hks) as (kts & Ek & Hperm).
  assert (objs g1 !! l = Some o) as El1 by (apply (g_same _ _ _ G); [tauto|done]).
  assert (NoDup kts.*1) as Hndk by (by rewrite Hperm).
  assert (Forall (fun s => index_of s <> None) kts.*1) as Hidx.
  { apply Forall_forall. rewrite Ek. by intros k [_ [n ->]]%index_keys_elem. }
  edestruct (loop_ok fuel (next g) CArray (Some arrayPrototype) l) with (kts := kts) (g := g1) (qs := @nil property) (o := o)
    as (g2 & vs & E2 & G2 & Hp2 & Ec & Hvs); try done.
  { intros Eo. pose proof (ps_object g Hp) as (x & Ex & _). rewrite <- Eo in Ex. congruence. }
  { intros k g0 e t qs o' p _ _ _ _ Hr0 El0 Ep He. exact (array_body fuel (next g) l k g0 _ e t o' p Hr0 El0 Ep He). }
  { intros ->. congruence. }
  { intros k Hk. split; [|done]. intros ->. rewrite Forall_forall in Hidx. apply (Hidx _ Hk). by vm_compute. }
  { rewrite Hperm. eapply children_ready; [exact Hall|cbn [tdepth] in Ht; lia|]. intros v t H. by eapply rep_fresh. }
  exists g2, (next g). split.
  - cbn [deepCloneArray]. rewrite (bind_run _ _ _ _ _ Ea). cbn beta. rewrite (bind_run _ _ _ g1 (index_keys (own_props g1 l))) by done. unfold own_props. rewrite El1, <- Ek.
    by rewrite (bind_run _ _ _ _ _ E2).
  - split; [eapply grows_trans; [exact G|exact G2|]|split; [exact Hp2|]].
    { intros x y Ex _. split; [tauto|]. intros ->. congruence. }
    cbn [app] in Ec. pose proof (Forall2_length _ _ _ Hvs) as Hlen.
    eapply rep_array; [lia|exact Ec|done| |by rewrite <- Hperm|].
    + cbn [o_props]. rewrite index_keys_perm, string_keys_entries by (by rewrite length_fmap).
      rewrite <- Hperm. by rewrite filter_all.
    + rewrite <- Hperm. eapply entries_children; [done|]. eapply Forall2_impl; [exact Hvs|]. intros kt v H.
      eapply rep_exists; [exact H|]. intros x [_ Hx] _. cbn in Hx. lia.
Qed.

(** The new object gives no object for a key it does not have. *)
Lemma new_reads_no_object g c qs k : plain_store g -> objs g !! c = Some (Obj CObject (Some objectPrototype) qs) ->
  own qs (KStr k) = None -> is_object g (get depth g c k) = false.
Proof.
  intros Hp Ec Hq. apply leaf_no_object. unfold get. destruct depth as [|d]; cbn [lookup_chain]; rewrite Ec; cbn [o_props o_proto]; rewrite Hq; [done|].
  destruct (ps_object g Hp) as (o & E & Epo & Hv). destruct d as [|d]; cbn [lookup_chain]; rewrite E;
    (destruct (own (o_props o) (KStr k)) as [p|] eqn:Ep; [by eapply Hv|]); [done|]. by rewrite Epo.
Qed.

Lemma object_body fuel c l k g e t qs o p : plain_store g -> objs g !! c = Some (Obj CObject (Some objectPrototype) qs) ->
  own qs (KStr k) = None -> k <> proto_key -> rep (fun x => x <> c) g e t -> objs g !! l = Some o ->
  own (o_props o) (KStr k) = Some p -> p_value p = e ->
  (fun k =>
                let! h := gets id in
                let! t := lift_try (safeGetProperty depth h (VRef c) k) in
                let! e := lift_try (safeGetProperty depth h (VRef l) k) in
                if bool_decide (e = VRef c) then ret tt
                else if negb (is_object h e) then assign_property (VRef c) k e
                else if isArray h e then
                  match e with
                  | VRef le => let! c' := deepCloneArray depth fuel le in assign_property (VRef c) k (VRef c')
                  | _ => ret tt
                  end
                else if isSpecificValue h e then let! c' := cloneSpecificValue e in assign_property (VRef c) k c'
                else if negb (is_object h t) || isArray h t then
                  let! c' := new_object in deepExtend depth fuel (VRef c') [e] ;! assign_property (VRef c) k (VRef c')
                else deepExtend depth fuel t [e] ;! assign_property (VRef c) k t) k g =
  bind (cloneValue fuel e) (set_prop c (KStr k)) g.
Proof.
  intros Hp Ec Hq Hk Hr El Ep Ee. rewrite (cloneValue_bind _ _ _ _ _ _ Hr), (bind_run _ _ _ g g) by done.
  unfold safeGetProperty, id. rewrite !bool_decide_false by done.
  rewrite (bind_run _ _ g g (get depth g c k)), (bind_run _ _ g g (get depth g l k)) by done.
  rewrite (get_own _ _ _ _ _ El Ep), Ee, (new_reads_no_object g c qs k Hp Ec Hq).
  rewrite (rep_is_object _ _ _ _ Hr), (rep_isArray _ _ _ _ Hr), (rep_isSpecific _ _ _ _ Hr).
  rewrite bool_decide_false; [destruct t; try done; by inversion Hr|].
  intros ->. inversion Hr as [? Hv|l' o' Hl'|l' o' ts' Hl'|l' o' ts' Hl']; try by apply Hl'.
  destruct Hv as (o' & E' & Ho'). rewrite Ec in E'. by injection E' as <-.
Qed.

Lemma copies_object fuel g c l ts : copies_ok fuel -> plain_store g -> objs g !! c = Some (Obj CObject (Some objectPrototype) []) ->
  rep (fun x => x <> c) g (VRef l) (TObject ts) -> tdepth (TObject ts) <= S fuel ->
  exists g', deepExtend depth (S fuel) (VRef c) [VRef l] g = (g', Success tt) /\ grows (fun x => x = c) g g' /\
       plain_store g' /\ rep (fun x => x = c \/ (next g <= x)%N) g' (VRef c) (TObject ts).
Proof.
  intros Hfuel Hp Ec Hr Ht. inversion Hr as [| | |l' o ts' Hlc El Hcl Hks Hnd Hpk Hall]; subst.
  destruct (reorder ts _ Hks) as (kts & Ek & Hperm).
  assert (NoDup kts.*1) as Hndk by (by rewrite Hperm).
  edestruct (loop_ok fuel c CObject (Some objectPrototype) l) with (kts := kts) (g := g) (qs := @nil property) (o := o)
    as (g2 & vs & E2 & G2 & Hp2 & Ec2 & Hvs); try done.
  { intros Eo. pose proof (ps_object g Hp) as (x & Ex & Epo & _). rewrite <- Eo, Ec in Ex. by injection Ex as <-. }
  { intros k g0 e t qs o' p Hp0 Ec0 Hq Hk Hr0 El0 Ep He.
    exact (object_body fuel c l k g0 e t qs o' p Hp0 Ec0 Hq Hk Hr0 El0 Ep He). }
  { intros k Hk. split; [|done]. intros ->. apply Hpk. by rewrite <- Hperm. }
  { rewrite Hperm. eapply children_ready; [exact Hall|cbn [tdepth] in Ht; lia|done]. }
  exists g2. split; [|split_and!; [exact G2|exact Hp2|]].
  - cbn [deepExtend each]. rewrite (bind_run _ _ g g2 tt); [done|]. rewrite (bind_run _ _ g g g) by done.
    rewrite (rep_is_object _ _ _ _ Hr), (rep_isArray _ _ _ _ Hr). cbn [negb orb]. unfold id, own_props. rewrite El, <- Ek. exact E2.
  - cbn [app] in Ec2. pose proof (Forall2_length _ _ _ Hvs) as Hlen.
    eapply rep_object; [by left|exact Ec2|done| |by rewrite <- Hperm|done|].
    + cbn [o_props]. rewrite enum_keys_perm, string_keys_entries by (by rewrite length_fmap). by rewrite Hperm.
    + rewrite <- Hperm. eapply entries_children; [done|]. eapply Forall2_impl; [exact Hvs|]. intros kt v H.
      eapply rep_exists; [exact H|]. intros x [_ Hx] _. by right.
Qed.

Lemma all_copies fuel : copies_ok fuel.
Proof.
  induction fuel as [|fuel IH]; (split; [intros g l ts Hp Hr Ht|intros g c l ts Hp Ec Hr Ht]); try (cbn in Ht; lia).
  - by apply copies_array.
  - by apply copies_object.
Qed.
End Clone.

(** C5: extending a new empty object with an object that stands for a tree
    (its nodes may be shared inside the source) succeeds, with as much fuel as
    the tree is deep, and makes the target stand for the same tree with nodes
    of its own: new ones, and every object there was before stays as it was. *)
Theorem deep_clone depth fuel h c l ts : plain_store h -> objs h !! c = Some (Obj CObject (Some objectPrototype) []) ->
  rep (fun x => x <> c) h (VRef l) (TObject ts) -> tdepth (TObject ts) <= fuel ->
  exists h', deep_extend depth fuel [VRef c; VRef l] h = (h', Success (VRef c)) /\
    rep (fun x => x = c \/ (next h <= x)%N) h' (VRef c) (TObject ts) /\
    (forall x o, x <> c -> objs h !! x = Some o -> objs h' !! x = Some o) /\
    rep (fun x => x <> c /\ is_Some (objs h !! x)) h' (VRef l) (TObject ts).
Proof.
  intros Hp Ec Hr Ht. destruct (all_copies depth fuel) as [_ H]. destruct (H h c l ts Hp Ec Hr Ht) as (h' & E & G & Hp' & Hr').
  exists h'. split_and!; [|exact Hr'|apply (g_same _ _ _ G)|].
  - unfold deep_extend. rewrite (bind_run _ _ h h h) by done. unfold is_object, id. rewrite Ec. cbn [o_class].
    rewrite bool_decide_false by done. cbn [negb andb]. rewrite bool_decide_false by done. by rewrite (bind_run _ _ _ _ _ E).
  - eapply rep_grows; [eapply (rep_exists _ (fun x => x <> c /\ is_Some (objs h !! x))); [exact Hr|intros ? ? ?; by split]|exact G| |].
    + intros x [? ?]. by split; [|split].
    + intros x o Ex Ho ->. rewrite Ec in Ex. by injection Ex as <-.
Qed.


(** { a: [1, date], b: { c: the date } } into {}, the date being shared *)
Definition clone_store : Heap :=
  Store (list_to_map
    [(0, Obj CObject None []);
     (1, Obj CArray (Some 0) []);
     (2, Obj CObject (Some 0) []);
     (3, Obj CObject (Some 0) [entry (js "a") (VRef 4); entry (js "b") (VRef 6)]);
     (4, Obj CArray (Some 1) [entry (js "0") (VPrim 1); entry (js "1") (VRef 5)]);
     (5, Obj (CDate 7) (Some 0) []);
     (6, Obj CObject (Some 0) [entry (js "c") (VRef 5)])]%N) 7%N.

Definition clone_tree : list (jsstr * tree) :=
  [(js "a", TArray [(js "0", TLeaf (VPrim 1)); (js "1", TSpecific (CDate 7))]);
   (js "b", TObject [(js "c", TSpecific (CDate 7))])].

Lemma clone_store_plain : plain_store clone_store.
Proof.
  split.
  - intros l [o E]. unfold clone_store in *. cbn [objs next] in *. apply elem_of_list_to_map_2 in E.
    repeat (apply elem_of_cons in E as [[= -> _]|E]; [done|]). by apply elem_of_nil in E.
  - eexists. split; [reflexivity|]. by split.
Qed.

Ltac rep_tac :=
  repeat first
    [ progress cbn [fst snd o_props p_value fmap list_fmap]
    | apply List.Forall_nil
    | apply List.Forall_cons
    | eexists; split; [reflexivity|]
    | eapply rep_array; [done|reflexivity|reflexivity|vm_compute; reflexivity|by apply (bool_decide_unpack _)| ]
    | eapply rep_object; [done|reflexivity|reflexivity|vm_compute; reflexivity|by apply (bool_decide_unpack _)|by apply (bool_decide_unpack _)| ]
    | apply (rep_specific _ clone_store 5%N (Obj (CDate 7) (Some 0%N) [])); [done|reflexivity|reflexivity]
    | apply rep_leaf; done ].

Lemma clone_store_rep : rep (fun x => x <> 2%N) clone_store (VRef 3) (TObject clone_tree).
Proof. unfold clone_tree. rep_tac. Qed.

Lemma deep_clone_witness : exists h', deep_extend 2 2 [VRef 2; VRef 3] clone_store = (h', Success (VRef 2)) /\
  rep (fun x => x = 2%N \/ (7 <= x)%N) h' (VRef 2) (TObject clone_tree).
Proof.
  destruct (deep_clone 2 2 clone_store 2 3 clone_tree clone_store_plain eq_refl clone_store_rep
    ltac:(apply Nat.leb_le; reflexivity)) as (h' & E & Hr & _).
  exists h'. split; [exact E|exact Hr].
Defined.
