(* ===== verification/ClassNames.v ===== *)
(** * ClassNames: the module classnames of the Swagger UI bundle

    src/main/resources/swagger-ui/swagger-ui-bundle.js, lines 7-17: the space
    separated list of class names that the arguments ask for. *)

From S2P Require Import Prelude JsCore JsHeap.

(** ** The module *)

(** An argument, as far as the module tells arguments apart.  A number is given
    by its decimal representation; [AOther] is any other truthy value: true, a
    symbol, a function. *)
Inductive arg :=
| AFalsy
| AString (s : jsstr)           (* not empty *)
| ANumber (s : jsstr)           (* neither 0 nor NaN *)
| AArray (l : list arg)
| AObject (ps : list property)  (* the own properties *)
| AOther.

(** Whether a property value is true in a condition; [VPrim 0] is false *)
Definition truthy (v : val) : bool :=
  match v with
  | VUndef | VNull => false
  | VStr s => negb (bool_decide (s = []))
  | VPrim n => negb (n =? 0)%N
  | VRef _ => true
  end.

Definition value_of (ps : list property) (k : jsstr) : val :=
  match own ps (KStr k) with Some p => p_value p | None => VUndef end.

Definition blank : jsstr := js " ".

(** What the loop of [o] pushes for one argument: the result of [o] itself for
    an array, the keys with truthy values for an object *)
Fixpoint push_arg (r : arg) : list jsstr :=
  match r with
  | AFalsy | AOther => []
  | AString s | ANumber s => [s]
  | AArray l => [join blank (flat_map push_arg l)]
  | AObject ps => filter (fun a => truthy (value_of ps a) = true) (enum_keys ps)
  end.

(** [o], the exported function *)
Definition classNames (args : list arg) : jsstr := join blank (flat_map push_arg args).

(** ** What it means *)

(** The class names asked for, with arrays spliced in *)
Fixpoint asked (r : arg) : list jsstr :=
  match r with
  | AArray l => flat_map asked l
  | AObject ps => filter (fun a => truthy (value_of ps a) = true) (enum_keys ps)
  | AString s | ANumber s => [s]
  | AFalsy | AOther => []
  end.

(** The class names in an attribute value: its parts between ASCII whitespace *)
Definition is_gap (c : N) : bool := bool_decide (c ∈ [9; 10; 12; 13; 32]%N).

Definition flush (w : jsstr) : list jsstr := match w with [] => [] | _ => [w] end.

Fixpoint words_from (w s : jsstr) : list jsstr :=
  match s with
  | [] => flush w
  | c :: s' => if is_gap c then flush w ++ words_from [] s' else words_from (w ++ [c]) s'
  end.

Definition class_words (s : jsstr) : list jsstr := words_from [] s.

(** No array is nested that asks for nothing. *)
Fixpoint tight (r : arg) : bool :=
  match r with
  | AArray l => negb (bool_decide (flat_map asked l = [])) && forallb tight l
  | _ => true
  end.

(** ** Lemmas *)

Lemma words_from_gap w a b : words_from w (a ++ blank ++ b) = words_from w a ++ class_words b.
Proof.
  revert w. induction a as [|c a IH]; intros w; [done|]. cbn [app words_from].
  destruct (is_gap c); [by rewrite IH, app_assoc|apply IH].
Qed.

(** Joining keeps the words of the parts. *)
Lemma words_join l : class_words (join blank l) = flat_map class_words l.
Proof.
  induction l as [|s [|t l] IH]; [done|cbn; by rewrite app_nil_r|].
  change (join blank (s :: t :: l)) with (s ++ blank ++ join blank (t :: l)).
  unfold class_words at 1. rewrite words_from_gap, IH. done.
Qed.

Lemma flat_map_flat_map {A B C} (f : B -> list C) (g : A -> list B) l : flat_map f (flat_map g l) = flat_map (fun x => flat_map f (g x)) l.
Proof. induction l as [|x l IH]; [done|]. cbn. by rewrite flat_map_app, IH. Qed.

Section ArgInd.
Context (P : arg -> Prop).
Context (HF : P AFalsy) (HS : forall s, P (AString s)) (HN : forall s, P (ANumber s)).
Context (HA : forall l, Forall P l -> P (AArray l)) (HO : forall ps, P (AObject ps)) (Ht : P AOther).

Fixpoint arg_nested_ind (r : arg) : P r :=
  match r with
  | AFalsy => HF
  | AString s => HS s
  | ANumber s => HN s
  | AArray l => HA l ((fix go l : Forall P l := match l with [] => List.Forall_nil P | a :: l' => @List.Forall_cons _ P a l' (arg_nested_ind a) (go l') end) l)
  | AObject ps => HO ps
  | AOther => Ht
  end.
End ArgInd.

Lemma words_push r : flat_map class_words (push_arg r) = flat_map class_words (asked r).
Proof.
  induction r as [| | |l IH| |] using arg_nested_ind; try done. cbn [push_arg asked flat_map].
  rewrite app_nil_r, words_join, !flat_map_flat_map. by apply flat_map_Forall.
Qed.

(** Joining parts, each the join of some words, is joining the words. *)
Lemma join_app a b : a <> [] -> b <> [] -> join blank (a ++ b) = join blank a ++ blank ++ join blank b.
Proof.
  intros Ha Hb. induction a as [|s a IH]; [done|]. destruct a as [|t a].
  - destruct b; [done|reflexivity].
  - cbn [app]. change (join blank (s :: t :: a ++ b)) with (s ++ blank ++ join blank ((t :: a) ++ b)).
    rewrite IH by done. change (join blank (s :: t :: a)) with (s ++ blank ++ join blank (t :: a)). by rewrite <- !app_assoc.
Qed.

Lemma join_parts {A} (f g : A -> list jsstr) l :
  Forall (fun x => f x = g x \/ (g x <> [] /\ f x = [join blank (g x)])) l ->
  join blank (flat_map f l) = join blank (flat_map g l) /\ (flat_map f l = [] <-> flat_map g l = []).
Proof.
  induction 1 as [|x l Hx _ [IH1 IH2]]; [done|]. cbn [flat_map].
  assert ((f x = [] <-> g x = []) /\ join blank (f x) = join blank (g x)) as [Hn Hj].
  { destruct Hx as [->|[Hg ->]]; [done|]. split; [|done]. split; [done|]. by intros. }
  split; [|rewrite !app_nil; tauto].
  destruct (decide (f x = [])) as [E|E]; [by rewrite E, (proj1 Hn E)|].
  destruct (decide (flat_map f l = [])) as [E'|E']; [by rewrite E', (proj1 IH2 E'), !app_nil_r|].
  rewrite !join_app by tauto. by rewrite Hj, IH1.
Qed.

Lemma push_tight r : tight r = true -> push_arg r = asked r \/ (asked r <> [] /\ push_arg r = [join blank (asked r)]).
Proof.
  induction r as [| | |l IH| |] using arg_nested_ind; try (by left). cbn [tight push_arg asked].
  intros [Hn Hl]%andb_prop. right. split; [by apply negb_true_iff, bool_decide_eq_false in Hn|]. f_equal.
  apply join_parts. rewrite Forall_forall in IH |- *. intros x Hx. apply IH; [done|].
  eapply forallb_forall; [exact Hl|]. by apply list_elem_of_In.
Qed.

(** The class names in the result are those in the strings, numbers and
    true keys of the arguments, in their order and with arrays spliced in.  When no
    nested array asks for nothing, the result is their list with exactly one
    blank between them. *)
Theorem class_names args : class_words (classNames args) = flat_map class_words (flat_map asked args) /\
  (forallb tight args = true -> classNames args = join blank (flat_map asked args)).
Proof.
  unfold classNames. split.
  - rewrite words_join, !flat_map_flat_map. apply flat_map_Forall, Forall_forall. intros r _. apply words_push.
  - intros Ht. apply join_parts, Forall_forall. intros r Hr. apply push_tight.
    eapply forallb_forall; [exact Ht|]. by apply list_elem_of_In.
Qed.

(** A nested array that asks for nothing leaves its blank, and a nested array
    is read like its elements. *)
Lemma class_names_witness :
  classNames [AString (js "a"); AArray []; AArray [AObject [Prop_ (KStr (js "b")) (VPrim 1) true; Prop_ (KStr (js "c")) VNull true]; AFalsy]]
    = js "a  b" /\
  classNames [AString (js "a"); AArray [AString (js "b"); ANumber (js "7")]] = join blank [js "a"; js "b"; js "7"].
Proof.
  split; [by vm_compute|]. apply (proj2 (class_names [AString (js "a"); AArray [AString (js "b"); ANumber (js "7")]])). by vm_compute.
Defined.
