(* ===== verification/SmallModules.v ===== *)
(** * SmallModules: the modules react-is and isEventSupported of the bundle

    src/main/resources/swagger-ui/swagger-ui-bundle.js, lines 72-79: what kind
    of React element a value is.  A value is what the module tells apart; an
    object is known by its members $$typeof and type, read as plain properties. *)

From S2P Require Import Prelude JsCore.

(** The kinds of React, by their names in the registry of symbols *)
Inductive Kind :=
| Element | Portal | Fragment | StrictMode | Profiler | ContextProvider | ContextConsumer | AsyncMode
| ConcurrentMode | ForwardRef | Suspense | Memo | Lazy.

#[export] Instance Kind_eq_dec : EqDecision Kind.
Proof. solve_decision. Defined.

Inductive value :=
| Undefined | Null | Bool (b : bool) | Num (z : Z) | Str (s : jsstr) | Fun (id : N)
| Sym (key : Kind)                          (* Symbol.for of the name of a kind *)
| OtherSym (id : N)
| Object (id : N) (typeof type : value).

#[export] Instance value_eq_dec : EqDecision value.
Proof. solve_decision. Defined.

(** Where there are no symbols the kinds are numbers, two of them the same. *)
Definition number_of (k : Kind) : Z :=
  match k with
  | Element => 60103 | Portal => 60106 | Fragment => 60107 | StrictMode => 60108 | ContextProvider => 60109
  | ContextConsumer => 60110 | AsyncMode => 60111 | ConcurrentMode => 60111 | ForwardRef => 60112 | Suspense => 60113
  | Profiler => 60114 | Memo => 60115 | Lazy => 60116
  end.

Section Module.
Context (symbols : bool).                   (* typeof Symbol is function, and there is Symbol.for *)

(** o, i, a, ...: the exported constants *)
Definition constant (k : Kind) : value := if symbols then Sym k else Num (number_of k).
Definition is_mark (v : value) (k : Kind) : bool := bool_decide (v = constant k).
Definition one_of (v : value) (ks : list Kind) : bool := existsb (is_mark v) ks.

(** e.$$typeof and e.type: those of the model's objects; a function has others,
    which React does not set *)
Definition typeof_member (v : value) : value := match v with Object _ t _ => t | _ => Undefined end.

(** g: typeOf *)
Definition typeOf (e : value) : value :=
  match e with
  | Object _ t type =>
      if is_mark t Element then
        if one_of type [AsyncMode; ConcurrentMode; Fragment; Profiler; StrictMode; Suspense] then type else
        let e := typeof_member type in                  (* e && e.$$typeof *)
        if one_of e [ContextConsumer; ForwardRef; ContextProvider] then e else t
      else if one_of t [Lazy; Memo; Portal] then t else Undefined
  | _ => Undefined
  end.

Definition isConcurrentMode (e : value) : bool := is_mark (typeOf e) ConcurrentMode.
Definition isAsyncMode (e : value) : bool := isConcurrentMode e || is_mark (typeOf e) AsyncMode.
Definition isElement (e : value) : bool := match e with Object _ t _ => is_mark t Element | _ => false end.

(** The predicates of the other kinds compare typeOf. *)
Definition isKind (k : Kind) (e : value) : bool :=
  match k with
  | AsyncMode => isAsyncMode e
  | Element => isElement e
  | _ => is_mark (typeOf e) k
  end.

Definition isValidElementType (e : value) : bool :=
  match e with
  | Str _ | Fun _ => true
  | _ =>
      one_of e [Fragment; ConcurrentMode; Profiler; StrictMode; Suspense] ||
      match e with Object _ t _ => one_of t [Lazy; Memo; ContextProvider; ContextConsumer; ForwardRef] | _ => false end
  end.
End Module.

(** ** What the module decides *)

(** The kinds an element is told to be *)
Definition element_kinds : list Kind :=
  [AsyncMode; ConcurrentMode; Fragment; Profiler; StrictMode; Suspense; ContextConsumer; ForwardRef; ContextProvider].

Lemma is_spec symbols v k : is_mark symbols v k = true <-> v = constant symbols k.
Proof. apply bool_decide_eq_true. Qed.
Lemma one_of_spec symbols v ks : one_of symbols v ks = true <-> exists k, k ∈ ks /\ v = constant symbols k.
Proof.
  unfold one_of. rewrite existsb_exists. split; intros (k & Hk & E); exists k; (split; [|by apply is_spec]); by apply list_elem_of_In.
Qed.
Lemma constant_inj k k' : constant true k = constant true k' -> k = k'.
Proof. by intros [= ->]. Qed.
Lemma constant_defined symbols k : Undefined <> constant symbols k.
Proof. by destruct symbols. Qed.

(** typeOf, by cases *)
Lemma typeOf_cases symbols e : typeOf symbols e = Undefined \/
  (exists i t type, e = Object i t type /\ t = constant symbols Element /\
    (typeOf symbols e = t \/ (typeOf symbols e = type /\ one_of symbols type [AsyncMode; ConcurrentMode; Fragment; Profiler; StrictMode; Suspense] = true) \/
     (typeOf symbols e = typeof_member type /\ one_of symbols (typeof_member type) [ContextConsumer; ForwardRef; ContextProvider] = true))) \/
  (exists i t type, e = Object i t type /\ typeOf symbols e = t /\ one_of symbols t [Lazy; Memo; Portal] = true).
Proof.
  destruct e as [| | | | | | | |i t type]; try by left. cbn [typeOf].
  destruct (is_mark symbols t Element) eqn:E1.
  - right; left. apply is_spec in E1. exists i, t, type. split_and!; [done..|].
    destruct (one_of symbols type _) eqn:E2; [by right; left|]. destruct (one_of symbols (typeof_member type) _) eqn:E3; [by right; right|by left].
  - destruct (one_of symbols t _) eqn:E2; [right; right; by exists i, t, type|by left].
Qed.

Lemma one_of_constant ks k : one_of true (constant true k) ks = true -> k ∈ ks.
Proof. intros (k' & Hk & E%constant_inj)%one_of_spec. by subst. Qed.

(** What typeOf says of an element, and of what is not one *)
Lemma typeOf_element i t type k : t = constant true Element -> typeOf true (Object i t type) = constant true k -> k = Element \/ k ∈ element_kinds.
Proof.
  intros Ht E. destruct (typeOf_cases true (Object i t type)) as [H|[(? & ? & ? & [= <- <- <-] & _ & [H|[[H Hk]|[H Hk]]])|(? & ? & ? & [= <- <- <-] & H & Hk)]]; rewrite E in H.
  - by destruct (constant_defined true k).
  - left. apply constant_inj. congruence.
  - right. rewrite <- H in Hk. apply one_of_constant in Hk. unfold element_kinds. set_solver.
  - right. rewrite <- H in Hk. apply one_of_constant in Hk. unfold element_kinds. set_solver.
  - left. apply constant_inj. congruence.
Qed.

Lemma isKind_typeOf k e : isKind true k e = true ->
  (k = Element /\ exists i t type, e = Object i t type /\ t = constant true Element) \/
  typeOf true e = constant true k \/ (k = AsyncMode /\ typeOf true e = constant true ConcurrentMode).
Proof.
  destruct k; cbn [isKind]; intros H; try (right; left; by apply is_spec in H).
  - left. split; [done|]. destruct e as [| | | | | | | |i t type]; try done. apply is_spec in H. by exists i, t, type.
  - unfold isAsyncMode, isConcurrentMode in H. apply orb_true_iff in H as [H%is_spec|H%is_spec]; auto.
Qed.

(** Where there are symbols a value is of one kind at most, elements being told
    apart further, async mode including concurrent mode; and an element of any
    kind but AsyncMode was made of a type isValidElementType takes. *)
Theorem kinds_exclusive e :
  (forall k k', isKind true k e = true -> isKind true k' e = true ->
     k = k' \/ (k = Element /\ k' ∈ element_kinds) \/ (k' = Element /\ k ∈ element_kinds) \/
     (k = AsyncMode /\ k' = ConcurrentMode) \/ (k = ConcurrentMode /\ k' = AsyncMode)) /\
  (forall i t type k, e = Object i t type -> k ∈ element_kinds -> typeOf true e = constant true k -> k <> AsyncMode ->
     isValidElementType true type = true).
Proof.
  split.
  - intros k k' Hk Hk'.
    assert (forall k k', isKind true k' e = true -> (k = Element /\ exists i t type, e = Object i t type /\ t = constant true Element) ->
      k = k' \/ (k = Element /\ k' ∈ element_kinds)) as Helem.
    { clear. intros k k' [[-> _]|[E|[-> E]]]%isKind_typeOf [-> (i & t & type & -> & Ht)]; [by left| |right; split; [done|by left]].
      destruct (typeOf_element i t type k' Ht E) as [-> |]; auto. }
    destruct (isKind_typeOf k e Hk) as [H|H].
    { destruct (Helem k k' Hk' H); auto. }
    destruct (isKind_typeOf k' e Hk') as [H'|H'].
    { destruct (Helem k' k Hk H') as [-> |[-> ?]]; auto. }
    destruct H as [H|[-> H]], H' as [H'|[-> H']]; rewrite H in H'; apply constant_inj in H'; subst; tauto.
  - intros i t type k -> Hk E Ha. unfold typeOf in E. destruct (is_mark true t Element) eqn:Ht.
    + apply is_spec in Ht as ->. destruct (one_of true type _) eqn:E1.
      { subst type. apply one_of_constant in E1. cbn. destruct k; try done; set_solver. }
      destruct (one_of true (typeof_member type) _) eqn:E2.
      { destruct type as [| | | | | | | |j u type]; cbn [typeof_member] in *; try done. subst u. apply one_of_constant in E2. destruct k; try done; set_solver. }
      apply constant_inj in E. subst k. unfold element_kinds in Hk. set_solver.
    + destruct (one_of true t _) eqn:E1; [|by destruct (constant_defined true k)]. subst t. apply one_of_constant in E1. unfold element_kinds in Hk. set_solver.
Qed.

(** ** isEventSupported

    src/main/resources/swagger-ui/swagger-ui-bundle.js, lines 51-65.  The
    document of the browser is a record of what the module asks it; [canUseDOM]
    is another module's.  Event handler attributes are compiled by an element
    that is made for the purpose and dropped. *)

Record Document := {
  canUseDOM : bool;
  has_addEventListener : bool;                        (* "addEventListener" in document *)
  has_member : jsstr -> bool;                         (* n in document *)
  compiles_handler : jsstr -> bool;                   (* typeof div[n] is function once n is set to return; *)
  hasFeature : option (jsstr -> jsstr -> bool)        (* document.implementation.hasFeature *)
}.

Section Module.
Context (document : Document).

(** r, set when the module is loaded: hasFeature is there and tells features apart *)
Definition useHasFeature : bool :=
  canUseDOM document && match hasFeature document with Some f => negb (f [] []) | None => false end.

(** isEventSupported *)
Definition isEventSupported (e : jsstr) (capture : bool) : bool :=
  if negb (canUseDOM document) || (capture && negb (has_addEventListener document)) then false else
  let n := js "on" ++ e in
  let i := has_member document n in
  let i := if i then i else compiles_handler document n in
  if negb i && useHasFeature && bool_decide (e = js "wheel")
  then match hasFeature document with Some f => f (js "Events.wheel") (js "3.0") | None => i end
  else i.
End Module.

(** An event is supported only in a browser, and in the capture phase only where
    it is in the other; without hasFeature no event but those with a handler is. *)
Lemma event_supported_phase d e : isEventSupported d e true = has_addEventListener d && isEventSupported d e false.
Proof. unfold isEventSupported. destruct (canUseDOM d), (has_addEventListener d); done. Qed.
Lemma event_needs_handler d e c : isEventSupported d e c = true ->
  canUseDOM d = true /\ (has_member d (js "on" ++ e) = true \/ compiles_handler d (js "on" ++ e) = true \/
    e = js "wheel" /\ exists f, hasFeature d = Some f /\ f (js "Events.wheel") (js "3.0") = true /\ f [] [] = false).
Proof.
  unfold isEventSupported, useHasFeature. destruct (canUseDOM d); [|done]. cbn [negb orb andb].
  destruct (c && _); [done|]. destruct (has_member d _); [auto|]. destruct (compiles_handler d _); [auto|]. cbn [negb andb].
  destruct (hasFeature d) as [f|]; [|done]. destruct (f [] []) eqn:E; [done|]. cbn [negb andb]. case_bool_decide; [|done]. eauto 10.
Qed.
