(* ===== verification/JsonTree.v ===== *)
(** * JsonTree: JSON documents as the bundled modules see them

    The values JSON.parse gives, as trees: no value is part of another one
    twice.  The fields of an object are listed in the order they were made; a
    loop over its keys meets the array indices first.  Numbers matter only by
    their equality and by being zero, and are integers here.  The end of the file
    is the module deep-equal on such trees. *)

From stdpp Require Import sorting.
From S2P Require Import Prelude JsCore JsHeap.

Inductive json :=
| JNull
| JBool (b : bool)
| JNum (n : Z)
| JStr (s : jsstr)
| JArr (l : list json)
| JObj (fs : list (jsstr * json)).

Section JsonInd.
Context (P : json -> Prop).
Context (Hnull : P JNull) (Hbool : forall b, P (JBool b)) (Hnum : forall n, P (JNum n)) (Hstr : forall s, P (JStr s)).
Context (Harr : forall l, Forall P l -> P (JArr l)) (Hobj : forall fs, Forall (fun kv : jsstr * json => P kv.2) fs -> P (JObj fs)).

Fixpoint json_nested_ind (v : json) : P v :=
  match v with
  | JNull => Hnull
  | JBool b => Hbool b
  | JNum n => Hnum n
  | JStr s => Hstr s
  | JArr l => Harr l ((fix go l : Forall P l :=
      match l with [] => List.Forall_nil P | x :: l' => @List.Forall_cons _ P x l' (json_nested_ind x) (go l') end) l)
  | JObj fs => Hobj fs ((fix go fs : Forall (fun kv : jsstr * json => P kv.2) fs :=
      match fs with
      | [] => List.Forall_nil _
      | (k, x) :: fs' => @List.Forall_cons _ (fun kv : jsstr * json => P kv.2) (k, x) fs' (json_nested_ind x) (go fs')
      end) fs)
  end.
End JsonInd.

(** typeof v == "object" && v != null *)
Definition is_container (v : json) : bool := match v with JArr _ | JObj _ => true | _ => false end.
Definition is_array (v : json) : bool := match v with JArr _ => true | _ => false end.

Definition is_null (v : json) : bool := match v with JNull => true | _ => false end.

(** Strict equality of two values of which one is no container; two containers
    of a tree are never the same one. *)
Definition same_primitive (v w : json) : bool :=
  match v, w with
  | JNull, JNull => true
  | JBool a, JBool b => Bool.eqb a b
  | JNum a, JNum b => (a =? b)%Z
  | JStr a, JStr b => bool_decide (a = b)
  | _, _ => false
  end.

Fixpoint depth (v : json) : nat :=
  match v with
  | JArr l => S (foldr (fun x n => Nat.max (depth x) n) 0 l)
  | JObj fs => S (foldr (fun (kv : jsstr * json) n => Nat.max (depth kv.2) n) 0 fs)
  | _ => 0
  end.

(** ** Fields *)

Abbreviation fields := (list (jsstr * json)).

Fixpoint get_field (fs : fields) (k : jsstr) : option json :=
  match fs with
  | [] => None
  | (k', v) :: fs' => if bool_decide (k' = k) then Some v else get_field fs' k
  end.

Fixpoint put_field (fs : fields) (k : jsstr) (v : json) : fields :=
  match fs with
  | [] => [(k, v)]
  | (k', w) :: fs' => if bool_decide (k' = k) then (k, v) :: fs' else (k', w) :: put_field fs' k v
  end.

Definition del_field (fs : fields) (k : jsstr) : fields := filter (fun kv : jsstr * json => kv.1 <> k) fs.

(** The keys in the order of a loop *)
Definition field_keys (fs : fields) : list jsstr :=
  enum_keys ((fun kv : jsstr * json => Prop_ (KStr kv.1) VUndef true) <$> fs).

(** ** Array indices as strings *)

Fixpoint digits_go (fuel : nat) (n : N) (acc : jsstr) : jsstr :=
  match fuel with
  | O => acc
  | S fuel' => let acc' := (48 + n mod 10)%N :: acc in
               if (n / 10 =? 0)%N then acc' else digits_go fuel' (n / 10)%N acc'
  end.

(** "" + n *)
Definition index_str (n : nat) : jsstr := digits_go (S n) (N.of_nat n) [].

Definition all_digits (s : jsstr) : bool := forallb (fun c => (48 <=? c)%N && (c <=? 57)%N) s.

(** ** Own members *)

(** The member [k] of a value itself: an element or the length of an array or
    a string, or a field *)
Definition own_value (v : json) (k : jsstr) : option json :=
  match v with
  | JObj fs => get_field fs k
  | JArr l => match index_of k with
              | Some i => l !! N.to_nat i
              | None => if bool_decide (k = js "length") then Some (JNum (zlen l)) else None
              end
  | JStr s => match index_of k with
              | Some i => (fun c => JStr [c]) <$> s !! N.to_nat i
              | None => if bool_decide (k = js "length") then Some (JNum (js_length s)) else None
              end
  | _ => None
  end.

(** Object.keys *)
Definition object_keys (v : json) : list jsstr :=
  match v with
  | JObj fs => field_keys fs
  | JArr l => index_str <$> seq 0 (length l)
  | JStr s => index_str <$> seq 0 (length s)
  | _ => []
  end.

(** ** Well-formed documents, with arrays of less than 2^31 elements and without
    fields [__proto__], and equality up to the order of fields *)

Inductive wf : json -> Prop :=
| wf_null : wf JNull
| wf_bool b : wf (JBool b)
| wf_num n : wf (JNum n)
| wf_str s : wf (JStr s)
| wf_arr l : (zlen l < 2 ^ 31)%Z -> Forall wf l -> wf (JArr l)
| wf_obj fs : NoDup fs.*1 -> proto_key ∉ fs.*1 -> Forall (fun kv : jsstr * json => wf kv.2) fs -> wf (JObj fs).

Inductive same : json -> json -> Prop :=
| same_null : same JNull JNull
| same_bool b : same (JBool b) (JBool b)
| same_num n : same (JNum n) (JNum n)
| same_str s : same (JStr s) (JStr s)
| same_arr l1 l2 : Forall2 same l1 l2 -> same (JArr l1) (JArr l2)
| same_obj fs1 fs2 : (forall k, option_Forall2 same (get_field fs1 k) (get_field fs2 k)) -> same (JObj fs1) (JObj fs2).

(** ** Laws of fields *)

Lemma get_put fs k v k' : get_field (put_field fs k v) k' = if decide (k = k') then Some v else get_field fs k'.
Proof.
  induction fs as [|[k1 w] fs IH]; cbn [put_field get_field].
  - by destruct (decide (k = k')) as [->|H]; [rewrite bool_decide_true|rewrite bool_decide_false].
  - destruct (bool_decide_reflect (k1 = k)) as [->|H1]; cbn [get_field].
    + destruct (decide (k = k')) as [->|H]; [by rewrite bool_decide_true|by rewrite !bool_decide_false].
    + rewrite IH. destruct (bool_decide_reflect (k1 = k')) as [->|H2]; [by rewrite decide_False|done].
Qed.

Lemma get_del fs k k' : get_field (del_field fs k) k' = if decide (k = k') then None else get_field fs k'.
Proof.
  unfold del_field. induction fs as [|[k1 w] fs IH]; [by destruct (decide _)|]. rewrite filter_cons. cbn [fst get_field].
  destruct (decide (k1 <> k)) as [H|H].
  - cbn [get_field]. rewrite IH. destruct (bool_decide_reflect (k1 = k')) as [->|]; [by rewrite decide_False|done].
  - assert (k1 = k) as -> by (by destruct (decide (k1 = k))). rewrite IH.
    destruct (decide (k = k')) as [->|]; [done|by rewrite bool_decide_false].
Qed.

Lemma get_field_in fs k v : get_field fs k = Some v -> (k, v) ∈ fs.
Proof.
  induction fs as [|[k1 w] fs IH]; [done|]. cbn. case_bool_decide as E; [intros [= ->]; subst; by left|]. intros H. right. by apply IH.
Qed.

Lemma get_field_some fs k : is_Some (get_field fs k) <-> k ∈ fs.*1.
Proof.
  induction fs as [|[k1 w] fs IH]; cbn; [split; [by intros [? [=]]|by intros ?%elem_of_nil]|]. rewrite elem_of_cons.
  case_bool_decide as E; [split; eauto|]. rewrite IH. split; [auto|by intros [->|]].
Qed.

Lemma get_field_none fs k : get_field fs k = None <-> k ∉ fs.*1.
Proof. rewrite <- get_field_some. destruct (get_field fs k); split; try done. intros H. destruct H. eauto. Qed.

Lemma put_field_keys fs k v : (put_field fs k v).*1 = if decide (k ∈ fs.*1) then fs.*1 else fs.*1 ++ [k].
Proof.
  induction fs as [|[k1 w] fs IH]; [done|]. cbn [put_field].
  destruct (bool_decide_reflect (k1 = k)) as [->|H]; rewrite !fmap_cons; cbn [fst].
  - rewrite decide_True; [done|by left].
  - rewrite IH. destruct (decide (k ∈ fs.*1)); [by rewrite decide_True by (by right)|].
    rewrite decide_False; [done|]. by intros [?|?]%elem_of_cons.
Qed.

Lemma put_put fs k v w : put_field (put_field fs k v) k w = put_field fs k w.
Proof.
  induction fs as [|[k1 x] fs IH]; cbn [put_field]; [by rewrite bool_decide_true|].
  destruct (bool_decide_reflect (k1 = k)) as [->|H]; cbn [put_field]; [by rewrite bool_decide_true|].
  by rewrite bool_decide_false, IH.
Qed.

Lemma field_keys_perm fs : field_keys fs ≡ₚ fs.*1.
Proof.
  unfold field_keys. rewrite enum_keys_perm. unfold string_keys. by induction fs as [|[k v] fs IH]; [|cbn; rewrite IH].
Qed.

(** ** Laws of indices *)

Definition digit_step (acc : option N) (c : N) : option N :=
  match acc with
  | Some n => if (48 <=? c)%N && (c <=? 57)%N then Some (10 * n + (c - 48))%N else None
  | None => None
  end.

Lemma digit_step_mod n m : digit_step (Some n) (48 + m mod 10)%N = Some (10 * n + m mod 10)%N.
Proof.
  pose proof (N.mod_lt m 10 ltac:(lia)). unfold digit_step. revert H. generalize (m mod 10)%N as r. intros r H.
  destruct (N.leb_spec 48 (48 + r)), (N.leb_spec (48 + r) 57); try lia. cbn [andb]. f_equal. lia.
Qed.

(** The last digit and the rest of a number *)
Lemma digit_split n : exists q r, (n / 10 = q /\ n mod 10 = r /\ n = 10 * q + r /\ r < 10)%N.
Proof.
  exists (n / 10)%N, (n mod 10)%N. split_and!; [done|done|apply N.div_mod; lia|apply N.mod_lt; lia].
Qed.

Lemma digits_go_value fuel n acc : (n < N.of_nat fuel)%N -> foldl digit_step (Some 0%N) (digits_go fuel n acc) = foldl digit_step (Some n) acc.
Proof.
  revert n acc. induction fuel as [|fuel IH]; intros n acc H; [lia|]. cbn [digits_go].
  pose proof (fun m => digit_step_mod m n) as Hd. destruct (digit_split n) as (q & r & Eq & Er & Hn & Hr). rewrite Eq, Er in *.
  destruct (N.eqb_spec q 0) as [E|E].
  - cbn [foldl]. rewrite Hd. f_equal. f_equal. lia.
  - rewrite IH by lia. cbn [foldl]. rewrite Hd. f_equal. f_equal. lia.
Qed.

Lemma digits_go_shape fuel n acc : (n < N.of_nat fuel)%N -> exists c ds, digits_go fuel n acc = c :: ds ++ acc /\
  Forall (fun c => 48 <= c <= 57)%N (c :: ds) /\ (c = 48%N -> ds = [] /\ n = 0%N).
Proof.
  revert n acc. induction fuel as [|fuel IH]; intros n acc H; [lia|]. cbn [digits_go].
  destruct (digit_split n) as (q & r & -> & -> & Hn & Hr). destruct (N.eqb_spec q 0) as [E|E].
  - exists (48 + r)%N, []. split; [done|]. split; [constructor; [lia|constructor]|]. intros Hc. split; [done|lia].
  - destruct (IH q ((48 + r)%N :: acc)) as (c & ds & -> & Hd & Hc); [lia|].
    exists c, (ds ++ [(48 + r)%N]). split; [by rewrite <- app_assoc|]. split.
    + rewrite app_comm_cons. apply Forall_app. split; [done|]. constructor; [lia|constructor].
    + intros Hc'. destruct (Hc Hc') as [-> ?]. lia.
Qed.

Lemma index_str_value n : foldl digit_step (Some 0%N) (index_str n) = Some (N.of_nat n).
Proof. unfold index_str. rewrite digits_go_value by lia. done. Qed.

Lemma index_str_digits n : Forall (fun c => 48 <= c <= 57)%N (index_str n).
Proof.
  unfold index_str. destruct (digits_go_shape (S n) (N.of_nat n) [] ltac:(lia)) as (c & ds & -> & H & _). by rewrite app_nil_r.
Qed.

Lemma index_str_index n : (Z.of_nat n < 2 ^ 31)%Z -> index_of (index_str n) = Some (N.of_nat n).
Proof.
  intros Hn. pose proof (index_str_value n) as Hv. unfold index_str in *.
  destruct (digits_go_shape (S n) (N.of_nat n) [] ltac:(lia)) as (c & ds & E & _ & Hc). rewrite E in *. rewrite app_nil_r in *.
  unfold index_of. destruct (N.eqb_spec c 48) as [->|]; cbn [andb].
  - destruct (Hc eq_refl) as [-> En]. by rewrite En.
  - change (digits_value (c :: ds)) with (foldl digit_step (Some 0%N) (c :: ds)). rewrite Hv.
    rewrite (proj2 (N.ltb_lt _ _)); [done|]. change (2 ^ 32 - 1)%N with 4294967295%N. lia.
Qed.

Lemma index_str_all_digits n : all_digits (index_str n) = true.
Proof.
  unfold all_digits. apply forallb_forall. intros c Hc. pose proof (index_str_digits n) as H. rewrite Forall_forall in H.
  apply list_elem_of_In, H in Hc. apply andb_true_intro. split; apply N.leb_le; lia.
Qed.

Lemma index_str_inj n m : index_str n = index_str m -> n = m.
Proof. intros E. pose proof (index_str_value n) as H. rewrite E, index_str_value in H. injection H as H. lia. Qed.

(** An array index is no name of a member of an array. *)
Lemma own_index l i : (Z.of_nat i < 2 ^ 31)%Z -> own_value (JArr l) (index_str i) = l !! i.
Proof. intros H. unfold own_value. rewrite index_str_index by done. by rewrite Nat2N.id. Qed.

(** ** Depth *)

Lemma depth_elem l x : x ∈ l -> depth x <= foldr (fun x n => Nat.max (depth x) n) 0 l.
Proof. induction l as [|y l IH]; [by intros ?%elem_of_nil|]. intros [->|H]%elem_of_cons; cbn [foldr]; [lia|]. specialize (IH H). lia. Qed.

Lemma depth_field fs k x : get_field fs k = Some x -> depth x <= foldr (fun (kv : jsstr * json) n => Nat.max (depth kv.2) n) 0 fs.
Proof.
  induction fs as [|[k' y] fs IH]; [done|]. cbn [get_field foldr snd]. case_bool_decide; [intros [= ->]; lia|]. intros H1.
  specialize (IH H1). lia.
Qed.

Lemma same_primitive_eq v w : same_primitive v w = true <-> v = w /\ is_container v = false.
Proof.
  destruct v, w; cbn; try (split; [done|by intros [? ?]]); try (split; [by intros [=]|by intros [[=] ?]]).
  - rewrite Bool.eqb_true_iff. split; [by intros ->|by intros [[= ->] _]].
  - rewrite Z.eqb_eq. split; [by intros ->|by intros [[= ->] _]].
  - rewrite bool_decide_eq_true. split; [by intros ->|by intros [[= ->] _]].
Qed.

Lemma same_refl v : same v v.
Proof.
  induction v as [|b|n|s|l IH|fs IH] using json_nested_ind; constructor; [by apply Forall_Forall2_diag|].
  intros k. destruct (get_field fs k) as [x|] eqn:E; constructor. rewrite Forall_forall in IH. by apply (IH (k, x)), get_field_in.
Qed.

(** ** deep-equal *)


(** ** The module *)

(** The order of sort on strings: by code units *)
Fixpoint str_le (s t : jsstr) : bool :=
  match s, t with
  | [], _ => true
  | _ :: _, [] => false
  | c :: s', d :: t' => (c <? d)%N || ((c =? d)%N && str_le s' t')
  end.

Definition before (s t : jsstr) : Prop := str_le s t = true.

#[export] Instance before_dec : RelDecision before.
Proof. intros s t. unfold before. apply _. Defined.

Definition sort_keys (l : list jsstr) : list jsstr := merge_sort before l.

Definition truthy_json (v : json) : bool :=
  match v with
  | JNull => false
  | JBool b => b
  | JNum n => negb (n =? 0)%Z
  | JStr s => negb (bool_decide (s = []))
  | JArr _ | JObj _ => true
  end.

(** typeof *)
Inductive js_type := TObject | TBoolean | TNumber | TString.

#[export] Instance js_type_eq_dec : EqDecision js_type.
Proof. solve_decision. Defined.

Definition typeof (v : json) : js_type :=
  match v with JNull | JArr _ | JObj _ => TObject | JBool _ => TBoolean | JNum _ => TNumber | JStr _ => TString end.

(** e.prototype === t.prototype *)
Definition same_prototype (e t : json) : bool :=
  match own_value e (js "prototype"), own_value t (js "prototype") with
  | None, None => true
  | Some v, Some w => same_primitive v w
  | _, _ => false
  end.

(** deepEqual and its objEquiv; each round goes into a container *)
Fixpoint deepEqual (fuel : nat) (e t : json) : bool :=
  match fuel with
  | O => false
  | S fuel' =>
      if same_primitive e t then true
      else if negb (truthy_json e) || negb (truthy_json t) || (negb (is_container e) && negb (is_container t)) then false
      else
        same_prototype e t &&
        bool_decide (sort_keys (object_keys e) = sort_keys (object_keys t)) &&
        forallb (fun k => match own_value e k, own_value t k with
                          | Some x, Some y => deepEqual fuel' x y
                          | _, _ => false
                          end) (object_keys e) &&
        bool_decide (typeof e = typeof t)
  end.

Definition deep_equal (e t : json) : bool := deepEqual (S (depth e + depth t)) e t.

(** With undefined among the values *)
Definition equal (e t : option json) : bool :=
  match e, t with
  | None, None => true
  | Some v, Some w => deep_equal v w
  | _, _ => false
  end.
