(* ===== verification/JsonPatch.v ===== *)
(** * JsonPatch: the modules fast-json-patch of the Swagger UI bundle

    src/main/resources/swagger-ui/swagger-ui-bundle.js: the helpers (lines
    66-71), the application of RFC 6902 operations (line 71, the module after
    them), on documents that are trees; their comparison and the observers
    (lines 80-85) are at the end.  A changed document is a new tree here; the code changes it in place,
    or a deep clone of it where mutateDocument is false, and puts the value of an
    operation itself into it and not a copy: afterwards operation and document
    share that value, which a tree cannot say, so a patch is a value here, as it
    was when it was made.  Inherited members of
    values are builtin objects: an operation that reads one leaves the model
    with [LeavesDocument]. *)

From S2P Require Import Prelude JsCore JsHeap JsonTree.

(** ** Helpers *)

Fixpoint split_on (c : N) (s : jsstr) : list jsstr :=
  match s with
  | [] => [[]]
  | x :: s' => if (x =? c)%N then [] :: split_on c s'
               else match split_on c s' with f :: fs => (x :: f) :: fs | [] => [[x]] end
  end.

Definition slash : N := 47.
Definition tilde : N := 126.

(** escapePathComponent: / and ~ are written ~1 and ~0. *)
Definition escapePathComponent (e : jsstr) : jsstr :=
  if (indexOf slash e =? -1)%Z && (indexOf tilde e =? -1)%Z then e
  else flat_map (fun c => if (c =? slash)%N then js "~1" else [c])
         (flat_map (fun c => if (c =? tilde)%N then js "~0" else [c]) e).

(** e.replace(/~x/g, y), for characters x and y *)
Fixpoint replace_escape (x y : N) (e : jsstr) : jsstr :=
  match e with
  | [] => []
  | c :: e' => if (c =? tilde)%N
               then match e' with
                    | d :: e'' => if (d =? x)%N then y :: replace_escape x y e'' else c :: replace_escape x y e'
                    | [] => [c]
                    end
               else c :: replace_escape x y e'
  end.

Definition unescapePathComponent (e : jsstr) : jsstr := replace_escape 48 tilde (replace_escape 49 slash e).

(** isInteger; the number an array has for a length is one too. *)
Definition isInteger (e : jsstr) : bool := all_digits e.

(** ~~e for a string of digits *)
Definition to_int32 (e : jsstr) : Z := toInt (Z.of_N (default 0%N (digits_value e))).

(** ** Operations *)

Inductive op_kind := OpAdd | OpRemove | OpReplace | OpMove | OpCopy | OpTest | OpGet | OpUnknown.

#[export] Instance op_kind_eq_dec : EqDecision op_kind.
Proof. solve_decision. Defined.

Record operation := Operation { op : op_kind; path : jsstr; from : option jsstr; value : option json }.

Record OperationResult := OpResult {
  newDocument : option json;          (* None: undefined *)
  removed : option json;
  test : option bool;
  got : option json                   (* the value a _get operation ends with *)
}.

Definition done_with (d : option json) : OperationResult := OpResult d None None None.

Definition TypeError : exn := Raised "TypeError".
Definition LeavesDocument : exn := Raised "a builtin object or a value that is not JSON".
Definition ProtoBanned : exn := Raised "TypeError: modifying `__proto__` prop is banned".
Definition PatchError (name : string) : exn := Raised name.

Definition is_patch_error (e : exn) : bool :=
  negb (bool_decide (e ∈ [TypeError; LeavesDocument; ProtoBanned; NoFuel])).

(** Which names a value inherits, and what a string is as an integer where the
    module does not convert it itself *)
Class Builtins := { inherited : json -> jsstr -> bool; toInteger : jsstr -> Z }.

Section Core.
Context `{Builtins}.

(** The key of an array step: a number, or a name as it is *)
Inductive array_key := Index (i : Z) | Name (s : jsstr).

Definition elem (l : list json) (i : Z) : option json := if (i <? 0)%Z then None else l !! Z.to_nat i.

(** m[b] *)
Definition read (m : option json) (b : jsstr) : Try (option json) :=
  match m with
  | None | Some JNull => Failure TypeError
  | Some v =>
      match own_value v b with
      | Some x => Success (Some x)
      | None => if inherited v b then Failure LeavesDocument else Success None
      end
  end.

(** void 0 !== m[b] *)
Definition defined (m : option json) (b : jsstr) : Try bool :=
  match m with
  | None | Some JNull => Failure TypeError
  | Some v => Success (bool_decide (is_Some (own_value v b)) || inherited v b)
  end.

Definition read_array (l : list json) (k : array_key) : Try (option json) :=
  match k with Index i => Success (elem l i) | Name s => read (Some (JArr l)) s end.

(** The start of splice *)
Definition splice_start (l : list json) (i : Z) : nat :=
  Z.to_nat (if (i <? 0)%Z then Z.max (zlen l + i) 0 else Z.min i (zlen l)).

Definition need (v : option json) : Try json := of_option LeavesDocument v.

(** ** The tables of operations: on an array, and on any other value.  A move
    or a copy is done on the whole document, by the caller. *)

Definition array_op (o : operation) (l : list json) (k : array_key) : Try (json * OperationResult) :=
  match op o with
  | OpAdd =>
      let? v := need (value o) in
      match k with
      | Index i => let n := splice_start l i in Success (JArr (take n l ++ v :: drop n l), done_with None)
      | Name _ => Failure LeavesDocument
      end
  | OpRemove =>
      let n := splice_start l (match k with Index i => i | Name s => toInteger s end) in
      Success (JArr (delete n l), OpResult None (l !! n) None None)
  | OpReplace =>
      let? r := read_array l k in
      let? v := need (value o) in
      match k with
      | Index i => if (0 <=? i)%Z && (i <? zlen l)%Z then Success (JArr (<[Z.to_nat i := v]> l), OpResult None r None None)
                   else if (i =? zlen l)%Z then Success (JArr (l ++ [v]), OpResult None r None None)
                   else Failure LeavesDocument
      | Name _ => Failure LeavesDocument
      end
  | OpTest => let? r := read_array l k in Success (JArr l, OpResult None None (Some (equal r (value o))) None)
  | OpGet => let? r := read_array l k in Success (JArr l, OpResult None None None r)
  | OpMove | OpCopy => Success (JArr l, done_with None)
  | OpUnknown => Failure TypeError
  end.

(** e[t] = v, which a primitive ignores *)
Definition write (e : json) (t : jsstr) (v : json) : Try json :=
  match e with
  | JObj fs => if bool_decide (t = proto_key) && negb (bool_decide (is_Some (get_field fs t))) then Failure LeavesDocument
               else Success (JObj (put_field fs t v))
  | JNull => Failure TypeError
  | _ => Success e
  end.

Definition object_op (o : operation) (e : json) (t : jsstr) : Try (json * OperationResult) :=
  match op o with
  | OpAdd => let? v := need (value o) in let? e' := write e t v in Success (e', done_with None)
  | OpRemove =>
      let? r := read (Some e) t in
      Success (match e with JObj fs => JObj (del_field fs t) | _ => e end, OpResult None r None None)
  | OpReplace =>
      let? r := read (Some e) t in
      let? v := need (value o) in let? e' := write e t v in Success (e', OpResult None r None None)
  | OpTest => let? r := read (Some e) t in Success (e, OpResult None None (Some (equal r (value o))) None)
  | OpGet => let? r := read (Some e) t in Success (e, OpResult None None None r)
  | OpMove | OpCopy => Success (e, done_with None)
  | OpUnknown => Failure TypeError
  end.

(** The child at a key, put back *)
Definition put_child (m : json) (k : array_key) (c : option json) : json :=
  match m, k, c with
  | JArr l, Index i, Some v => if (i <? 0)%Z then m else JArr (<[Z.to_nat i := v]> l)
  | JObj fs, Name s, Some v => if bool_decide (is_Some (get_field fs s)) then JObj (put_field fs s v) else m
  | _, _, _ => m
  end.

(** A failed test throws. *)
Definition tested (r : json * OperationResult) : Try (option json * OperationResult) :=
  match test (snd r) with
  | Some false => Failure (PatchError "TEST_OPERATION_FAILED")
  | _ => Success (Some (fst r), snd r)
  end.

(** The array key of a component *)
Definition array_component (validate : bool) (l : list json) (b : jsstr) : Try array_key :=
  if bool_decide (b = js "-") then Success (Index (zlen l))
  else if validate && negb (isInteger b) then Failure (PatchError "OPERATION_PATH_ILLEGAL_ARRAY_INDEX")
  else Success (if isInteger b then Index (to_int32 b) else Name b).

Definition beyond (k : array_key) (l : list json) : bool :=
  match k with Index i => (zlen l <? i)%Z | Name _ => false end.

(** The loop of applyOperation over the components after [seen].  [check] is
    the validator of the existing part of the path, called once. *)
Fixpoint walk (ban : bool) (check : option (jsstr -> Try unit)) (pending : bool) (o : operation) (seen rest : list jsstr)
    (m : option json) {struct rest} : Try (option json * OperationResult) :=
  match rest with
  | [] => Success (m, done_with None)
  | b :: rest' =>
      if ban && bool_decide (b = proto_key) then Failure ProtoBanned
      else
        let last := bool_decide (rest' = []) in
        let validate := bool_decide (is_Some check) in
        let? pending' :=
          match check with
          | Some f =>
              if pending then
                let? there := defined m b in
                if negb there then let? _ := f (join [slash] seen) in Success false
                else if last then let? _ := f (path o) in Success false
                else Success true
              else Success false
          | None => Success pending
          end in
        match m with
        | Some (JArr l) =>
            let? k := array_component validate l b in
            if last then
              if validate && bool_decide (op o = OpAdd) && beyond k l then Failure (PatchError "OPERATION_VALUE_OUT_OF_BOUNDS")
              else let? r := array_op o l k in tested r
            else
              let? c := read_array l k in
              let? r := walk ban check pending' o (seen ++ [b]) rest' c in
              Success (Some (put_child (JArr l) k (fst r)), snd r)
        | _ =>
            let b' := unescapePathComponent b in
            if last then
              match m with
              | None => match op o with OpMove | OpCopy => Success (None, done_with None) | _ => Failure TypeError end
              | Some e => let? r := object_op o e b' in tested r
              end
            else
              let? c := read m b' in
              let? r := walk ban check pending' o (seen ++ [b]) rest' c in
              Success ((fun v => put_child v (Name b') (fst r)) <$> m, snd r)
        end
  end.

(** The components of a path: those after its first slash, or else the
    undefined one *)
Definition components (p : jsstr) : jsstr * list jsstr :=
  match split_on slash p with
  | d0 :: c :: cs => (d0, c :: cs)
  | d0 :: [] => (d0, [])
  | [] => ([], [])
  end.

Definition walk_path (ban : bool) (check : option (jsstr -> Try unit)) (o : operation) (document : option json)
    : Try (option json * OperationResult) :=
  match components (path o), document with
  | (d0, []), Some (JArr _) => Failure TypeError
  | (d0, []), _ => walk ban check true o [d0] [js "undefined"] document
  | (d0, cs), _ => walk ban check true o [d0] cs document
  end.

(** An operation on the whole document *)
Definition root_op (o : operation) (document : option json) : Try OperationResult :=
  match op o with
  | OpAdd => Success (done_with (value o))
  | OpReplace => Success (OpResult (value o) document None None)
  | OpTest => if equal document (value o) then Success (OpResult document None (Some true) None)
              else Failure (PatchError "TEST_OPERATION_FAILED")
  | OpRemove => Success (OpResult (Some JNull) document None None)
  | OpGet => Success (OpResult document None None document)
  | OpMove | OpCopy | OpUnknown => Success (done_with document)
  end.

(** applyOperation without validation, as the code itself calls it, for remove,
    add and _get; a path that is undefined is [None] *)
Definition simple_op (k : op_kind) (p : option jsstr) (v : option json) (document : option json) : Try OperationResult :=
  let o := Operation k (default [] p) None v in
  if bool_decide (p = Some []) then root_op o document
  else let? r := walk_path true None o document in
       let res := snd r in
       Success (OpResult (fst r) (removed res) (test res) (got res)).

(** getValueByPointer *)
Definition getValueByPointer (document : option json) (pointer : option jsstr) : Try (option json) :=
  let? r := simple_op OpGet pointer None document in Success (got r).

(** The rest of a move, and of a copy, after the walk to its path.  A document
    moved into itself would be cyclic. *)
Definition move_op (o : operation) (document : option json) : Try OperationResult :=
  let? r := getValueByPointer document (Some (path o)) in
  let? taken := simple_op OpRemove (from o) None document in
  if bool_decide (from o = Some []) then Failure LeavesDocument
  else
    let? added := simple_op OpAdd (Some (path o)) (removed taken) (newDocument taken) in
    Success (OpResult (newDocument added) r None None).

Definition copy_op (o : operation) (document : option json) : Try OperationResult :=
  let? r := getValueByPointer document (from o) in
  let? added := simple_op OpAdd (Some (path o)) (Some (default JNull r)) document in
  Success (done_with (newDocument added)).

(** ** Validation *)

(** The structural checks of validator *)
Definition validate_shape (o : operation) : Try unit :=
  if bool_decide (op o = OpUnknown) then Failure (PatchError "OPERATION_OP_INVALID")
  else if negb (indexOf slash (path o) =? 0)%Z && negb (bool_decide (path o = [])) then
    Failure (PatchError "OPERATION_PATH_INVALID")
  else if bool_decide (op o ∈ [OpMove; OpCopy]) && negb (bool_decide (is_Some (from o))) then
    Failure (PatchError "OPERATION_FROM_REQUIRED")
  else if bool_decide (op o ∈ [OpAdd; OpReplace; OpTest]) && negb (bool_decide (is_Some (value o))) then
    Failure (PatchError "OPERATION_VALUE_REQUIRED")
  else Success tt.

Definition truthy_document (d : option json) : bool :=
  match d with
  | None | Some JNull => false
  | Some (JBool b) => b
  | Some (JNum n) => negb (n =? 0)%Z
  | Some (JStr s) => negb (bool_decide (s = []))
  | Some _ => true
  end.

(** validate on a single _get operation: what it returns or throws *)
Definition validate_get (p : jsstr) (document : option json) : Try unit :=
  let o := Operation OpGet p None None in
  let? _ := validate_shape o in
  if bool_decide (p = []) then Success tt
  else
    let check existing := let? _ := validate_shape o in
      if truthy_document document && negb (bool_decide (p = existing)) then Failure (PatchError "OPERATION_PATH_UNRESOLVABLE")
      else Success tt in
    let? _ := walk_path true (Some check) o document in Success tt.

(** validator, with the existing part of the path where the walk calls it *)
Definition validator (o : operation) (document : option json) (existing : jsstr) : Try unit :=
  let? _ := validate_shape o in
  if negb (truthy_document document) then Success tt
  else match op o with
       | OpAdd =>
           let i := length (split_on slash (path o)) in
           let u := length (split_on slash existing) in
           if bool_decide (i = u + 1) || bool_decide (i = u) then Success tt
           else Failure (PatchError "OPERATION_PATH_CANNOT_ADD")
       | OpReplace | OpRemove | OpGet =>
           if bool_decide (path o = existing) then Success tt
           else Failure (PatchError "OPERATION_PATH_UNRESOLVABLE")
       | OpMove | OpCopy =>
           match validate_get (default [] (from o)) document with
           | Success _ => Success tt
           | Failure e =>
               if bool_decide (e = PatchError "OPERATION_PATH_UNRESOLVABLE") then
                 Failure (PatchError "OPERATION_FROM_UNRESOLVABLE")
               else if is_patch_error e then Success tt else Failure e
           end
       | OpTest | OpUnknown => Success tt
       end.

(** applyOperation, with its flags validateOperation and
    banPrototypeModifications *)
Definition applyOperation (validate ban : bool) (document : option json) (o : operation) : Try OperationResult :=
  let? _ := (if validate then validate_shape o else Success tt) in
  if bool_decide (path o = []) then
    match op o with
    | OpMove => let? d := getValueByPointer document (from o) in Success (OpResult d document None None)
    | OpCopy => let? d := getValueByPointer document (from o) in Success (done_with d)
    | OpUnknown => if validate then Failure (PatchError "OPERATION_OP_INVALID") else root_op o document
    | _ => root_op o document
    end
  else
    let? r := walk_path ban (if validate then Some (validator o document) else None) o document in
    match op o with
    | OpMove => move_op o document
    | OpCopy => copy_op o document
    | _ => let res := snd r in Success (OpResult (fst r) (removed res) (test res) (got res))
    end.

(** applyPatch: the document after the operations *)
Fixpoint applyPatch (validate ban : bool) (document : option json) (patch : list operation) : Try (option json) :=
  match patch with
  | [] => Success document
  | o :: patch' =>
      let? r := applyOperation validate ban document o in
      applyPatch validate ban (newDocument r) patch'
  end.

(** applyReducer *)
Definition applyReducer (document : option json) (o : operation) : Try (option json) :=
  let? r := applyOperation false true document o in
  if bool_decide (test r = Some false) then Failure (PatchError "TEST_OPERATION_FAILED") else Success (newDocument r).
End Core.

(** ** Observing and comparing

    src/main/resources/swagger-ui/swagger-ui-bundle.js, lines 80-85: compare,
    and the observers, which compare an object with their clone of it.  The
    scheduling of an observer's comparisons by browser events is left out. *)


Definition add_op (p : jsstr) (v : json) : operation := Operation OpAdd p None (Some v).
Definition remove_op (p : jsstr) : operation := Operation OpRemove p None None.
Definition replace_op (p : jsstr) (v : json) : operation := Operation OpReplace p None (Some v).

(** o + "/" + escapePathComponent(p) *)
Definition subpath (o p : jsstr) : jsstr := o ++ slash :: escapePathComponent p.

Fixpoint try_fold {A S} (f : S -> A -> Try S) (s : S) (l : list A) : Try S :=
  match l with [] => Success s | x :: l' => let? s' := f s x in try_fold f s' l' end.

(** The first loop of _generate: an old key, with the operations so far and
    whether one was a removal; [go] compares two containers. *)
Definition compare_key (go : json -> json -> jsstr -> Try (list operation)) (e t : json) (o : jsstr)
    (ns : list operation * bool) (p : jsstr) : Try (list operation * bool) :=
  match own_value t p with
  | None =>
      if Bool.eqb (is_array e) (is_array t) then Success (fst ns ++ [remove_op (subpath o p)], true)
      else Success (fst ns ++ [replace_op o t], snd ns)
  | Some l =>
      match own_value e p with
      | Some c =>
          if is_container c && is_container l then
            let? n := go c l (subpath o p) in Success (fst ns ++ n, snd ns)
          else if same_primitive c l then Success ns
          else Success (fst ns ++ [replace_op (subpath o p) l], snd ns)
      | None => Success (fst ns ++ [replace_op (subpath o p) l], snd ns)
      end
  end.

(** The second loop: the new keys *)
Definition added_keys (e t : json) (o : jsstr) (keys : list jsstr) : list operation :=
  omap (fun p => match own_value e p, own_value t p with
                 | None, Some v => Some (add_op (subpath o p) v)
                 | _, _ => None
                 end) keys.

(** _generate of the mirror [e] and the object [t] *)
Fixpoint generate (fuel : nat) (e t : json) (o : jsstr) : Try (list operation) :=
  match fuel with
  | O => Failure NoFuel
  | S fuel' =>
      if same_primitive t e then Success []
      else if is_null t || is_null e then Failure TypeError
      else
        let i := object_keys t in
        let a := object_keys e in
        let? ns := try_fold (compare_key (generate fuel') e t o) ([], false) (reverse a) in
        if snd ns || negb (length i =? length a) then Success (fst ns ++ added_keys e t o i)
        else Success (fst ns)
  end.

(** compare *)
Definition compare (e t : json) : Try (list operation) := generate (S (depth e)) e t [].

(** ** Observers *)

Record Observer := Observing { mirror : json; object : json; patches : list operation }.

(** observe *)
Definition observe (obj : json) : Observer := Observing obj obj [].

Definition assign_object (v : json) (ob : Observer) : Observer := Observing (mirror ob) v (patches ob).

Section Observers.
Context `{Builtins}.

(** What applyPatch leaves in the document it is given: an operation on the
    whole document goes on with another one.  In the code the operations' values
    become parts of the document by reference. *)
Fixpoint patch_in_place (document : json) (patch : list operation) : Try json :=
  match patch with
  | [] => Success document
  | o :: patch' =>
      let? r := applyOperation false true (Some document) o in
      if bool_decide (path o = []) then let? _ := applyPatch false true (newDocument r) patch' in Success document
      else let? d := need (newDocument r) in patch_in_place d patch'
  end.

(** generate: the observer after a comparison, and the patch as it is when it is
    returned.  Its operations' values are parts of the clone in the code, and
    later comparisons, which change the clone in place, change them too. *)
Definition generate_patch (ob : Observer) : Try (Observer * list operation) :=
  let? n := generate (S (depth (mirror ob))) (mirror ob) (object ob) [] in
  let ns := patches ob ++ n in
  if bool_decide (ns = []) then Success (ob, [])
  else let? m := patch_in_place (mirror ob) ns in Success (Observing m (object ob) [], ns).
End Observers.
