(* ===== verification/JsonPaths.v ===== *)
(** * JsonPaths: paths of JSON patches, walks along them, and what the
    operations of a patch do below and at the root *)

From S2P Require Import Prelude JsCore JsHeap JsonTree JsonPatch.

(** ** Escaped components *)

Lemma indexOf_notin c s : indexOf c s = (-1)%Z -> c ∉ s.
Proof.
  induction s as [|x s IH]; cbn; [by intros _ ?%elem_of_nil|]. destruct (N.eqb_spec x c) as [->|Hx]; [done|].
  destruct (Z.ltb_spec (indexOf c s) 0) as [Hi|Hi]; [|lia]. intros _ [->|H]%elem_of_cons; [done|].
  apply IH; [|done]. assert (-1 <= indexOf c s)%Z; [|lia]. clear. induction s as [|x s IH]; cbn; [lia|].
  destruct (x =? c)%N; [lia|]. destruct (Z.ltb_spec (indexOf c s) 0); lia.
Qed.

Definition escape1 (c : N) : jsstr := if (c =? tilde)%N then js "~0" else if (c =? slash)%N then js "~1" else [c].

Lemma escape_flat p : escapePathComponent p = flat_map escape1 p.
Proof.
  unfold escapePathComponent. destruct (Z.eqb_spec (indexOf slash p) (-1)) as [H1|_]; cbn [andb].
  - destruct (Z.eqb_spec (indexOf tilde p) (-1)) as [H2|_].
    + apply indexOf_notin in H1, H2. induction p as [|c p IH]; [done|]. cbn [flat_map].
      apply not_elem_of_cons in H1 as [H1 H1'], H2 as [H2 H2']. rewrite <- (IH H1' H2'). unfold escape1.
      by rewrite !(proj2 (N.eqb_neq _ _)) by done.
    + clear H1. induction p as [|c p IH]; [done|]. cbn [flat_map]. rewrite flat_map_app, IH. f_equal.
      unfold escape1. destruct (N.eqb_spec c tilde) as [->|]; [done|]. cbn. destruct (c =? slash)%N; done.
  - induction p as [|c p IH]; [done|]. cbn [flat_map]. rewrite flat_map_app, IH. f_equal.
    unfold escape1. destruct (N.eqb_spec c tilde) as [->|]; [done|]. cbn. destruct (c =? slash)%N; done.
Qed.

Lemma escape_no_slash p : slash ∉ escapePathComponent p.
Proof.
  rewrite escape_flat. induction p as [|c p IH]; cbn [flat_map]; [by intros ?%elem_of_nil|]. rewrite elem_of_app. intros [H|H]; [|done].
  unfold escape1 in H. destruct (c =? tilde)%N; [|destruct (N.eqb_spec c slash)]; cbn in H; set_solver.
Qed.

(** Unescaping undoes escaping. *)
Lemma unescape_escape p : unescapePathComponent (escapePathComponent p) = p.
Proof.
  unfold unescapePathComponent. rewrite escape_flat.
  assert (replace_escape 49 slash (flat_map escape1 p) = flat_map (fun c => if (c =? tilde)%N then js "~0" else [c]) p) as ->.
  - induction p as [|c p IH]; [done|]. cbn [flat_map]. unfold escape1 at 1. destruct (N.eqb_spec c tilde) as [->|Ht].
    + cbn. by rewrite IH.
    + destruct (N.eqb_spec c slash) as [->|Hs].
      * change (js "~1" ++ flat_map escape1 p) with (tilde :: 49%N :: flat_map escape1 p). cbn. by rewrite IH.
      * cbn [app replace_escape]. rewrite (proj2 (N.eqb_neq _ _)) by done. by rewrite IH.
  - induction p as [|c p IH]; [done|]. cbn [flat_map]. destruct (N.eqb_spec c tilde) as [->|Ht].
    + revert IH. generalize (flat_map (fun c => if (c =? tilde)%N then js "~0" else [c]) p) as r. intros r IH. cbn. by rewrite IH.
    + cbn [app replace_escape]. rewrite (proj2 (N.eqb_neq _ _)) by done. by rewrite IH.
Qed.

Lemma escape_proto k : k <> proto_key -> escapePathComponent k <> proto_key.
Proof. intros H E. apply H. rewrite <- (unescape_escape k), E. by vm_compute. Qed.

Lemma escape_digits k : all_digits k = true -> escapePathComponent k = k.
Proof.
  rewrite escape_flat. induction k as [|c k IH]; [done|]. cbn [all_digits flat_map forallb].
  intros [[H1 H2]%andb_prop Hk]%andb_prop. apply N.leb_le in H1, H2. rewrite IH by done. unfold escape1, tilde, slash.
  by rewrite !(proj2 (N.eqb_neq _ _)) by lia.
Qed.

(** ** Paths *)

(** The path of a list of keys *)
Definition render (ks : list jsstr) : jsstr := flat_map (fun k => slash :: escapePathComponent k) ks.

Lemma split_notin c a : c ∉ a -> split_on c a = [a].
Proof.
  induction a as [|x a IH]; [done|]. intros [H H']%not_elem_of_cons. cbn. rewrite (proj2 (N.eqb_neq _ _)) by done. by rewrite (IH H').
Qed.

Lemma split_app c a b : c ∉ a -> split_on c (a ++ c :: b) = a :: split_on c b.
Proof.
  induction a as [|x a IH]; cbn; [by rewrite N.eqb_refl|]. intros [H H']%not_elem_of_cons. rewrite (proj2 (N.eqb_neq _ _)) by done.
  by rewrite (IH H').
Qed.

Lemma split_render a ks : slash ∉ a -> split_on slash (a ++ render ks) = a :: (escapePathComponent <$> ks).
Proof.
  revert a. induction ks as [|k ks IH]; intros a H; cbn [render flat_map].
  - rewrite app_nil_r. by apply split_notin.
  - rewrite <- app_comm_cons. rewrite split_app by done. fold (render ks). rewrite IH; [done|apply escape_no_slash].
Qed.

Lemma components_render k ks : components (render (k :: ks)) = ([], escapePathComponent <$> (k :: ks)).
Proof.
  unfold components. change (render (k :: ks)) with ([] ++ render (k :: ks)). rewrite split_render by (by intros ?%elem_of_nil). done.
Qed.

Lemma render_nonempty k ks : render (k :: ks) <> [].
Proof. done. Qed.

Lemma render_app a b : render (a ++ b) = render a ++ render b.
Proof. apply flat_map_app. Qed.

(** ** Children *)

(** A key a path may go through or end with in [m] *)
Definition path_key (m : json) (k : jsstr) : Prop :=
  match m with
  | JObj _ => k <> proto_key
  | JArr l => (zlen l < 2 ^ 31)%Z /\ exists i, i < length l /\ k = index_str i
  | _ => False
  end.

Definition set_child (m : json) (k : jsstr) (v : json) : json :=
  match m with
  | JObj fs => JObj (put_field fs k v)
  | JArr l => match index_of k with Some i => JArr (<[N.to_nat i := v]> l) | None => m end
  | _ => m
  end.

Lemma put_id fs k v : get_field fs k = Some v -> put_field fs k v = fs.
Proof.
  induction fs as [|[k' w] fs IH]; [done|]. cbn. case_bool_decide as E; [by intros [= ->]; subst|]. intros H. by rewrite IH.
Qed.

Lemma index_small (l : list json) i : (zlen l < 2 ^ 31)%Z -> i < length l -> index_of (index_str i) = Some (N.of_nat i).
Proof. intros H Hi. apply index_str_index. unfold zlen in H. lia. Qed.

Lemma set_child_same m k c : own_value m k = Some c -> path_key m k -> set_child m k c = m.
Proof.
  intros E Hk. destruct m as [| | | |l|fs]; try done.
  - destruct Hk as (Hl & i & Hi & ->). unfold own_value in E. unfold set_child. rewrite (index_small l), Nat2N.id in E by done.
    rewrite (index_small l), Nat2N.id by done. by rewrite list_insert_id.
  - cbn in *. by rewrite put_id.
Qed.

Lemma set_child_key m k v : path_key m k -> path_key (set_child m k v) k.
Proof.
  destruct m as [| | | |l|fs]; try done. intros (Hl & i & Hi & ->). unfold set_child. rewrite (index_small l) by done.
  unfold path_key, zlen in *. rewrite length_insert. eauto.
Qed.

Lemma set_child_own m k v : path_key m k -> own_value (set_child m k v) k = Some v.
Proof.
  destruct m as [| | | |l|fs]; try done.
  - intros (Hl & i & Hi & ->). unfold set_child. rewrite (index_small l) by done. unfold own_value.
    rewrite (index_small l), Nat2N.id by done. by apply list_lookup_insert_eq.
  - intros _. cbn. by rewrite get_put, decide_True.
Qed.

Lemma set_set m k v w : path_key m k -> set_child (set_child m k v) k w = set_child m k w.
Proof.
  destruct m as [| | | |l|fs]; try done.
  - intros (Hl & i & Hi & ->). unfold set_child. rewrite !(index_small l) by done.
    by rewrite list_insert_insert_eq.
  - intros _. cbn. by rewrite put_put.
Qed.

Section Walk.
Context `{Builtins}.

(** ** Walks without validation *)

Lemma walk_seen ban p p' o s s' rest m : fst <$> to_option (walk ban None p o s rest m) = fst <$> to_option (walk ban None p' o s' rest m) /\
  walk ban None p o s rest m = walk ban None p' o s' rest m.
Proof.
  assert (walk ban None p o s rest m = walk ban None p' o s' rest m) as E; [|by rewrite E].
  revert p p' s s' m. induction rest as [|b rest IH]; intros p p' s s' m; [done|]. cbn [walk try_bind].
  destruct (ban && _); [done|]. destruct m as [[| | | |l|fs]|]; cbn [try_bind];
    try (destruct (bool_decide (rest = [])); [done|]; destruct (read _ _); cbn [try_bind]; [|done]; by rewrite (IH p p' _ (s' ++ [b]))).
  destruct (array_component _ l b) as [k|]; cbn [try_bind]; [|done]. destruct (bool_decide (rest = [])); [done|].
  destruct (read_array l k); cbn [try_bind]; [|done]. by rewrite (IH p p' _ (s' ++ [b])).
Qed.

(** A walk over keys *)
Definition run (ks : list jsstr) (o : operation) (m : json) : Try (option json * OperationResult) :=
  walk true None true o [[]] (escapePathComponent <$> ks) (Some m).

Lemma index_component l i : (zlen l < 2 ^ 31)%Z -> i <= length l -> (Z.of_nat i < 2 ^ 31)%Z ->
  array_component false l (index_str i) = Success (Index (Z.of_nat i)).
Proof.
  intros Hl Hi Hi2. unfold array_component. rewrite bool_decide_false.
  - cbn [andb]. unfold isInteger. rewrite index_str_all_digits. unfold to_int32.
    change (digits_value (index_str i)) with (foldl digit_step (Some 0%N) (index_str i)). rewrite index_str_value. cbn.
    rewrite toInt_small by (unfold MinInt, MaxInt; lia). by rewrite nat_N_Z.
  - intros E. pose proof (index_str_digits i) as Hd. rewrite E in Hd. change (js "-") with [45%N] in Hd. apply Forall_inv in Hd. lia.
Qed.

Lemma run_child m k c x ks o : path_key m k -> own_value m k = Some c ->
  run (k :: x :: ks) o m = let? r := run (x :: ks) o c in
    Success (match fst r with Some v => Some (set_child m k v) | None => Some m end, snd r).
Proof.
  intros Hk Ec. unfold run. rewrite !fmap_cons. set (rest := escapePathComponent x :: _).
  assert (rest <> []) as Hr by done. cbn [walk try_bind].
  destruct m as [| | | |l|fs]; try done.
  - destruct Hk as (Hl & i & Hi & ->). pose proof (index_small l i Hl Hi) as Ei. unfold own_value in Ec. rewrite Ei, Nat2N.id in Ec.
    rewrite escape_digits by apply index_str_all_digits.
    rewrite (bool_decide_false (_ = proto_key)) by (intros E; pose proof (index_str_all_digits i) as Hd; by rewrite E in Hd).
    cbn [andb try_bind]. unfold zlen in Hl. rewrite bool_decide_false by (intros []; done). rewrite index_component by (unfold zlen; lia). cbn [try_bind].
    rewrite (bool_decide_false (rest = [])) by done. cbn [read_array]. unfold elem.
    destruct (Z.ltb_spec (Z.of_nat i) 0) as [|_]; [lia|]. rewrite Nat2Z.id, Ec. cbn [try_bind].
    rewrite (proj2 (walk_seen _ _ true _ _ [[]] rest _)). destruct (walk _ _ _ _ _ rest _) as [[v r]|]; [|done]. cbn [try_bind fst snd put_child].
    destruct v as [v|]; [|done]. destruct (Z.ltb_spec (Z.of_nat i) 0) as [|_]; [lia|]. rewrite Nat2Z.id. unfold set_child. by rewrite Ei, Nat2N.id.
  - rewrite (bool_decide_false (_ = proto_key)) by (by apply escape_proto). cbn [andb try_bind].
    rewrite (bool_decide_false (rest = [])) by done. unfold read. rewrite unescape_escape, Ec. cbn [try_bind].
    rewrite (proj2 (walk_seen _ _ true _ _ [[]] rest _)). destruct (walk _ _ _ _ _ rest _) as [[v r]|]; [|done]. cbn [try_bind fst snd put_child fmap option_fmap option_map].
    destruct v as [v|]; [|done]. cbn in Ec. rewrite bool_decide_true by (rewrite Ec; eauto). done.
Qed.
End Walk.

(** ** What the operations of a patch do *)


Section Patch.
Context `{Builtins}.

(** ** Operations below the root *)

Definition edits (o : operation) : Prop := op o = OpAdd \/ op o = OpRemove \/ op o = OpReplace.

Definition deep (o : operation) : Prop := edits o /\ exists k ks, path o = render (k :: ks).

(** The operation on a document that has the operation's document in it *)
Definition shift (pre : jsstr) (o : operation) : operation := Operation (op o) (pre ++ path o) (from o) (value o).

Lemma array_op_same o o' : op o = op o' -> value o = value o' -> array_op o = array_op o'.
Proof. intros E1 E2. unfold array_op. by rewrite E1, E2. Qed.

Lemma object_op_same o o' : op o = op o' -> value o = value o' -> object_op o = object_op o'.
Proof. intros E1 E2. unfold object_op. by rewrite E1, E2. Qed.

Lemma walk_same ban p o o' s rest m : op o = op o' -> value o = value o' -> walk ban None p o s rest m = walk ban None p o' s rest m.
Proof.
  intros E1 E2. revert p s m. induction rest as [|b rest IH]; intros p s m; [done|]. cbn [walk try_bind].
  rewrite (array_op_same o o'), (object_op_same o o'), E1 by done.
  destruct (ban && _); [done|]. destruct m as [[| | | |l|fs]|]; cbn [try_bind];
    try (destruct (bool_decide (rest = [])); [done|]; destruct (read _ _); cbn [try_bind]; [|done]; by rewrite IH).
  destruct (array_component _ l b) as [k|]; cbn [try_bind]; [|done]. destruct (bool_decide (rest = [])); [done|].
  destruct (read_array l k); cbn [try_bind]; [|done]. by rewrite IH.
Qed.

Lemma run_same ks o o' m : op o = op o' -> value o = value o' -> run ks o m = run ks o' m.
Proof. apply walk_same. Qed.

Lemma apply_run o k ks m : edits o -> path o = render (k :: ks) -> exists f, (forall r, newDocument (f r) = fst r) /\
  applyOperation false true (Some m) o = let? r := run (k :: ks) o m in Success (f r).
Proof.
  intros Ho Hp. exists (fun r => OpResult (fst r) (removed (snd r)) (test (snd r)) (got (snd r))). split; [done|].
  unfold applyOperation, walk_path. cbn [try_bind]. rewrite Hp, bool_decide_false by apply render_nonempty.
  rewrite components_render. unfold run. rewrite fmap_cons.
  by destruct m, Ho as [->|[->| ->]].
Qed.

Lemma apply_shift m k c o r c1 : path_key m k -> own_value m k = Some c -> deep o ->
  applyOperation false true (Some c) o = Success r -> newDocument r = Some c1 ->
  exists r', applyOperation false true (Some m) (shift (render [k]) o) = Success r' /\ newDocument r' = Some (set_child m k c1).
Proof.
  intros Hk Ec (Ho & k' & ks & Hp) Er Hn.
  destruct (apply_run o k' ks c Ho Hp) as (f & Hf & E). rewrite E in Er.
  destruct (run (k' :: ks) o c) as [[v x]|] eqn:Erun; [|done]. cbn [try_bind] in Er. injection Er as <-. rewrite Hf in Hn. cbn in Hn. subst v.
  destruct (apply_run (shift (render [k]) o) k (k' :: ks) m) as (g & Hg & E'); [done| |].
  { cbn [shift path]. by rewrite Hp, <- render_app. }
  rewrite E', (run_child m k c k' ks _ Hk Ec), (run_same _ _ o), Erun by done. cbn [try_bind fst snd].
  eexists. split; [done|]. by rewrite Hg.
Qed.

Notation patched m ops := (applyPatch false true (Some m) ops).

(** A patch of a child, moved below the child's key *)
Lemma patch_shift m k c ops c' : path_key m k -> own_value m k = Some c -> Forall deep ops ->
  (forall o r m, deep o -> applyOperation false true (Some m) o = Success r -> is_Some (newDocument r)) ->
  patched c ops = Success (Some c') -> patched m (shift (render [k]) <$> ops) = Success (Some (set_child m k c')).
Proof.
  intros Hk Ec Hops Hsome. revert m c Hk Ec. induction Hops as [|o ops Ho Hops IH]; intros m c Hk Ec E; cbn [applyPatch fmap list_fmap] in *.
  - injection E as <-. by rewrite set_child_same.
  - destruct (applyOperation false true (Some c) o) as [r|] eqn:Er; [|done]. cbn [try_bind] in E.
    destruct (Hsome o r c Ho Er) as [c1 Hc1]. destruct (apply_shift m k c o r c1 Hk Ec Ho Er Hc1) as (r' & Er' & Hr').
    rewrite Er'. cbn [try_bind]. rewrite Hr', Hc1 in *. rewrite (IH (set_child m k c1) c1); [by rewrite set_set| |by apply set_child_own|done].
    by apply set_child_key.
Qed.

(** An edit keeps a document a document. *)
Lemma walk_some p o s rest m r : walk true None p o s rest (Some m) = Success r -> is_Some (fst r).
Proof.
  destruct rest as [|b rest]; [intros [= <-]; eauto|]. cbn [walk try_bind]. destruct (true && _); [done|].
  assert (forall x : Try (json * OperationResult), (let? r := x in tested r) = Success r -> is_Some (fst r)) as Ht.
  { intros [[v x]|]; [|done]. unfold tested. cbn. destruct (test x) as [[]|]; intros [= <-]; eauto. }
  destruct m as [| | | |l|fs]; cbn [try_bind];
    try (destruct (bool_decide (rest = [])); [apply Ht|]; destruct (read _ _); cbn [try_bind]; [|done];
         destruct (walk _ _ _ _ _ rest _); cbn [try_bind]; intros [= <-]; eauto).
  destruct (array_component _ l b) as [k|]; cbn [try_bind]; [|done].
  destruct (bool_decide (rest = [])); [destruct (_ && _ && _); [done|apply Ht]|]. destruct (read_array l k); cbn [try_bind]; [|done].
  destruct (walk _ _ _ _ _ rest _); cbn [try_bind]; intros [= <-]; eauto.
Qed.

Lemma apply_some o r m : deep o -> applyOperation false true (Some m) o = Success r -> is_Some (newDocument r).
Proof.
  intros (Ho & k & ks & Hp). destruct (apply_run o k ks m Ho Hp) as (f & Hf & ->).
  destruct (run (k :: ks) o m) as [x|] eqn:E; [|done]. intros [= <-]. rewrite Hf. by eapply walk_some.
Qed.

Lemma patch_app m a b m1 : patched m a = Success (Some m1) -> patched m (a ++ b) = patched m1 b.
Proof.
  revert m. cut (forall d, applyPatch false true d a = Success (Some m1) -> applyPatch false true d (a ++ b) = patched m1 b); [auto|].
  induction a as [|o a IH]; cbn [applyPatch app]; intros d E; [by injection E as ->|].
  destruct (applyOperation false true d o); [|done]. by apply IH.
Qed.

(** ** Single edits *)

Lemma patch_one o k m v x : edits o -> path o = render [k] -> run [k] o m = Success (Some v, x) -> patched m [o] = Success (Some v).
Proof.
  intros Ho Hp E. destruct (apply_run o k [] m Ho Hp) as (f & Hf & Ea). cbn [applyPatch]. rewrite Ea, E. cbn [try_bind]. by rewrite Hf.
Qed.

Lemma run_field k o fs : k <> proto_key -> run [k] o (JObj fs) = let? r := object_op o (JObj fs) k in tested r.
Proof.
  intros Hk. unfold run. cbn [fmap list_fmap walk try_bind]. rewrite (bool_decide_false (_ = proto_key)) by (by apply escape_proto).
  cbn [andb]. rewrite bool_decide_true by done. by rewrite unescape_escape.
Qed.

Lemma run_index i o l : (zlen l < 2 ^ 31)%Z -> i <= length l -> (Z.of_nat i < 2 ^ 31)%Z ->
  run [index_str i] o (JArr l) = let? r := array_op o l (Index (Z.of_nat i)) in tested r.
Proof.
  intros Hl Hi Hi2. unfold run. cbn [fmap list_fmap walk try_bind]. rewrite escape_digits by apply index_str_all_digits.
  rewrite (bool_decide_false (_ = proto_key)) by (intros E; pose proof (index_str_all_digits i) as Hd; by rewrite E in Hd).
  cbn [andb try_bind]. rewrite (bool_decide_false (is_Some _)) by (intros []; done). rewrite index_component by done. cbn [try_bind].
  by rewrite bool_decide_true.
Qed.

Lemma render_one k : render [k] = subpath [] k.
Proof. unfold render, subpath. cbn. by rewrite app_nil_r. Qed.

Lemma patch_add_field fs k v : k <> proto_key -> patched (JObj fs) [add_op (subpath [] k) v] = Success (Some (JObj (put_field fs k v))).
Proof.
  intros Hk. eapply (patch_one _ k); [by left|by rewrite render_one|]. rewrite run_field by done. unfold object_op. cbn [op add_op value need of_option try_bind write].
  rewrite (bool_decide_false (k = proto_key)) by done. done.
Qed.

Lemma patch_replace_field fs k c v : k <> proto_key -> get_field fs k = Some c ->
  patched (JObj fs) [replace_op (subpath [] k) v] = Success (Some (JObj (put_field fs k v))).
Proof.
  intros Hk E. eapply (patch_one _ k); [by right; right|by rewrite render_one|]. rewrite run_field by done. unfold object_op.
  cbn [op replace_op value need of_option try_bind write read own_value]. rewrite E. cbn [try_bind].
  rewrite (bool_decide_false (k = proto_key)) by done. done.
Qed.

Lemma patch_remove_field fs k c : k <> proto_key -> get_field fs k = Some c ->
  patched (JObj fs) [remove_op (subpath [] k)] = Success (Some (JObj (del_field fs k))).
Proof.
  intros Hk E. eapply (patch_one _ k); [by right; left|by rewrite render_one|]. rewrite run_field by done. unfold object_op.
  cbn [op remove_op read own_value]. rewrite E. done.
Qed.

Lemma splice_start_in (l : list json) i : i <= length l -> splice_start l (Z.of_nat i) = i.
Proof. intros Hi. unfold splice_start, zlen. destruct (Z.ltb_spec (Z.of_nat i) 0); lia. Qed.

Lemma patch_remove_index l i : (zlen l < 2 ^ 31)%Z -> i < length l ->
  patched (JArr l) [remove_op (subpath [] (index_str i))] = Success (Some (JArr (delete i l))).
Proof.
  intros Hl Hi. eapply (patch_one _ (index_str i)); [by right; left|by rewrite render_one|].
  rewrite run_index by (unfold zlen in *; lia). unfold array_op. cbn [op remove_op try_bind]. by rewrite splice_start_in by lia.
Qed.

Lemma patch_replace_index l i v : (zlen l < 2 ^ 31)%Z -> i < length l ->
  patched (JArr l) [replace_op (subpath [] (index_str i)) v] = Success (Some (JArr (<[i := v]> l))).
Proof.
  intros Hl Hi. eapply (patch_one _ (index_str i)); [by right; right|by rewrite render_one|].
  rewrite run_index by (unfold zlen in *; lia). unfold array_op. cbn [op replace_op value read_array try_bind need of_option].
  rewrite (proj2 (Z.leb_le _ _)), (proj2 (Z.ltb_lt _ _)) by (unfold zlen; lia). cbn [andb try_bind]. by rewrite Nat2Z.id.
Qed.

Lemma patch_push l v : (zlen l + 1 < 2 ^ 31)%Z ->
  patched (JArr l) [add_op (subpath [] (index_str (length l))) v] = Success (Some (JArr (l ++ [v]))).
Proof.
  intros Hl. eapply (patch_one _ (index_str (length l))); [by left|by rewrite render_one|].
  rewrite run_index by (unfold zlen in *; lia). unfold array_op. cbn [op add_op value try_bind need of_option].
  rewrite splice_start_in by lia. rewrite take_ge, drop_ge by lia. done.
Qed.

(** A replacement at a key in a container *)
Lemma patch_replace m k c v : path_key m k -> own_value m k = Some c ->
  patched m [replace_op (subpath [] k) v] = Success (Some (set_child m k v)).
Proof.
  destruct m as [| | | |l|fs]; try done.
  - intros (Hl & i & Hi & ->) _. rewrite patch_replace_index by done. unfold set_child. by rewrite (index_small l), Nat2N.id.
  - intros Hk E. by rewrite (patch_replace_field fs k c).
Qed.
End Patch.
