(* ===== verification/JsonCompare.v ===== *)
(** * JsonCompare: what a comparison finds, applied to the compared document *)

From S2P Require Import Prelude JsCore JsHeap JsonTree JsonPatch JsonPaths.

(** Arrays stand where arrays stand, and objects where objects do. *)
Inductive alike : json -> json -> Prop :=
| alike_leaf v w : is_container v && is_container w = false -> alike v w
| alike_arr l1 l2 : (forall i x y, l1 !! i = Some x -> l2 !! i = Some y -> alike x y) -> alike (JArr l1) (JArr l2)
| alike_obj fs1 fs2 : (forall k x y, get_field fs1 k = Some x -> get_field fs2 k = Some y -> alike x y) -> alike (JObj fs1) (JObj fs2).

Lemma alike_zip l1 l2 : Forall (fun p => alike p.1 p.2) (zip l1 l2) -> alike (JArr l1) (JArr l2).
Proof.
  intros Hz. apply alike_arr. intros i x y Ex Ey. rewrite Forall_lookup in Hz. apply (Hz i (x, y)). by rewrite lookup_zip_with, Ex, Ey.
Qed.

Lemma alike_fields fs1 fs2 :
  Forall (fun kv : jsstr * json => match get_field fs2 kv.1 with Some y => alike kv.2 y | None => True end) fs1 -> alike (JObj fs1) (JObj fs2).
Proof.
  intros Hf. apply alike_obj. intros k x y Ex%get_field_in Ey. rewrite Forall_forall in Hf. specialize (Hf (k, x) Ex). cbn in Hf. by rewrite Ey in Hf.
Qed.

(** Proves [wf], [alike] and [no_prototype] of concrete documents. *)
Ltac document_tac :=
  repeat first
    [ progress cbn [fst snd zip zip_with]
    | apply List.Forall_nil
    | apply List.Forall_cons
    | apply alike_leaf; reflexivity
    | apply alike_zip
    | apply alike_fields
    | apply wf_null | apply wf_bool | apply wf_num | apply wf_str
    | apply wf_arr; [by vm_compute|]
    | apply wf_obj; [by apply (bool_decide_unpack _)|by apply (bool_decide_unpack _)|]
    | match goal with |- match get_field ?fs ?k with _ => _ end =>
        let r := eval vm_compute in (get_field fs k) in
        match r with None => exact I | Some _ => change (get_field fs k) with r; cbn iota end end ].

(** ** Comparing below a path *)

Lemma shift_shift a b o : shift a (shift b o) = shift (a ++ b) o.
Proof. unfold shift. cbn. by rewrite app_assoc. Qed.

Lemma shift_nil o : shift [] o = o.
Proof. by destruct o. Qed.

Definition shifts (pre : jsstr) (r : Try (list operation)) : Try (list operation) := try_map (fmap (shift pre)) r.

Lemma shifts_shifts a b r : shifts a (shifts b r) = shifts (a ++ b) r.
Proof. destruct r; cbn; [|done]. rewrite <- list_fmap_compose. f_equal. apply list_fmap_ext. intros i o _. apply shift_shift. Qed.

Lemma compare_key_shift go e t pre ns s p :
  (forall c l q, go c l (pre ++ q) = shifts pre (go c l q)) ->
  compare_key go e t pre (shift pre <$> ns, s) p = try_map (fun r => (shift pre <$> fst r, snd r)) (compare_key go e t [] (ns, s) p).
Proof.
  intros Hgo. unfold compare_key. cbn [fst snd]. change (subpath pre p) with (pre ++ subpath [] p).
  destruct (own_value t p) as [l|].
  - destruct (own_value e p) as [c|]; [destruct (_ && _); [|destruct (same_primitive c l)]|].
    + rewrite Hgo. destruct (go c l _); cbn; [|done]. by rewrite fmap_app.
    + done.
    + cbn. by rewrite fmap_app.
    + cbn. by rewrite fmap_app.
  - destruct (Bool.eqb _ _); cbn; rewrite fmap_app; [done|]. cbn. unfold shift, replace_op at 3. cbn. by rewrite app_nil_r.
Qed.

Lemma compare_loop_shift go e t pre ps : (forall c l q, go c l (pre ++ q) = shifts pre (go c l q)) -> forall ns s,
  try_fold (compare_key go e t pre) (shift pre <$> ns, s) ps =
  try_map (fun r => (shift pre <$> fst r, snd r)) (try_fold (compare_key go e t []) (ns, s) ps).
Proof.
  intros Hgo. induction ps as [|p ps IH]; intros ns s; [done|]. cbn [try_fold]. rewrite compare_key_shift by done.
  destruct (compare_key go e t [] (ns, s) p) as [[ns' s']|]; [|done]. apply IH.
Qed.

Lemma added_keys_shift e t pre keys : added_keys e t pre keys = shift pre <$> added_keys e t [] keys.
Proof.
  unfold added_keys. induction keys as [|p keys IH]; [done|]. cbn [omap list_omap]. rewrite IH.
  destruct (own_value e p), (own_value t p); done.
Qed.

Lemma generate_shift fuel : forall e t pre, generate fuel e t pre = shifts pre (generate fuel e t []).
Proof.
  induction fuel as [|fuel IH]; intros e t pre; [done|]. cbn [generate].
  destruct (same_primitive t e); [done|]. destruct (is_null t || is_null e); [done|].
  change (@nil operation, false) with (shift pre <$> @nil operation, false) at 1. rewrite compare_loop_shift.
  - destruct (try_fold (compare_key (generate fuel) e t []) _ _) as [[ns s]|]; [|done]. cbn [try_map try_bind fst snd].
    destruct (s || _); cbn; [|done]. by rewrite fmap_app, added_keys_shift.
  - intros c l q. by rewrite (IH c l (pre ++ q)), (IH c l q), shifts_shifts.
Qed.

Section Compare.
Context `{Builtins}.

Notation patched m ops := (applyPatch false true (Some m) ops).

(** What a patch makes of a value *)
Definition good (v w : json) : Prop := same v w /\ wf v.

Lemma good_refl v : wf v -> good v v.
Proof. by split; [apply same_refl|]. Qed.

(** Comparisons with enough fuel lead from the one to the other. *)
Definition patch_ok (fuel : nat) : Prop := forall e t, depth e < fuel -> wf e -> wf t -> alike e t ->
  is_container e = true -> is_container t = true -> exists ops e',
  generate fuel e t [] = Success ops /\ Forall deep ops /\ patched e ops = Success (Some e') /\ good e' t.

(** ** One key *)

Lemma deep_shift k o : deep o -> deep (shift (subpath [] k) o).
Proof.
  intros (Ho & k' & ks & Hp). split; [done|]. exists k, (k' :: ks). cbn. by rewrite Hp.
Qed.

Lemma deep_at k o : edits o -> path o = subpath [] k -> deep o.
Proof. intros Ho Hp. split; [done|]. exists k, []. by rewrite render_one. Qed.

Lemma key_ops fuel e t p c : patch_ok fuel -> own_value e p = Some c -> depth c < fuel -> wf c ->
  (forall l, own_value t p = Some l -> alike c l /\ wf l) -> is_array e = is_array t -> exists ops,
  (forall ns s, compare_key (generate fuel) e t [] (ns, s) p =
     Success (ns ++ ops, if own_value t p then s else true)) /\
  Forall deep ops /\
  match own_value t p with
  | None => ops = [remove_op (subpath [] p)]
  | Some l => exists c', good c' l /\
      forall m, path_key m p -> own_value m p = Some c -> patched m ops = Success (Some (set_child m p c'))
  end.
Proof.
  intros IH Ec Hd Hw Hl Hkind. unfold compare_key. rewrite Ec, Hkind, Bool.eqb_reflx. cbn [fst snd].
  destruct (own_value t p) as [l|]; cbn.
  2: { exists [remove_op (subpath [] p)]. split_and!; [done| |done]. constructor; [|constructor]. apply (deep_at p); [by right; left|done]. }
  destruct (Hl l eq_refl) as [Ha Hwl]. destruct (is_container c && is_container l) eqn:Ecl.
  - apply andb_prop in Ecl as [Hcc Hcl]. destruct (IH c l Hd Hw Hwl Ha Hcc Hcl) as (ops & c' & Eg & Hdeep & Ep & Hs).
    exists (shift (subpath [] p) <$> ops). split_and!.
    + intros ns s. by rewrite generate_shift, Eg.
    + apply Forall_fmap. eapply Forall_impl; [exact Hdeep|]. intros o. apply deep_shift.
    + exists c'. split; [done|]. intros m Hk Em. rewrite <- render_one. eapply patch_shift; [done..|apply apply_some|done].
  - destruct (same_primitive c l) eqn:Es.
    + apply same_primitive_eq in Es as [-> _]. exists []. split_and!; [|constructor|].
      * intros ns s. by rewrite app_nil_r.
      * exists l. split; [by apply good_refl|]. intros m Hk Em. by rewrite set_child_same.
    + exists [replace_op (subpath [] p) l]. split_and!; [done| |].
      * constructor; [|constructor]. apply (deep_at p); [by right; right|done].
      * exists l. split; [by apply good_refl|]. intros m Hk Em. by apply (patch_replace m p c).
Qed.

(** ** Arrays *)

Lemma own_index_arr l i : (zlen l < 2 ^ 31)%Z -> i < length l -> own_value (JArr l) (index_str i) = l !! i.
Proof. intros Hl Hi. apply own_index. unfold zlen in Hl. lia. Qed.

Lemma array_loop fuel xs ys : patch_ok fuel -> (forall x, x ∈ xs -> depth x < fuel) -> wf (JArr xs) -> wf (JArr ys) ->
  alike (JArr xs) (JArr ys) -> forall j ns s ws, j <= length xs -> Forall2 good ws (drop j (take (length xs) ys)) ->
  exists ops s' zs, try_fold (compare_key (generate fuel) (JArr xs) (JArr ys) []) (ns, s) (reverse (index_str <$> seq 0 j)) = Success (ns ++ ops, s') /\
    Forall deep ops /\ patched (JArr (take j xs ++ ws)) ops = Success (Some (JArr zs)) /\ Forall2 good zs (take (length xs) ys).
Proof.
  intros IH Hd Hwx Hwy Ha. inversion Hwx as [| | | |? Hlx Hx|]; subst. inversion Hwy as [| | | |? Hly Hy|]; subst.
  induction j as [|j IHj]; intros ns s ws Hj Hws.
  { exists [], s, ws. split_and!; [by rewrite app_nil_r|constructor|done|done]. }
  rewrite seq_S, fmap_app, reverse_app. cbn [fmap list_fmap reverse rev_append app try_fold].
  destruct (lookup_lt_is_Some_2 xs j ltac:(lia)) as [x Ex]. pose proof (own_index_arr xs j Hlx ltac:(lia)) as Eox. rewrite Ex in Eox.
  assert (own_value (JArr ys) (index_str j) = ys !! j) as Eoy by (apply own_index; unfold zlen in *; lia).
  destruct (key_ops fuel (JArr xs) (JArr ys) (index_str j) x IH Eox) as (ops & Ek & Hdeep & Heff); [| | |done|].
  { eapply Hd, list_elem_of_lookup_2, Ex. }
  { rewrite Forall_forall in Hx. eapply Hx, list_elem_of_lookup_2, Ex. }
  { intros l El. rewrite Eoy in El. split; [|rewrite Forall_forall in Hy; eapply Hy, list_elem_of_lookup_2, El].
    inversion Ha as [v w Hc| |]; subst; [done|eauto]. }
  cbn [Nat.add]. rewrite Ek. cbn [try_bind]. rewrite Eoy in *.
  assert (take (S j) xs = take j xs ++ [x]) as Et by (by apply take_S_r).
  assert (length (take j xs) = j) as Ej by (rewrite length_take; lia).
  assert (length ws <= length xs - S j) as Hlw.
  { apply Forall2_length in Hws. rewrite Hws, length_drop, length_take. lia. }
  rewrite Et. destruct (ys !! j) as [y|] eqn:Ey.
  - destruct Heff as (c' & Hs & Heff). destruct (IHj (ns ++ ops) s (c' :: ws)) as (ops2 & s' & zs & E2 & Hdeep2 & Ep & Hz); [lia| |].
    { rewrite (drop_S _ y); [by constructor|]. rewrite lookup_take_lt by lia. done. }
    exists (ops ++ ops2), s', zs. split_and!; [by rewrite E2, app_assoc|by apply Forall_app| |done].
    rewrite (patch_app _ _ _ (JArr (take j xs ++ c' :: ws))); [done|]. rewrite <- app_assoc. cbn [app].
    assert ((take j xs ++ x :: ws) !! j = Some x) as Ejx by (by rewrite list_lookup_middle).
    assert (zlen (take j xs ++ x :: ws) < 2 ^ 31)%Z as Hz31 by (unfold zlen in *; rewrite length_app; cbn [length]; lia).
    assert (j < length (take j xs ++ x :: ws)) as Hjl by (rewrite length_app; cbn [length]; lia).
    rewrite Heff.
    + unfold set_child. rewrite (index_small (take j xs ++ x :: ws)), Nat2N.id by done. do 3 f_equal.
      rewrite insert_app_r_alt by lia. by rewrite Ej, Nat.sub_diag.
    + split; [done|]. eauto.
    + by rewrite own_index_arr.
  - subst ops. apply lookup_ge_None in Ey. assert (ws = []) as ->.
    { apply Forall2_length in Hws. rewrite length_drop, length_take in Hws. destruct ws; [done|cbn in Hws; lia]. }
    destruct (IHj (ns ++ [remove_op (subpath [] (index_str j))]) true []) as (ops2 & s' & zs & E2 & Hdeep2 & Ep & Hz); [lia| |].
    { rewrite drop_ge; [constructor|]. rewrite length_take. lia. }
    exists ([remove_op (subpath [] (index_str j))] ++ ops2), s', zs. split_and!; [by rewrite E2, app_assoc|by apply Forall_app| |done].
    rewrite (patch_app _ _ _ (JArr (take j xs))); [by rewrite app_nil_r in Ep|]. rewrite app_nil_r.
    rewrite patch_remove_index; [|unfold zlen in *; rewrite length_app; cbn [length]; lia|rewrite length_app; cbn [length]; lia].
    do 3 f_equal. rewrite <- Ej at 1. by rewrite delete_middle, app_nil_r.
Qed.
Lemma added_old e t o keys : (forall p, p ∈ keys -> is_Some (own_value e p)) -> added_keys e t o keys = [].
Proof.
  induction keys as [|p keys IH]; intros Hk; [done|]. unfold added_keys. cbn [omap list_omap]. fold (added_keys e t o keys).
  destruct (Hk p ltac:(by left)) as [v ->]. apply IH. intros q Hq. apply Hk. by right.
Qed.

Lemma added_app e t o a b : added_keys e t o (a ++ b) = added_keys e t o a ++ added_keys e t o b.
Proof. apply omap_app. Qed.

Lemma added_deep e t keys : Forall deep (added_keys e t [] keys).
Proof.
  apply Forall_forall. intros o. unfold added_keys. rewrite list_elem_of_omap. intros (p & _ & Ho).
  destruct (own_value e p), (own_value t p); try done. injection Ho as <-. apply (deep_at p); [by left|done].
Qed.

Lemma array_added xs ys k : (zlen ys < 2 ^ 31)%Z -> forall i zs, length xs <= i -> length zs = i -> i + k = length ys ->
  patched (JArr zs) (added_keys (JArr xs) (JArr ys) [] (index_str <$> seq i k)) = Success (Some (JArr (zs ++ drop i ys))).
Proof.
  intros Hl. induction k as [|k IH]; intros i zs Hx Hz Hy.
  - cbn. rewrite drop_ge by lia. by rewrite app_nil_r.
  - rewrite <- cons_seq, fmap_cons. unfold added_keys. cbn [omap list_omap]. fold (added_keys (JArr xs) (JArr ys) [] (index_str <$> seq (S i) k)).
    unfold zlen in Hl. rewrite !own_index by lia. rewrite lookup_ge_None_2 by lia.
    destruct (lookup_lt_is_Some_2 ys i ltac:(lia)) as [y Ey]. rewrite Ey.
    change (?o :: ?l) with ([o] ++ l). rewrite (patch_app _ _ _ (JArr (zs ++ [y]))).
    + rewrite IH by (rewrite ?length_app; cbn [length]; lia). rewrite (drop_S ys y i Ey), <- app_assoc. done.
    + rewrite <- Hz. apply patch_push. unfold zlen. lia.
Qed.

Lemma compare_arrays fuel xs ys : patch_ok fuel -> (forall x, x ∈ xs -> depth x < fuel) -> wf (JArr xs) -> wf (JArr ys) ->
  alike (JArr xs) (JArr ys) -> exists ops e', generate (S fuel) (JArr xs) (JArr ys) [] = Success ops /\ Forall deep ops /\
  patched (JArr xs) ops = Success (Some e') /\ good e' (JArr ys).
Proof.
  intros IH Hd Hwx Hwy Ha. destruct (array_loop fuel xs ys IH Hd Hwx Hwy Ha (length xs) [] false []) as (ops & s & zs & E & Hdeep & Ep & Hs).
  { done. }
  { rewrite drop_ge; [constructor|]. rewrite length_take. lia. }
  inversion Hwx as [| | | |? Hlx Hx|]; subst. inversion Hwy as [| | | |? Hly Hy|]; subst.
  rewrite firstn_all, app_nil_r in Ep.
  assert (patched (JArr xs) (ops ++ added_keys (JArr xs) (JArr ys) [] (object_keys (JArr ys))) = Success (Some (JArr (zs ++ drop (length xs) ys)))) as Eall.
  { rewrite (patch_app _ _ _ _ Ep). apply Forall2_length in Hs. rewrite length_take in Hs. cbn [object_keys].
    destruct (decide (length ys <= length xs)) as [Hle|Hlt].
    - rewrite added_old; [rewrite drop_ge by lia; by rewrite app_nil_r|]. intros p (i & -> & Hi)%list_elem_of_fmap.
      apply elem_of_seq in Hi. rewrite own_index_arr by (done || lia). apply lookup_lt_is_Some_2. lia.
    - replace (length ys) with (length xs + (length ys - length xs)) by lia. rewrite seq_app, fmap_app, added_app.
      rewrite added_old; [cbn [app]; apply array_added; [done|lia..]|]. intros p (i & -> & Hi)%list_elem_of_fmap.
      apply elem_of_seq in Hi. rewrite own_index_arr by (done || lia). apply lookup_lt_is_Some_2. lia. }
  assert (Forall2 good (zs ++ drop (length xs) ys) ys) as Hgood.
  { rewrite <- (take_drop (length xs) ys) at 2. apply Forall2_app; [done|]. apply Forall_Forall2_diag, Forall_drop.
    eapply Forall_impl; [exact Hy|apply good_refl]. }
  assert (good (JArr (zs ++ drop (length xs) ys)) (JArr ys)) as Hsame.
  { split; constructor.
    - eapply Forall2_impl; [exact Hgood|]. by intros v w [? _].
    - unfold zlen. by rewrite (Forall2_length _ _ _ Hgood).
    - eapply (Forall2_Forall_l good wf); [exact Hgood|]. apply Forall_true. by intros w v [_ ?]. }
  cbn [generate same_primitive is_null orb]. change (object_keys (JArr xs)) with (index_str <$> seq 0 (length xs)). rewrite E. cbn [try_bind fst snd app].
  destruct (s || _) eqn:Eflag.
  - eexists _, _. split; [done|]. split; [by apply Forall_app, conj, added_deep|]. by split.
  - apply orb_false_iff in Eflag as [_ Elen]. apply negb_false_iff, Nat.eqb_eq in Elen. cbn [object_keys] in Elen. rewrite !length_fmap, !length_seq in Elen.
    exists ops, (JArr (zs ++ drop (length xs) ys)). split_and!; [done|done| |done]. rewrite <- Eall. f_equal.
    rewrite added_old; [by rewrite app_nil_r|]. cbn [object_keys]. intros p (i & -> & Hi)%list_elem_of_fmap.
    apply elem_of_seq in Hi. rewrite own_index_arr by (done || lia). apply lookup_lt_is_Some_2. lia.
Qed.

(** ** Objects *)

Definition keys_ok (fs : fields) : Prop := NoDup fs.*1 /\ proto_key ∉ fs.*1.

Lemma keys_ok_put fs k v : keys_ok fs -> k <> proto_key -> keys_ok (put_field fs k v).
Proof.
  intros [H1 H2] Hk. unfold keys_ok. rewrite put_field_keys. destruct (decide (k ∈ fs.*1)); [done|]. split.
  - apply NoDup_app. split_and!; [done| |apply NoDup_singleton]. intros x Hx ->%list_elem_of_singleton. done.
  - rewrite elem_of_app, list_elem_of_singleton. intros [?|E]; [done|]. by apply Hk.
Qed.

Lemma del_field_keys fs k : (del_field fs k).*1 = filter (fun k' => k' <> k) fs.*1.
Proof.
  unfold del_field. induction fs as [|[k' v] fs IH]; [done|]. rewrite fmap_cons, !filter_cons. cbn [fst].
  destruct (decide (k' <> k)); [by rewrite fmap_cons, IH|done].
Qed.

Lemma keys_ok_del fs k : keys_ok fs -> keys_ok (del_field fs k).
Proof.
  intros [H1 H2]. unfold keys_ok. rewrite del_field_keys. split; [by apply NoDup_filter|]. by intros [_ ?]%list_elem_of_filter.
Qed.

Lemma object_loop fuel fs gs : patch_ok fuel -> (forall k c, get_field fs k = Some c -> depth c < fuel) -> wf (JObj fs) -> wf (JObj gs) ->
  alike (JObj fs) (JObj gs) -> forall ks ns s hs, keys_ok hs -> NoDup ks -> (forall k, k ∈ ks -> k ∈ fs.*1 /\ get_field hs k = get_field fs k) ->
  exists ops hs', try_fold (compare_key (generate fuel) (JObj fs) (JObj gs) []) (ns, s) ks =
      Success (ns ++ ops, s || existsb (fun k => negb (bool_decide (is_Some (get_field gs k)))) ks) /\
    Forall deep ops /\ patched (JObj hs) ops = Success (Some (JObj hs')) /\
    (forall k, k ∈ ks -> option_Forall2 good (get_field hs' k) (get_field gs k)) /\
    (forall k, k ∉ ks -> get_field hs' k = get_field hs k) /\ keys_ok hs'.
Proof.
  intros IH Hd Hwf Hwg Ha. inversion Hwf as [| | | | |? Hndf Hpf Hf]; subst. inversion Hwg as [| | | | |? Hndg Hpg Hg]; subst.
  induction ks as [|p ks IHk]; intros ns s hs Hok Hnd Hks.
  { exists [], hs. split_and!; [by rewrite app_nil_r, orb_false_r|constructor|done|by intros k ?%elem_of_nil|done|done]. }
  apply NoDup_cons in Hnd as [Hpn Hnd]. destruct (Hks p ltac:(by left)) as [Hpin Hhp].
  destruct (proj2 (get_field_some fs p) Hpin) as [c Ec].
  destruct (key_ops fuel (JObj fs) (JObj gs) p c IH Ec) as (ops & Ek & Hdeep & Heff); [by eapply Hd| | |done|].
  { rewrite Forall_forall in Hf. by apply (Hf (p, c)), get_field_in. }
  { intros l El. cbn in El. split; [inversion Ha as [v w Hc| |]; subst; [done|eauto]|]. rewrite Forall_forall in Hg. by apply (Hg (p, l)), get_field_in. }
  assert (p <> proto_key) as Hpp by (intros ->; done).
  cbn [try_fold]. rewrite Ek. cbn [try_bind own_value] in *.
  assert (exists hs1, patched (JObj hs) ops = Success (Some (JObj hs1)) /\ option_Forall2 good (get_field hs1 p) (get_field gs p) /\
    (forall k, k <> p -> get_field hs1 k = get_field hs k) /\ keys_ok hs1) as (hs1 & Ep & Hs1 & Ho1 & Hok1).
  { destruct (get_field gs p) as [l|] eqn:El.
    - destruct Heff as (c' & Hs & Heff). exists (put_field hs p c'). split; [apply (Heff (JObj hs)); [done|cbn; by rewrite Hhp]|]. rewrite get_put, decide_True by done.
      split; [by constructor|]. split; [|by apply keys_ok_put]. intros k Hk. by rewrite get_put, decide_False.
    - subst ops. exists (del_field hs p). rewrite (patch_remove_field hs p c); [|done|by rewrite Hhp]. split; [done|]. rewrite get_del, decide_True by done.
      split; [constructor|]. split; [|by apply keys_ok_del]. intros k Hk. by rewrite get_del, decide_False. }
  destruct (IHk (ns ++ ops) (if get_field gs p then s else true) hs1) as (ops2 & hs2 & E2 & Hdeep2 & Ep2 & Hin2 & Hout2 & Hok2); [done|done| |].
  { intros k Hk. destruct (Hks k ltac:(by right)) as [H1 H2]. split; [done|]. rewrite Ho1; [done|]. by intros ->. }
  exists (ops ++ ops2), hs2. split_and!.
  - rewrite E2, app_assoc. cbn [existsb]. destruct (get_field gs p) as [l|]; [rewrite bool_decide_true by eauto; by rewrite orb_false_l|].
    rewrite bool_decide_false by (intros [? [=]]). cbn. by rewrite orb_true_r.
  - by apply Forall_app.
  - by rewrite (patch_app _ _ _ _ Ep).
  - intros k [->|Hk]%elem_of_cons; [by rewrite Hout2|by apply Hin2].
  - intros k [Hk1 Hk2]%not_elem_of_cons. by rewrite Hout2, Ho1.
  - done.
Qed.

Lemma object_added fs gs ks : proto_key ∉ gs.*1 -> NoDup ks -> (forall k, k ∈ ks -> k ∈ gs.*1) -> forall hs, keys_ok hs -> exists hs',
  patched (JObj hs) (added_keys (JObj fs) (JObj gs) [] ks) = Success (Some (JObj hs')) /\
  (forall k, get_field hs' k = if decide (k ∈ ks /\ get_field fs k = None) then get_field gs k else get_field hs k) /\ keys_ok hs'.
Proof.
  intros Hp. induction ks as [|p ks IH]; intros Hnd Hks hs Hok.
  { exists hs. split_and!; [done| |done]. intros k. rewrite decide_False; [done|]. by intros [?%elem_of_nil _]. }
  apply NoDup_cons in Hnd as [Hpn Hnd]. unfold added_keys. cbn [omap list_omap own_value]. fold (added_keys (JObj fs) (JObj gs) [] ks).
  destruct (proj2 (get_field_some gs p) (Hks p ltac:(by left))) as [v Ev]. rewrite Ev.
  assert (p <> proto_key) as Hpp by (intros ->; apply Hp, get_field_some; eauto).
  destruct (get_field fs p) as [c|] eqn:Ec.
  - destruct (IH Hnd ltac:(intros k Hk; apply Hks; by right) hs Hok) as (hs' & E & Hg & Hok'). exists hs'. split_and!; [done| |done].
    intros k. rewrite Hg. apply decide_ext. rewrite elem_of_cons. split; [tauto|]. intros [[->|Hk] Hn]; [congruence|done].
  - destruct (IH Hnd ltac:(intros k Hk; apply Hks; by right) (put_field hs p v)) as (hs' & E & Hg & Hok'); [by apply keys_ok_put|].
    exists hs'. split_and!; [| |done].
    + change (?o :: ?l) with ([o] ++ l). rewrite (patch_app _ _ _ (JObj (put_field hs p v))); [done|]. by apply patch_add_field.
    + intros k. rewrite Hg, get_put. destruct (decide (k = p)) as [->|Hk].
      * rewrite decide_False by (intros [? _]; done). rewrite decide_True by done. rewrite decide_True by (split; [by left|done]). done.
      * rewrite (decide_False _ _ (P := p = k)) by done. apply decide_ext. rewrite elem_of_cons. tauto.
Qed.

Lemma compare_objects fuel fs gs : patch_ok fuel -> (forall k c, get_field fs k = Some c -> depth c < fuel) -> wf (JObj fs) -> wf (JObj gs) ->
  alike (JObj fs) (JObj gs) -> exists ops e', generate (S fuel) (JObj fs) (JObj gs) [] = Success ops /\ Forall deep ops /\
  patched (JObj fs) ops = Success (Some e') /\ good e' (JObj gs).
Proof.
  intros IH Hd Hwf Hwg Ha. inversion Hwf as [| | | | |? Hndf Hpf Hf]; subst. inversion Hwg as [| | | | |? Hndg Hpg Hg]; subst.
  assert (forall k, k ∈ field_keys fs <-> k ∈ fs.*1) as Hkf by (intros k; by rewrite field_keys_perm).
  assert (forall k, k ∈ field_keys gs <-> k ∈ gs.*1) as Hkg by (intros k; by rewrite field_keys_perm).
  destruct (object_loop fuel fs gs IH Hd Hwf Hwg Ha (reverse (field_keys fs)) [] false fs)
    as (ops & hs & E & Hdeep & Ep & Hin & Hout & Hok); [done|by rewrite reverse_Permutation, field_keys_perm| |].
  { intros k Hk%elem_of_reverse%Hkf. done. }
  destruct (object_added fs gs (field_keys gs) Hpg) with (hs := hs) as (hs' & Ea & Hg' & Hok'); [by rewrite field_keys_perm|by intros k ?%Hkg|done|].
  pose proof (patch_app _ _ (added_keys (JObj fs) (JObj gs) [] (field_keys gs)) _ Ep) as Eall. rewrite Ea in Eall.
  assert (forall k, option_Forall2 good (get_field hs' k) (get_field gs k)) as Hall.
  { intros k. rewrite Hg'. destruct (decide _) as [[Hk1 Hk2]|Hk].
    - destruct (get_field gs k) as [v|] eqn:Ev; constructor. apply good_refl. rewrite Forall_forall in Hg. by apply (Hg (k, v)), get_field_in.
    - destruct (decide (k ∈ fs.*1)) as [Hf'|Hf']; [apply Hin; by rewrite elem_of_reverse, Hkf|].
      rewrite Hout by (by rewrite elem_of_reverse, Hkf). apply get_field_none in Hf'. rewrite Hf'.
      rewrite Hkg, Hf' in Hk. destruct (get_field gs k) as [v|] eqn:Ev; [|constructor]. destruct Hk. split; [apply get_field_some; eauto|done]. }
  assert (good (JObj hs') (JObj gs)) as Hgood.
  { destruct Hok' as [Hnd' Hp']. split; constructor; [|done|done|].
    - intros k. destruct (Hall k) as [v w [? _]|]; by constructor.
    - apply Forall_forall. intros [k v] Hkv. assert (get_field hs' k = Some v) as Ev.
      { clear -Hnd' Hkv. induction hs' as [|[k' w] hs' IH]; [by apply elem_of_nil in Hkv|]. rewrite fmap_cons in Hnd'. apply NoDup_cons in Hnd' as [Hn Hnd'].
        cbn in *. apply elem_of_cons in Hkv as [[= -> ->]|Hkv]; [by rewrite bool_decide_true|]. rewrite bool_decide_false; [by apply IH|].
        intros ->. apply Hn. apply list_elem_of_fmap. by exists (k, v). }
      pose proof (Hall k) as Hk. rewrite Ev in Hk. by inversion Hk as [? ? [? ?]|]. }
  cbn [generate same_primitive is_null orb object_keys]. rewrite E. cbn [try_bind fst snd app].
  destruct (false || _ || _) eqn:Eflag.
  - eexists _, _. split; [done|]. split; [by apply Forall_app, conj, added_deep|]. by split.
  - apply orb_false_iff in Eflag as [Eex Elen]. rewrite orb_false_l in Eex. apply negb_false_iff, Nat.eqb_eq in Elen.
    exists ops, (JObj hs'). split_and!; [done|done| |done]. rewrite <- Eall. f_equal.
    rewrite added_old; [by rewrite app_nil_r|]. intros p Hp%Hkg. cbn [own_value]. apply get_field_some.
    assert (fs.*1 ≡ₚ gs.*1) as Hperm; [|by rewrite Hperm].
    apply submseteq_length_Permutation; [|rewrite !field_keys_perm in Elen; lia].
    apply NoDup_submseteq; [done|]. intros k Hk. apply get_field_some.
    destruct (get_field gs k) as [v|] eqn:Ev; [eauto|]. exfalso. apply not_true_iff_false in Eex. apply Eex.
    apply existsb_exists. exists k. split; [by apply list_elem_of_In, elem_of_reverse, Hkf|]. by rewrite Ev.
Qed.

Lemma all_patches fuel : patch_ok fuel.
Proof.
  induction fuel as [|fuel IH]; intros e t Hd Hwe Hwt Ha Hce Hct; [lia|].
  destruct Ha as [v w Hc|l1 l2 Ha|fs gs Ha]; [by rewrite Hce, Hct in Hc| |].
  - apply compare_arrays; [done| |done|done|by constructor]. intros x Hx. pose proof (depth_elem _ _ Hx). cbn [depth] in Hd. lia.
  - apply compare_objects; [done| |done|done|by constructor]. intros k x Hx. pose proof (depth_field _ _ _ Hx). cbn [depth] in Hd. lia.
Qed.
End Compare.
