(* ===== verification/JsonCompareThms.v ===== *)
(** * JsonCompareThms: comparisons, observers and pointers *)

From S2P Require Import Prelude JsCore JsHeap JsonTree JsonPatch JsonPaths JsonCompare.

(** ** Equal documents *)

Lemma same_container v w : same v w -> is_container v = is_container w.
Proof. by destruct 1. Qed.

Lemma same_leaf v w : same v w -> is_container v = false -> same_primitive v w = true.
Proof. intros Hs Hc. destruct Hs; try done; apply same_primitive_eq; done. Qed.

Lemma compare_key_same go e t o ns p c l : own_value e p = Some c -> own_value t p = Some l -> same c l ->
  (is_container c = true -> go c l (subpath o p) = Success []) -> compare_key go e t o ns p = Success ns.
Proof.
  intros Ec El Hs Hgo. unfold compare_key. rewrite Ec, El, <- (same_container _ _ Hs), andb_diag.
  destruct (is_container c) eqn:E.
  - rewrite Hgo by done. cbn. rewrite app_nil_r. by destruct ns.
  - by rewrite same_leaf.
Qed.

Lemma try_fold_same {A S} (f : S -> A -> Try S) s l : (forall x, x ∈ l -> f s x = Success s) -> try_fold f s l = Success s.
Proof.
  induction l as [|x l IH]; intros Hf; [done|]. cbn. rewrite Hf by (by left). apply IH. intros y Hy. apply Hf. by right.
Qed.

Lemma same_fields_perm fs gs : NoDup fs.*1 -> NoDup gs.*1 ->
  (forall k, option_Forall2 same (get_field fs k) (get_field gs k)) -> fs.*1 ≡ₚ gs.*1.
Proof.
  intros Hf Hg Hs. apply NoDup_Permutation; [done..|]. intros k. rewrite <- !get_field_some.
  specialize (Hs k). split; intros [v E]; rewrite E in Hs; inversion Hs; eauto.
Qed.

Lemma generate_same fuel e t : depth e < fuel -> wf e -> wf t -> same e t -> is_container e = true -> generate fuel e t [] = Success [].
Proof.
  revert e t. induction fuel as [|fuel IH]; intros e t Hd Hwe Hwt Hs Hc; [lia|].
  assert (forall c l q, depth c < fuel -> wf c -> wf l -> same c l -> is_container c = true -> generate fuel c l q = Success []) as Hgo.
  { intros c l q H1 H2 H3 H4 H5. by rewrite generate_shift, (IH c l). }
  destruct Hs as [| | | |xs ys Hs|fs gs Hs]; try done; cbn [generate same_primitive is_null orb]; rewrite try_fold_same; cbn [try_bind fst snd orb].
  - cbn [object_keys]. rewrite !length_fmap, !length_seq, (Forall2_length _ _ _ Hs), Nat.eqb_refl. done.
  - inversion Hwe as [| | | |? Hlx Hx|]; subst. inversion Hwt as [| | | |? Hly Hy|]; subst.
    intros p Hp. rewrite elem_of_reverse in Hp. apply list_elem_of_fmap in Hp as (i & -> & Hi%elem_of_seq). pose proof (Forall2_length _ _ _ Hs) as Hlen.
    destruct (lookup_lt_is_Some_2 xs i ltac:(lia)) as [x Ex]. destruct (Forall2_lookup_l _ _ _ _ _ Hs Ex) as (y & Ey & Hxy).
    eapply (compare_key_same _ _ _ _ _ _ x y); [rewrite own_index_arr by (done || lia); done..|done|].
    rewrite Forall_forall in Hx, Hy. pose proof (list_elem_of_lookup_2 _ _ _ Ex) as Hxin. pose proof (depth_elem _ _ Hxin). cbn [depth] in Hd.
    apply Hgo; [lia|by apply Hx|eapply Hy, list_elem_of_lookup_2, Ey|done].
  - inversion Hwe as [| | | | |? Hndf Hpf Hf]; subst. inversion Hwt as [| | | | |? Hndg Hpg Hg]; subst. cbn [object_keys].
    rewrite !field_keys_perm, (same_fields_perm fs gs), Nat.eqb_refl by done. done.
  - inversion Hwe as [| | | | |? Hndf Hpf Hf]; subst. inversion Hwt as [| | | | |? Hndg Hpg Hg]; subst.
    intros p Hp. rewrite elem_of_reverse in Hp. cbn [object_keys] in Hp. rewrite field_keys_perm in Hp. apply get_field_some in Hp as [c Ec].
    pose proof (Hs p) as Hsp. rewrite Ec in Hsp. inversion Hsp as [? l Hcl Ec' El|]; subst. symmetry in El.
    eapply (compare_key_same _ _ _ _ _ _ c l); [done..|]. pose proof (depth_field _ _ _ Ec). cbn [depth] in Hd.
    rewrite Forall_forall in Hf, Hg. apply Hgo; [lia|by apply (Hf (p, c)), get_field_in|by apply (Hg (p, l)), get_field_in|done].
Qed.

Section Thms.
Context `{Builtins}.

Lemma compare_good e t : wf e -> wf t -> alike e t -> is_container e = true -> is_container t = true -> exists ops e',
  compare e t = Success ops /\ Forall deep ops /\ applyPatch false true (Some e) ops = Success (Some e') /\ good e' t.
Proof. intros Hwe Hwt Ha Hce Hct. apply (all_patches (S (depth e))); [lia|done..]. Qed.

(** C3: comparing two documents with arrays and objects in the same places
    always gives a patch, and applying it to the first, without validation,
    succeeds and gives the second up to the order of fields; the patch is empty
    exactly when the documents are already equal up to that order. *)
Theorem patch_compare e t : wf e -> wf t -> alike e t -> is_container e = true -> is_container t = true -> exists ops e',
  compare e t = Success ops /\ applyPatch false true (Some e) ops = Success (Some e') /\ same e' t /\ (ops = [] <-> same e t).
Proof.
  intros Hwe Hwt Ha Hce Hct. destruct (compare_good e t Hwe Hwt Ha Hce Hct) as (ops & e' & Ec & _ & Ep & Hs & _).
  exists ops, e'. split_and!; [done..|]. split.
  - intros ->. by injection Ep as ->.
  - intros Hst. pose proof (generate_same (S (depth e)) e t ltac:(lia) Hwe Hwt Hst Hce) as E. unfold compare in Ec. rewrite E in Ec.
    by injection Ec.
Qed.

(** ** Observers *)

Lemma patch_in_place_deep m ops m' : Forall deep ops -> applyPatch false true (Some m) ops = Success (Some m') -> patch_in_place m ops = Success m'.
Proof.
  intros Hops. revert m. induction Hops as [|o ops Ho Hops IH]; intros m E; cbn [applyPatch patch_in_place] in *; [by injection E as ->|].
  destruct (applyOperation false true (Some m) o) as [r|] eqn:Er; [|done]. cbn [try_bind] in *.
  destruct Ho as (He & k & ks & Hp). rewrite Hp, bool_decide_false by apply render_nonempty.
  destruct (apply_some o r m) as [d Hd]; [by split; [|eauto]|done|]. rewrite Hd in *. cbn. by apply IH.
Qed.

Lemma alike_same v v' w : same v v' -> alike v w -> alike v' w.
Proof.
  revert v' w. induction v as [| | | |l IH|fs IH] using json_nested_ind; intros v' w Hs Ha; inversion Hs as [| | | |? l' Hl|? fs' Hf]; subst.
  1-4: by constructor.
  - inversion Ha as [? ? Hc|? l2 Hl2|]; subst; [by apply alike_leaf|]. apply alike_arr. intros i x y Ex Ey.
    destruct (Forall2_lookup_r _ _ _ _ _ Hl Ex) as (x0 & Ex0 & Hx). rewrite Forall_forall in IH.
    eapply (IH x0); [by eapply list_elem_of_lookup_2|done|eauto].
  - inversion Ha as [? ? Hc| |? fs2 Hf2]; subst; [by apply alike_leaf|]. apply alike_obj. intros k x y Ex Ey.
    pose proof (Hf k) as Hk. rewrite Ex in Hk. inversion Hk as [x0 ? Hx E0 E1|]; subst. symmetry in E0.
    rewrite Forall_forall in IH. eapply (IH (k, x0)); [by apply get_field_in|done|eauto].
Qed.

Lemma same_sym v w : same v w -> same w v.
Proof.
  revert w. induction v as [| | | |l IH|fs IH] using json_nested_ind; intros w Hs; inversion Hs as [| | | |? l' Hl|? fs' Hf]; subst; constructor.
  - clear Hs. induction Hl as [|x y l l' Hxy Hl IHl]; constructor; inversion IH; subst; auto.
  - intros k. specialize (Hf k). rewrite Forall_forall in IH.
    destruct (get_field fs k) as [x|] eqn:E1, (get_field fs' k) as [y|]; inversion Hf; subst; constructor.
    apply (IH (k, x)); [by apply get_field_in|done].
Qed.

(** What an observer's clone and pending operations are between two
    comparisons, when its object was [v] at the last one *)
Definition observed (ob : Observer) (v : json) : Prop :=
  patches ob = [] /\ same (mirror ob) v /\ wf (mirror ob) /\ is_container (mirror ob) = true.

(** The object takes the values [vs] one after the other, with a comparison
    after each: what each leaves of the observer and the patch it returns, as it
    is when it is returned *)
Fixpoint observe_each (ob : Observer) (vs : list json) : Try (list (Observer * list operation)) :=
  match vs with
  | [] => Success []
  | v :: vs' =>
      let? r := generate_patch (assign_object v ob) in
      let? rs := observe_each (fst r) vs' in
      Success (r :: rs)
  end.

(** A document that starts as [d] and has each patch applied follows the object:
    it is equal to the object's value after each, and is the observer's clone. *)
Fixpoint follows (d : json) (vs : list json) (rs : list (Observer * list operation)) : Prop :=
  match vs, rs with
  | [], [] => True
  | v :: vs', (ob, ops) :: rs' =>
      exists d', applyPatch false true (Some d) ops = Success (Some d') /\ same d' v /\ (ops = [] <-> same d v) /\
        mirror ob = d' /\ patches ob = [] /\ follows d' vs' rs'
  | _, _ => False
  end.

(** Each value has its arrays and objects where the one before has them. *)
Fixpoint chain (v : json) (vs : list json) : Prop :=
  match vs with [] => True | w :: vs' => wf w /\ is_container w = true /\ alike v w /\ chain w vs' end.

Lemma generate_patch_ok ob v w : observed ob v -> wf w -> is_container w = true -> alike v w -> exists ob' ns,
  generate_patch (assign_object w ob) = Success (ob', ns) /\ observed ob' w /\
  applyPatch false true (Some (mirror ob)) ns = Success (Some (mirror ob')) /\ (ns = [] <-> same (mirror ob) w).
Proof.
  intros (Hn & Hs & Hm & Hc) Hw Hcw Ha. assert (alike (mirror ob) w) as Ha' by (eapply alike_same; [by apply same_sym|done]).
  destruct (compare_good (mirror ob) w Hm Hw Ha' Hc Hcw) as (ops & m & Ec & Hdeep & Ep & Hsame & Hwm).
  assert (ops = [] <-> same (mirror ob) w) as Hnil.
  { split; [intros ->; by injection Ep as ->|]. intros E. apply (generate_same (S (depth (mirror ob)))) in E; [|lia|done..].
    unfold compare in Ec. congruence. }
  unfold compare in Ec. unfold generate_patch. cbn [mirror object patches assign_object]. rewrite Ec, Hn. cbn [try_bind app].
  case_bool_decide as Eo.
  - subst ops. injection Ep as <-. eexists _, _. split; [done|]. split; [by split_and!|done].
  - rewrite (patch_in_place_deep _ _ m) by done. cbn [try_bind]. eexists _, _. split; [done|]. split; [|done].
    split_and!; [done..|]. cbn [mirror]. by rewrite (same_container _ _ Hsame).
Qed.

Lemma observed_follows ob v vs : observed ob v -> chain v vs -> exists rs, observe_each ob vs = Success rs /\ follows (mirror ob) vs rs.
Proof.
  revert ob v. induction vs as [|w vs IH]; intros ob v Hob Hch; [by exists []|].
  destruct Hch as (Hw & Hcw & Ha & Hch). destruct (generate_patch_ok ob v w Hob Hw Hcw Ha) as (ob1 & ns & E1 & Hob1 & Ep & Hnil).
  destruct (IH ob1 w Hob1 Hch) as (rs & E2 & Hf). exists ((ob1, ns) :: rs). split.
  - cbn [observe_each]. rewrite E1. cbn [try_bind fst]. by rewrite E2.
  - destruct Hob1 as (Hn & Hs & _). exists (mirror ob1). by split_and!.
Qed.

(** C9: an object is observed and takes any values, each with its arrays and
    objects where the one before has them.  Every comparison succeeds and returns
    a patch that, as it is when it is returned, takes a document that followed the
    object so far to one that is equal to the object's new value up to the order of
    fields, which is also what the observer's clone becomes; the patch is empty
    exactly when nothing changed, and nothing stays pending.  The patches are
    values here, as copies made when they are returned: the operations that the
    code returns share their values with the clone, so that later comparisons
    change them, and replaying the returned objects themselves later is not
    covered. *)
Theorem observer_replay v vs : wf v -> is_container v = true -> chain v vs -> exists rs,
  observe_each (observe v) vs = Success rs /\ follows v vs rs.
Proof. intros Hw Hc Hch. apply (observed_follows (observe v) v vs); [|done]. split_and!; [done|apply same_refl|done|done]. Qed.

(** ** Pointers *)

(** [v] is at the keys [ks] in [m]. *)
Inductive at_keys : json -> list jsstr -> json -> Prop :=
| at_here v : at_keys v [] v
| at_below m k c ks v : path_key m k -> own_value m k = Some c -> at_keys c ks v -> at_keys m (k :: ks) v.

(** [m] with [v] at the keys [ks] *)
Fixpoint put_at (m : json) (ks : list jsstr) (v : json) : json :=
  match ks with
  | [] => v
  | k :: ks' => match own_value m k with Some c => set_child m k (put_at c ks' v) | None => m end
  end.

Lemma at_put m ks v w : at_keys m ks v -> at_keys (put_at m ks w) ks w.
Proof.
  induction 1 as [v|m k c ks v Hk Ec Hat IH]; [constructor|]. cbn [put_at]. rewrite Ec.
  econstructor; [by apply set_child_key|by apply set_child_own|done].
Qed.

(** What an operation does with the value at its path *)
Definition at_leaf (o : operation) (v : json) : json * OperationResult :=
  match op o with
  | OpReplace => (default v (value o), OpResult None (Some v) None None)
  | OpTest => (v, OpResult None None (Some (equal (Some v) (value o))) None)
  | _ => (v, OpResult None None None (Some v))
  end.

Lemma run_at o m k ks v : at_keys m (k :: ks) v -> (op o = OpReplace /\ is_Some (value o)) \/ op o = OpTest \/ op o = OpGet ->
  run (k :: ks) o m = let? r := tested (at_leaf o v) in Success ((fun w => put_at m (k :: ks) w) <$> fst r, snd r).
Proof.
  intros Hat Ho. remember (k :: ks) as l eqn:El. revert k ks El. induction Hat as [v|m k c ks v Hk Ec Hat IH]; [done|].
  intros ? ? [= <- <-]. destruct ks as [|k' ks].
  - inversion Hat; subst. clear IH. assert (run [k] o m = let? r := tested (at_leaf o v) in Success ((fun w => set_child m k w) <$> fst r, snd r)) as ->.
    { destruct m as [| | | |l|fs]; try done.
      - destruct Hk as (Hl & i & Hi & ->). rewrite run_index by (unfold zlen in *; lia). unfold set_child. rewrite (index_small l), Nat2N.id by done.
        rewrite own_index_arr in Ec by done. assert (elem l (Z.of_nat i) = Some v) as Ei.
        { unfold elem. destruct (Z.ltb_spec (Z.of_nat i) 0); [lia|]. by rewrite Nat2Z.id. }
        unfold array_op, at_leaf. destruct Ho as [[-> [w ->]]|[-> | ->]]; cbn [read_array try_bind need of_option default].
        + rewrite Ei, (proj2 (Z.leb_le _ _)), (proj2 (Z.ltb_lt _ _)) by (unfold zlen; lia). cbn. by rewrite Nat2Z.id.
        + rewrite Ei. unfold tested. cbn [test fst snd]. destruct (equal (Some v) (value o)); cbn; [|done]. by rewrite list_insert_id.
        + rewrite Ei. cbn. by rewrite list_insert_id.
      - rewrite run_field by done. unfold object_op, at_leaf. cbn [own_value] in Ec. unfold read. cbn [own_value set_child].
        destruct Ho as [[-> [w ->]]|[-> | ->]]; rewrite Ec; cbn [try_bind need of_option default write].
        + cbn in Hk. rewrite (bool_decide_false (k = proto_key)) by done. done.
        + unfold tested. cbn [test fst snd]. destruct (equal (Some v) (value o)); cbn; [|done]. by rewrite put_id.
        + cbn. by rewrite put_id. }
    cbn [put_at]. by rewrite Ec.
  - rewrite (run_child m k c k' ks o Hk Ec), (IH k' ks) by done. destruct (tested (at_leaf o v)) as [[[w|] r]|] eqn:Et; cbn [try_bind fst snd fmap option_fmap option_map]; [|  |done].
    + cbn [put_at]. by rewrite Ec.
    + exfalso. unfold tested in Et. destruct (test _) as [[]|]; by cbn in Et.
Qed.

Lemma apply_at o m k ks v : at_keys m (k :: ks) v -> path o = render (k :: ks) ->
  (op o = OpReplace /\ is_Some (value o)) \/ op o = OpTest \/ op o = OpGet ->
  applyOperation false true (Some m) o = let? r := tested (at_leaf o v) in
    Success (OpResult ((fun w => put_at m (k :: ks) w) <$> fst r) (removed (snd r)) (test (snd r)) (got (snd r))).
Proof.
  intros Hat Hp Ho. pose proof (run_at o m k ks v Hat Ho) as E. unfold applyOperation, walk_path. cbn [try_bind].
  rewrite Hp, bool_decide_false, components_render by apply render_nonempty. unfold run in E. rewrite fmap_cons in *.
  destruct Ho as [[E1 _]|[E1|E1]]; rewrite E1; destruct m; rewrite E; by destruct (tested (at_leaf o v)).
Qed.

Lemma put_same m ks v : at_keys m ks v -> put_at m ks v = m.
Proof.
  induction 1 as [v|m k c ks v Hk Ec Hat IH]; [done|]. cbn [put_at]. rewrite Ec, IH. by apply set_child_same.
Qed.

Lemma pointer_get m k ks v : at_keys m (k :: ks) v -> getValueByPointer (Some m) (Some (render (k :: ks))) = Success (Some v).
Proof.
  intros Hat. pose proof (run_at (Operation OpGet (render (k :: ks)) None None) m k ks v Hat ltac:(auto)) as E.
  unfold getValueByPointer, simple_op, walk_path. rewrite bool_decide_false by (intros [=]).
  change (default [] (Some (render (k :: ks)))) with (render (k :: ks)). change (components (path _)) with (components (render (k :: ks))). rewrite components_render, fmap_cons. unfold run in E. rewrite fmap_cons in E. destruct m; by rewrite E.
Qed.

(** C21: for the path of any keys there are in a document, whatever characters
    they have: the pointer gives the value that is there; a replacement puts
    another one there, gives back the old one, and the pointer then gives the
    new; and a test changes nothing and passes exactly when the module finds
    the values equal. *)
Theorem pointer_laws m k ks v w : at_keys m (k :: ks) v ->
  let p := render (k :: ks) in
  getValueByPointer (Some m) (Some p) = Success (Some v) /\
  (exists m', applyOperation false true (Some m) (Operation OpReplace p None (Some w)) = Success (OpResult (Some m') (Some v) None None) /\
     m' = put_at m (k :: ks) w /\ getValueByPointer (Some m') (Some p) = Success (Some w)) /\
  applyOperation false true (Some m) (Operation OpTest p None (Some w)) =
    if deep_equal v w then Success (OpResult (Some m) None (Some true) None) else Failure (PatchError "TEST_OPERATION_FAILED").
Proof.
  intros Hat p. split; [by apply pointer_get|split].
  - exists (put_at m (k :: ks) w). split; [|split; [done|apply pointer_get; by eapply at_put]].
    rewrite (apply_at _ m k ks v); [done..|]. left. split; [done|]. by eexists.
  - rewrite (apply_at _ m k ks v); [|done|done|auto]. unfold tested, at_leaf. cbn [op test value fst snd equal].
    destruct (deep_equal v w); cbn [try_bind fst snd fmap option_fmap option_map removed test got]; [|done]. by rewrite put_same.
Qed.

(** ** The banned component *)

Lemma walk_proto check p o s rest m : proto_key ∈ rest -> isSuccess (walk true check p o s rest m) = false.
Proof.
  revert p s m. induction rest as [|b rest IH]; intros p s m Hin; [by apply elem_of_nil in Hin|]. cbn [walk].
  destruct (bool_decide_reflect (b = proto_key)) as [Hb|Hb]; cbn [andb]; [done|].
  apply elem_of_cons in Hin as [Hin|Hin]; [by subst|].
  rewrite (bool_decide_false (rest = [])) by (intros ->; by apply elem_of_nil in Hin).
  match goal with |- context [try_bind ?c _] => destruct c as [p'|]; cbn [try_bind]; [|done] end.
  assert (forall (x : Try (option json)) (f : option json * OperationResult -> option json * OperationResult), isSuccess (let? c := x in let? r := walk true check p' o (s ++ [b]) rest c in Success (f r)) = false) as Hx.
  { intros x f. destruct x as [c|]; cbn [try_bind]; [|done]. pose proof (IH p' (s ++ [b]) c Hin) as E. by destruct (walk _ _ _ _ _ _ c). }
  destruct m as [[| | | |l|fs]|]; try apply (Hx _ (fun r => (_, snd r))).
  destruct (array_component _ l b); cbn [try_bind]; [|done]. apply (Hx _ (fun r => (_, snd r))).
Qed.

Lemma walk_path_proto check o d : proto_key ∈ snd (components (path o)) -> isSuccess (walk_path true check o d) = false.
Proof.
  intros Hin. unfold walk_path. destruct (components (path o)) as [d0 [|c cs]]; [by apply elem_of_nil in Hin|].
  destruct d as [[]|]; by apply walk_proto.
Qed.

Lemma components_nil : components [] = ([], []).
Proof. done. Qed.

Lemma simple_proto k p v d : proto_key ∈ snd (components (default [] p)) -> isSuccess (simple_op k p v d) = false.
Proof.
  intros Hin. unfold simple_op. rewrite bool_decide_false.
  - pose proof (walk_path_proto None (Operation k (default [] p) None v) d Hin) as E. by destruct (walk_path _ _ _ d).
  - intros ->. by apply elem_of_nil in Hin.
Qed.

Lemma apply_proto validate o document :
  proto_key ∈ snd (components (path o)) \/
  (op o ∈ [OpMove; OpCopy] /\ path o <> [] /\ proto_key ∈ snd (components (default [] (from o)))) ->
  isSuccess (applyOperation validate true document o) = false.
Proof.
  intros Hp. unfold applyOperation. destruct (if validate then _ else _); cbn [try_bind]; [|done].
  destruct Hp as [Hp|(Ho & Hne & Hf)].
  - rewrite bool_decide_false by (intros E; rewrite E in Hp; by apply elem_of_nil in Hp).
    match goal with |- context [walk_path true ?c o document] => pose proof (walk_path_proto c o document Hp) as E; by destruct (walk_path true c o document) end.
  - rewrite bool_decide_false by done.
    match goal with |- context [try_bind ?c _] => destruct c as [r|]; cbn [try_bind]; [|done] end.
    assert (isSuccess (getValueByPointer document (from o)) = false) as Eget.
    { unfold getValueByPointer. pose proof (simple_proto OpGet (from o) None document Hf) as E. by destruct (simple_op OpGet _ _ _). }
    apply elem_of_cons in Ho as [-> |Ho].
    + unfold move_op. destruct (getValueByPointer document (Some (path o))); cbn [try_bind]; [|done].
      pose proof (simple_proto OpRemove (from o) None document Hf) as E. by destruct (simple_op OpRemove _ _ _).
    + apply list_elem_of_singleton in Ho as ->. unfold copy_op. by destruct (getValueByPointer document (from o)).
Qed.

(** C35: with the default flags, an operation whose path has a component
    [__proto__], or a move or copy from one, never succeeds, whatever the
    document and whether or not it is validated.  A path through an inherited
    member of another name, such as [constructor], is not refused: the operation
    is done on the builtin object it leads to. *)
Theorem proto_banned :
  (forall validate o document,
     proto_key ∈ snd (components (path o)) \/
     (op o ∈ [OpMove; OpCopy] /\ path o <> [] /\ proto_key ∈ snd (components (default [] (from o)))) ->
     isSuccess (applyOperation validate true document o) = false) /\
  (forall fs k k' v, get_field fs k = None -> inherited (JObj fs) k = true -> k <> proto_key ->
     applyOperation false true (Some (JObj fs)) (add_op (render [k; k']) v) = Failure LeavesDocument).
Proof.
  split; [exact apply_proto|]. intros fs k k' v Ek Hi Hk.
  destruct (apply_run (add_op (render [k; k']) v) k [k'] (JObj fs)) as (f & _ & ->); [by left|done|].
  unfold run. rewrite !fmap_cons. cbn [walk try_bind]. rewrite (bool_decide_false (escapePathComponent k = _)) by (by apply escape_proto).
  cbn [andb try_bind]. rewrite bool_decide_false by done. unfold read. rewrite unescape_escape. cbn [own_value]. by rewrite Ek, Hi.
Qed.
End Thms.

(** ** Documents *)

(** Objects inherit the members of Object.prototype, here constructor. *)
Definition sample_builtins : Builtins :=
  {| inherited := fun _ k => bool_decide (k = js "constructor"); toInteger := fun _ => 0%Z |}.

Definition first_document : json :=
  JObj [(js "a", JArr [JNum 1; JNum 2; JNum 3]); (js "b/~", JObj [(js "c", JNull)]); (js "7", JNum 4)].
Definition second_document : json :=
  JObj [(js "b/~", JObj [(js "c", JStr (js "x")); (js "e", JArr [])]); (js "a", JArr [JNum 1; JBool true]); (js "q", JNum 4)].
Definition third_document : json :=
  JObj [(js "a", JArr [JNum 5; JNull; JArr [JNum 6]]); (js "b/~", JStr (js "gone"))].

Lemma first_wf : wf first_document.
Proof. unfold first_document. document_tac. Qed.
Lemma second_wf : wf second_document.
Proof. unfold second_document. document_tac. Qed.
Lemma third_wf : wf third_document.
Proof. unfold third_document. document_tac. Qed.
Lemma first_second : alike first_document second_document.
Proof. unfold first_document, second_document. document_tac. Qed.
Lemma second_third : alike second_document third_document.
Proof. unfold second_document, third_document. document_tac. Qed.

Lemma third_third : alike third_document third_document.
Proof. unfold third_document. document_tac. Qed.

Lemma patch_compare_witness : exists ops e', compare first_document second_document = Success ops /\ length ops = 6 /\
  @applyPatch sample_builtins false true (Some first_document) ops = Success (Some e') /\ same e' second_document.
Proof.
  destruct (@patch_compare sample_builtins first_document second_document first_wf second_wf first_second eq_refl eq_refl)
    as (ops & e' & E & Ep & Hs & _).
  exists ops, e'. split_and!; [done| |done|done]. vm_compute in E. injection E as <-. done.
Defined.

(** The third comparison finds nothing. *)
Lemma observer_replay_witness : exists ob1 p1 ob2 p2 ob3 d1 d2,
  @observe_each sample_builtins (observe first_document) [second_document; third_document; third_document] = Success [(ob1, p1); (ob2, p2); (ob3, [])] /\
  @applyPatch sample_builtins false true (Some first_document) p1 = Success (Some d1) /\ same d1 second_document /\
  @applyPatch sample_builtins false true (Some d1) p2 = Success (Some d2) /\ same d2 third_document.
Proof.
  destruct (@observer_replay sample_builtins first_document [second_document; third_document; third_document] first_wf eq_refl) as (rs & E & Hf).
  - exact (conj second_wf (conj eq_refl (conj first_second (conj third_wf (conj eq_refl (conj second_third
      (conj third_wf (conj eq_refl (conj third_third I))))))))).
  - destruct rs as [|[ob1 p1] [|[ob2 p2] [|[ob3 p3] [|? ?]]]]; cbn [follows] in Hf; try (exfalso; naive_solver).
    destruct Hf as (d1 & E1 & S1 & _ & _ & _ & d2 & E2 & S2 & _ & _ & _ & d3 & E3 & S3 & H3 & _).
    exists ob1, p1, ob2, p2, ob3, d1, d2. split_and!; [|exact E1|exact S1|exact E2|exact S2].
    rewrite E. do 2 f_equal. vm_compute in E. injection E as _ _ _ _ _ <-. reflexivity.
Defined.

(** The path /b~1~0/c of the document's field b/~ *)
Lemma pointer_laws_witness : render [js "b/~"; js "c"] = js "/b~1~0/c" /\
  @getValueByPointer sample_builtins (Some first_document) (Some (js "/b~1~0/c")) = Success (Some JNull).
Proof.
  split; [done|]. refine (proj1 (@pointer_laws sample_builtins first_document (js "b/~") [js "c"] JNull JNull _)).
  eapply at_below; [done|reflexivity|]. eapply at_below; [done|reflexivity|]. apply at_here.
Defined.

(** /constructor/prototype/polluted leaves the document. *)
Lemma proto_banned_witness :
  isSuccess (@applyOperation sample_builtins true true (Some first_document) (add_op (js "/__proto__/polluted") JNull)) = false /\
  @applyOperation sample_builtins false true (Some first_document) (add_op (js "/constructor/polluted") JNull) = Failure LeavesDocument.
Proof.
  destruct (@proto_banned sample_builtins) as [H1 H2]. split.
  - apply H1. left. by apply (bool_decide_unpack _).
  - exact (H2 [(js "a", JArr [JNum 1; JNum 2; JNum 3]); (js "b/~", JObj [(js "c", JNull)]); (js "7", JNum 4)]
      (js "constructor") (js "polluted") JNull eq_refl eq_refl ltac:(by apply (bool_decide_unpack _))).
Defined.
