(* ===== verification/DeepEqualThms.v ===== *)
(** * DeepEqualThms: when deep-equal finds two documents equal *)

From stdpp Require Import sorting.
From S2P Require Import Prelude JsCore JsHeap JsonTree JsonPaths JsonCompare JsonCompareThms.

(** ** Sorted keys *)

#[export] Instance before_total : Total before.
Proof.
  intros s. unfold before. induction s as [|c s IH]; intros [|d t]; cbn; [by left|by left|by right|].
  destruct (N.ltb_spec c d), (N.ltb_spec d c), (N.eqb_spec c d), (N.eqb_spec d c); try lia; cbn; auto.
Qed.

#[export] Instance before_trans : Transitive before.
Proof.
  intros s. unfold before. induction s as [|c s IH]; intros [|d t] [|e u]; cbn; try done. intros H1 H2.
  apply orb_true_iff in H1, H2. apply orb_true_iff. rewrite !andb_true_iff, !N.ltb_lt, !N.eqb_eq in *.
  destruct H1 as [H1|[-> H1]], H2 as [H2|[-> H2]]; [left; lia|by left|by left|right; split; [done|by eapply IH]].
Qed.

#[export] Instance before_antisymm : AntiSymm (=) before.
Proof.
  intros s. unfold before. induction s as [|c s IH]; intros [|d t]; cbn; try done. intros H1 H2.
  apply orb_true_iff in H1, H2. rewrite !andb_true_iff, !N.ltb_lt, !N.eqb_eq in *.
  destruct H1 as [H1|[-> H1]], H2 as [H2|[E H2]]; try lia. f_equal. by apply IH.
Qed.

(** Two lists of keys sort to the same exactly when they have the same keys. *)
Lemma sort_keys_perm l1 l2 : sort_keys l1 = sort_keys l2 <-> l1 ≡ₚ l2.
Proof.
  unfold sort_keys. split; intros E.
  - by rewrite <- (merge_sort_Permutation before l1), E, merge_sort_Permutation.
  - apply (StronglySorted_unique before); [apply (StronglySorted_merge_sort _)..|].
    by rewrite !merge_sort_Permutation.
Qed.

(** ** Documents *)

(** No field [prototype] holds an array or an object, which the module would
    compare by identity. *)
Inductive no_prototype : json -> Prop :=
| np_leaf v : is_container v = false -> no_prototype v
| np_arr l : Forall no_prototype l -> no_prototype (JArr l)
| np_obj fs : (forall v, get_field fs (js "prototype") = Some v -> is_container v = false) ->
    Forall (fun kv : jsstr * json => no_prototype kv.2) fs -> no_prototype (JObj fs).

Lemma deepEqual_leaf fuel v w : is_container v && is_container w = false -> deepEqual (S fuel) v w = same_primitive v w.
Proof.
  intros Hc. cbn [deepEqual]. destruct (same_primitive v w) eqn:Es; [done|].
  destruct (truthy_json v) eqn:Ev; cbn [negb orb]; [|done]. destruct (truthy_json w) eqn:Ew; cbn [negb orb]; [|done].
  destruct (negb (is_container v) && negb (is_container w)) eqn:En; [done|].
  assert (typeof v <> typeof w) as Ht by (destruct v, w; done). rewrite (bool_decide_false (typeof v = _)) by done. by rewrite andb_false_r.
Qed.

Lemma same_leaf_iff v w : is_container v && is_container w = false -> same_primitive v w = true <-> same v w.
Proof.
  intros Hc. split; [intros [-> _]%same_primitive_eq; apply same_refl|]. intros Hs. pose proof (same_container _ _ Hs) as E.
  rewrite <- E, andb_diag in Hc. by apply same_leaf.
Qed.

Lemma deepEqual_containers fuel v w : is_container v = true -> is_container w = true -> deepEqual (S fuel) v w =
  same_prototype v w && bool_decide (object_keys v ≡ₚ object_keys w) &&
  forallb (fun k => match own_value v k, own_value w k with Some x, Some y => deepEqual fuel x y | _, _ => false end) (object_keys v).
Proof.
  intros Hv Hw. cbn [deepEqual]. assert (same_primitive v w = false) as -> by (by destruct v, w).
  assert (truthy_json v = true) as -> by (by destruct v). assert (truthy_json w = true) as -> by (by destruct w).
  rewrite Hv, Hw. cbn [negb orb andb]. rewrite (bool_decide_true (typeof v = typeof w)) by (by destruct v, w). rewrite andb_true_r.
  f_equal. f_equal. apply bool_decide_ext, sort_keys_perm.
Qed.

Lemma deepEqual_same fuel v w : depth v + depth w < fuel -> wf v -> wf w -> alike v w -> no_prototype v ->
  deepEqual fuel v w = true <-> same v w.
Proof.
  revert v w. induction fuel as [|fuel IH]; intros v w Hd Hwv Hww Ha Hnp; [lia|].
  destruct Ha as [v w Hc|xs ys Ha|fs gs Ha]; [by rewrite deepEqual_leaf, same_leaf_iff| |];
    rewrite deepEqual_containers, !andb_true_iff, bool_decide_eq_true, forallb_forall by done.
  - inversion Hwv as [| | | |? Hlx Hx|]; subst. inversion Hww as [| | | |? Hly Hy|]; subst.
    inversion Hnp as [? Hc|? Hnpx|]; subst; [done|]. rewrite Forall_forall in Hx, Hy, Hnpx. cbn [depth] in Hd.
    assert (forall i x y, xs !! i = Some x -> ys !! i = Some y -> deepEqual fuel x y = true <-> same x y) as Hi.
    { intros i x y Ex Ey. pose proof (list_elem_of_lookup_2 _ _ _ Ex) as Hxin. pose proof (list_elem_of_lookup_2 _ _ _ Ey) as Hyin.
      pose proof (depth_elem _ _ Hxin). pose proof (depth_elem _ _ Hyin). apply IH; [lia|auto..|eauto|auto]. }
    cbn [object_keys]. split.
    + intros [[_ Hp] Hall]. apply Permutation_length in Hp. rewrite !length_fmap, !length_seq in Hp. constructor. apply Forall2_same_length_lookup_2; [done|].
      intros i x y Ex Ey. apply (Hi i); [done..|]. specialize (Hall (index_str i)). pose proof (lookup_lt_Some _ _ _ Ex) as Hil.
      rewrite !own_index_arr, Ex, Ey in Hall by (done || lia). apply Hall. apply list_elem_of_In, list_elem_of_fmap. exists i. split; [done|]. apply elem_of_seq. lia.
    + intros Hs. inversion Hs as [| | | |? ? Hs2|]; subst. pose proof (Forall2_length _ _ _ Hs2) as Hlen. split_and!; [done|by rewrite Hlen|].
      intros k Hk. apply list_elem_of_In, list_elem_of_fmap in Hk as (i & -> & Hk%elem_of_seq).
      destruct (lookup_lt_is_Some_2 xs i ltac:(lia)) as [x Ex]. destruct (Forall2_lookup_l _ _ _ _ _ Hs2 Ex) as (y & Ey & Hxy).
      rewrite !own_index_arr, Ex, Ey by (done || lia). by apply (Hi i).
  - inversion Hwv as [| | | | |? Hndf Hpf Hf]; subst. inversion Hww as [| | | | |? Hndg Hpg Hg]; subst.
    inversion Hnp as [? Hc| |? Hpro Hnpx]; subst; [done|]. rewrite Forall_forall in Hf, Hg, Hnpx. cbn [depth] in Hd.
    assert (forall k x y, get_field fs k = Some x -> get_field gs k = Some y -> deepEqual fuel x y = true <-> same x y) as Hi.
    { intros k x y Ex Ey. pose proof (get_field_in _ _ _ Ex) as Hxin. pose proof (get_field_in _ _ _ Ey) as Hyin.
      pose proof (depth_field _ _ _ Ex). pose proof (depth_field _ _ _ Ey).
      apply IH; [lia|by apply (Hf (k, x))|by apply (Hg (k, y))|eauto|by apply (Hnpx (k, x))]. }
    cbn [object_keys own_value]. rewrite !field_keys_perm. split.
    + intros [[_ Hp] Hall]. constructor. intros k. destruct (get_field fs k) as [x|] eqn:Ex.
      * assert (k ∈ gs.*1) as Hkg by (rewrite <- Hp; apply get_field_some; eauto). apply get_field_some in Hkg as [y Ey]. rewrite Ey.
        constructor. apply (Hi k); [done..|]. specialize (Hall k). rewrite Ex, Ey in Hall. apply Hall.
        apply list_elem_of_In. rewrite field_keys_perm. apply get_field_some. eauto.
      * apply get_field_none in Ex. rewrite Hp in Ex. apply get_field_none in Ex. rewrite Ex. constructor.
    + intros Hs. inversion Hs as [| | | | |? ? Hs2]; subst. split_and!.
      * unfold same_prototype. cbn [own_value]. specialize (Hs2 (js "prototype")).
        destruct (get_field fs (js "prototype")) as [x|] eqn:Ex, (get_field gs (js "prototype")) as [y|]; inversion Hs2; subst; [|done].
        apply same_leaf; [done|by apply Hpro].
      * by apply same_fields_perm.
      * intros k Hk. apply list_elem_of_In in Hk. rewrite field_keys_perm in Hk. apply get_field_some in Hk as [x Ex]. specialize (Hs2 k). rewrite Ex in *.
        destruct (get_field gs k) as [y|] eqn:Ey; inversion Hs2; subst. by apply (Hi k).
Qed.

(** C34: two documents with their arrays and objects in the same places are
    found equal exactly when they are, up to the order of fields, unless a
    field [prototype] holds an array or object: such a document is not even
    equal to its copy.  An array is found equal to an object with its indices
    for fields. *)
Theorem deep_equal_exact v w : wf v -> wf w ->
  (alike v w -> no_prototype v -> deep_equal v w = true <-> same v w) /\
  (forall fs x, v = JObj fs -> get_field fs (js "prototype") = Some x -> is_container x = true -> deep_equal v w = false) /\
  (forall x, v = JArr [x] -> no_prototype x -> w = JObj [(js "0", x)] -> deep_equal v w = true).
Proof.
  intros Hv Hw. split; [|split].
  - intros Ha Hnp. apply deepEqual_same; [lia|done..].
  - intros fs x -> Ex Hc. unfold deep_equal. destruct (is_container w) eqn:Ew.
    + rewrite deepEqual_containers by done. unfold same_prototype. cbn [own_value]. rewrite Ex.
      destruct (own_value w (js "prototype")) as [y|]; [|done]. by destruct x, y.
    + rewrite deepEqual_leaf by done. by destruct w.
  - intros x -> Hnp ->. unfold deep_equal. rewrite deepEqual_containers by done. inversion Hv as [| | | |? _ Hx|]; subst. apply Forall_inv in Hx.
    assert (deepEqual (depth (JArr [x]) + depth (JObj [(js "0", x)])) x x = true) as E.
    { apply deepEqual_same; [cbn [depth foldr snd]; lia|done|done| |done|apply same_refl].
      clear. induction x as [| | | |l IH|fs IH] using json_nested_ind; try (by apply alike_leaf).
      - apply alike_arr. intros i x y Ex Ey. rewrite Ex in Ey. injection Ey as ->. rewrite Forall_forall in IH. by eapply IH, list_elem_of_lookup_2.
      - apply alike_obj. intros k x y Ex Ey. rewrite Ex in Ey. injection Ey as ->. rewrite Forall_forall in IH. by apply (IH (k, y)), get_field_in. }
    revert E. generalize (depth (JArr [x]) + depth (JObj [(js "0", x)])). intros fuel E.
    change (object_keys (JObj [(js "0", x)])) with [js "0"]. change (object_keys (JArr [x])) with [js "0"].
    rewrite bool_decide_true by done. cbn [forallb].
    change (own_value (JArr [x]) (js "0")) with (Some x). change (own_value (JObj [(js "0", x)]) (js "0")) with (Some x). cbn iota. by rewrite E.
Qed.

Lemma deep_equal_exact_witness :
  deep_equal (JArr [JNum 1]) (JObj [(js "0", JNum 1)]) = true /\
  (deep_equal first_document second_document = true <-> same first_document second_document).
Proof.
  split.
  - refine (proj2 (proj2 (deep_equal_exact (JArr [JNum 1]) (JObj [(js "0", JNum 1)]) _ _)) (JNum 1) eq_refl _ eq_refl);
      [document_tac..|by apply np_leaf].
  - refine (proj1 (deep_equal_exact first_document second_document first_wf second_wf) first_second _).
    unfold first_document. apply np_obj; [by intros v [=]|].
    repeat apply List.Forall_cons; [apply np_arr|apply np_obj; [by intros v [=]|]|by apply np_leaf|apply List.Forall_nil]; cbn [snd];
      repeat apply List.Forall_cons; try apply List.Forall_nil; by apply np_leaf.
Defined.
