(* ===== verification/JsonValidate.v ===== *)
(** * JsonValidate: what validation adds to an operation, and where it errs *)

From S2P Require Import Prelude JsCore JsHeap JsonTree JsonPatch JsonPaths JsonCompare JsonCompareThms.

(** A key that is written in a path as it is *)
Definition plain (k : jsstr) : Prop := escapePathComponent k = k.

Section Validate.
Context `{Builtins}.

Lemma defined_own m k c : own_value m k = Some c -> defined (Some m) k = Success true.
Proof. intros E. destruct m; try done; unfold defined; rewrite E; by rewrite bool_decide_true by eauto. Qed.

(** Along keys that are there, the validator is called once, with the whole
    path, and the walk is otherwise the same. *)
Lemma walk_checked f o m ks v s s' : at_keys m ks v -> ks <> [] -> Forall plain ks -> op o <> OpAdd -> f (path o) = Success tt ->
  walk true (Some f) true o s (escapePathComponent <$> ks) (Some m) = walk true None true o s' (escapePathComponent <$> ks) (Some m).
Proof.
  intros Hat. revert s s'. induction Hat as [v|m k c ks v Hk Ec Hat IH]; intros s s' Hne Hpl Ho Hf; [done|].
  apply Forall_cons in Hpl as [Hp Hpl]. rewrite fmap_cons. cbn [walk try_bind]. rewrite Hp.
  assert (k <> proto_key) as Hkp.
  { destruct m; try done. destruct Hk as (_ & i & _ & ->). intros E. pose proof (index_str_all_digits i) as Hd. by rewrite E in Hd. }
  rewrite (bool_decide_false (k = proto_key)) by done. cbn [andb]. rewrite (defined_own m k c Ec). cbn [try_bind negb].
  set (rest := escapePathComponent <$> ks) in *.
  assert ((if bool_decide (rest = []) then let? _ := f (path o) in Success false else Success true) =
    Success (negb (bool_decide (rest = [])))) as -> by (case_bool_decide; [by rewrite Hf|done]).
  cbn [try_bind]. rewrite (bool_decide_true (is_Some (Some f))) by eauto. cbn [andb].
  rewrite (bool_decide_false (op o = OpAdd)) by done. cbn [andb].
  assert (rest <> [] -> ks <> []) as Hrest by (by intros Hr ->).
  destruct m as [| | | |l|fs]; try done.
  - destruct Hk as (Hl & i & Hi & ->). assert (array_component true l (index_str i) = array_component false l (index_str i)) as ->.
    { unfold array_component. case_bool_decide; [done|]. unfold isInteger. by rewrite index_str_all_digits. }
    rewrite (bool_decide_false (is_Some None)) by (intros []; done).
    rewrite index_component by (unfold zlen in *; lia). cbn [try_bind read_array andb]. case_bool_decide as Er; [done|]. cbn [negb].
    rewrite own_index_arr in Ec by done. unfold elem. destruct (Z.ltb_spec (Z.of_nat i) 0); [lia|]. rewrite Nat2Z.id, Ec. cbn [try_bind].
    by rewrite (IH (s ++ [index_str i]) (s' ++ [index_str i])) by auto.
  - case_bool_decide as Er; [done|]. cbn [negb]. pose proof (unescape_escape k) as Hu. rewrite Hp in Hu. unfold read. rewrite Hu, Ec. cbn [try_bind].
    by rewrite (IH (s ++ [k]) (s' ++ [k])) by auto.
Qed.

Lemma render_starts k ks : indexOf slash (render (k :: ks)) = 0%Z.
Proof. done. Qed.

(** A replacement of a value that is there is validated without change,
    when no key on the path has a slash or a tilde.  With such a key validation
    looks for a field of the escaped name: it refuses a replacement of the
    field, which is there and would be replaced without validation.  So a
    patch that compare has made may fail its own validation. *)
Theorem validation_of_replace m k ks v w : at_keys m (k :: ks) v ->
  (Forall plain (k :: ks) ->
     applyOperation true true (Some m) (replace_op (render (k :: ks)) w) =
     applyOperation false true (Some m) (replace_op (render (k :: ks)) w)) /\
  (forall fs, m = JObj fs -> ks = [] -> get_field fs (escapePathComponent k) = None ->
     inherited m (escapePathComponent k) = false ->
     applyOperation true true (Some m) (replace_op (render [k]) w) = Failure (PatchError "OPERATION_PATH_UNRESOLVABLE")).
Proof.
  intros Hat. set (o := replace_op _ w). assert (validate_shape o = Success tt) as Hsh.
  { unfold validate_shape, o. cbn [op path from value replace_op]. rewrite render_starts. cbn.
    rewrite !bool_decide_false by (by intros ?%bool_decide_unpack || done). done. }
  assert (path o = render (k :: ks)) as Hpath by done. assert (op o = OpReplace) as Hop by done. split.
  - intros Hpl. unfold applyOperation. rewrite Hsh. cbn [try_bind]. rewrite Hpath, bool_decide_false by done.
    assert (walk_path true (Some (validator o (Some m))) o (Some m) = walk_path true None o (Some m)) as E; [|by rewrite E].
    assert (validator o (Some m) (path o) = Success tt) as Hv.
    { unfold validator. rewrite Hsh. cbn [try_bind]. destruct (negb _); [done|]. by rewrite Hop, bool_decide_true. }
    unfold walk_path. rewrite Hpath, components_render, fmap_cons.
    pose proof (walk_checked (validator o (Some m)) o m (k :: ks) v [[]] [[]] Hat ltac:(done) Hpl ltac:(by rewrite Hop) Hv) as E.
    rewrite fmap_cons in E. destruct m; exact E.
  - intros fs -> -> Ef Hi. fold o. unfold applyOperation. rewrite Hsh. cbn [try_bind]. rewrite Hpath, bool_decide_false by done.
    unfold walk_path. rewrite Hpath, components_render, fmap_cons. cbn [fmap list_fmap walk].
    inversion Hat as [|? ? c ? ? Hk Ec Hat']; subst. rewrite (bool_decide_false (_ = proto_key)) by (by apply escape_proto). cbn [andb].
    unfold defined. cbn [own_value]. rewrite Ef, Hi, bool_decide_false by (intros []; done). cbn [try_bind orb negb].
    unfold validator. rewrite Hsh. cbn [try_bind truthy_document negb]. rewrite Hop, Hpath, bool_decide_false by done. done.
Qed.
End Validate.

Lemma validation_of_replace_witness :
  @applyOperation sample_builtins true true (Some first_document) (replace_op (js "/b~1~0") JNull) =
    Failure (PatchError "OPERATION_PATH_UNRESOLVABLE") /\
  @applyOperation sample_builtins true true (Some first_document) (replace_op (js "/a/1") JNull) =
    @applyOperation sample_builtins false true (Some first_document) (replace_op (js "/a/1") JNull).
Proof.
  split.
  - refine (proj2 (@validation_of_replace sample_builtins first_document (js "b/~") [] (JObj [(js "c", JNull)]) JNull _) _ eq_refl eq_refl eq_refl eq_refl).
    eapply at_below; [done|reflexivity|apply at_here].
  - refine (proj1 (@validation_of_replace sample_builtins first_document (js "a") [js "1"] (JNum 2) JNull _) _).
    + eapply at_below; [done|reflexivity|]. eapply at_below; [|reflexivity|apply at_here].
      split; [by vm_compute|]. exists 1. split; [apply Nat.leb_le; reflexivity|done].
    + repeat apply List.Forall_cons; [done|done|apply List.Forall_nil].
Defined.
